(** * Local bundle adjustment of CubeSLAM (src/src/OptimizerLocal.cc)

    A shallow embedding of [Optimizer::LocalBundleAdjustment]: the window
    selection over the shared scene graph, the construction of the factor
    graph handed to g2o, the two-stage optimize / outlier schedule and the
    commit of the optimized estimates. *)

From Stdlib Require Import ZArith Lia PrimFloat.
From stdpp Require Import base option list gmap.

#[local] Set Warnings "-inexact-float".
#[local] Open Scope Z_scope.

(** ** Machine integers

    Ids are [unsigned long] (64 bit) in the scene graph and [int] (32 bit)
    in g2o: [setId(int)] and [vertex(int)] convert their argument. *)

Definition ulong (z : Z) : Z := z mod 2 ^ 64.

Definition to_int (z : Z) : Z := (z + 2 ^ 31) mod 2 ^ 32 - 2 ^ 31.

Definition INT_MAX : Z := 2 ^ 31 - 1.

(** ** Pointers into the scene graph *)

Definition KeyFramePtr := nat.
Definition MapPointPtr := nat.
Definition LandmarkPtr := nat.

(** ** Collaborator types

    [cv::Mat], [g2o::SE3Quat], [Eigen::Vector3d] and [g2o::Cuboid] with the
    conversions of [Converter] and the cuboid operations used here; their
    sources are outside this translation unit. *)

Class Geometry := {
  Mat : Type;
  SE3Quat : Type;
  Vector3d : Type;
  Cuboid : Type;
  NormalAndDepth : Type;
  toSE3Quat : Mat -> SE3Quat;
  toCvMat_SE3Quat : SE3Quat -> Mat;
  toVector3d : Mat -> Vector3d;
  toCvMat_Vector3d : Vector3d -> Mat;
  transformTo : Cuboid -> SE3Quat -> Cuboid;
  Cuboid_default : Cuboid;
  computeNormalAndDepth : Mat -> list Mat -> NormalAndDepth
}.

(** Dense Eigen matrices, row by row. *)
Definition Matrix := list (list float).

Definition Identity (n : nat) : Matrix :=
  map (fun i => map (fun j => if Nat.eqb i j then 1%float else 0%float) (seq 0 n)) (seq 0 n).

Definition scale (m : Matrix) (c : float) : Matrix :=
  map (map (fun x => PrimFloat.mul x c)) m.

Definition cwiseProduct (u v : list float) : list float :=
  zip_with PrimFloat.mul u v.

Definition asDiagonal (v : list float) : Matrix :=
  imap (fun i _ => imap (fun j x => if Nat.eqb i j then x else 0%float) v) v.

Module KeyPoint.
Record t := { pt_x : float; pt_y : float; octave : Z }.
End KeyPoint.

Module KeyFrame.
Record t `{Geometry} := {
  mnId : Z;
  mnBALocalForKF : Z;
  mnBAFixedForKF : Z;
  isBad : bool;
  GetVectorCovisibleKeyFrames : list KeyFramePtr;
  GetMapPointMatches : list (option MapPointPtr);
  GetLandmarks : list LandmarkPtr;
  landmarkMeasurements : gmap Z Cuboid;
  cam_pose_Twc : SE3Quat;
  GetPose : Mat;
  mvKeysUn : list KeyPoint.t;
  mvuRight : list float;
  mvInvLevelSigma2 : list float;
  fx : float; fy : float; cx : float; cy : float; mbf : float
}.

Section Setters.
Context `{Geometry}.

Definition set_mnBALocalForKF (v : Z) (k : t) : t :=
  {| mnId := mnId k; mnBALocalForKF := v; mnBAFixedForKF := mnBAFixedForKF k;
     isBad := isBad k;
     GetVectorCovisibleKeyFrames := GetVectorCovisibleKeyFrames k;
     GetMapPointMatches := GetMapPointMatches k;
     GetLandmarks := GetLandmarks k;
     landmarkMeasurements := landmarkMeasurements k;
     cam_pose_Twc := cam_pose_Twc k; GetPose := GetPose k;
     mvKeysUn := mvKeysUn k; mvuRight := mvuRight k;
     mvInvLevelSigma2 := mvInvLevelSigma2 k;
     fx := fx k; fy := fy k; cx := cx k; cy := cy k; mbf := mbf k |}.

Definition set_mnBAFixedForKF (v : Z) (k : t) : t :=
  {| mnId := mnId k; mnBALocalForKF := mnBALocalForKF k; mnBAFixedForKF := v;
     isBad := isBad k;
     GetVectorCovisibleKeyFrames := GetVectorCovisibleKeyFrames k;
     GetMapPointMatches := GetMapPointMatches k;
     GetLandmarks := GetLandmarks k;
     landmarkMeasurements := landmarkMeasurements k;
     cam_pose_Twc := cam_pose_Twc k; GetPose := GetPose k;
     mvKeysUn := mvKeysUn k; mvuRight := mvuRight k;
     mvInvLevelSigma2 := mvInvLevelSigma2 k;
     fx := fx k; fy := fy k; cx := cx k; cy := cy k; mbf := mbf k |}.

Definition set_landmarkMeasurements (m : gmap Z Cuboid) (k : t) : t :=
  {| mnId := mnId k; mnBALocalForKF := mnBALocalForKF k;
     mnBAFixedForKF := mnBAFixedForKF k; isBad := isBad k;
     GetVectorCovisibleKeyFrames := GetVectorCovisibleKeyFrames k;
     GetMapPointMatches := GetMapPointMatches k;
     GetLandmarks := GetLandmarks k;
     landmarkMeasurements := m;
     cam_pose_Twc := cam_pose_Twc k; GetPose := GetPose k;
     mvKeysUn := mvKeysUn k; mvuRight := mvuRight k;
     mvInvLevelSigma2 := mvInvLevelSigma2 k;
     fx := fx k; fy := fy k; cx := cx k; cy := cy k; mbf := mbf k |}.

(** Modelled from the spec: [KeyFrame::SetPose] (KeyFrame.cc is not part
    of the sources at hand) stores the optimized pose, the pose
    [GetPose] returns. *)
Definition SetPose (Tcw : Mat) (k : t) : t :=
  {| mnId := mnId k; mnBALocalForKF := mnBALocalForKF k;
     mnBAFixedForKF := mnBAFixedForKF k; isBad := isBad k;
     GetVectorCovisibleKeyFrames := GetVectorCovisibleKeyFrames k;
     GetMapPointMatches := GetMapPointMatches k;
     GetLandmarks := GetLandmarks k;
     landmarkMeasurements := landmarkMeasurements k;
     cam_pose_Twc := cam_pose_Twc k; GetPose := Tcw;
     mvKeysUn := mvKeysUn k; mvuRight := mvuRight k;
     mvInvLevelSigma2 := mvInvLevelSigma2 k;
     fx := fx k; fy := fy k; cx := cx k; cy := cy k; mbf := mbf k |}.

(** Modelled from the spec: [KeyFrame::EraseMapPointMatch] removes the
    MapPoint from the KeyFrame's point-match table (the slot becomes
    null). *)
Definition EraseMapPointMatch (pMP : MapPointPtr) (k : t) : t :=
  {| mnId := mnId k; mnBALocalForKF := mnBALocalForKF k;
     mnBAFixedForKF := mnBAFixedForKF k; isBad := isBad k;
     GetVectorCovisibleKeyFrames := GetVectorCovisibleKeyFrames k;
     GetMapPointMatches :=
       map (fun m => if decide (m = Some pMP) then None else m)
           (GetMapPointMatches k);
     GetLandmarks := GetLandmarks k;
     landmarkMeasurements := landmarkMeasurements k;
     cam_pose_Twc := cam_pose_Twc k; GetPose := GetPose k;
     mvKeysUn := mvKeysUn k; mvuRight := mvuRight k;
     mvInvLevelSigma2 := mvInvLevelSigma2 k;
     fx := fx k; fy := fy k; cx := cx k; cy := cy k; mbf := mbf k |}.
End Setters.
End KeyFrame.

Module MapPoint.
Record t `{Geometry} := {
  mnId : Z;
  mnBALocalForKF : Z;
  isBad : bool;
  GetWorldPos : Mat;
  GetObservations : list (KeyFramePtr * nat);
  mNormalAndDepth : NormalAndDepth
}.

Section Setters.
Context `{Geometry}.

Definition set_mnBALocalForKF (v : Z) (p : t) : t :=
  {| mnId := mnId p; mnBALocalForKF := v; isBad := isBad p;
     GetWorldPos := GetWorldPos p; GetObservations := GetObservations p;
     mNormalAndDepth := mNormalAndDepth p |}.

(** Modelled from the spec: [MapPoint::SetWorldPos] stores the 3-D
    position. *)
Definition SetWorldPos (pos : Mat) (p : t) : t :=
  {| mnId := mnId p; mnBALocalForKF := mnBALocalForKF p; isBad := isBad p;
     GetWorldPos := pos; GetObservations := GetObservations p;
     mNormalAndDepth := mNormalAndDepth p |}.

(** Modelled from the spec: [MapPoint::EraseObservation] removes the
    KeyFrame from the MapPoint's observation set. *)
Definition EraseObservation (pKF : KeyFramePtr) (p : t) : t :=
  {| mnId := mnId p; mnBALocalForKF := mnBALocalForKF p; isBad := isBad p;
     GetWorldPos := GetWorldPos p;
     GetObservations :=
       filter (fun o => o.1 <> pKF) (GetObservations p);
     mNormalAndDepth := mNormalAndDepth p |}.

Definition set_mNormalAndDepth (nd : NormalAndDepth) (p : t) : t :=
  {| mnId := mnId p; mnBALocalForKF := mnBALocalForKF p; isBad := isBad p;
     GetWorldPos := GetWorldPos p; GetObservations := GetObservations p;
     mNormalAndDepth := nd |}.
End Setters.
End MapPoint.

Module Landmark.
Record t `{Geometry} := {
  mnLandmarkId : Z;
  mQuality : float;
  GetCuboid : Cuboid
}.

(** Modelled from the spec: [Landmark::SetPoseAndDimension] stores the
    optimized cuboid pose and extent. *)
Definition SetPoseAndDimension `{Geometry} (c : Cuboid) (l : t) : t :=
  {| mnLandmarkId := mnLandmarkId l; mQuality := mQuality l; GetCuboid := c |}.
End Landmark.

(** ** The scene graph: a store of KeyFrames, MapPoints and Landmarks *)

Record SceneGraph `{Geometry} := {
  keyframes : KeyFramePtr -> KeyFrame.t;
  mappoints : MapPointPtr -> MapPoint.t;
  landmarks : LandmarkPtr -> Landmark.t
}.

Section Store.
Context `{Geometry}.

Definition upd {A} (p : nat) (f : A -> A) (m : nat -> A) : nat -> A :=
  fun q => if decide (q = p) then f (m p) else m q.

Definition update_keyframe (p : KeyFramePtr) (f : KeyFrame.t -> KeyFrame.t)
    (s : SceneGraph) : SceneGraph :=
  {| keyframes := upd p f (keyframes s); mappoints := mappoints s;
     landmarks := landmarks s |}.

Definition update_mappoint (p : MapPointPtr) (f : MapPoint.t -> MapPoint.t)
    (s : SceneGraph) : SceneGraph :=
  {| keyframes := keyframes s; mappoints := upd p f (mappoints s);
     landmarks := landmarks s |}.

Definition update_landmark (p : LandmarkPtr) (f : Landmark.t -> Landmark.t)
    (s : SceneGraph) : SceneGraph :=
  {| keyframes := keyframes s; mappoints := mappoints s;
     landmarks := upd p f (landmarks s) |}.
End Store.

(** ** The g2o factor graph

    [g2o::SparseOptimizer] keeps its vertices in a map keyed by the [int] id:
    [addVertex] refuses a vertex whose id is already registered and
    [vertex(id)] returns null for an id that is not. A vertex pointer is
    modelled by the id it is registered under. *)

Inductive VertexEstimate `{Geometry} :=
| VertexSE3Expmap (q : SE3Quat)
| VertexCuboid (c : Cuboid)
| VertexSBAPointXYZ (p : Vector3d).

Record Vertex `{Geometry} := {
  estimate : VertexEstimate;
  fixed : bool;
  marginalized : bool
}.

(** The Huber deltas [sqrtf(5.991f)] and [sqrtf(7.815f)] are single-precision
    values; they are kept symbolic. *)
Inductive HuberDelta := thHuberMono | thHuberStereo.

Record RobustKernelHuber := { delta : HuberDelta }.

Module EdgeSE3ProjectXYZ.
Record t := {
  vertex0 : option Z;
  vertex1 : option Z;
  measurement : float * float;
  information : Matrix;
  robustKernel : option RobustKernelHuber;
  level : Z;
  fx : float; fy : float; cx : float; cy : float
}.

Definition setLevel (l : Z) (e : t) : t :=
  {| vertex0 := vertex0 e; vertex1 := vertex1 e; measurement := measurement e;
     information := information e; robustKernel := robustKernel e; level := l;
     fx := fx e; fy := fy e; cx := cx e; cy := cy e |}.

Definition setRobustKernel (rk : option RobustKernelHuber) (e : t) : t :=
  {| vertex0 := vertex0 e; vertex1 := vertex1 e; measurement := measurement e;
     information := information e; robustKernel := rk; level := level e;
     fx := fx e; fy := fy e; cx := cx e; cy := cy e |}.
End EdgeSE3ProjectXYZ.

Module EdgeStereoSE3ProjectXYZ.
Record t := {
  vertex0 : option Z;
  vertex1 : option Z;
  measurement : float * float * float;
  information : Matrix;
  robustKernel : option RobustKernelHuber;
  level : Z;
  fx : float; fy : float; cx : float; cy : float; bf : float
}.

Definition setLevel (l : Z) (e : t) : t :=
  {| vertex0 := vertex0 e; vertex1 := vertex1 e; measurement := measurement e;
     information := information e; robustKernel := robustKernel e; level := l;
     fx := fx e; fy := fy e; cx := cx e; cy := cy e; bf := bf e |}.

Definition setRobustKernel (rk : option RobustKernelHuber) (e : t) : t :=
  {| vertex0 := vertex0 e; vertex1 := vertex1 e; measurement := measurement e;
     information := information e; robustKernel := rk; level := level e;
     fx := fx e; fy := fy e; cx := cx e; cy := cy e; bf := bf e |}.
End EdgeStereoSE3ProjectXYZ.

Module EdgeSE3Cuboid.
Record t `{Geometry} := {
  vertex0 : option Z;
  vertex1 : option Z;
  measurement : Cuboid;
  information : Matrix
}.
End EdgeSE3Cuboid.

(** The optimizer together with the bookkeeping vectors of the procedure.
    [vpEdgesMono] and [vpEdgesStereo] hold the very edge objects that were
    added to the optimizer, so one list stands for both. *)
Record SparseOptimizer `{Geometry} := {
  vertices : gmap Z Vertex;
  vpEdgesMono : list EdgeSE3ProjectXYZ.t;
  vpEdgeKFMono : list KeyFramePtr;
  vpMapPointEdgeMono : list MapPointPtr;
  vpEdgesStereo : list EdgeStereoSE3ProjectXYZ.t;
  vpEdgeKFStereo : list KeyFramePtr;
  vpMapPointEdgeStereo : list MapPointPtr;
  edgesCuboid : list EdgeSE3Cuboid.t
}.

Section Optimizer.
Context `{Geometry}.

Definition empty_optimizer : SparseOptimizer :=
  {| vertices := ∅; vpEdgesMono := []; vpEdgeKFMono := [];
     vpMapPointEdgeMono := []; vpEdgesStereo := []; vpEdgeKFStereo := [];
     vpMapPointEdgeStereo := []; edgesCuboid := [] |}.

Definition set_vertices (vs : gmap Z Vertex) (o : SparseOptimizer) : SparseOptimizer :=
  {| vertices := vs; vpEdgesMono := vpEdgesMono o; vpEdgeKFMono := vpEdgeKFMono o;
     vpMapPointEdgeMono := vpMapPointEdgeMono o; vpEdgesStereo := vpEdgesStereo o;
     vpEdgeKFStereo := vpEdgeKFStereo o;
     vpMapPointEdgeStereo := vpMapPointEdgeStereo o; edgesCuboid := edgesCuboid o |}.

Definition set_vpEdgesMono (es : list EdgeSE3ProjectXYZ.t) (o : SparseOptimizer)
    : SparseOptimizer :=
  {| vertices := vertices o; vpEdgesMono := es; vpEdgeKFMono := vpEdgeKFMono o;
     vpMapPointEdgeMono := vpMapPointEdgeMono o; vpEdgesStereo := vpEdgesStereo o;
     vpEdgeKFStereo := vpEdgeKFStereo o;
     vpMapPointEdgeStereo := vpMapPointEdgeStereo o; edgesCuboid := edgesCuboid o |}.

Definition set_vpEdgesStereo (es : list EdgeStereoSE3ProjectXYZ.t) (o : SparseOptimizer)
    : SparseOptimizer :=
  {| vertices := vertices o; vpEdgesMono := vpEdgesMono o; vpEdgeKFMono := vpEdgeKFMono o;
     vpMapPointEdgeMono := vpMapPointEdgeMono o; vpEdgesStereo := es;
     vpEdgeKFStereo := vpEdgeKFStereo o;
     vpMapPointEdgeStereo := vpMapPointEdgeStereo o; edgesCuboid := edgesCuboid o |}.

Definition addVertex (id : Z) (v : Vertex) (o : SparseOptimizer) : SparseOptimizer :=
  match vertices o !! id with
  | Some _ => o
  | None => set_vertices (<[id := v]> (vertices o)) o
  end.

Definition vertex (o : SparseOptimizer) (id : Z) : option Z :=
  match vertices o !! id with
  | Some _ => Some id
  | None => None
  end.

(** The three [push_back]s that follow [addEdge] of a monocular factor. *)
Definition addEdgeMono (e : EdgeSE3ProjectXYZ.t) (pKFi : KeyFramePtr)
    (pMP : MapPointPtr) (o : SparseOptimizer) : SparseOptimizer :=
  {| vertices := vertices o; vpEdgesMono := vpEdgesMono o ++ [e];
     vpEdgeKFMono := vpEdgeKFMono o ++ [pKFi];
     vpMapPointEdgeMono := vpMapPointEdgeMono o ++ [pMP];
     vpEdgesStereo := vpEdgesStereo o; vpEdgeKFStereo := vpEdgeKFStereo o;
     vpMapPointEdgeStereo := vpMapPointEdgeStereo o; edgesCuboid := edgesCuboid o |}.

Definition addEdgeStereo (e : EdgeStereoSE3ProjectXYZ.t) (pKFi : KeyFramePtr)
    (pMP : MapPointPtr) (o : SparseOptimizer) : SparseOptimizer :=
  {| vertices := vertices o; vpEdgesMono := vpEdgesMono o;
     vpEdgeKFMono := vpEdgeKFMono o; vpMapPointEdgeMono := vpMapPointEdgeMono o;
     vpEdgesStereo := vpEdgesStereo o ++ [e];
     vpEdgeKFStereo := vpEdgeKFStereo o ++ [pKFi];
     vpMapPointEdgeStereo := vpMapPointEdgeStereo o ++ [pMP];
     edgesCuboid := edgesCuboid o |}.

Definition addEdgeCuboid (e : EdgeSE3Cuboid.t) (o : SparseOptimizer) : SparseOptimizer :=
  {| vertices := vertices o; vpEdgesMono := vpEdgesMono o;
     vpEdgeKFMono := vpEdgeKFMono o; vpMapPointEdgeMono := vpMapPointEdgeMono o;
     vpEdgesStereo := vpEdgesStereo o; vpEdgeKFStereo := vpEdgeKFStereo o;
     vpMapPointEdgeStereo := vpMapPointEdgeStereo o;
     edgesCuboid := edgesCuboid o ++ [e] |}.
End Optimizer.

(** [pbStopFlag] points to a flag another thread may raise at any time; the
    procedure reads it twice. A null [pbStopFlag] is [None]. *)
Record StopFlag := {
  before_first_optimize : bool;
  after_first_optimize : bool
}.

Definition stop_requested (pbStopFlag : option StopFlag) (read : StopFlag -> bool) : bool :=
  match pbStopFlag with
  | Some f => read f
  | None => false
  end.

(** The solver engine: [optimize], run from a level for a number of
    iterations on the optimizer and the stop flag given to it at line 96,
    returns the vertices with their new estimates; [chi2] and
    [isDepthPositive] are read off a factor and the current estimates. *)
Class Solver `{Geometry} := {
  optimize : option StopFlag -> Z -> Z -> SparseOptimizer -> gmap Z Vertex;
  chi2_mono : gmap Z Vertex -> EdgeSE3ProjectXYZ.t -> float;
  isDepthPositive_mono : gmap Z Vertex -> EdgeSE3ProjectXYZ.t -> bool;
  chi2_stereo : gmap Z Vertex -> EdgeStereoSE3ProjectXYZ.t -> float;
  isDepthPositive_stereo : gmap Z Vertex -> EdgeStereoSE3ProjectXYZ.t -> bool
}.

(** ** Window selection (lines 43-83) *)

Section WindowSelection.
Context `{Geometry}.

(** [id] is [pKF->mnId], which nothing in the procedure writes. *)
Definition stamp_neighbour (id : Z) (acc : list KeyFramePtr * SceneGraph)
    (pKFi : KeyFramePtr) : list KeyFramePtr * SceneGraph :=
  let s := update_keyframe pKFi (KeyFrame.set_mnBALocalForKF id) acc.2 in
  (if KeyFrame.isBad (keyframes s pKFi) then acc.1 else acc.1 ++ [pKFi], s).

Definition SelectLocalKeyFrames (pKF : KeyFramePtr) (s : SceneGraph)
    : list KeyFramePtr * SceneGraph :=
  let id := KeyFrame.mnId (keyframes s pKF) in
  let s0 := update_keyframe pKF (KeyFrame.set_mnBALocalForKF id) s in
  let vNeighKFs := KeyFrame.GetVectorCovisibleKeyFrames (keyframes s0 pKF) in
  fold_left (stamp_neighbour id) vNeighKFs ([pKF], s0).

Definition visit_match (id : Z) (acc : list MapPointPtr * SceneGraph)
    (m : option MapPointPtr) : list MapPointPtr * SceneGraph :=
  match m with
  | None => acc
  | Some pMP =>
      if MapPoint.isBad (mappoints acc.2 pMP) then acc
      else if MapPoint.mnBALocalForKF (mappoints acc.2 pMP) =? id then acc
      else (acc.1 ++ [pMP],
            update_mappoint pMP (MapPoint.set_mnBALocalForKF id) acc.2)
  end.

Definition SelectLocalMapPoints (id : Z) (lLocalKeyFrames : list KeyFramePtr)
    (s : SceneGraph) : list MapPointPtr * SceneGraph :=
  fold_left
    (fun acc pKFi =>
       fold_left (visit_match id)
         (KeyFrame.GetMapPointMatches (keyframes acc.2 pKFi)) acc)
    lLocalKeyFrames ([], s).

Definition visit_observer (id : Z) (acc : list KeyFramePtr * SceneGraph)
    (observation : KeyFramePtr * nat) : list KeyFramePtr * SceneGraph :=
  let pKFi := observation.1 in
  let k := keyframes acc.2 pKFi in
  if negb (KeyFrame.mnBALocalForKF k =? id) && negb (KeyFrame.mnBAFixedForKF k =? id)
  then
    let s := update_keyframe pKFi (KeyFrame.set_mnBAFixedForKF id) acc.2 in
    (if KeyFrame.isBad (keyframes s pKFi) then acc.1 else acc.1 ++ [pKFi], s)
  else acc.

Definition SelectFixedCameras (id : Z) (lLocalMapPoints : list MapPointPtr)
    (s : SceneGraph) : list KeyFramePtr * SceneGraph :=
  fold_left
    (fun acc pMP =>
       fold_left (visit_observer id)
         (MapPoint.GetObservations (mappoints acc.2 pMP)) acc)
    lLocalMapPoints ([], s).
End WindowSelection.

Record Window := {
  lLocalKeyFrames : list KeyFramePtr;
  lLocalMapPoints : list MapPointPtr;
  lFixedCameras : list KeyFramePtr
}.

Definition SelectWindow `{Geometry} (pKF : KeyFramePtr) (s : SceneGraph)
    : Window * SceneGraph :=
  let id := KeyFrame.mnId (keyframes s pKF) in
  let kfs := SelectLocalKeyFrames pKF s in
  let mps := SelectLocalMapPoints id kfs.1 kfs.2 in
  let fixed := SelectFixedCameras id mps.1 mps.2 in
  ({| lLocalKeyFrames := kfs.1; lLocalMapPoints := mps.1; lFixedCameras := fixed.1 |},
   fixed.2).

(** ** Outcomes

    A run either goes on ([Ok]) or leaves defined behaviour ([Fault]): it
    dereferences a null pointer or reads a vector out of range. The model
    ends the run there and says nothing of what a machine does past that
    point; both outcomes carry the scene graph as it stands then. *)

Inductive Outcome `{Geometry} (A : Type) :=
| Ok (a : A) (s : SceneGraph)
| Fault (s : SceneGraph).

Arguments Ok {_ _} a s.
Arguments Fault {_ _} s.

Definition scene_of `{Geometry} {A} (r : Outcome A) : SceneGraph :=
  match r with Ok _ s => s | Fault s => s end.

Fixpoint foldM `{Geometry} {A B} (f : A -> B -> SceneGraph -> Outcome A)
    (l : list B) (a : A) (s : SceneGraph) : Outcome A :=
  match l with
  | [] => Ok a s
  | b :: l' =>
      match f a b s with
      | Ok a' s' => foldM f l' a' s'
      | Fault s' => Fault s'
      end
  end.

(** ** Factor graph construction (lines 98-255) *)

Record Locals `{Geometry} := {
  optimizer : SparseOptimizer;
  lLocalLandmarks : list LandmarkPtr;
  maxKFId : Z;
  maxLandmarkId : Z
}.

Section GraphBuilder.
Context `{Geometry}.

(** [std::vector::operator[]] with an [int] or [size_t] index. The
    operator checks nothing: an index out of range is undefined
    behaviour, which is [None] here. *)
Definition vector_at {A} (v : list A) (i : Z) : option A :=
  if i <? 0 then None else v !! Z.to_nat i.

(** [unordered_set::insert]. The set is walked in an order the library
    does not specify (lines 129 and 360); the list keeps the order of
    insertion, which is one of them. *)
Definition insert_landmark (p : LandmarkPtr) (ls : list LandmarkPtr)
    : list LandmarkPtr :=
  if decide (p ∈ ls) then ls else ls ++ [p].

Definition cache_landmark (pKFi : KeyFramePtr)
    (acc : list LandmarkPtr * SceneGraph) (pLandmark : LandmarkPtr)
    : list LandmarkPtr * SceneGraph :=
  let lm := landmarks acc.2 pLandmark in
  (insert_landmark pLandmark acc.1,
   update_keyframe pKFi
     (fun k => KeyFrame.set_landmarkMeasurements
        (<[Landmark.mnLandmarkId lm :=
             transformTo (Landmark.GetCuboid lm) (KeyFrame.cam_pose_Twc k)]>
           (KeyFrame.landmarkMeasurements k)) k)
     acc.2).

Definition local_keyframe_vertex (k : KeyFrame.t) : Vertex :=
  {| estimate := VertexSE3Expmap (toSE3Quat (KeyFrame.GetPose k));
     fixed := (KeyFrame.mnId k =? 0); marginalized := false |}.

Definition add_local_keyframe (st : Locals * SceneGraph) (pKFi : KeyFramePtr)
    : Locals * SceneGraph :=
  let c := fold_left (cache_landmark pKFi)
             (KeyFrame.GetLandmarks (keyframes st.2 pKFi))
             (lLocalLandmarks st.1, st.2) in
  let k := keyframes c.2 pKFi in
  ({| optimizer :=
        addVertex (to_int (KeyFrame.mnId k)) (local_keyframe_vertex k)
          (optimizer st.1);
      lLocalLandmarks := c.1;
      maxKFId := if KeyFrame.mnId k >? maxKFId st.1 then KeyFrame.mnId k
                 else maxKFId st.1;
      maxLandmarkId := maxLandmarkId st.1 |}, c.2).

Definition fixed_keyframe_vertex (k : KeyFrame.t) : Vertex :=
  {| estimate := VertexSE3Expmap (toSE3Quat (KeyFrame.GetPose k));
     fixed := true; marginalized := false |}.

Definition add_fixed_keyframe (s : SceneGraph) (l : Locals) (pKFi : KeyFramePtr)
    : Locals :=
  let k := keyframes s pKFi in
  {| optimizer :=
       addVertex (to_int (KeyFrame.mnId k)) (fixed_keyframe_vertex k) (optimizer l);
     lLocalLandmarks := lLocalLandmarks l;
     maxKFId := if KeyFrame.mnId k >? maxKFId l then KeyFrame.mnId k else maxKFId l;
     maxLandmarkId := maxLandmarkId l |}.

Definition landmark_vertex_id (maxKFId : Z) (lm : Landmark.t) : Z :=
  to_int (ulong (maxKFId + 1 + Landmark.mnLandmarkId lm)).

Definition landmark_vertex (lm : Landmark.t) : Vertex :=
  {| estimate := VertexCuboid (Landmark.GetCuboid lm);
     fixed := false; marginalized := false |}.

Definition add_landmark (s : SceneGraph) (l : Locals) (pLandmark : LandmarkPtr)
    : Locals :=
  let lm := landmarks s pLandmark in
  {| optimizer :=
       addVertex (landmark_vertex_id (maxKFId l) lm) (landmark_vertex lm)
         (optimizer l);
     lLocalLandmarks := lLocalLandmarks l;
     maxKFId := maxKFId l;
     maxLandmarkId :=
       if Landmark.mnLandmarkId lm >? maxLandmarkId l
       then Landmark.mnLandmarkId lm else maxLandmarkId l |}.

(** The id given to a MapPoint's vertex at line 167. *)
Definition point_vertex_id (maxKFId maxLandmarkId : Z) (p : MapPoint.t) : Z :=
  to_int (ulong (MapPoint.mnId p + maxKFId + maxLandmarkId + 2)).

Definition point_vertex (p : MapPoint.t) : Vertex :=
  {| estimate := VertexSBAPointXYZ (toVector3d (MapPoint.GetWorldPos p));
     fixed := false; marginalized := true |}.

(** [pKFi->landmarkMeasurements[id]] as an rvalue: [operator[]] inserts a
    default-constructed cuboid under a key that is absent. *)
Definition read_landmarkMeasurement (pKFi : KeyFramePtr) (lid : Z)
    (s : SceneGraph) : Cuboid * SceneGraph :=
  match KeyFrame.landmarkMeasurements (keyframes s pKFi) !! lid with
  | Some c => (c, s)
  | None =>
      (Cuboid_default,
       update_keyframe pKFi
         (fun k => KeyFrame.set_landmarkMeasurements
            (<[lid := Cuboid_default]> (KeyFrame.landmarkMeasurements k)) k) s)
  end.

Definition cuboid_information (mQuality : float) : Matrix :=
  let inv_sigma :=
    map (fun x => PrimFloat.mul (PrimFloat.mul x 2.0%float) mQuality)
        (replicate 9 1%float) in
  asDiagonal (cwiseProduct inv_sigma inv_sigma).

Definition add_cuboid_edge (maxKFId : Z) (pKFi : KeyFramePtr)
    (acc : SparseOptimizer * SceneGraph) (pLandmark : LandmarkPtr)
    : SparseOptimizer * SceneGraph :=
  let lm := landmarks acc.2 pLandmark in
  let m := read_landmarkMeasurement pKFi (Landmark.mnLandmarkId lm) acc.2 in
  (addEdgeCuboid
     {| EdgeSE3Cuboid.vertex0 :=
          vertex acc.1 (to_int (KeyFrame.mnId (keyframes acc.2 pKFi)));
        EdgeSE3Cuboid.vertex1 := vertex acc.1 (landmark_vertex_id maxKFId lm);
        EdgeSE3Cuboid.measurement := m.1;
        EdgeSE3Cuboid.information := cuboid_information (Landmark.mQuality lm) |}
     acc.1,
   m.2).

Definition mono_edge (o : SparseOptimizer) (id : Z) (k : KeyFrame.t)
    (kpUn : KeyPoint.t) (invSigma2 : float) : EdgeSE3ProjectXYZ.t :=
  {| EdgeSE3ProjectXYZ.vertex0 := vertex o id;
     EdgeSE3ProjectXYZ.vertex1 := vertex o (to_int (KeyFrame.mnId k));
     EdgeSE3ProjectXYZ.measurement := (KeyPoint.pt_x kpUn, KeyPoint.pt_y kpUn);
     EdgeSE3ProjectXYZ.information := scale (Identity 2) invSigma2;
     EdgeSE3ProjectXYZ.robustKernel := Some {| delta := thHuberMono |};
     EdgeSE3ProjectXYZ.level := 0;
     EdgeSE3ProjectXYZ.fx := KeyFrame.fx k; EdgeSE3ProjectXYZ.fy := KeyFrame.fy k;
     EdgeSE3ProjectXYZ.cx := KeyFrame.cx k; EdgeSE3ProjectXYZ.cy := KeyFrame.cy k |}.

Definition stereo_edge (o : SparseOptimizer) (id : Z) (k : KeyFrame.t)
    (kpUn : KeyPoint.t) (kp_ur : float) (invSigma2 : float)
    : EdgeStereoSE3ProjectXYZ.t :=
  {| EdgeStereoSE3ProjectXYZ.vertex0 := vertex o id;
     EdgeStereoSE3ProjectXYZ.vertex1 := vertex o (to_int (KeyFrame.mnId k));
     EdgeStereoSE3ProjectXYZ.measurement :=
       (KeyPoint.pt_x kpUn, KeyPoint.pt_y kpUn, kp_ur);
     EdgeStereoSE3ProjectXYZ.information := scale (Identity 3) invSigma2;
     EdgeStereoSE3ProjectXYZ.robustKernel := Some {| delta := thHuberStereo |};
     EdgeStereoSE3ProjectXYZ.level := 0;
     EdgeStereoSE3ProjectXYZ.fx := KeyFrame.fx k;
     EdgeStereoSE3ProjectXYZ.fy := KeyFrame.fy k;
     EdgeStereoSE3ProjectXYZ.cx := KeyFrame.cx k;
     EdgeStereoSE3ProjectXYZ.cy := KeyFrame.cy k;
     EdgeStereoSE3ProjectXYZ.bf := KeyFrame.mbf k |}.

(** One turn of the loop over the observations of [pMP] (lines 175-254). *)
Definition add_observation (maxKFId id : Z) (pMP : MapPointPtr)
    (o : SparseOptimizer) (observation : KeyFramePtr * nat) (s : SceneGraph)
    : Outcome SparseOptimizer :=
  let pKFi := observation.1 in
  let k := keyframes s pKFi in
  if KeyFrame.isBad k then Ok o s
  else
    match KeyFrame.mvKeysUn k !! observation.2, KeyFrame.mvuRight k !! observation.2 with
    | Some kpUn, Some ur =>
        match vector_at (KeyFrame.mvInvLevelSigma2 k) (KeyPoint.octave kpUn) with
        | Some invSigma2 =>
            if PrimFloat.ltb ur 0%float then
              let o1 := addEdgeMono (mono_edge o id k kpUn invSigma2) pKFi pMP o in
              let r := fold_left (add_cuboid_edge maxKFId pKFi)
                         (KeyFrame.GetLandmarks k) (o1, s) in
              Ok r.1 r.2
            else
              Ok (addEdgeStereo (stereo_edge o id k kpUn ur invSigma2) pKFi pMP o) s
        | None => Fault s
        end
    | _, _ => Fault s
    end.

Definition add_mappoint (maxKFId maxLandmarkId : Z) (o : SparseOptimizer)
    (pMP : MapPointPtr) (s : SceneGraph) : Outcome SparseOptimizer :=
  let p := mappoints s pMP in
  let id := point_vertex_id maxKFId maxLandmarkId p in
  foldM (add_observation maxKFId id pMP) (MapPoint.GetObservations p)
    (addVertex id (point_vertex p) o) s.

(** The locals at line 98: an empty optimizer and both maxima at 0. *)
Definition locals0 : Locals :=
  {| optimizer := empty_optimizer; lLocalLandmarks := [];
     maxKFId := 0; maxLandmarkId := 0 |}.

(** The three loops that create pose and cuboid vertices (lines 100-138);
    the [reserve] calls of lines 141-159 have no effect on values. *)
Definition BuildVertices (w : Window) (s : SceneGraph) : Locals * SceneGraph :=
  let a := fold_left add_local_keyframe (lLocalKeyFrames w) (locals0, s) in
  let b := fold_left (add_fixed_keyframe a.2) (lFixedCameras w) a.1 in
  (fold_left (add_landmark a.2) (lLocalLandmarks b) b, a.2).

Definition BuildGraph (w : Window) (s : SceneGraph) : Outcome Locals :=
  let v := BuildVertices w s in
  match foldM (add_mappoint (maxKFId v.1) (maxLandmarkId v.1))
          (lLocalMapPoints w) (optimizer v.1) v.2 with
  | Ok o s' =>
      Ok {| optimizer := o; lLocalLandmarks := lLocalLandmarks v.1;
            maxKFId := maxKFId v.1; maxLandmarkId := maxLandmarkId v.1 |} s'
  | Fault s' => Fault s'
  end.
End GraphBuilder.

(** ** Solver invocation and outlier passes (lines 257-336) *)

Inductive SolverCall :=
| Call_initializeOptimization (level : Z)
| Call_optimize (iterations : Z).

Section OutlierPasses.
Context `{Solver}.

Definition mono_fails (vs : gmap Z Vertex) (e : EdgeSE3ProjectXYZ.t) : bool :=
  PrimFloat.ltb 5.991%float (chi2_mono vs e) || negb (isDepthPositive_mono vs e).

Definition stereo_fails (vs : gmap Z Vertex) (e : EdgeStereoSE3ProjectXYZ.t) : bool :=
  PrimFloat.ltb 7.815%float (chi2_stereo vs e) || negb (isDepthPositive_stereo vs e).

(** One turn of the loop at lines 273-285. *)
Definition mark_mono (s : SceneGraph) (vs : gmap Z Vertex)
    (e : EdgeSE3ProjectXYZ.t) (pMP : MapPointPtr) : EdgeSE3ProjectXYZ.t :=
  if MapPoint.isBad (mappoints s pMP) then e
  else
    EdgeSE3ProjectXYZ.setRobustKernel None
      (if mono_fails vs e then EdgeSE3ProjectXYZ.setLevel 1 e else e).

(** One turn of the loop at lines 287-299. *)
Definition mark_stereo (s : SceneGraph) (vs : gmap Z Vertex)
    (e : EdgeStereoSE3ProjectXYZ.t) (pMP : MapPointPtr) : EdgeStereoSE3ProjectXYZ.t :=
  if MapPoint.isBad (mappoints s pMP) then e
  else
    EdgeStereoSE3ProjectXYZ.setRobustKernel None
      (if stereo_fails vs e then EdgeStereoSE3ProjectXYZ.setLevel 1 e else e).

(** Both loops run over the positions of the factors and read the
    MapPoint at the same position. *)
Definition MarkOutliers (s : SceneGraph) (o : SparseOptimizer) : SparseOptimizer :=
  set_vpEdgesStereo
    (zip_with (mark_stereo s (vertices o)) (vpEdgesStereo o) (vpMapPointEdgeStereo o))
    (set_vpEdgesMono
       (zip_with (mark_mono s (vertices o)) (vpEdgesMono o) (vpMapPointEdgeMono o))
       o).

(** One turn of the loop at lines 312-323. *)
Definition classify_mono (s : SceneGraph) (vs : gmap Z Vertex)
    (e : EdgeSE3ProjectXYZ.t) (i : KeyFramePtr * MapPointPtr)
    : list (KeyFramePtr * MapPointPtr) :=
  if MapPoint.isBad (mappoints s i.2) then []
  else if mono_fails vs e then [i] else [].

(** One turn of the loop at lines 325-336. *)
Definition classify_stereo (s : SceneGraph) (vs : gmap Z Vertex)
    (e : EdgeStereoSE3ProjectXYZ.t) (i : KeyFramePtr * MapPointPtr)
    : list (KeyFramePtr * MapPointPtr) :=
  if MapPoint.isBad (mappoints s i.2) then []
  else if stereo_fails vs e then [i] else [].

Definition ClassifyOutliers (s : SceneGraph) (o : SparseOptimizer)
    : list (KeyFramePtr * MapPointPtr) :=
  concat (zip_with (classify_mono s (vertices o)) (vpEdgesMono o)
            (zip (vpEdgeKFMono o) (vpMapPointEdgeMono o)))
  ++ concat (zip_with (classify_stereo s (vertices o)) (vpEdgesStereo o)
               (zip (vpEdgeKFStereo o) (vpMapPointEdgeStereo o))).

(** Lines 261-306: the optimizer after the solver calls, with the calls
    made. *)
Definition RunSolver (pbStopFlag : option StopFlag) (s : SceneGraph)
    (o : SparseOptimizer) : SparseOptimizer * list SolverCall :=
  let o1 := set_vertices (optimize pbStopFlag 0 5 o) o in
  let calls1 := [Call_initializeOptimization 0; Call_optimize 5] in
  let bDoMore := negb (stop_requested pbStopFlag after_first_optimize) in
  if bDoMore then
    let o2 := MarkOutliers s o1 in
    (set_vertices (optimize pbStopFlag 0 10 o2) o2,
     calls1 ++ [Call_initializeOptimization 0; Call_optimize 10])
  else (o1, calls1).
End OutlierPasses.

(** ** Result commit (lines 338-371)

    The lock on [pMap->mMutexMapUpdate] orders the commit against other
    threads; a single run has nothing to say about it. *)

Section Commit.
Context `{Geometry}.

Definition erase_link (s : SceneGraph) (i : KeyFramePtr * MapPointPtr) : SceneGraph :=
  update_mappoint i.2 (MapPoint.EraseObservation i.1)
    (update_keyframe i.1 (KeyFrame.EraseMapPointMatch i.2) s).

(** [dynamic_cast] to the vertex type, then [estimate()]: a null result
    is dereferenced. *)
Definition recover_keyframe (o : SparseOptimizer) (u : unit)
    (pLocalKF : KeyFramePtr) (s : SceneGraph) : Outcome unit :=
  match vertices o !! to_int (KeyFrame.mnId (keyframes s pLocalKF)) with
  | Some {| estimate := VertexSE3Expmap SE3quat |} =>
      Ok tt (update_keyframe pLocalKF
               (KeyFrame.SetPose (toCvMat_SE3Quat SE3quat)) s)
  | _ => Fault s
  end.

Definition recover_landmark (o : SparseOptimizer) (maxKFId : Z) (u : unit)
    (pLandmark : LandmarkPtr) (s : SceneGraph) : Outcome unit :=
  match vertices o !! landmark_vertex_id maxKFId (landmarks s pLandmark) with
  | Some {| estimate := VertexCuboid cuboid |} =>
      Ok tt (update_landmark pLandmark (Landmark.SetPoseAndDimension cuboid) s)
  | _ => Fault s
  end.

(** The id looked up for a MapPoint at line 368. *)
Definition point_recovery_id (maxKFId : Z) (p : MapPoint.t) : Z :=
  to_int (ulong (MapPoint.mnId p + maxKFId + 1)).

(** Modelled from the spec: [MapPoint::UpdateNormalAndDepth] recomputes the
    cached normal and depth range of the point from its position and the
    poses of its observers, and touches nothing else. *)
Definition UpdateNormalAndDepth (pMP : MapPointPtr) (s : SceneGraph) : SceneGraph :=
  update_mappoint pMP
    (fun p => MapPoint.set_mNormalAndDepth
       (computeNormalAndDepth (MapPoint.GetWorldPos p)
          (map (fun o => KeyFrame.GetPose (keyframes s o.1))
             (MapPoint.GetObservations p))) p) s.

Definition recover_mappoint (o : SparseOptimizer) (maxKFId : Z) (u : unit)
    (pMP : MapPointPtr) (s : SceneGraph) : Outcome unit :=
  match vertices o !! point_recovery_id maxKFId (mappoints s pMP) with
  | Some {| estimate := VertexSBAPointXYZ est |} =>
      Ok tt (UpdateNormalAndDepth pMP
               (update_mappoint pMP (MapPoint.SetWorldPos (toCvMat_Vector3d est)) s))
  | _ => Fault s
  end.

Definition bind {A B} (r : Outcome A) (f : A -> SceneGraph -> Outcome B) : Outcome B :=
  match r with
  | Ok a s => f a s
  | Fault s => Fault s
  end.

Definition Commit (w : Window) (l : Locals)
    (vToErase : list (KeyFramePtr * MapPointPtr)) (s : SceneGraph) : Outcome unit :=
  let s1 := fold_left erase_link vToErase s in
  bind (foldM (recover_keyframe (optimizer l)) (lLocalKeyFrames w) tt s1)
    (fun _ s2 =>
       bind (foldM (recover_landmark (optimizer l) (maxKFId l)) (lLocalLandmarks l) tt s2)
         (fun _ s3 =>
            foldM (recover_mappoint (optimizer l) (maxKFId l)) (lLocalMapPoints w) tt s3)).
End Commit.

(** ** The procedure *)

Inductive Termination := Returned | Crashed.

Record Run `{Geometry} := {
  termination : Termination;
  scene_after : SceneGraph;
  solver_calls : list SolverCall
}.

Section Procedure.
Context `{Solver}.

Definition finish {A} (calls : list SolverCall) (r : Outcome A) : Run :=
  match r with
  | Ok _ s => {| termination := Returned; scene_after := s; solver_calls := calls |}
  | Fault s => {| termination := Crashed; scene_after := s; solver_calls := calls |}
  end.

Definition with_optimizer (o : SparseOptimizer) (l : Locals) : Locals :=
  {| optimizer := o; lLocalLandmarks := lLocalLandmarks l;
     maxKFId := maxKFId l; maxLandmarkId := maxLandmarkId l |}.

Definition LocalBundleAdjustment (pKF : KeyFramePtr) (pbStopFlag : option StopFlag)
    (s : SceneGraph) : Run :=
  let w := SelectWindow pKF s in
  match BuildGraph w.1 w.2 with
  | Fault s' => finish [] (@Fault _ unit s')
  | Ok l s' =>
      if stop_requested pbStopFlag before_first_optimize
      then finish [] (Ok tt s')
      else
        let r := RunSolver pbStopFlag s' (optimizer l) in
        finish r.2
          (Commit w.1 (with_optimizer r.1 l) (ClassifyOutliers s' r.1) s')
  end.
End Procedure.

(** ** What a run may and may not touch

    [persistent] forgets the scratch fields of a KeyFrame (the two stamps
    and the landmark-measurement cache) and of a MapPoint (its stamp): two
    objects with the same [persistent] image agree on everything else. *)

Section Persistent.
Context `{Geometry}.

Definition persistent_keyframe (k : KeyFrame.t) : KeyFrame.t :=
  KeyFrame.set_landmarkMeasurements ∅
    (KeyFrame.set_mnBAFixedForKF 0 (KeyFrame.set_mnBALocalForKF 0 k)).

Definition persistent_mappoint (p : MapPoint.t) : MapPoint.t :=
  MapPoint.set_mnBALocalForKF 0 p.

Definition same_persistent_state (s s' : SceneGraph) : Prop :=
  (forall p, persistent_keyframe (keyframes s' p) = persistent_keyframe (keyframes s p))
  /\ (forall p, persistent_mappoint (mappoints s' p) = persistent_mappoint (mappoints s p))
  /\ (forall p, landmarks s' p = landmarks s p).

(** Every KeyFrame, MapPoint and Landmark is the same object in [s'] as
    in [s], scratch fields included. *)
Definition same_scene (s s' : SceneGraph) : Prop :=
  (forall p, keyframes s' p = keyframes s p)
  /\ (forall p, mappoints s' p = mappoints s p)
  /\ (forall p, landmarks s' p = landmarks s p).

Definition is_pose_vertex (v : Vertex) : bool :=
  match estimate v with VertexSE3Expmap _ => true | _ => false end.

Definition is_cuboid_vertex (v : Vertex) : bool :=
  match estimate v with VertexCuboid _ => true | _ => false end.

Definition is_point_vertex (v : Vertex) : bool :=
  match estimate v with VertexSBAPointXYZ _ => true | _ => false end.

(** The trigger KeyFrame has no covisible neighbour and observes no
    point. *)
Definition degenerate (pKF : KeyFramePtr) (s : SceneGraph) : Prop :=
  KeyFrame.GetVectorCovisibleKeyFrames (keyframes s pKF) = []
  /\ Forall (fun m => m = None) (KeyFrame.GetMapPointMatches (keyframes s pKF)).

(** The id a KeyFrame's pose vertex is registered under (lines 111, 122). *)
Definition pose_vertex_id (k : KeyFrame.t) : Z := to_int (KeyFrame.mnId k).

(** The KeyFrames that get a pose vertex. *)
Definition window_keyframes (w : Window) : list KeyFramePtr :=
  lLocalKeyFrames w ++ lFixedCameras w.

(** The id invariant of the specification, over the window [w] and the
    Local Landmarks and maxima in [l]: the vertex ids follow the three
    formulas, and pose ids lie below landmark ids, which lie below point
    ids. *)
Definition id_ranges_apart (w : Window) (s : SceneGraph) (l : Locals) : Prop :=
  (forall k, k ∈ window_keyframes w ->
      pose_vertex_id (keyframes s k) = KeyFrame.mnId (keyframes s k))
  /\ (forall lm, lm ∈ lLocalLandmarks l ->
      landmark_vertex_id (maxKFId l) (landmarks s lm)
      = maxKFId l + 1 + Landmark.mnLandmarkId (landmarks s lm))
  /\ (forall p, p ∈ lLocalMapPoints w ->
      point_vertex_id (maxKFId l) (maxLandmarkId l) (mappoints s p)
      = MapPoint.mnId (mappoints s p) + maxKFId l + maxLandmarkId l + 2)
  /\ (forall k lm, k ∈ window_keyframes w -> lm ∈ lLocalLandmarks l ->
      pose_vertex_id (keyframes s k)
      < landmark_vertex_id (maxKFId l) (landmarks s lm))
  /\ (forall p, p ∈ lLocalMapPoints w ->
      (forall k, k ∈ window_keyframes w ->
          pose_vertex_id (keyframes s k)
          < point_vertex_id (maxKFId l) (maxLandmarkId l) (mappoints s p))
      /\ (forall lm, lm ∈ lLocalLandmarks l ->
          landmark_vertex_id (maxKFId l) (landmarks s lm)
          < point_vertex_id (maxKFId l) (maxLandmarkId l) (mappoints s p))).

(** The ids of the window are non-negative and the largest vertex id
    fits in an [int]. *)
Definition ids_fit_int (w : Window) (s : SceneGraph) (l : Locals) : Prop :=
  (forall k, k ∈ window_keyframes w -> 0 <= KeyFrame.mnId (keyframes s k))
  /\ (forall lm, lm ∈ lLocalLandmarks l ->
        0 <= Landmark.mnLandmarkId (landmarks s lm))
  /\ (forall p, p ∈ lLocalMapPoints w ->
        0 <= MapPoint.mnId (mappoints s p)
        /\ MapPoint.mnId (mappoints s p) + maxKFId l + maxLandmarkId l + 2 <= INT_MAX)
  /\ maxKFId l + 1 + maxLandmarkId l <= INT_MAX.

(** Every vertex of the graph is of the kind its id range calls for. *)
Definition kinds_by_range (l : Locals) : Prop :=
  forall id v, vertices (optimizer l) !! id = Some v ->
    (is_pose_vertex v = true /\ 0 <= id <= maxKFId l)
    \/ (is_cuboid_vertex v = true
        /\ maxKFId l < id <= maxKFId l + 1 + maxLandmarkId l)
    \/ (is_point_vertex v = true /\ maxKFId l + 1 + maxLandmarkId l < id).
End Persistent.

(** The solver engine changes estimates, not the kind of a variable. *)
Inductive VertexKind := PoseKind | CuboidKind | PointKind.

Definition kind_of `{Geometry} (v : Vertex) : VertexKind :=
  match estimate v with
  | VertexSE3Expmap _ => PoseKind
  | VertexCuboid _ => CuboidKind
  | VertexSBAPointXYZ _ => PointKind
  end.

Definition solver_keeps_kinds `{Solver} : Prop :=
  forall pbStopFlag level iterations o id,
    kind_of <$> (optimize pbStopFlag level iterations o !! id)
    = kind_of <$> (vertices o !! id).

(** ** Camera-object factors *)

Section CameraObject.
Context `{Geometry}.

(** A run of camera-object factors made for one monocular observation by
    the KeyFrame [k]: one per Landmark of [k], each on [k]'s pose vertex
    (or on null, should [k] have none). *)
Definition block_of (s : SceneGraph) (k : KeyFramePtr)
    (blk : list EdgeSE3Cuboid.t) : Prop :=
  length blk = length (KeyFrame.GetLandmarks (keyframes s k))
  /\ Forall (fun e => EdgeSE3Cuboid.vertex0 e = Some (pose_vertex_id (keyframes s k))
                      \/ EdgeSE3Cuboid.vertex0 e = None) blk.

(** The number of factors in the blocks made for [k]. *)
Definition factors_of (k : KeyFramePtr) (kfs : list KeyFramePtr)
    (blocks : list (list EdgeSE3Cuboid.t)) : nat :=
  sum_list (map (fun kb => length kb.2) (filter (fun kb => kb.1 = k) (zip kfs blocks))).

(** The number of monocular reprojection factors of [k]. *)
Definition mono_factors_of (k : KeyFramePtr) (o : SparseOptimizer) : nat :=
  length (filter (fun k' => k' = k) (vpEdgeKFMono o)).

(** Every observation of a Local MapPoint by [k] is a stereo one. *)
Definition stereo_only (w : Window) (s : SceneGraph) (k : KeyFramePtr) : Prop :=
  forall p obs ur, p ∈ lLocalMapPoints w ->
    obs ∈ MapPoint.GetObservations (mappoints s p) -> obs.1 = k ->
    KeyFrame.mvuRight (keyframes s k) !! obs.2 = Some ur ->
    PrimFloat.ltb ur 0%float = false.

(** [obs] is a monocular observation. *)
Definition monocular (s : SceneGraph) (obs : KeyFramePtr * nat) : Prop :=
  exists ur, KeyFrame.mvuRight (keyframes s obs.1) !! obs.2 = Some ur
             /\ PrimFloat.ltb ur 0%float = true.

(** The relative pose of the Landmark's cuboid as seen from the
    KeyFrame, as line 106 computes it. *)
Definition relative_cuboid_pose (s : SceneGraph) (k : KeyFramePtr) (lm : LandmarkPtr)
    : Cuboid :=
  transformTo (Landmark.GetCuboid (landmarks s lm)) (KeyFrame.cam_pose_Twc (keyframes s k)).

Definition squared_double_quality (q : float) : float :=
  PrimFloat.mul (PrimFloat.mul 2%float q) (PrimFloat.mul 2%float q).

(** The graph in [l] holds a camera-object factor between the pose
    vertex of [k] and the cuboid vertex of [lm], measuring their relative
    pose, with information diag((2 quality)^2). *)
Definition camera_object_factor_present (s : SceneGraph) (l : Locals)
    (k : KeyFramePtr) (lm : LandmarkPtr) : Prop :=
  exists e, e ∈ edgesCuboid (optimizer l)
    /\ EdgeSE3Cuboid.vertex0 e = Some (pose_vertex_id (keyframes s k))
    /\ (exists v, vertices (optimizer l) !! pose_vertex_id (keyframes s k) = Some v
                  /\ is_pose_vertex v = true)
    /\ EdgeSE3Cuboid.vertex1 e = Some (landmark_vertex_id (maxKFId l) (landmarks s lm))
    /\ (exists v, vertices (optimizer l)
                    !! landmark_vertex_id (maxKFId l) (landmarks s lm) = Some v
                  /\ is_cuboid_vertex v = true)
    /\ EdgeSE3Cuboid.measurement e = relative_cuboid_pose s k lm
    /\ EdgeSE3Cuboid.information e
       = asDiagonal (replicate 9 (squared_double_quality
                                    (Landmark.mQuality (landmarks s lm)))).

(** The claim on camera-object factors, for the observers in [among]. *)
Definition camera_object_factors_for (among : KeyFramePtr -> Prop) (w : Window)
    (s : SceneGraph) (l : Locals) : Prop :=
  forall p obs lm,
    p ∈ lLocalMapPoints w ->
    obs ∈ MapPoint.GetObservations (mappoints s p) ->
    among obs.1 ->
    KeyFrame.isBad (keyframes s obs.1) = false ->
    monocular s obs ->
    lm ∈ lLocalLandmarks l ->
    lm ∈ KeyFrame.GetLandmarks (keyframes s obs.1) ->
    camera_object_factor_present s l obs.1 lm.

(** The Landmarks of [k] have ids of their own. *)
Definition landmark_ids_distinct (s : SceneGraph) (k : KeyFramePtr) : Prop :=
  forall lm lm', lm ∈ KeyFrame.GetLandmarks (keyframes s k) ->
    lm' ∈ KeyFrame.GetLandmarks (keyframes s k) ->
    Landmark.mnLandmarkId (landmarks s lm) = Landmark.mnLandmarkId (landmarks s lm') ->
    lm = lm'.
End CameraObject.

(** ** Invariants of the loops *)

Section LoopInvariants.
Context `{Geometry}.

(** Along the loop that selects the Fixed Cameras: those selected so
    far did not carry the local stamp, and no local stamp has moved. *)
Definition fixed_cameras_invariant (id : Z) (s : SceneGraph)
    (acc : list KeyFramePtr * SceneGraph) : Prop :=
  (forall f, f ∈ acc.1 -> KeyFrame.mnBALocalForKF (keyframes s f) <> id)
  /\ (forall p, KeyFrame.mnBALocalForKF (keyframes acc.2 p)
                = KeyFrame.mnBALocalForKF (keyframes s p)).

(** The poses of the KeyFrames outside [L] are as before. *)
Definition poses_kept_outside (L : list KeyFramePtr) (s s' : SceneGraph) : Prop :=
  forall p, p ∉ L -> KeyFrame.GetPose (keyframes s' p) = KeyFrame.GetPose (keyframes s p).

(** Where a vertex of the graph comes from: a Local KeyFrame, a Fixed
    Camera, a Local Landmark or a Local MapPoint. *)
Definition from_local_keyframe (w : Window) (s : SceneGraph) (id : Z) (v : Vertex)
    : Prop :=
  exists k, k ∈ lLocalKeyFrames w
    /\ id = to_int (KeyFrame.mnId (keyframes s k))
    /\ v = local_keyframe_vertex (keyframes s k).

Definition from_fixed_camera (w : Window) (s : SceneGraph) (id : Z) (v : Vertex)
    : Prop :=
  exists k, k ∈ lFixedCameras w
    /\ id = to_int (KeyFrame.mnId (keyframes s k))
    /\ v = fixed_keyframe_vertex (keyframes s k).

Definition from_landmark (LL : list LandmarkPtr) (maxKFId : Z) (s : SceneGraph)
    (id : Z) (v : Vertex) : Prop :=
  exists lm, lm ∈ LL
    /\ id = landmark_vertex_id maxKFId (landmarks s lm)
    /\ v = landmark_vertex (landmarks s lm).

Definition from_mappoint (w : Window) (maxKFId maxLandmarkId : Z) (s : SceneGraph)
    (id : Z) (v : Vertex) : Prop :=
  exists p, p ∈ lLocalMapPoints w
    /\ id = point_vertex_id maxKFId maxLandmarkId (mappoints s p)
    /\ v = point_vertex (mappoints s p).

(** No factor has been added yet. *)
Definition no_edges (o : SparseOptimizer) : Prop :=
  vpEdgesMono o = [] /\ vpEdgeKFMono o = [] /\ vpMapPointEdgeMono o = []
  /\ vpEdgesStereo o = [] /\ vpEdgeKFStereo o = [] /\ vpMapPointEdgeStereo o = []
  /\ edgesCuboid o = [].

(** Along the loop over the Local KeyFrames. *)
Definition local_loop_invariant (w : Window) (s : SceneGraph)
    (st : Locals * SceneGraph) : Prop :=
  same_persistent_state s st.2
  /\ (forall id v, vertices (optimizer st.1) !! id = Some v ->
        from_local_keyframe w s id v)
  /\ 0 <= maxKFId st.1
  /\ maxLandmarkId st.1 = 0
  /\ no_edges (optimizer st.1)
  /\ (forall lm, lm ∈ lLocalLandmarks st.1 ->
        exists k, k ∈ lLocalKeyFrames w /\ lm ∈ KeyFrame.GetLandmarks (keyframes s k)).

(** Along the loop over the Fixed Cameras, started from [a]. *)
Definition fixed_loop_invariant (w : Window) (s : SceneGraph) (a l : Locals) : Prop :=
  (forall id v, vertices (optimizer l) !! id = Some v ->
      from_local_keyframe w s id v \/ from_fixed_camera w s id v)
  /\ vertices (optimizer a) ⊆ vertices (optimizer l)
  /\ maxKFId a <= maxKFId l
  /\ maxLandmarkId l = 0
  /\ no_edges (optimizer l)
  /\ lLocalLandmarks l = lLocalLandmarks a.

(** Along the loop over the Local Landmarks, started from [b]. *)
Definition landmark_loop_invariant (w : Window) (s : SceneGraph) (b l : Locals)
    : Prop :=
  (forall id v, vertices (optimizer l) !! id = Some v ->
      from_local_keyframe w s id v \/ from_fixed_camera w s id v
      \/ from_landmark (lLocalLandmarks b) (maxKFId b) s id v)
  /\ vertices (optimizer b) ⊆ vertices (optimizer l)
  /\ maxKFId l = maxKFId b
  /\ 0 <= maxLandmarkId l
  /\ no_edges (optimizer l)
  /\ lLocalLandmarks l = lLocalLandmarks b.

(** Every KeyFrame and Landmark of the window has a vertex under its id
    and is bounded by the maxima. *)
Definition covered (w : Window) (s : SceneGraph) (l : Locals) : Prop :=
  (forall k, k ∈ lLocalKeyFrames w ++ lFixedCameras w ->
      (exists x, vertices (optimizer l) !! to_int (KeyFrame.mnId (keyframes s k)) = Some x
                 /\ is_pose_vertex x = true)
      /\ KeyFrame.mnId (keyframes s k) <= maxKFId l)
  /\ (forall lm, lm ∈ lLocalLandmarks l ->
      is_Some (vertices (optimizer l) !! landmark_vertex_id (maxKFId l) (landmarks s lm))
      /\ Landmark.mnLandmarkId (landmarks s lm) <= maxLandmarkId l)
  /\ 0 <= maxKFId l /\ 0 <= maxLandmarkId l.

(** The Local Landmarks are the Landmarks of the Local KeyFrames. *)
Definition landmarks_of_window (w : Window) (s : SceneGraph) (l : Locals) : Prop :=
  (forall k lm, k ∈ lLocalKeyFrames w -> lm ∈ KeyFrame.GetLandmarks (keyframes s k) ->
      lm ∈ lLocalLandmarks l)
  /\ (forall lm, lm ∈ lLocalLandmarks l ->
      exists k, k ∈ lLocalKeyFrames w /\ lm ∈ KeyFrame.GetLandmarks (keyframes s k)).

(** The measurement caches only gain entries. *)
Definition caches_grow (s s' : SceneGraph) : Prop :=
  forall p, KeyFrame.landmarkMeasurements (keyframes s p)
            ⊆ KeyFrame.landmarkMeasurements (keyframes s' p).

(** The factor created at lines 211-220 for [pKFi] and [pLandmark], with
    measurement [m]. *)
Definition camera_object_factor (o : SparseOptimizer) (maxKFId : Z) (s : SceneGraph)
    (pKFi : KeyFramePtr) (pLandmark : LandmarkPtr) (m : Cuboid) : EdgeSE3Cuboid.t :=
  {| EdgeSE3Cuboid.vertex0 := vertex o (to_int (KeyFrame.mnId (keyframes s pKFi)));
     EdgeSE3Cuboid.vertex1 :=
       vertex o (landmark_vertex_id maxKFId (landmarks s pLandmark));
     EdgeSE3Cuboid.measurement := m;
     EdgeSE3Cuboid.information :=
       cuboid_information (Landmark.mQuality (landmarks s pLandmark)) |}.

(** [vpEdgeKFMono] and [vpMapPointEdgeMono] are as long as
    [vpEdgesMono], and likewise for stereo. *)
Definition aligned (o : SparseOptimizer) : Prop :=
  length (vpEdgeKFMono o) = length (vpEdgesMono o)
  /\ length (vpMapPointEdgeMono o) = length (vpEdgesMono o)
  /\ length (vpEdgeKFStereo o) = length (vpEdgesStereo o)
  /\ length (vpMapPointEdgeStereo o) = length (vpEdgesStereo o).

(** The six bookkeeping vectors of the reprojection factors. *)
Definition reprojection_vectors (o : SparseOptimizer) :=
  (vpEdgesMono o, vpEdgeKFMono o, vpMapPointEdgeMono o,
   vpEdgesStereo o, vpEdgeKFStereo o, vpMapPointEdgeStereo o).

(** What one turn of the loop over the observations does to the graph. *)
Inductive observation_step (maxKFId id : Z) (pMP : MapPointPtr)
    (o : SparseOptimizer) (observation : KeyFramePtr * nat) (s : SceneGraph)
    (o' : SparseOptimizer) : Prop :=
| step_bad :
    KeyFrame.isBad (keyframes s observation.1) = true ->
    o' = o ->
    observation_step maxKFId id pMP o observation s o'
| step_mono kpUn ur invSigma2 ms :
    KeyFrame.isBad (keyframes s observation.1) = false ->
    KeyFrame.mvKeysUn (keyframes s observation.1) !! observation.2 = Some kpUn ->
    KeyFrame.mvuRight (keyframes s observation.1) !! observation.2 = Some ur ->
    PrimFloat.ltb ur 0%float = true ->
    vertices o' = vertices o ->
    reprojection_vectors o'
    = reprojection_vectors
        (addEdgeMono (mono_edge o id (keyframes s observation.1) kpUn invSigma2)
           observation.1 pMP o) ->
    length ms = length (KeyFrame.GetLandmarks (keyframes s observation.1)) ->
    edgesCuboid o'
    = edgesCuboid o
      ++ zip_with (camera_object_factor o maxKFId s observation.1)
           (KeyFrame.GetLandmarks (keyframes s observation.1)) ms ->
    (forall i lm m c,
        KeyFrame.GetLandmarks (keyframes s observation.1) !! i = Some lm ->
        ms !! i = Some m ->
        KeyFrame.landmarkMeasurements (keyframes s observation.1)
          !! Landmark.mnLandmarkId (landmarks s lm) = Some c ->
        m = c) ->
    observation_step maxKFId id pMP o observation s o'
| step_stereo kpUn ur invSigma2 :
    KeyFrame.isBad (keyframes s observation.1) = false ->
    KeyFrame.mvKeysUn (keyframes s observation.1) !! observation.2 = Some kpUn ->
    KeyFrame.mvuRight (keyframes s observation.1) !! observation.2 = Some ur ->
    PrimFloat.ltb ur 0%float = false ->
    o' = addEdgeStereo (stereo_edge o id (keyframes s observation.1) kpUn ur invSigma2)
           observation.1 pMP o ->
    observation_step maxKFId id pMP o observation s o'.

(** The scene as the loop over the MapPoints may find it: the persistent
    state of [s], the caches of [sv] or more. *)
Definition during_build (s sv sc : SceneGraph) : Prop :=
  same_persistent_state s sc /\ caches_grow sv sc.

(** [k] makes a monocular observation of some Local MapPoint. *)
Definition mono_observer (w : Window) (s : SceneGraph) (k : KeyFramePtr) : Prop :=
  exists p obs, p ∈ lLocalMapPoints w
    /\ obs ∈ MapPoint.GetObservations (mappoints s p)
    /\ obs.1 = k /\ monocular s obs.

(** Along the loop over the MapPoints: the camera-object factors are the
    blocks, one per monocular factor so far. *)
Definition blocks_invariant (w : Window) (s : SceneGraph) (o : SparseOptimizer)
    (blocks : list (list EdgeSE3Cuboid.t)) : Prop :=
  edgesCuboid o = concat blocks
  /\ Forall2 (block_of s) (vpEdgeKFMono o) blocks
  /\ length (vpEdgesMono o) = length (vpEdgeKFMono o)
  /\ (forall k, k ∈ vpEdgeKFMono o -> mono_observer w s k).

(** The factor the claim C6 asks for, before the kinds of its vertices
    are looked at. *)
Definition factor_added (s : SceneGraph) (maxKFId : Z) (k : KeyFramePtr)
    (lm : LandmarkPtr) (o : SparseOptimizer) : Prop :=
  exists e, e ∈ edgesCuboid o
    /\ EdgeSE3Cuboid.vertex0 e = Some (pose_vertex_id (keyframes s k))
    /\ EdgeSE3Cuboid.vertex1 e = Some (landmark_vertex_id maxKFId (landmarks s lm))
    /\ EdgeSE3Cuboid.measurement e = relative_cuboid_pose s k lm
    /\ EdgeSE3Cuboid.information e
       = cuboid_information (Landmark.mQuality (landmarks s lm)).

End LoopInvariants.
(** ** The window in terms of the scene graph *)

Section WindowNotions.
Context `{Geometry}.

(** The KeyFrames that receive the local stamp at lines 47 and 51: the
    trigger and its covisible neighbours, bad ones included. *)
Definition covisibility_group (pKF : KeyFramePtr) (s : SceneGraph) : list KeyFramePtr :=
  pKF :: KeyFrame.GetVectorCovisibleKeyFrames (keyframes s pKF).

(** A MapPoint the selection may take (lines 62-63): live, and not
    carrying the stamp [id]. *)
Definition selectable (id : Z) (s : SceneGraph) (p : MapPointPtr) : Prop :=
  MapPoint.isBad (mappoints s p) = false
  /\ MapPoint.mnBALocalForKF (mappoints s p) <> id.

(** [p] is in the point-match table of a KeyFrame of [L]. *)
Definition matched_by (s : SceneGraph) (L : list KeyFramePtr) (p : MapPointPtr) : Prop :=
  exists k, k ∈ L /\ Some p ∈ KeyFrame.GetMapPointMatches (keyframes s k).

(** A KeyFrame that carries neither stamp [id] (line 77). *)
Definition unstamped (id : Z) (s : SceneGraph) (k : KeyFramePtr) : Prop :=
  KeyFrame.mnBALocalForKF (keyframes s k) <> id
  /\ KeyFrame.mnBAFixedForKF (keyframes s k) <> id.

#[global] Instance unstamped_dec id s k : Decision (unstamped id s k) :=
  ltac:(unfold unstamped; apply _).

(** [k] observes a MapPoint of [L]. *)
Definition observer_of (s : SceneGraph) (L : list MapPointPtr) (k : KeyFramePtr) : Prop :=
  exists p i, p ∈ L /\ (k, i) ∈ MapPoint.GetObservations (mappoints s p).

(** The observers the loop at lines 72-83 visits, in order. *)
Definition observers (s : SceneGraph) (L : list MapPointPtr) : list KeyFramePtr :=
  concat (map (fun p => map fst (MapPoint.GetObservations (mappoints s p))) L).

(** The point matches the loop at lines 58-68 visits, in order. *)
Definition point_matches (s : SceneGraph) (L : list KeyFramePtr)
    : list (option MapPointPtr) :=
  concat (map (fun k => KeyFrame.GetMapPointMatches (keyframes s k)) L).

(** Along the loop over the point matches, started from the scene [s0]:
    [V] are the matches visited so far. *)
Definition matches_invariant (id : Z) (s0 : SceneGraph) (V : list (option MapPointPtr))
    (acc : list MapPointPtr * SceneGraph) : Prop :=
  NoDup acc.1
  /\ (forall p, p ∈ acc.1 <-> Some p ∈ V /\ selectable id s0 p)
  /\ (forall p, mappoints acc.2 p
                = if decide (p ∈ acc.1)
                  then MapPoint.set_mnBALocalForKF id (mappoints s0 p)
                  else mappoints s0 p)
  /\ keyframes acc.2 = keyframes s0
  /\ landmarks acc.2 = landmarks s0.

(** Along the loop over the observers, started from the scene [s0]: [V]
    are the observers visited so far. *)
Definition observers_invariant (id : Z) (s0 : SceneGraph) (V : list KeyFramePtr)
    (acc : list KeyFramePtr * SceneGraph) : Prop :=
  NoDup acc.1
  /\ (forall k, k ∈ acc.1 <->
        k ∈ V /\ unstamped id s0 k /\ KeyFrame.isBad (keyframes s0 k) = false)
  /\ (forall k, keyframes acc.2 k
                = if decide (k ∈ V /\ unstamped id s0 k)
                  then KeyFrame.set_mnBAFixedForKF id (keyframes s0 k)
                  else keyframes s0 k)
  /\ mappoints acc.2 = mappoints s0
  /\ landmarks acc.2 = landmarks s0.

(** No KeyFrame but the trigger carries a stamp equal to the trigger's
    id when the procedure starts. *)
Definition stamps_fresh (pKF : KeyFramePtr) (s : SceneGraph) : Prop :=
  forall k, k <> pKF -> unstamped (KeyFrame.mnId (keyframes s pKF)) s k.
End WindowNotions.

(** ** The vertices in terms of the window *)

Section VertexNotions.
Context `{Geometry}.

(** [m] is the largest of 0 and the values of [f] on [L]. *)
Definition largest_of {A} (f : A -> Z) (L : list A) (m : Z) : Prop :=
  (forall x, x ∈ L -> f x <= m)
  /\ 0 <= m
  /\ (m = 0 \/ exists x, x ∈ L /\ m = f x).

(** [m] is 0 or a value of [f] on [L]. *)
Definition reached {A} (f : A -> Z) (L : list A) (m : Z) : Prop :=
  m = 0 \/ exists x, x ∈ L /\ m = f x.
End VertexNotions.

(** ** The reprojection factors in terms of the observations *)

Section EdgeNotions.
Context `{Geometry}.

(** The three vector reads of lines 179-191 are within bounds: the
    keypoint index in [mvKeysUn] and [mvuRight], the keypoint's octave in
    [mvInvLevelSigma2]. *)
Definition readable (s : SceneGraph) (obs : KeyFramePtr * nat) : Prop :=
  exists kpUn ur invSigma2,
    KeyFrame.mvKeysUn (keyframes s obs.1) !! obs.2 = Some kpUn
    /\ KeyFrame.mvuRight (keyframes s obs.1) !! obs.2 = Some ur
    /\ vector_at (KeyFrame.mvInvLevelSigma2 (keyframes s obs.1)) (KeyPoint.octave kpUn)
       = Some invSigma2.

(** Every observation of a MapPoint of the window by a KeyFrame that is
    not bad can be read. *)
Definition observations_readable (w : Window) (s : SceneGraph) : Prop :=
  forall p obs, p ∈ lLocalMapPoints w ->
    obs ∈ MapPoint.GetObservations (mappoints s p) ->
    KeyFrame.isBad (keyframes s obs.1) = false -> readable s obs.

(** The test of line 182. *)
Definition is_monocular (s : SceneGraph) (obs : KeyFramePtr * nat) : bool :=
  match KeyFrame.mvuRight (keyframes s obs.1) !! obs.2 with
  | Some ur => PrimFloat.ltb ur 0%float
  | None => false
  end.

(** The test of line 178. *)
Definition is_live (s : SceneGraph) (obs : KeyFramePtr * nat) : bool :=
  negb (KeyFrame.isBad (keyframes s obs.1)).

(** The (observer, MapPoint) pair of an observation that gets a
    monocular factor, or nothing. *)
Definition mono_pair (s : SceneGraph) (p : MapPointPtr) (obs : KeyFramePtr * nat)
    : list (KeyFramePtr * MapPointPtr) :=
  if is_live s obs && is_monocular s obs then [(obs.1, p)] else [].

Definition stereo_pair (s : SceneGraph) (p : MapPointPtr) (obs : KeyFramePtr * nat)
    : list (KeyFramePtr * MapPointPtr) :=
  if is_live s obs && negb (is_monocular s obs) then [(obs.1, p)] else [].

(** The pairs of the whole window, in the order of the two nested
    loops of lines 164-255. *)
Definition pairs_of (pair : SceneGraph -> MapPointPtr -> KeyFramePtr * nat ->
                            list (KeyFramePtr * MapPointPtr))
    (w : Window) (s : SceneGraph) : list (KeyFramePtr * MapPointPtr) :=
  concat (map (fun p => concat (map (pair s p)
                                  (MapPoint.GetObservations (mappoints s p))))
            (lLocalMapPoints w)).

Definition mono_pairs := pairs_of mono_pair.
Definition stereo_pairs := pairs_of stereo_pair.

(** The bookkeeping vectors of [o1] are those of [o] followed by the
    pairs [m] (monocular) and [st] (stereo). *)
Definition rows_extend (o o1 : SparseOptimizer)
    (m st : list (KeyFramePtr * MapPointPtr)) : Prop :=
  vpEdgeKFMono o1 = vpEdgeKFMono o ++ map fst m
  /\ vpMapPointEdgeMono o1 = vpMapPointEdgeMono o ++ map snd m
  /\ length (vpEdgesMono o1) = (length (vpEdgesMono o) + length m)%nat
  /\ vpEdgeKFStereo o1 = vpEdgeKFStereo o ++ map fst st
  /\ vpMapPointEdgeStereo o1 = vpMapPointEdgeStereo o ++ map snd st
  /\ length (vpEdgesStereo o1) = (length (vpEdgesStereo o) + length st)%nat.

(** What one turn of the loop over the observations does to the vertices
    and to the six bookkeeping vectors. *)
Inductive edge_step (id : Z) (pMP : MapPointPtr) (o : SparseOptimizer)
    (obs : KeyFramePtr * nat) (s : SceneGraph) (o' : SparseOptimizer) : Prop :=
| edge_step_bad :
    KeyFrame.isBad (keyframes s obs.1) = true ->
    vertices o' = vertices o ->
    reprojection_vectors o' = reprojection_vectors o ->
    edge_step id pMP o obs s o'
| edge_step_mono kpUn ur invSigma2 :
    KeyFrame.isBad (keyframes s obs.1) = false ->
    KeyFrame.mvKeysUn (keyframes s obs.1) !! obs.2 = Some kpUn ->
    KeyFrame.mvuRight (keyframes s obs.1) !! obs.2 = Some ur ->
    vector_at (KeyFrame.mvInvLevelSigma2 (keyframes s obs.1)) (KeyPoint.octave kpUn)
    = Some invSigma2 ->
    PrimFloat.ltb ur 0%float = true ->
    vertices o' = vertices o ->
    reprojection_vectors o'
    = reprojection_vectors
        (addEdgeMono (mono_edge o id (keyframes s obs.1) kpUn invSigma2) obs.1 pMP o) ->
    edge_step id pMP o obs s o'
| edge_step_stereo kpUn ur invSigma2 :
    KeyFrame.isBad (keyframes s obs.1) = false ->
    KeyFrame.mvKeysUn (keyframes s obs.1) !! obs.2 = Some kpUn ->
    KeyFrame.mvuRight (keyframes s obs.1) !! obs.2 = Some ur ->
    vector_at (KeyFrame.mvInvLevelSigma2 (keyframes s obs.1)) (KeyPoint.octave kpUn)
    = Some invSigma2 ->
    PrimFloat.ltb ur 0%float = false ->
    vertices o' = vertices o ->
    reprojection_vectors o'
    = reprojection_vectors
        (addEdgeStereo (stereo_edge o id (keyframes s obs.1) kpUn ur invSigma2)
           obs.1 pMP o) ->
    edge_step id pMP o obs s o'.

(** [e] is the monocular factor of an observation of [p] by [k]: the
    factor lines 183-201 make of the observation's keypoint, against a
    graph [o'] that holds the vertices [base] and the vertex of [p], and
    whose vertices are among [vs]. *)
Definition mono_factor_of (s : SceneGraph) (base vs : gmap Z Vertex)
    (pid : MapPointPtr -> Z) (e : EdgeSE3ProjectXYZ.t) (k : KeyFramePtr)
    (p : MapPointPtr) : Prop :=
  exists i kpUn invSigma2 o',
    (k, i) ∈ MapPoint.GetObservations (mappoints s p)
    /\ KeyFrame.isBad (keyframes s k) = false
    /\ KeyFrame.mvKeysUn (keyframes s k) !! i = Some kpUn
    /\ is_monocular s (k, i) = true
    /\ vector_at (KeyFrame.mvInvLevelSigma2 (keyframes s k)) (KeyPoint.octave kpUn)
       = Some invSigma2
    /\ base ⊆ vertices o' /\ vertices o' ⊆ vs
    /\ is_Some (vertices o' !! pid p)
    /\ e = mono_edge o' (pid p) (keyframes s k) kpUn invSigma2.

(** [e] is the stereo factor of an observation of [p] by [k] (lines
    225-246). *)
Definition stereo_factor_of (s : SceneGraph) (base vs : gmap Z Vertex)
    (pid : MapPointPtr -> Z) (e : EdgeStereoSE3ProjectXYZ.t) (k : KeyFramePtr)
    (p : MapPointPtr) : Prop :=
  exists i kpUn ur invSigma2 o',
    (k, i) ∈ MapPoint.GetObservations (mappoints s p)
    /\ KeyFrame.isBad (keyframes s k) = false
    /\ KeyFrame.mvKeysUn (keyframes s k) !! i = Some kpUn
    /\ KeyFrame.mvuRight (keyframes s k) !! i = Some ur
    /\ PrimFloat.ltb ur 0%float = false
    /\ vector_at (KeyFrame.mvInvLevelSigma2 (keyframes s k)) (KeyPoint.octave kpUn)
       = Some invSigma2
    /\ base ⊆ vertices o' /\ vertices o' ⊆ vs
    /\ is_Some (vertices o' !! pid p)
    /\ e = stereo_edge o' (pid p) (keyframes s k) kpUn ur invSigma2.

(** Position by position, the bookkeeping vectors describe the factors:
    the factor at [i] is the one of the observation of the MapPoint at
    [i] by the KeyFrame at [i]. *)
Definition factors_described (w : Window) (s : SceneGraph) (base : gmap Z Vertex)
    (pid : MapPointPtr -> Z) (o : SparseOptimizer) : Prop :=
  base ⊆ vertices o
  /\ aligned o
  /\ (forall i e k p,
        vpEdgesMono o !! i = Some e -> vpEdgeKFMono o !! i = Some k ->
        vpMapPointEdgeMono o !! i = Some p ->
        p ∈ lLocalMapPoints w /\ mono_factor_of s base (vertices o) pid e k p)
  /\ (forall i e k p,
        vpEdgesStereo o !! i = Some e -> vpEdgeKFStereo o !! i = Some k ->
        vpMapPointEdgeStereo o !! i = Some p ->
        p ∈ lLocalMapPoints w /\ stereo_factor_of s base (vertices o) pid e k p).
End EdgeNotions.

(** ** What the commit may touch *)

Section CommitNotions.
Context `{Geometry}.

(** The ids of the MapPoints are as before. *)
Definition mappoint_ids_kept (s s' : SceneGraph) : Prop :=
  forall p, MapPoint.mnId (mappoints s' p) = MapPoint.mnId (mappoints s p).

(** The KeyFrames outside [K], the MapPoints outside [P] and the
    Landmarks outside [L] are the same objects in [s'] as in [s]. *)
Definition kept_outside (K : KeyFramePtr -> Prop) (P : MapPointPtr -> Prop)
    (L : LandmarkPtr -> Prop) (s s' : SceneGraph) : Prop :=
  (forall k, ~ K k -> keyframes s' k = keyframes s k)
  /\ (forall p, ~ P p -> mappoints s' p = mappoints s p)
  /\ (forall lm, ~ L lm -> landmarks s' lm = landmarks s lm).

(** The KeyFrames the procedure may write to: the trigger, its covisible
    neighbours and the observers of the Local MapPoints. *)
Definition reached_keyframe (pKF : KeyFramePtr) (s : SceneGraph)
    (lLocalMapPoints : list MapPointPtr) (k : KeyFramePtr) : Prop :=
  k ∈ covisibility_group pKF s \/ observer_of s lLocalMapPoints k.

(** The Landmarks associated with a KeyFrame of [L]. *)
Definition landmark_of (s : SceneGraph) (L : list KeyFramePtr) (lm : LandmarkPtr)
    : Prop :=
  exists k, k ∈ L /\ lm ∈ KeyFrame.GetLandmarks (keyframes s k).
End CommitNotions.

(** ** The outlier passes, position by position *)

Section PositionNotions.
Context `{Geometry}.




End PositionNotions.

(** ** Camera-object factors of a Fixed Camera *)

Section FixedCameraNotions.
Context `{Geometry}.

(** What [pKFi->landmarkMeasurements[id]] yields for the Landmark [lm] on
    the scene [s]: the entry of the cache, or a default cuboid when there
    is none. *)
Definition cached_or_default (s : SceneGraph) (k : KeyFramePtr) (lm : LandmarkPtr)
    : Cuboid :=
  default Cuboid_default
    (KeyFrame.landmarkMeasurements (keyframes s k)
       !! Landmark.mnLandmarkId (landmarks s lm)).

(** The graph in [l] holds a camera-object factor between the pose
    vertex of [k] and the cuboid vertex of [lm] whose measurement is what
    the cache of [k] held for [lm] on the scene [s], or a default cuboid,
    with information diag((2 quality)^2). *)
Definition fixed_camera_factor_present (s : SceneGraph) (l : Locals)
    (k : KeyFramePtr) (lm : LandmarkPtr) : Prop :=
  exists e, e ∈ edgesCuboid (optimizer l)
    /\ EdgeSE3Cuboid.vertex0 e = Some (pose_vertex_id (keyframes s k))
    /\ (exists v, vertices (optimizer l) !! pose_vertex_id (keyframes s k) = Some v
                  /\ is_pose_vertex v = true)
    /\ EdgeSE3Cuboid.vertex1 e = Some (landmark_vertex_id (maxKFId l) (landmarks s lm))
    /\ (exists v, vertices (optimizer l)
                    !! landmark_vertex_id (maxKFId l) (landmarks s lm) = Some v
                  /\ is_cuboid_vertex v = true)
    /\ EdgeSE3Cuboid.measurement e = cached_or_default s k lm
    /\ EdgeSE3Cuboid.information e
       = asDiagonal (replicate 9 (squared_double_quality
                                    (Landmark.mQuality (landmarks s lm)))).

(** The claim on camera-object factors, for the observers that are Fixed
    Cameras. *)
Definition fixed_camera_factors (w : Window) (s : SceneGraph) (l : Locals) : Prop :=
  forall p obs lm,
    p ∈ lLocalMapPoints w ->
    obs ∈ MapPoint.GetObservations (mappoints s p) ->
    obs.1 ∈ lFixedCameras w ->
    obs.1 ∉ lLocalKeyFrames w ->
    KeyFrame.isBad (keyframes s obs.1) = false ->
    monocular s obs ->
    lm ∈ lLocalLandmarks l ->
    lm ∈ KeyFrame.GetLandmarks (keyframes s obs.1) ->
    fixed_camera_factor_present s l obs.1 lm.
End FixedCameraNotions.

(** ** Severed observation links *)

Section SeveranceNotions.
Context `{Geometry}.

(** The link between [k] and [p] is gone from both ends: [p] is in no
    slot of the point-match table of [k], and [k] is no observer of
    [p]. *)
Definition severed (s : SceneGraph) (k : KeyFramePtr) (p : MapPointPtr) : Prop :=
  (Some p ∉ KeyFrame.GetMapPointMatches (keyframes s k))
  /\ forall j, (k, j) ∉ MapPoint.GetObservations (mappoints s p).

(** From [s] to [s'] no point match and no observation is added. *)
Definition links_only_shrink (s s' : SceneGraph) : Prop :=
  (forall k p, Some p ∈ KeyFrame.GetMapPointMatches (keyframes s' k) ->
      Some p ∈ KeyFrame.GetMapPointMatches (keyframes s k))
  /\ (forall p x, x ∈ MapPoint.GetObservations (mappoints s' p) ->
        x ∈ MapPoint.GetObservations (mappoints s p)).
End SeveranceNotions.

(** ** Concrete collaborators and scenes

    A toy geometry over [Z] (poses, points and cuboids are numbers, a
    relative pose is a difference) and a synthetic solver: [optimize] adds
    the iteration budget to every free estimate, the residual of a factor is
    the x coordinate of its measurement. They serve to run the procedure on
    explicit scene graphs. *)

Module Fixture.

#[export] Instance geometry : Geometry := {|
  Mat := Z; SE3Quat := Z; Vector3d := Z; Cuboid := Z; NormalAndDepth := Z;
  toSE3Quat := id; toCvMat_SE3Quat := id;
  toVector3d := id; toCvMat_Vector3d := id;
  transformTo := fun c Twc => c - Twc;
  Cuboid_default := 0;
  computeNormalAndDepth := fun pos _ => pos |}.

Definition move (n : Z) (v : Vertex) : Vertex :=
  if fixed v then v
  else {| estimate :=
            match estimate v with
            | VertexSE3Expmap q => VertexSE3Expmap (q + n)
            | VertexCuboid c => VertexCuboid (c + n)
            | VertexSBAPointXYZ p => VertexSBAPointXYZ (p + n)
            end;
          fixed := fixed v; marginalized := marginalized v |}.

#[export] Instance solver : Solver := {|
  optimize := fun _ _ iterations o => move iterations <$> vertices o;
  chi2_mono := fun _ e => (EdgeSE3ProjectXYZ.measurement e).1;
  isDepthPositive_mono := fun _ _ => true;
  chi2_stereo := fun _ e => (EdgeStereoSE3ProjectXYZ.measurement e).1.1;
  isDepthPositive_stereo := fun _ _ => true |}.

Definition keypoint (x : float) : KeyPoint.t :=
  {| KeyPoint.pt_x := x; KeyPoint.pt_y := 0%float; KeyPoint.octave := 0 |}.

(** A KeyFrame with id [id], pose [pose], the given neighbours, point
    matches and landmarks; keypoint [i] has x coordinate [xs !! i] and
    right coordinate [urs !! i]. *)
Definition keyframe (id : Z) (pose : Z) (neigh : list KeyFramePtr)
    (matches : list (option MapPointPtr)) (lms : list LandmarkPtr)
    (cache : gmap Z Z) (xs urs : list float) : KeyFrame.t :=
  {| KeyFrame.mnId := id; KeyFrame.mnBALocalForKF := 0;
     KeyFrame.mnBAFixedForKF := 0; KeyFrame.isBad := false;
     KeyFrame.GetVectorCovisibleKeyFrames := neigh;
     KeyFrame.GetMapPointMatches := matches;
     KeyFrame.GetLandmarks := lms;
     KeyFrame.landmarkMeasurements := cache;
     KeyFrame.cam_pose_Twc := pose; KeyFrame.GetPose := pose;
     KeyFrame.mvKeysUn := map keypoint xs; KeyFrame.mvuRight := urs;
     KeyFrame.mvInvLevelSigma2 := [1%float];
     KeyFrame.fx := 1%float; KeyFrame.fy := 1%float;
     KeyFrame.cx := 0%float; KeyFrame.cy := 0%float; KeyFrame.mbf := 0%float |}.

Definition mappoint (id : Z) (pos : Z) (obs : list (KeyFramePtr * nat)) : MapPoint.t :=
  {| MapPoint.mnId := id; MapPoint.mnBALocalForKF := 0; MapPoint.isBad := false;
     MapPoint.GetWorldPos := pos; MapPoint.GetObservations := obs;
     MapPoint.mNormalAndDepth := 0 |}.

Definition landmark (id : Z) (q : float) (c : Z) : Landmark.t :=
  {| Landmark.mnLandmarkId := id; Landmark.mQuality := q; Landmark.GetCuboid := c |}.

(** Pointer 0 is never reached from the trigger KeyFrame in the scenes
    below; the object behind it is a placeholder. *)
Definition store {A} (d : A) (l : list (nat * A)) : nat -> A :=
  fun p => default d (snd <$> find (fun e => Nat.eqb e.1 p) l).

Definition scene (kfs : list (nat * KeyFrame.t)) (mps : list (nat * MapPoint.t))
    (lms : list (nat * Landmark.t)) : SceneGraph :=
  {| keyframes := store (keyframe 0 0 [] [] [] ∅ [] []) kfs;
     mappoints := store (mappoint 0 0 []) mps;
     landmarks := store (landmark 0 1%float 0) lms |}.

(** KeyFrame 5 alone, observing nothing. *)
Definition scene_degenerate : SceneGraph :=
  scene [(1%nat, keyframe 5 100 [] [None; None] [] ∅ [] [])] [] [].

(** KeyFrame 5 observes, monocularly, MapPoint 1 (keypoint 0, residual 1)
    and MapPoint 0 (keypoint 1, residual 9). *)
Definition scene_two_points : SceneGraph :=
  scene
    [(1%nat, keyframe 5 100 [] [Some 1%nat; Some 2%nat] [] ∅
               [1%float; 9%float] [(-1)%float; (-1)%float])]
    [(1%nat, mappoint 1 40 [(1%nat, 0%nat)]);
     (2%nat, mappoint 0 60 [(1%nat, 1%nat)])]
    [].

(** KeyFrame 1 observes MapPoint 2147483645. *)
Definition scene_large_id : SceneGraph :=
  scene
    [(1%nat, keyframe 1 100 [] [Some 1%nat] [] ∅ [1%float] [(-1)%float])]
    [(1%nat, mappoint 2147483645 40 [(1%nat, 0%nat)])]
    [].

(** KeyFrame 5 (local) and KeyFrame 2 (outside the covisibility window)
    both observe MapPoint 7 monocularly and both are associated with
    Landmark 0, whose cuboid is 50. KeyFrame 2's cache holds a stale
    measurement 77 for it. *)
Definition scene_fixed_observer : SceneGraph :=
  scene
    [(1%nat, keyframe 5 100 [] [Some 1%nat] [1%nat] ∅ [1%float] [(-1)%float]);
     (2%nat, keyframe 2 30 [] [Some 1%nat] [1%nat] {[0 := 77]} [1%float] [(-1)%float])]
    [(1%nat, mappoint 7 40 [(1%nat, 0%nat); (2%nat, 0%nat)])]
    [(1%nat, landmark 0 0.9%float 50)].

(** The same, with nothing in KeyFrame 2's cache. *)
Definition scene_fixed_observer_no_cache : SceneGraph :=
  scene
    [(1%nat, keyframe 5 100 [] [Some 1%nat] [1%nat] ∅ [1%float] [(-1)%float]);
     (2%nat, keyframe 2 30 [] [Some 1%nat] [1%nat] ∅ [1%float] [(-1)%float])]
    [(1%nat, mappoint 7 40 [(1%nat, 0%nat); (2%nat, 0%nat)])]
    [(1%nat, landmark 0 0.9%float 50)].

(** KeyFrame 5 with two Landmarks observes MapPoints 1 and 2 monocularly
    and MapPoint 3 in stereo; KeyFrame 6, its neighbour, has one Landmark
    and observes MapPoint 3 in stereo only. *)
Definition scene_mixed : SceneGraph :=
  scene
    [(1%nat, keyframe 5 100 [2%nat] [Some 1%nat; Some 2%nat; Some 3%nat]
               [1%nat; 2%nat] ∅ [1%float; 1%float; 1%float]
               [(-1)%float; (-1)%float; 4%float]);
     (2%nat, keyframe 6 110 [1%nat] [Some 3%nat] [1%nat] ∅ [1%float] [3%float])]
    [(1%nat, mappoint 1 40 [(1%nat, 0%nat)]);
     (2%nat, mappoint 2 41 [(1%nat, 1%nat)]);
     (3%nat, mappoint 3 42 [(1%nat, 2%nat); (2%nat, 0%nat)])]
    [(1%nat, landmark 0 0.9%float 50); (2%nat, landmark 1 0.5%float 51)].

(** MapPoint 1 is live, MapPoint 2 has been flagged bad. *)
Definition scene_bad_point : SceneGraph :=
  scene []
    [(1%nat, mappoint 1 40 []);
     (2%nat, {| MapPoint.mnId := 2; MapPoint.mnBALocalForKF := 0;
                MapPoint.isBad := true; MapPoint.GetWorldPos := 41;
                MapPoint.GetObservations := []; MapPoint.mNormalAndDepth := 0 |})]
    [].

Definition stop_at_once : StopFlag :=
  {| before_first_optimize := true; after_first_optimize := true |}.

Definition stop_after_first : StopFlag :=
  {| before_first_optimize := false; after_first_optimize := true |}.

Definition never_stop : StopFlag :=
  {| before_first_optimize := false; after_first_optimize := false |}.

(** A monocular factor with measurement (x, 0) and a stereo one. *)
Definition mono_factor (x : float) : EdgeSE3ProjectXYZ.t :=
  {| EdgeSE3ProjectXYZ.vertex0 := Some 8; EdgeSE3ProjectXYZ.vertex1 := Some 5;
     EdgeSE3ProjectXYZ.measurement := (x, 0%float);
     EdgeSE3ProjectXYZ.information := scale (Identity 2) 1%float;
     EdgeSE3ProjectXYZ.robustKernel := Some {| delta := thHuberMono |};
     EdgeSE3ProjectXYZ.level := 0;
     EdgeSE3ProjectXYZ.fx := 1%float; EdgeSE3ProjectXYZ.fy := 1%float;
     EdgeSE3ProjectXYZ.cx := 0%float; EdgeSE3ProjectXYZ.cy := 0%float |}.

Definition stereo_factor (x : float) : EdgeStereoSE3ProjectXYZ.t :=
  {| EdgeStereoSE3ProjectXYZ.vertex0 := Some 8;
     EdgeStereoSE3ProjectXYZ.vertex1 := Some 5;
     EdgeStereoSE3ProjectXYZ.measurement := (x, 0%float, 0%float);
     EdgeStereoSE3ProjectXYZ.information := scale (Identity 3) 1%float;
     EdgeStereoSE3ProjectXYZ.robustKernel := Some {| delta := thHuberStereo |};
     EdgeStereoSE3ProjectXYZ.level := 0;
     EdgeStereoSE3ProjectXYZ.fx := 1%float; EdgeStereoSE3ProjectXYZ.fy := 1%float;
     EdgeStereoSE3ProjectXYZ.cx := 0%float; EdgeStereoSE3ProjectXYZ.cy := 0%float;
     EdgeStereoSE3ProjectXYZ.bf := 0%float |}.

(** An optimizer holding one monocular factor on MapPoint [pMP1] and one
    stereo factor on MapPoint [pMP2], both with residual [x]. *)
Definition optimizer_with_factors (x : float) (pMP1 pMP2 : MapPointPtr)
    : SparseOptimizer :=
  addEdgeStereo (stereo_factor x) 1%nat pMP2
    (addEdgeMono (mono_factor x) 1%nat pMP1 empty_optimizer).

End Fixture.

(** * Properties *)

(** ** Loops over the scene graph *)

Section Folds.
Context `{Geometry}.

Lemma fold_left_scene_rel {X B} (R : relation SceneGraph) `{!PreOrder R}
    (f : X * SceneGraph -> B -> X * SceneGraph) (l : list B) (acc : X * SceneGraph) :
  (forall acc b, b ∈ l -> R acc.2 (f acc b).2) ->
  R acc.2 (fold_left f l acc).2.
Proof.
  revert acc.
  induction l as [|b l IH]; intros acc Hstep; cbn [fold_left]; [reflexivity|].
  etransitivity; [apply (Hstep acc b); by left|].
  apply IH. intros ???. apply Hstep. by right.
Qed.

Lemma foldM_scene_rel {A B} (R : relation SceneGraph) `{!PreOrder R}
    (f : A -> B -> SceneGraph -> Outcome A) (l : list B) (a : A) (s : SceneGraph) :
  (forall a b s, b ∈ l -> R s (scene_of (f a b s))) ->
  R s (scene_of (foldM f l a s)).
Proof.
  revert a s.
  induction l as [|b l IH]; intros a s Hstep; cbn [foldM]; [reflexivity|].
  pose proof (Hstep a b s ltac:(by left)) as Hb.
  destruct (f a b s) as [a' s'|s']; cbn [scene_of] in *; [|exact Hb].
  etransitivity; [exact Hb|]. apply IH. intros ????. apply Hstep. by right.
Qed.

Lemma foldM_app {A B} (f : A -> B -> SceneGraph -> Outcome A) l1 l2 a s :
  foldM f (l1 ++ l2) a s
  = match foldM f l1 a s with
    | Ok a' s' => foldM f l2 a' s'
    | Fault s' => Fault s'
    end.
Proof.
  revert a s. induction l1 as [|b l1 IH]; intros a s; cbn [foldM app]; [reflexivity|].
  destruct (f a b s); [apply IH|reflexivity].
Qed.

(** An invariant of the accumulator and the scene along [foldM]. *)
Lemma foldM_invariant {A B} (P : A -> SceneGraph -> Prop)
    (f : A -> B -> SceneGraph -> Outcome A) (l : list B) (a : A) (s : SceneGraph) :
  (forall a b s a' s', b ∈ l -> P a s -> f a b s = Ok a' s' -> P a' s') ->
  P a s ->
  forall a' s', foldM f l a s = Ok a' s' -> P a' s'.
Proof.
  revert a s. induction l as [|b l IH]; intros a s Hstep HP a' s'; cbn [foldM].
  - intros [= <- <-]. exact HP.
  - destruct (f a b s) as [a1 s1|s1] eqn:Hf; [|discriminate].
    apply IH.
    + intros ???????. eapply Hstep; [|done..]. by right.
    + eapply Hstep; [by left|exact HP|exact Hf].
Qed.

(** A property established by the turn for [b] and kept by every turn
    holds after a [foldM] that ends well. *)
Lemma foldM_establish {A B} (I Q : A -> SceneGraph -> Prop)
    (f : A -> B -> SceneGraph -> Outcome A) (l : list B) (a : A) (s : SceneGraph)
    (b : B) (a' : A) (s' : SceneGraph) :
  b ∈ l -> I a s -> foldM f l a s = Ok a' s' ->
  (forall a b' s a1 s1, b' ∈ l -> I a s -> f a b' s = Ok a1 s1 -> I a1 s1) ->
  (forall a s a1 s1, I a s -> f a b s = Ok a1 s1 -> Q a1 s1) ->
  (forall a b' s a1 s1, b' ∈ l -> I a s -> Q a s -> f a b' s = Ok a1 s1 -> Q a1 s1) ->
  Q a' s'.
Proof.
  intros Hb HI Hfold HstepI Hest Hkeep.
  apply list_elem_of_split in Hb as (l1 & l2 & ->).
  rewrite foldM_app in Hfold.
  destruct (foldM f l1 a s) as [a1 s1|s1] eqn:H1; [|discriminate].
  assert (HI1 : I a1 s1).
  { apply (foldM_invariant I f l1 a s); [|exact HI|exact H1].
    intros ????? Hin. apply HstepI. apply elem_of_app; by left. }
  cbn [foldM] in Hfold.
  destruct (f a1 b s1) as [a2 s2|s2] eqn:H2; [|discriminate].
  assert (Hin : b ∈ l1 ++ b :: l2) by (apply elem_of_app; right; by left).
  apply (foldM_invariant (fun a s => I a s /\ Q a s) f l2 a2 s2); [| |exact Hfold].
  - intros a3 b3 s3 a4 s4 Hin3 [HI3 HQ3] H3.
    assert (Hin' : b3 ∈ l1 ++ b :: l2) by (apply elem_of_app; right; by right).
    split; [by eapply HstepI|by eapply Hkeep].
  - split; [by eapply HstepI|by eapply Hest].
Qed.

(** A [foldM] whose every turn goes well goes well. *)
Lemma foldM_succeeds {A B} (I : SceneGraph -> Prop)
    (f : A -> B -> SceneGraph -> Outcome A) (l : list B) (a : A) (s : SceneGraph) :
  I s ->
  (forall a b s, b ∈ l -> I s -> exists a' s', f a b s = Ok a' s' /\ I s') ->
  exists a' s', foldM f l a s = Ok a' s' /\ I s'.
Proof.
  revert a s. induction l as [|b l IH]; intros a s HI Hstep; cbn [foldM].
  - by exists a, s.
  - destruct (Hstep a b s ltac:(by left) HI) as (a1 & s1 & -> & HI1).
    apply IH; [exact HI1|]. intros ????. apply Hstep. by right.
Qed.

Lemma fold_left_invariant {X B} (P : X -> Prop) (f : X -> B -> X) (l : list B) (x : X) :
  (forall x b, b ∈ l -> P x -> P (f x b)) -> P x -> P (fold_left f l x).
Proof.
  revert x. induction l as [|b l IH]; intros x Hstep HP; cbn [fold_left]; [exact HP|].
  apply IH.
  - intros ????. apply Hstep; [by right|done].
  - apply Hstep; [by left|done].
Qed.
End Folds.

(** ** Scratch fields and persistent state *)

Section Frames.
Context `{Geometry}.

#[global] Instance same_persistent_state_preorder : PreOrder same_persistent_state.
Proof.
  split.
  - by intros s.
  - intros s1 s2 s3 (Hk & Hm & Hl) (Hk' & Hm' & Hl').
    split; [|split]; intros p.
    + by rewrite Hk', Hk.
    + by rewrite Hm', Hm.
    + by rewrite Hl', Hl.
Qed.

#[global] Instance same_scene_preorder : PreOrder same_scene.
Proof.
  split.
  - by intros s.
  - intros s1 s2 s3 (Hk & Hm & Hl) (Hk' & Hm' & Hl').
    split; [|split]; intros p.
    + by rewrite Hk', Hk.
    + by rewrite Hm', Hm.
    + by rewrite Hl', Hl.
Qed.

Lemma same_scene_persistent s s' : same_scene s s' -> same_persistent_state s s'.
Proof.
  intros (Hk & Hm & Hl). split; [|split]; intros p; [by rewrite Hk|by rewrite Hm|done].
Qed.

Lemma keyframes_update_keyframe p f s q :
  keyframes (update_keyframe p f s) q
  = if decide (q = p) then f (keyframes s p) else keyframes s q.
Proof. reflexivity. Qed.

Lemma mappoints_update_mappoint p f s q :
  mappoints (update_mappoint p f s) q
  = if decide (q = p) then f (mappoints s p) else mappoints s q.
Proof. reflexivity. Qed.

Lemma landmarks_update_landmark p f s q :
  landmarks (update_landmark p f s) q
  = if decide (q = p) then f (landmarks s p) else landmarks s q.
Proof. reflexivity. Qed.

Lemma update_keyframe_scratch p f s :
  (forall k, persistent_keyframe (f k) = persistent_keyframe k) ->
  same_persistent_state s (update_keyframe p f s).
Proof.
  intros Hf. split; [|by split]. intros q.
  rewrite keyframes_update_keyframe. case_decide as Hq; [|done].
  subst q. apply Hf.
Qed.

Lemma update_mappoint_scratch p f s :
  (forall m, persistent_mappoint (f m) = persistent_mappoint m) ->
  same_persistent_state s (update_mappoint p f s).
Proof.
  intros Hf. split; [done|split; [|done]]. intros q.
  rewrite mappoints_update_mappoint. case_decide as Hq; [|done].
  subst q. apply Hf.
Qed.

(** What [same_persistent_state] keeps, field by field. *)
Lemma persistent_keyframe_fields k k' :
  persistent_keyframe k' = persistent_keyframe k ->
  KeyFrame.mnId k' = KeyFrame.mnId k
  /\ KeyFrame.isBad k' = KeyFrame.isBad k
  /\ KeyFrame.GetVectorCovisibleKeyFrames k' = KeyFrame.GetVectorCovisibleKeyFrames k
  /\ KeyFrame.GetMapPointMatches k' = KeyFrame.GetMapPointMatches k
  /\ KeyFrame.GetLandmarks k' = KeyFrame.GetLandmarks k
  /\ KeyFrame.cam_pose_Twc k' = KeyFrame.cam_pose_Twc k
  /\ KeyFrame.GetPose k' = KeyFrame.GetPose k
  /\ KeyFrame.mvKeysUn k' = KeyFrame.mvKeysUn k
  /\ KeyFrame.mvuRight k' = KeyFrame.mvuRight k
  /\ KeyFrame.mvInvLevelSigma2 k' = KeyFrame.mvInvLevelSigma2 k.
Proof.
  intros Heq.
  repeat split.
  - exact (f_equal KeyFrame.mnId Heq).
  - exact (f_equal KeyFrame.isBad Heq).
  - exact (f_equal KeyFrame.GetVectorCovisibleKeyFrames Heq).
  - exact (f_equal KeyFrame.GetMapPointMatches Heq).
  - exact (f_equal KeyFrame.GetLandmarks Heq).
  - exact (f_equal KeyFrame.cam_pose_Twc Heq).
  - exact (f_equal KeyFrame.GetPose Heq).
  - exact (f_equal KeyFrame.mvKeysUn Heq).
  - exact (f_equal KeyFrame.mvuRight Heq).
  - exact (f_equal KeyFrame.mvInvLevelSigma2 Heq).
Qed.

Lemma persistent_mappoint_fields m m' :
  persistent_mappoint m' = persistent_mappoint m ->
  MapPoint.mnId m' = MapPoint.mnId m
  /\ MapPoint.isBad m' = MapPoint.isBad m
  /\ MapPoint.GetWorldPos m' = MapPoint.GetWorldPos m
  /\ MapPoint.GetObservations m' = MapPoint.GetObservations m
  /\ MapPoint.mNormalAndDepth m' = MapPoint.mNormalAndDepth m.
Proof.
  intros Heq.
  repeat split.
  - exact (f_equal MapPoint.mnId Heq).
  - exact (f_equal MapPoint.isBad Heq).
  - exact (f_equal MapPoint.GetWorldPos Heq).
  - exact (f_equal MapPoint.GetObservations Heq).
  - exact (f_equal MapPoint.mNormalAndDepth Heq).
Qed.

(** *** Window selection writes stamps only *)

Lemma stamp_neighbour_scratch id acc pKFi :
  same_persistent_state acc.2 (stamp_neighbour id acc pKFi).2.
Proof. unfold stamp_neighbour; cbn [snd]. by apply update_keyframe_scratch. Qed.

Lemma SelectLocalKeyFrames_scratch pKF s :
  same_persistent_state s (SelectLocalKeyFrames pKF s).2.
Proof.
  unfold SelectLocalKeyFrames. cbv zeta.
  etransitivity; [|apply (fold_left_scene_rel same_persistent_state);
                   intros; apply stamp_neighbour_scratch].
  cbn [snd]. by apply update_keyframe_scratch.
Qed.

Lemma visit_match_scratch id acc m :
  same_persistent_state acc.2 (visit_match id acc m).2.
Proof.
  unfold visit_match. destruct m as [pMP|]; [|reflexivity].
  destruct (MapPoint.isBad _); [reflexivity|].
  destruct (_ =? _); [reflexivity|]. cbn [snd].
  by apply update_mappoint_scratch.
Qed.

Lemma SelectLocalMapPoints_scratch id l s :
  same_persistent_state s (SelectLocalMapPoints id l s).2.
Proof.
  unfold SelectLocalMapPoints.
  apply (fold_left_scene_rel same_persistent_state _ _ ([], s)).
  intros acc pKFi _.
  apply (fold_left_scene_rel same_persistent_state).
  intros; apply visit_match_scratch.
Qed.

Lemma visit_observer_scratch id acc o :
  same_persistent_state acc.2 (visit_observer id acc o).2.
Proof.
  unfold visit_observer. cbv zeta.
  destruct (_ && _); [|reflexivity]. cbn [snd].
  by apply update_keyframe_scratch.
Qed.

Lemma SelectFixedCameras_scratch id l s :
  same_persistent_state s (SelectFixedCameras id l s).2.
Proof.
  unfold SelectFixedCameras.
  apply (fold_left_scene_rel same_persistent_state _ _ ([], s)).
  intros acc pMP _.
  apply (fold_left_scene_rel same_persistent_state).
  intros; apply visit_observer_scratch.
Qed.

Lemma SelectWindow_scratch pKF s :
  same_persistent_state s (SelectWindow pKF s).2.
Proof.
  unfold SelectWindow. cbv zeta. cbn [snd].
  etransitivity; [apply SelectLocalKeyFrames_scratch|].
  etransitivity; [apply SelectLocalMapPoints_scratch|].
  apply SelectFixedCameras_scratch.
Qed.

(** *** Graph construction writes measurement caches only *)

Lemma cache_landmark_scratch pKFi acc pLandmark :
  same_persistent_state acc.2 (cache_landmark pKFi acc pLandmark).2.
Proof. unfold cache_landmark; cbn [snd]. by apply update_keyframe_scratch. Qed.

Lemma add_local_keyframe_scratch st pKFi :
  same_persistent_state st.2 (add_local_keyframe st pKFi).2.
Proof.
  unfold add_local_keyframe. cbv zeta. cbn [snd].
  apply (fold_left_scene_rel same_persistent_state _ _ (lLocalLandmarks st.1, st.2)).
  intros; apply cache_landmark_scratch.
Qed.

Lemma BuildVertices_scratch w s :
  same_persistent_state s (BuildVertices w s).2.
Proof.
  unfold BuildVertices. cbv zeta. cbn [snd].
  apply (fold_left_scene_rel same_persistent_state _ _ (_, s)).
  intros; apply add_local_keyframe_scratch.
Qed.

Lemma read_landmarkMeasurement_scratch pKFi lid s :
  same_persistent_state s (read_landmarkMeasurement pKFi lid s).2.
Proof.
  unfold read_landmarkMeasurement.
  destruct (_ !! _); cbn [snd]; [reflexivity|].
  by apply update_keyframe_scratch.
Qed.

Lemma add_cuboid_edge_scratch maxKFId pKFi acc pLandmark :
  same_persistent_state acc.2 (add_cuboid_edge maxKFId pKFi acc pLandmark).2.
Proof.
  unfold add_cuboid_edge. cbv zeta. cbn [snd].
  apply read_landmarkMeasurement_scratch.
Qed.

Lemma add_observation_scratch maxKFId id pMP o observation s :
  same_persistent_state s (scene_of (add_observation maxKFId id pMP o observation s)).
Proof.
  unfold add_observation. cbv zeta.
  destruct (KeyFrame.isBad _); [reflexivity|].
  destruct (_ !! _) as [kpUn|]; [|reflexivity].
  destruct (_ !! _) as [ur|]; [|reflexivity].
  destruct (vector_at _ _) as [invSigma2|]; [|reflexivity].
  destruct (PrimFloat.ltb _ _); [|reflexivity]. cbn [scene_of].
  apply (fold_left_scene_rel same_persistent_state _ _ (_, s)).
  intros; apply add_cuboid_edge_scratch.
Qed.

Lemma add_mappoint_scratch maxKFId maxLandmarkId o pMP s :
  same_persistent_state s (scene_of (add_mappoint maxKFId maxLandmarkId o pMP s)).
Proof.
  unfold add_mappoint. cbv zeta.
  apply (foldM_scene_rel same_persistent_state).
  intros; apply add_observation_scratch.
Qed.

Lemma BuildGraph_scratch w s :
  same_persistent_state s (scene_of (BuildGraph w s)).
Proof.
  unfold BuildGraph. cbv zeta.
  etransitivity; [apply (BuildVertices_scratch w s)|].
  pose proof (foldM_scene_rel same_persistent_state
                (add_mappoint (maxKFId (BuildVertices w s).1)
                   (maxLandmarkId (BuildVertices w s).1))
                (lLocalMapPoints w) (optimizer (BuildVertices w s).1)
                (BuildVertices w s).2) as Hfold.
  destruct (foldM _ _ _ _); cbn [scene_of] in *;
    apply Hfold; intros; apply add_mappoint_scratch.
Qed.
End Frames.

(** ** The window: Local KeyFrames and Fixed Cameras are apart *)

Section WindowFacts.
Context `{Geometry}.

Lemma SelectLocalKeyFrames_stamped pKF s p :
  p ∈ (SelectLocalKeyFrames pKF s).1 ->
  KeyFrame.mnBALocalForKF (keyframes (SelectLocalKeyFrames pKF s).2 p)
  = KeyFrame.mnId (keyframes s pKF).
Proof.
  unfold SelectLocalKeyFrames. cbv zeta.
  set (id := KeyFrame.mnId (keyframes s pKF)).
  revert p.
  apply (fold_left_invariant
           (fun acc : list KeyFramePtr * SceneGraph =>
              forall p, p ∈ acc.1 ->
                KeyFrame.mnBALocalForKF (keyframes acc.2 p) = id)).
  - intros acc pKFi _ IH p. unfold stamp_neighbour; cbn [fst snd].
    intros Hin. rewrite keyframes_update_keyframe.
    destruct (decide (p = pKFi)) as [Hp|Hp]; [reflexivity|].
    apply IH.
    destruct (KeyFrame.isBad _); [done|].
    apply elem_of_app in Hin as [Hin|Hin]; [done|].
    apply list_elem_of_singleton in Hin. done.
  - intros p Hp. apply list_elem_of_singleton in Hp as ->. cbn [fst snd].
    rewrite keyframes_update_keyframe. by rewrite decide_True.
Qed.

Lemma SelectLocalMapPoints_keyframes id l s :
  keyframes (SelectLocalMapPoints id l s).2 = keyframes s.
Proof.
  unfold SelectLocalMapPoints.
  apply (fold_left_invariant
           (fun acc : list MapPointPtr * SceneGraph => keyframes acc.2 = keyframes s));
    [|reflexivity].
  intros acc pKFi _ IH.
  apply (fold_left_invariant
           (fun acc : list MapPointPtr * SceneGraph => keyframes acc.2 = keyframes s));
    [|exact IH].
  intros acc' m _ IH'. unfold visit_match.
  destruct m as [pMP|]; [|exact IH'].
  destruct (MapPoint.isBad _); [exact IH'|].
  destruct (_ =? _); exact IH'.
Qed.

Lemma visit_observer_invariant id s acc o :
  fixed_cameras_invariant id s acc ->
  fixed_cameras_invariant id s (visit_observer id acc o).
Proof.
  intros [Hfix Hloc]. unfold visit_observer. cbv zeta.
  destruct (negb (KeyFrame.mnBALocalForKF _ =? id)) eqn:Hl; cbn [andb]; [|by split].
  destruct (negb (KeyFrame.mnBAFixedForKF _ =? id)); [|by split].
  split; cbn [fst snd].
  - intros f Hf. rewrite keyframes_update_keyframe, decide_True in Hf by done.
    assert (Hnew : KeyFrame.mnBALocalForKF (keyframes s o.1) <> id).
    { rewrite <- Hloc. apply negb_true_iff, Z.eqb_neq in Hl. exact Hl. }
    destruct (KeyFrame.isBad _); [by apply Hfix|].
    apply elem_of_app in Hf as [Hf|Hf]; [by apply Hfix|].
    apply list_elem_of_singleton in Hf as ->. exact Hnew.
  - intros p. rewrite keyframes_update_keyframe.
    case_decide as Hp; [subst p|]; apply Hloc.
Qed.

Lemma SelectFixedCameras_invariant id l s :
  fixed_cameras_invariant id s (SelectFixedCameras id l s).
Proof.
  unfold SelectFixedCameras.
  apply (fold_left_invariant (fixed_cameras_invariant id s));
    [|split; [by intros ? ?%elem_of_nil|done]].
  intros acc pMP _ IH.
  apply (fold_left_invariant (fixed_cameras_invariant id s)); [|exact IH].
  intros acc' o _. apply visit_observer_invariant.
Qed.

(** No KeyFrame is both a Local KeyFrame and a Fixed Camera. *)
Lemma window_roles_apart pKF s f :
  f ∈ lFixedCameras (SelectWindow pKF s).1 ->
  f ∉ lLocalKeyFrames (SelectWindow pKF s).1.
Proof.
  unfold SelectWindow. cbv zeta. cbn [fst lFixedCameras lLocalKeyFrames].
  intros Hfix Hloc.
  apply SelectFixedCameras_invariant in Hfix.
  apply SelectLocalKeyFrames_stamped in Hloc.
  rewrite SelectLocalMapPoints_keyframes in Hfix. done.
Qed.
End WindowFacts.

(** ** The commit writes poses of Local KeyFrames only *)

Section CommitFacts.
Context `{Geometry}.

#[global] Instance poses_kept_outside_preorder L : PreOrder (poses_kept_outside L).
Proof.
  split.
  - by intros s p.
  - intros s1 s2 s3 H12 H23 p Hp. by rewrite H23, H12.
Qed.

Lemma same_persistent_poses L s s' :
  same_persistent_state s s' -> poses_kept_outside L s s'.
Proof.
  intros (Hk & _) p _.
  by destruct (persistent_keyframe_fields _ _ (Hk p)) as (_&_&_&_&_&_&?&_).
Qed.

Lemma erase_link_poses L s i : poses_kept_outside L s (erase_link s i).
Proof.
  intros p _. unfold erase_link. cbn.
  unfold upd. case_decide; [by subst|done].
Qed.

Lemma erase_links_poses L vToErase s :
  poses_kept_outside L s (fold_left erase_link vToErase s).
Proof.
  apply (fold_left_invariant (poses_kept_outside L s)); [|reflexivity].
  intros s' i _ IH. etransitivity; [exact IH|apply erase_link_poses].
Qed.

Lemma recover_keyframe_poses L o u pLocalKF s :
  pLocalKF ∈ L ->
  poses_kept_outside L s (scene_of (recover_keyframe o u pLocalKF s)).
Proof.
  intros Hin. unfold recover_keyframe.
  destruct (_ !! _) as [[[q|c|pt] ? ?]|]; cbn [scene_of]; try reflexivity.
  intros p Hp. rewrite keyframes_update_keyframe.
  case_decide; [by subst|done].
Qed.

Lemma recover_landmark_poses L o maxKFId u pLandmark s :
  poses_kept_outside L s (scene_of (recover_landmark o maxKFId u pLandmark s)).
Proof.
  unfold recover_landmark.
  destruct (_ !! _) as [[[q|c|pt] ? ?]|]; cbn [scene_of]; by intros p _.
Qed.

Lemma recover_mappoint_poses L o maxKFId u pMP s :
  poses_kept_outside L s (scene_of (recover_mappoint o maxKFId u pMP s)).
Proof.
  unfold recover_mappoint.
  destruct (_ !! _) as [[[q|c|pt] ? ?]|]; cbn [scene_of]; by intros p _.
Qed.

Lemma scene_of_bind {A B} (R : relation SceneGraph) `{!PreOrder R}
    (r : Outcome A) (f : A -> SceneGraph -> Outcome B) s :
  R s (scene_of r) -> (forall a s', R s' (scene_of (f a s'))) ->
  R s (scene_of (bind r f)).
Proof.
  intros Hr Hf. destruct r as [a s'|s']; cbn [bind scene_of] in *; [|exact Hr].
  etransitivity; [exact Hr|apply Hf].
Qed.

Lemma Commit_poses w l vToErase s :
  poses_kept_outside (lLocalKeyFrames w) s (scene_of (Commit w l vToErase s)).
Proof.
  unfold Commit. cbv zeta.
  etransitivity; [apply erase_links_poses|].
  apply (scene_of_bind (poses_kept_outside (lLocalKeyFrames w))).
  { apply (foldM_scene_rel (poses_kept_outside (lLocalKeyFrames w))).
    intros; by apply recover_keyframe_poses. }
  intros _ s2.
  apply (scene_of_bind (poses_kept_outside (lLocalKeyFrames w))).
  { apply (foldM_scene_rel (poses_kept_outside (lLocalKeyFrames w))).
    intros; apply recover_landmark_poses. }
  intros _ s3.
  apply (foldM_scene_rel (poses_kept_outside (lLocalKeyFrames w))).
  intros; apply recover_mappoint_poses.
Qed.
End CommitFacts.

(** ** The vertices of the graph *)

Section FoldEstablish.
(** A property established by the turn for [b] and kept by every turn
    holds after the loop. *)
Lemma fold_left_establish {X B} (I Q : X -> Prop) (f : X -> B -> X)
    (l : list B) (x : X) (b : B) :
  b ∈ l -> I x ->
  (forall x b', b' ∈ l -> I x -> I (f x b')) ->
  (forall x, I x -> Q (f x b)) ->
  (forall x b', b' ∈ l -> I x -> Q x -> Q (f x b')) ->
  Q (fold_left f l x).
Proof.
  intros Hb HI HstepI Hest Hkeep.
  apply list_elem_of_split in Hb as (l1 & l2 & ->).
  rewrite fold_left_app. cbn [fold_left].
  assert (HI1 : I (fold_left f l1 x)).
  { apply (fold_left_invariant I); [|exact HI].
    intros x' b' Hb'. apply HstepI. apply elem_of_app; by left. }
  assert (HIb : I (f (fold_left f l1 x) b)).
  { apply HstepI; [|exact HI1]. apply elem_of_app; right; by left. }
  apply (fold_left_invariant (fun x => I x /\ Q x)); [|split; [exact HIb|by apply Hest]].
  intros x' b' Hb' [HI' HQ'].
  assert (Hin : b' ∈ l1 ++ b :: l2) by (apply elem_of_app; right; by right).
  split; [by apply HstepI|by apply Hkeep].
Qed.
End FoldEstablish.

Section VertexStore.
Context `{Geometry}.

Lemma addVertex_subseteq id v o : vertices o ⊆ vertices (addVertex id v o).
Proof.
  unfold addVertex. destruct (vertices o !! id) eqn:Hid; [done|].
  cbn [vertices set_vertices]. by apply insert_subseteq.
Qed.

Lemma addVertex_is_Some id v o : is_Some (vertices (addVertex id v o) !! id).
Proof.
  unfold addVertex. destruct (vertices o !! id) eqn:Hid; [by rewrite Hid|].
  cbn [vertices set_vertices]. by rewrite lookup_insert_eq.
Qed.

Lemma addVertex_lookup id v o id' v' :
  vertices (addVertex id v o) !! id' = Some v' ->
  vertices o !! id' = Some v' \/ (id' = id /\ v' = v /\ vertices o !! id = None).
Proof.
  unfold addVertex. destruct (vertices o !! id) eqn:Hid; [by left|].
  cbn [vertices set_vertices]. rewrite lookup_insert.
  case_decide as Hi; [|by left]. intros [= <-]. right. by subst.
Qed.

Lemma addVertex_fresh id v o :
  vertices o !! id = None -> vertices (addVertex id v o) !! id = Some v.
Proof.
  intros Hid. unfold addVertex. rewrite Hid.
  cbn [vertices set_vertices]. by rewrite lookup_insert_eq.
Qed.

Lemma vertex_Some o id : is_Some (vertices o !! id) -> vertex o id = Some id.
Proof. unfold vertex. by intros [v ->]. Qed.

Lemma vertex_inv o id r : vertex o id = Some r -> r = id /\ is_Some (vertices o !! id).
Proof. unfold vertex. destruct (vertices o !! id); [|done]. intros [= <-]. eauto. Qed.

Lemma local_keyframe_vertex_persistent k k' :
  persistent_keyframe k' = persistent_keyframe k ->
  local_keyframe_vertex k' = local_keyframe_vertex k.
Proof.
  intros Hk. destruct (persistent_keyframe_fields _ _ Hk) as (Hid&_&_&_&_&_&Hpose&_).
  unfold local_keyframe_vertex. by rewrite Hid, Hpose.
Qed.

Lemma fixed_keyframe_vertex_persistent k k' :
  persistent_keyframe k' = persistent_keyframe k ->
  fixed_keyframe_vertex k' = fixed_keyframe_vertex k.
Proof.
  intros Hk. destruct (persistent_keyframe_fields _ _ Hk) as (Hid&_&_&_&_&_&Hpose&_).
  unfold fixed_keyframe_vertex. by rewrite Hpose.
Qed.

(** *** The loop over the Local KeyFrames (lines 102-116) *)

Lemma addVertex_no_edges id v o : no_edges o -> no_edges (addVertex id v o).
Proof. unfold addVertex. by destruct (vertices o !! id). Qed.

Lemma cache_landmarks_list pKFi lms acc :
  forall lm, lm ∈ (fold_left (cache_landmark pKFi) lms acc).1 <->
             lm ∈ acc.1 \/ lm ∈ lms.
Proof.
  revert acc. induction lms as [|b lms IH]; intros acc lm; cbn [fold_left].
  - split; [by left|]. intros [?|Hin]; [done|]. by apply elem_of_nil in Hin.
  - rewrite IH. unfold cache_landmark at 1; cbn [fst]. unfold insert_landmark.
    rewrite elem_of_cons. case_decide as Hb.
    + split; [intros [?|?]; auto|]. intros [?|[->|?]]; auto.
    + rewrite elem_of_app, list_elem_of_singleton.
      split; [intros [[?|?]|?]; auto|]. intros [?|[?|?]]; auto.
Qed.

Lemma same_persistent_keyframe s s' p :
  same_persistent_state s s' ->
  persistent_keyframe (keyframes s' p) = persistent_keyframe (keyframes s p).
Proof. by intros (Hk & _). Qed.

Lemma same_persistent_mappoint s s' p :
  same_persistent_state s s' ->
  persistent_mappoint (mappoints s' p) = persistent_mappoint (mappoints s p).
Proof. by intros (_ & Hm & _). Qed.

Lemma same_persistent_landmark s s' p :
  same_persistent_state s s' -> landmarks s' p = landmarks s p.
Proof. by intros (_ & _ & Hl). Qed.

Lemma same_persistent_mnId s s' p :
  same_persistent_state s s' ->
  KeyFrame.mnId (keyframes s' p) = KeyFrame.mnId (keyframes s p).
Proof.
  intros Hs. by destruct (persistent_keyframe_fields _ _
                            (same_persistent_keyframe _ _ p Hs)) as (?&_).
Qed.

Lemma same_persistent_GetLandmarks s s' p :
  same_persistent_state s s' ->
  KeyFrame.GetLandmarks (keyframes s' p) = KeyFrame.GetLandmarks (keyframes s p).
Proof.
  intros Hs. by destruct (persistent_keyframe_fields _ _
                            (same_persistent_keyframe _ _ p Hs)) as (_&_&_&_&?&_).
Qed.

Lemma add_local_keyframe_invariant w s st pKFi :
  pKFi ∈ lLocalKeyFrames w ->
  local_loop_invariant w s st ->
  local_loop_invariant w s (add_local_keyframe st pKFi).
Proof.
  intros Hin (Hs & Hv & Hmax & Hlm & Hne & Hll).
  assert (Hs' : same_persistent_state s (add_local_keyframe st pKFi).2).
  { etransitivity; [exact Hs|apply add_local_keyframe_scratch]. }
  split; [exact Hs'|].
  unfold add_local_keyframe in *. cbv zeta in *. cbn [fst snd] in *.
  cbn [optimizer maxKFId maxLandmarkId lLocalLandmarks].
  split; [|split; [|split; [|split]]].
  - intros id v Hid. apply addVertex_lookup in Hid as [Hid|(-> & -> & _)]; [by apply Hv|].
    exists pKFi. split; [exact Hin|].
    rewrite (same_persistent_mnId _ _ pKFi Hs').
    split; [reflexivity|].
    apply local_keyframe_vertex_persistent, same_persistent_keyframe, Hs'.
  - destruct (_ >? _) eqn:Hgt; [|exact Hmax]. lia.
  - exact Hlm.
  - by apply addVertex_no_edges.
  - intros lm Hlm'. apply cache_landmarks_list in Hlm' as [Hlm'|Hlm']; cbn [fst] in Hlm'.
    + by apply Hll.
    + exists pKFi. split; [exact Hin|].
      by rewrite <- (same_persistent_GetLandmarks _ _ pKFi Hs).
Qed.

Lemma local_loop_invariant_holds w s L :
  L ⊆ lLocalKeyFrames w ->
  local_loop_invariant w s (fold_left add_local_keyframe L (locals0, s)).
Proof.
  intros HL.
  apply (fold_left_invariant (local_loop_invariant w s)).
  - intros st pKFi Hin. apply add_local_keyframe_invariant. by apply HL.
  - split; [reflexivity|]. split; [|split; [done|split; [done|split; [done|]]]].
    + intros id v Hid. cbn in Hid. by rewrite lookup_empty in Hid.
    + intros lm Hlm. cbn in Hlm. by apply elem_of_nil in Hlm.
Qed.

Lemma add_local_keyframe_vertices_mono st pKFi :
  vertices (optimizer st.1) ⊆ vertices (optimizer (add_local_keyframe st pKFi).1).
Proof. unfold add_local_keyframe. cbv zeta. cbn. apply addVertex_subseteq. Qed.

Lemma add_local_keyframe_maxKFId_mono st pKFi :
  maxKFId st.1 <= maxKFId (add_local_keyframe st pKFi).1.
Proof.
  unfold add_local_keyframe. cbv zeta. cbn.
  destruct (_ >? _) eqn:Hgt; lia.
Qed.

Lemma add_local_keyframe_landmarks_mono st pKFi lm :
  lm ∈ lLocalLandmarks st.1 -> lm ∈ lLocalLandmarks (add_local_keyframe st pKFi).1.
Proof.
  unfold add_local_keyframe. cbv zeta. cbn [fst lLocalLandmarks]. intros Hlm.
  apply cache_landmarks_list. by left.
Qed.

(** After the loop every Local KeyFrame has a vertex under its id, bounds
    [maxKFId], and has its Landmarks among the Local Landmarks. *)
Lemma local_loop_covers w s k :
  k ∈ lLocalKeyFrames w ->
  let a := fold_left add_local_keyframe (lLocalKeyFrames w) (locals0, s) in
  is_Some (vertices (optimizer a.1) !! to_int (KeyFrame.mnId (keyframes s k)))
  /\ KeyFrame.mnId (keyframes s k) <= maxKFId a.1
  /\ (forall lm, lm ∈ KeyFrame.GetLandmarks (keyframes s k) -> lm ∈ lLocalLandmarks a.1).
Proof.
  intros Hk. cbv zeta.
  apply (fold_left_establish (fun st => same_persistent_state s st.2)
           (fun st : Locals * SceneGraph =>
              is_Some (vertices (optimizer st.1) !! to_int (KeyFrame.mnId (keyframes s k)))
              /\ KeyFrame.mnId (keyframes s k) <= maxKFId st.1
              /\ (forall lm, lm ∈ KeyFrame.GetLandmarks (keyframes s k) ->
                             lm ∈ lLocalLandmarks st.1))
           add_local_keyframe (lLocalKeyFrames w) (locals0, s) k Hk).
  - reflexivity.
  - intros st b _ Hs. etransitivity; [exact Hs|apply add_local_keyframe_scratch].
  - intros st Hs.
    assert (Hs' : same_persistent_state s (add_local_keyframe st k).2).
    { etransitivity; [exact Hs|apply add_local_keyframe_scratch]. }
    unfold add_local_keyframe in *. cbv zeta in *. cbn [fst snd] in *.
    cbn [optimizer maxKFId lLocalLandmarks].
    rewrite (same_persistent_mnId _ _ k Hs').
    split; [apply addVertex_is_Some|]. split.
    + destruct (_ >? _) eqn:Hgt; lia.
    + intros lm Hlm. apply cache_landmarks_list. right.
      by rewrite (same_persistent_GetLandmarks _ _ k Hs).
  - intros st b _ Hs (Hv & Hmax & Hlm). split; [|split].
    + destruct Hv as [v Hv]. exists v.
      eapply lookup_weaken; [exact Hv|apply add_local_keyframe_vertices_mono].
    + pose proof (add_local_keyframe_maxKFId_mono st b). lia.
    + intros lm Hin. by apply add_local_keyframe_landmarks_mono, Hlm.
Qed.

(** *** The loop over the Fixed Cameras (lines 119-127) *)

Lemma add_fixed_keyframe_invariant w s sa a l pKFi :
  same_persistent_state s sa ->
  pKFi ∈ lFixedCameras w ->
  fixed_loop_invariant w s a l ->
  fixed_loop_invariant w s a (add_fixed_keyframe sa l pKFi).
Proof.
  intros Hs Hin (Hv & Hsub & Hmax & Hlm & Hne & Hll).
  unfold add_fixed_keyframe. cbv zeta.
  split; [|split; [|split; [|split; [|split]]]];
    cbn [optimizer maxKFId maxLandmarkId lLocalLandmarks].
  - intros id v Hid. apply addVertex_lookup in Hid as [Hid|(-> & -> & _)]; [by apply Hv|].
    right. exists pKFi. split; [exact Hin|].
    rewrite (same_persistent_mnId _ _ pKFi Hs). split; [reflexivity|].
    apply fixed_keyframe_vertex_persistent, same_persistent_keyframe, Hs.
  - etransitivity; [exact Hsub|apply addVertex_subseteq].
  - destruct (_ >? _) eqn:Hgt; lia.
  - exact Hlm.
  - by apply addVertex_no_edges.
  - exact Hll.
Qed.

Lemma fixed_loop_covers w s sa a k :
  same_persistent_state s sa ->
  k ∈ lFixedCameras w ->
  let b := fold_left (add_fixed_keyframe sa) (lFixedCameras w) a in
  is_Some (vertices (optimizer b) !! to_int (KeyFrame.mnId (keyframes s k)))
  /\ KeyFrame.mnId (keyframes s k) <= maxKFId b.
Proof.
  intros Hs Hk. cbv zeta.
  apply (fold_left_establish (fun _ => True)
           (fun l : Locals =>
              is_Some (vertices (optimizer l) !! to_int (KeyFrame.mnId (keyframes s k)))
              /\ KeyFrame.mnId (keyframes s k) <= maxKFId l)
           (add_fixed_keyframe sa) (lFixedCameras w) a k Hk); [done|done|..].
  - intros l _. unfold add_fixed_keyframe. cbv zeta. cbn [optimizer maxKFId].
    rewrite (same_persistent_mnId _ _ k Hs).
    split; [apply addVertex_is_Some|]. destruct (_ >? _) eqn:Hgt; lia.
  - intros l b _ _ ([v Hv] & Hmax).
    unfold add_fixed_keyframe. cbv zeta. cbn [optimizer maxKFId]. split.
    + exists v. eapply lookup_weaken; [exact Hv|apply addVertex_subseteq].
    + destruct (_ >? _) eqn:Hgt; lia.
Qed.

(** *** The loop over the Local Landmarks (lines 129-138) *)

Lemma add_landmark_invariant w s sa b l pLandmark :
  same_persistent_state s sa ->
  pLandmark ∈ lLocalLandmarks b ->
  landmark_loop_invariant w s b l ->
  landmark_loop_invariant w s b (add_landmark sa l pLandmark).
Proof.
  intros Hs Hin (Hv & Hsub & Hmax & Hlm & Hne & Hll).
  unfold add_landmark. cbv zeta.
  split; [|split; [|split; [|split; [|split]]]];
    cbn [optimizer maxKFId maxLandmarkId lLocalLandmarks].
  - intros id v Hid. apply addVertex_lookup in Hid as [Hid|(-> & -> & _)]; [by apply Hv|].
    right; right. exists pLandmark. split; [exact Hin|].
    by rewrite (same_persistent_landmark _ _ pLandmark Hs), Hmax.
  - etransitivity; [exact Hsub|apply addVertex_subseteq].
  - exact Hmax.
  - destruct (_ >? _) eqn:Hgt; lia.
  - by apply addVertex_no_edges.
  - exact Hll.
Qed.

Lemma landmark_loop_covers s sa b lm :
  same_persistent_state s sa ->
  lm ∈ lLocalLandmarks b ->
  let c := fold_left (add_landmark sa) (lLocalLandmarks b) b in
  is_Some (vertices (optimizer c) !! landmark_vertex_id (maxKFId b) (landmarks s lm))
  /\ Landmark.mnLandmarkId (landmarks s lm) <= maxLandmarkId c.
Proof.
  intros Hs Hlm. cbv zeta.
  apply (fold_left_establish (fun l => maxKFId l = maxKFId b)
           (fun l : Locals =>
              is_Some (vertices (optimizer l)
                         !! landmark_vertex_id (maxKFId b) (landmarks s lm))
              /\ Landmark.mnLandmarkId (landmarks s lm) <= maxLandmarkId l)
           (add_landmark sa) (lLocalLandmarks b) b lm Hlm); [done|done|..].
  - intros l Hmax. unfold add_landmark. cbv zeta. cbn [optimizer maxLandmarkId].
    rewrite (same_persistent_landmark _ _ lm Hs), Hmax.
    split; [apply addVertex_is_Some|]. destruct (_ >? _) eqn:Hgt; lia.
  - intros l b' _ _ ([v Hv] & Hmax).
    unfold add_landmark. cbv zeta. cbn [optimizer maxLandmarkId]. split.
    + exists v. eapply lookup_weaken; [exact Hv|apply addVertex_subseteq].
    + destruct (_ >? _) eqn:Hgt; lia.
Qed.

(** *** The vertices before the loop over the MapPoints *)

Lemma BuildVertices_spec w s :
  let v := BuildVertices w s in
  same_persistent_state s v.2
  /\ (forall id x, vertices (optimizer v.1) !! id = Some x ->
        from_local_keyframe w s id x \/ from_fixed_camera w s id x
        \/ from_landmark (lLocalLandmarks v.1) (maxKFId v.1) s id x)
  /\ covered w s v.1
  /\ landmarks_of_window w s v.1
  /\ no_edges (optimizer v.1).
Proof.
  cbv zeta. unfold BuildVertices. cbv zeta. cbn [fst snd].
  set (a := fold_left add_local_keyframe (lLocalKeyFrames w) (locals0, s)).
  set (b := fold_left (add_fixed_keyframe a.2) (lFixedCameras w) a.1).
  set (c := fold_left (add_landmark a.2) (lLocalLandmarks b) b).
  destruct (local_loop_invariant_holds w s (lLocalKeyFrames w) ltac:(done))
    as (Hsa & Hva & Hmaxa & Hlma & Hnea & Hlla). fold a in Hsa, Hva, Hmaxa, Hlma, Hnea, Hlla.
  assert (Hb : fixed_loop_invariant w s a.1 b).
  { apply (fold_left_invariant (fixed_loop_invariant w s a.1)).
    - intros l k Hk. by apply add_fixed_keyframe_invariant.
    - split; [intros id x Hid; left; by apply Hva|].
      split; [done|]. split; [lia|]. by split. }
  destruct Hb as (Hvb & Hsubb & Hmaxb & Hlmb & Hneb & Hllb).
  assert (Hc : landmark_loop_invariant w s b c).
  { apply (fold_left_invariant (landmark_loop_invariant w s b)).
    - intros l k Hk. by apply add_landmark_invariant.
    - split; [intros id x Hid; destruct (Hvb id x Hid); auto|].
      split; [done|]. split; [done|]. split; [lia|]. by split. }
  destruct Hc as (Hvc & Hsubc & Hmaxc & Hlmc & Hnec & Hllc).
  split; [exact Hsa|]. split; [|split; [|split; [|exact Hnec]]].
  - intros id x Hid. rewrite Hllc, Hmaxc. by apply Hvc.
  - split; [|split; [|split; [lia|exact Hlmc]]].
    + intros k Hk. rewrite Hmaxc. apply elem_of_app in Hk as [Hk|Hk].
      * destruct (local_loop_covers w s k Hk) as ([x Hx] & Hle & _). fold a in Hx, Hle.
        split; [|lia]. exists x. split.
        -- eapply lookup_weaken; [|exact Hsubc].
           eapply lookup_weaken; [exact Hx|exact Hsubb].
        -- by destruct (Hva _ _ Hx) as (? & _ & _ & ->).
      * destruct (fixed_loop_covers w s a.2 a.1 k Hsa Hk) as ([x Hx] & Hle).
        fold b in Hx, Hle. split; [|lia]. exists x. split.
        -- eapply lookup_weaken; [exact Hx|exact Hsubc].
        -- by destruct (Hvb _ _ Hx) as [(? & _ & _ & ->)|(? & _ & _ & ->)].
    + intros lm Hlm. rewrite Hllc in Hlm. rewrite Hmaxc.
      apply (landmark_loop_covers s a.2 b lm Hsa Hlm).
  - split.
    + intros k lm Hk Hlm. rewrite Hllc, Hllb.
      by apply (local_loop_covers w s k Hk).
    + intros lm Hlm. rewrite Hllc, Hllb in Hlm. by apply Hlla.
Qed.

(** *** The measurement caches after the loop over the Local KeyFrames *)

Lemma cache_landmarks_frame pKFi lms acc p :
  p <> pKFi ->
  keyframes (fold_left (cache_landmark pKFi) lms acc).2 p = keyframes acc.2 p.
Proof.
  intros Hp.
  apply (fold_left_invariant
           (fun a : list LandmarkPtr * SceneGraph => keyframes a.2 p = keyframes acc.2 p));
    [|reflexivity].
  intros a lm _ IH. unfold cache_landmark; cbn [snd].
  rewrite keyframes_update_keyframe. by rewrite decide_False.
Qed.

Lemma same_persistent_cam_pose_Twc s s' p :
  same_persistent_state s s' ->
  KeyFrame.cam_pose_Twc (keyframes s' p) = KeyFrame.cam_pose_Twc (keyframes s p).
Proof.
  intros Hs. by destruct (persistent_keyframe_fields _ _
                            (same_persistent_keyframe _ _ p Hs))
    as (_&_&_&_&_&?&_).
Qed.

Lemma cache_landmark_lookup s pKFi acc lm :
  same_persistent_state s acc.2 ->
  KeyFrame.landmarkMeasurements (keyframes (cache_landmark pKFi acc lm).2 pKFi)
  = <[Landmark.mnLandmarkId (landmarks s lm) := relative_cuboid_pose s pKFi lm]>
      (KeyFrame.landmarkMeasurements (keyframes acc.2 pKFi)).
Proof.
  intros Hs. unfold cache_landmark; cbn [snd].
  rewrite keyframes_update_keyframe, decide_True by done. cbn.
  unfold relative_cuboid_pose.
  by rewrite (same_persistent_landmark _ _ lm Hs),
       (same_persistent_cam_pose_Twc _ _ pKFi Hs).
Qed.

Lemma cache_landmarks_cached s pKFi lms acc lm :
  same_persistent_state s acc.2 ->
  lm ∈ lms ->
  (forall lm', lm' ∈ lms ->
      Landmark.mnLandmarkId (landmarks s lm') = Landmark.mnLandmarkId (landmarks s lm) ->
      lm' = lm) ->
  KeyFrame.landmarkMeasurements
    (keyframes (fold_left (cache_landmark pKFi) lms acc).2 pKFi)
    !! Landmark.mnLandmarkId (landmarks s lm)
  = Some (relative_cuboid_pose s pKFi lm).
Proof.
  intros Hs Hlm Hdistinct.
  apply (fold_left_establish
           (fun a : list LandmarkPtr * SceneGraph => same_persistent_state s a.2)
           (fun a => KeyFrame.landmarkMeasurements (keyframes a.2 pKFi)
                       !! Landmark.mnLandmarkId (landmarks s lm)
                     = Some (relative_cuboid_pose s pKFi lm))
           (cache_landmark pKFi) lms acc lm Hlm Hs).
  - intros a lm' _ Ha. etransitivity; [exact Ha|apply cache_landmark_scratch].
  - intros a Ha. rewrite (cache_landmark_lookup s pKFi a lm Ha).
    apply lookup_insert_eq.
  - intros a lm' Hin Ha HQ. rewrite (cache_landmark_lookup s pKFi a lm' Ha).
    rewrite lookup_insert. case_decide as Hid; [|exact HQ].
    by rewrite (Hdistinct lm' Hin Hid).
Qed.

Lemma BuildVertices_cached w s k lm :
  k ∈ lLocalKeyFrames w ->
  lm ∈ KeyFrame.GetLandmarks (keyframes s k) ->
  landmark_ids_distinct s k ->
  KeyFrame.landmarkMeasurements (keyframes (BuildVertices w s).2 k)
    !! Landmark.mnLandmarkId (landmarks s lm)
  = Some (relative_cuboid_pose s k lm).
Proof.
  intros Hk Hlm Hdistinct. unfold BuildVertices. cbv zeta. cbn [snd].
  assert (Hturn : forall st : Locals * SceneGraph,
             same_persistent_state s st.2 ->
             KeyFrame.landmarkMeasurements (keyframes (add_local_keyframe st k).2 k)
               !! Landmark.mnLandmarkId (landmarks s lm)
             = Some (relative_cuboid_pose s k lm)).
  { intros st Hs. unfold add_local_keyframe. cbv zeta. cbn [snd].
    apply (cache_landmarks_cached s k _ (lLocalLandmarks st.1, st.2) lm Hs).
    - by rewrite (same_persistent_GetLandmarks _ _ k Hs).
    - intros lm' Hin Hid. rewrite (same_persistent_GetLandmarks _ _ k Hs) in Hin.
      by apply Hdistinct. }
  apply (fold_left_establish
           (fun st : Locals * SceneGraph => same_persistent_state s st.2)
           (fun st => KeyFrame.landmarkMeasurements (keyframes st.2 k)
                        !! Landmark.mnLandmarkId (landmarks s lm)
                      = Some (relative_cuboid_pose s k lm))
           add_local_keyframe (lLocalKeyFrames w) _ k Hk).
  - reflexivity.
  - intros st k' _ Hs. etransitivity; [exact Hs|apply add_local_keyframe_scratch].
  - exact Hturn.
  - intros st k' _ Hs HQ. destruct (decide (k' = k)) as [->|Hne]; [by apply Hturn|].
    unfold add_local_keyframe. cbv zeta. cbn [snd].
    rewrite cache_landmarks_frame by done. exact HQ.
Qed.
End VertexStore.

(** ** The factors of the graph *)

Section EdgeFacts.
Context `{Geometry}.

#[global] Instance caches_grow_preorder : PreOrder caches_grow.
Proof.
  split.
  - by intros s p.
  - intros s1 s2 s3 H12 H23 p. etransitivity; [apply H12|apply H23].
Qed.

Lemma read_landmarkMeasurement_grows pKFi lid s :
  caches_grow s (read_landmarkMeasurement pKFi lid s).2.
Proof.
  unfold read_landmarkMeasurement.
  destruct (_ !! _) eqn:Hc; cbn [snd]; [reflexivity|].
  intros p. rewrite keyframes_update_keyframe.
  case_decide as Hp; [subst p|done]. cbn. by apply insert_subseteq.
Qed.

Lemma read_landmarkMeasurement_cached pKFi lid s c :
  KeyFrame.landmarkMeasurements (keyframes s pKFi) !! lid = Some c ->
  (read_landmarkMeasurement pKFi lid s).1 = c.
Proof. unfold read_landmarkMeasurement. by intros ->. Qed.

Lemma vertex_ext o o' id : vertices o' = vertices o -> vertex o' id = vertex o id.
Proof. unfold vertex. by intros ->. Qed.

Lemma camera_object_factor_ext o o' maxKFId s s' pKFi pLandmark m :
  vertices o' = vertices o -> same_persistent_state s s' ->
  camera_object_factor o' maxKFId s' pKFi pLandmark m
  = camera_object_factor o maxKFId s pKFi pLandmark m.
Proof.
  intros Hv Hs. unfold camera_object_factor.
  by rewrite !(vertex_ext _ _ _ Hv), (same_persistent_mnId _ _ pKFi Hs),
       (same_persistent_landmark _ _ pLandmark Hs).
Qed.

(** The loop over the Landmarks of [pKFi] (lines 210-221) appends one
    factor per Landmark, in order. *)
Lemma add_cuboid_edges_spec maxKFId pKFi lms o s o1 s1 :
  vertices o1 = vertices o -> same_persistent_state s s1 -> caches_grow s s1 ->
  let r := fold_left (add_cuboid_edge maxKFId pKFi) lms (o1, s1) in
  vertices r.1 = vertices o
  /\ reprojection_vectors r.1 = reprojection_vectors o1
  /\ caches_grow s r.2
  /\ exists ms, length ms = length lms
       /\ edgesCuboid r.1
          = edgesCuboid o1 ++ zip_with (camera_object_factor o maxKFId s pKFi) lms ms
       /\ (forall i lm m c, lms !! i = Some lm -> ms !! i = Some m ->
             KeyFrame.landmarkMeasurements (keyframes s pKFi)
               !! Landmark.mnLandmarkId (landmarks s lm) = Some c ->
             m = c).
Proof.
  revert o1 s1. induction lms as [|lm lms IH]; intros o1 s1 Hv Hs Hg; cbv zeta.
  - cbn [fold_left fst snd]. split; [done|split; [done|split; [done|]]].
    exists []. split; [done|]. split; [by rewrite app_nil_r|]. by intros [|?] ???? [=].
  - cbn [fold_left].
    set (acc := add_cuboid_edge maxKFId pKFi (o1, s1) lm).
    assert (Hv' : vertices acc.1 = vertices o) by exact Hv.
    assert (Hs' : same_persistent_state s acc.2).
    { etransitivity; [exact Hs|apply (add_cuboid_edge_scratch maxKFId pKFi (o1, s1) lm)]. }
    assert (Hg' : caches_grow s acc.2).
    { etransitivity; [exact Hg|]. apply read_landmarkMeasurement_grows. }
    destruct (IH acc.1 acc.2 Hv' Hs' Hg') as (Hrv & Hrr & Hrg & ms & Hlen & Hedges & Hms).
    rewrite <- surjective_pairing in Hrv, Hrr, Hrg, Hedges.
    split; [exact Hrv|]. split; [exact Hrr|]. split; [exact Hrg|].
    set (m := (read_landmarkMeasurement pKFi
                 (Landmark.mnLandmarkId (landmarks s1 lm)) s1).1).
    exists (m :: ms). split; [cbn; by rewrite Hlen|]. split.
    + rewrite Hedges. cbn [zip_with]. unfold acc at 1, add_cuboid_edge.
      cbv zeta. cbn [fst snd addEdgeCuboid edgesCuboid]. rewrite <- app_assoc.
      cbn [app]. do 2 f_equal.
      exact (camera_object_factor_ext o o1 maxKFId s s1 pKFi lm m Hv Hs).
    + intros [|i] lm' m' c; cbn.
      * intros [= <-] [= <-] Hc. unfold m.
        apply read_landmarkMeasurement_cached.
        rewrite (same_persistent_landmark _ _ lm Hs).
        eapply lookup_weaken; [exact Hc|apply Hg].
      * apply Hms.
Qed.

Lemma addEdgeMono_vertices e k p o : vertices (addEdgeMono e k p o) = vertices o.
Proof. reflexivity. Qed.

Lemma addEdgeStereo_vertices e k p o : vertices (addEdgeStereo e k p o) = vertices o.
Proof. reflexivity. Qed.

Lemma add_observation_step maxKFId id pMP o observation s o' s' :
  add_observation maxKFId id pMP o observation s = Ok o' s' ->
  observation_step maxKFId id pMP o observation s o'
  /\ same_persistent_state s s' /\ caches_grow s s'.
Proof.
  unfold add_observation. cbv zeta.
  destruct (KeyFrame.isBad _) eqn:Hbad.
  { intros [= <- <-]. split; [by apply step_bad|by split]. }
  destruct (_ !! _) as [kpUn|] eqn:Hkp; [|done].
  destruct (KeyFrame.mvuRight _ !! _) as [ur|] eqn:Hur; [|done].
  destruct (vector_at _ _) as [invSigma2|]; [|done].
  destruct (PrimFloat.ltb ur 0%float) eqn:Hmono.
  - set (k := keyframes s observation.1).
    set (o1 := addEdgeMono (mono_edge o id k kpUn invSigma2) observation.1 pMP o).
    intros [= <- <-].
    destruct (add_cuboid_edges_spec maxKFId observation.1 (KeyFrame.GetLandmarks k)
                o s o1 s eq_refl ltac:(reflexivity) ltac:(reflexivity))
      as (Hv & Hr & Hg & ms & Hlen & Hedges & Hms).
    split; [|split; [|exact Hg]].
    + by eapply step_mono.
    + apply (fold_left_scene_rel same_persistent_state _ _ (o1, s)).
      intros; apply add_cuboid_edge_scratch.
  - intros [= <- <-]. split; [|by split]. by eapply step_stereo.
Qed.

Lemma observation_step_vertices maxKFId id pMP o observation s o' :
  observation_step maxKFId id pMP o observation s o' -> vertices o' = vertices o.
Proof. destruct 1; by subst. Qed.

Lemma add_observation_scene maxKFId id pMP o observation s o' s' :
  add_observation maxKFId id pMP o observation s = Ok o' s' ->
  vertices o' = vertices o /\ same_persistent_state s s' /\ caches_grow s s'.
Proof.
  intros Hstep. apply add_observation_step in Hstep as (Hstep & Hs & Hg).
  split; [by eapply observation_step_vertices|by split].
Qed.

Lemma same_persistent_point_vertex_id maxKFId maxLandmarkId s s' p :
  same_persistent_state s s' ->
  point_vertex_id maxKFId maxLandmarkId (mappoints s' p)
  = point_vertex_id maxKFId maxLandmarkId (mappoints s p).
Proof.
  intros Hs. unfold point_vertex_id.
  by destruct (persistent_mappoint_fields _ _ (same_persistent_mappoint _ _ p Hs))
    as (-> & _).
Qed.

Lemma same_persistent_point_vertex s s' p :
  same_persistent_state s s' ->
  point_vertex (mappoints s' p) = point_vertex (mappoints s p).
Proof.
  intros Hs. unfold point_vertex.
  by destruct (persistent_mappoint_fields _ _ (same_persistent_mappoint _ _ p Hs))
    as (_ & _ & -> & _).
Qed.

Lemma same_persistent_GetObservations s s' p :
  same_persistent_state s s' ->
  MapPoint.GetObservations (mappoints s' p) = MapPoint.GetObservations (mappoints s p).
Proof.
  intros Hs.
  by destruct (persistent_mappoint_fields _ _ (same_persistent_mappoint _ _ p Hs))
    as (_ & _ & _ & -> & _).
Qed.

Lemma during_build_step s sv sc sc' :
  during_build s sv sc -> same_persistent_state sc sc' -> caches_grow sc sc' ->
  during_build s sv sc'.
Proof. intros [Hs Hg] Hs' Hg'. split; by etransitivity. Qed.

Lemma BuildGraph_Ok_inv w s l s' :
  BuildGraph w s = Ok l s' ->
  let v := BuildVertices w s in
  foldM (add_mappoint (maxKFId v.1) (maxLandmarkId v.1)) (lLocalMapPoints w)
    (optimizer v.1) v.2 = Ok (optimizer l) s'
  /\ lLocalLandmarks l = lLocalLandmarks v.1
  /\ maxKFId l = maxKFId v.1 /\ maxLandmarkId l = maxLandmarkId v.1.
Proof.
  unfold BuildGraph. cbv zeta.
  destruct (foldM _ _ _ _) as [o s1|s1]; [|discriminate].
  by intros [= <- <-].
Qed.

(** An invariant of the optimizer along the loops over the MapPoints and
    their observations. *)
Lemma BuildGraph_invariant (K : SparseOptimizer -> SceneGraph -> Prop) w s l s' :
  let v := BuildVertices w s in
  let id p := point_vertex_id (maxKFId v.1) (maxLandmarkId v.1) (mappoints s p) in
  BuildGraph w s = Ok l s' ->
  K (optimizer v.1) v.2 ->
  (forall pMP o sc, pMP ∈ lLocalMapPoints w -> during_build s v.2 sc -> K o sc ->
      K (addVertex (id pMP) (point_vertex (mappoints s pMP)) o) sc) ->
  (forall pMP obs o sc o1 sc1,
      pMP ∈ lLocalMapPoints w -> obs ∈ MapPoint.GetObservations (mappoints s pMP) ->
      during_build s v.2 sc -> K o sc ->
      add_observation (maxKFId v.1) (id pMP) pMP o obs sc = Ok o1 sc1 ->
      K o1 sc1) ->
  K (optimizer l) s' /\ during_build s v.2 s'.
Proof.
  intros v id Hbuild HK0 HKv HKo.
  apply BuildGraph_Ok_inv in Hbuild as (Hfold & _). fold v in Hfold.
  assert (Hsv : same_persistent_state s v.2) by apply BuildVertices_scratch.
  pose (P := fun o sc => during_build s v.2 sc /\ K o sc).
  cut (P (optimizer l) s'); [intros [? ?]; by split|].
  refine (foldM_invariant P _ _ _ _ _ _ _ _ Hfold); [|by split; [split|]].
  intros o pMP sc o1 sc1 HpMP [Hd HKo1] Hstep.
  unfold add_mappoint in Hstep. cbv zeta in Hstep.
  destruct Hd as [Hs Hg].
  rewrite (same_persistent_point_vertex_id _ _ _ _ pMP Hs),
    (same_persistent_point_vertex _ _ pMP Hs),
    (same_persistent_GetObservations _ _ pMP Hs) in Hstep.
  refine (foldM_invariant P _ _ _ _ _ _ _ _ Hstep).
  - intros o2 obs sc2 o3 sc3 Hobs [Hd2 HK2] Hobs_step. split.
    + destruct (add_observation_scene _ _ _ _ _ _ _ _ Hobs_step) as (_ & ? & ?).
      by eapply during_build_step.
    + by eapply (HKo pMP obs o2 sc2).
  - split; [by split|]. apply HKv; [done|by split|done].
Qed.

(** A property of the optimizer established by the turn for the
    observation [obs0] of the MapPoint [p0] and kept afterwards. *)
Lemma BuildGraph_establish (I : SparseOptimizer -> SceneGraph -> Prop)
    (Q : SparseOptimizer -> Prop) w s l s' p0 obs0 :
  let v := BuildVertices w s in
  let id p := point_vertex_id (maxKFId v.1) (maxLandmarkId v.1) (mappoints s p) in
  BuildGraph w s = Ok l s' ->
  p0 ∈ lLocalMapPoints w -> obs0 ∈ MapPoint.GetObservations (mappoints s p0) ->
  I (optimizer v.1) v.2 ->
  (forall pMP o sc, pMP ∈ lLocalMapPoints w -> during_build s v.2 sc -> I o sc ->
      I (addVertex (id pMP) (point_vertex (mappoints s pMP)) o) sc) ->
  (forall pMP obs o sc o1 sc1,
      pMP ∈ lLocalMapPoints w -> obs ∈ MapPoint.GetObservations (mappoints s pMP) ->
      during_build s v.2 sc -> I o sc ->
      add_observation (maxKFId v.1) (id pMP) pMP o obs sc = Ok o1 sc1 ->
      I o1 sc1) ->
  (forall o sc o1 sc1,
      during_build s v.2 sc -> I o sc ->
      add_observation (maxKFId v.1) (id p0) p0 o obs0 sc = Ok o1 sc1 -> Q o1) ->
  (forall o i x, Q o -> Q (addVertex i x o)) ->
  (forall pMP obs o sc o1 sc1,
      Q o -> add_observation (maxKFId v.1) (id pMP) pMP o obs sc = Ok o1 sc1 -> Q o1) ->
  Q (optimizer l).
Proof.
  intros v id Hbuild Hp0 Hobs0 HI0 HIv HIo Hest HQv HQo.
  apply BuildGraph_Ok_inv in Hbuild as (Hfold & _). fold v in Hfold.
  assert (Hsv : same_persistent_state s v.2) by apply BuildVertices_scratch.
  pose (P := fun o sc => during_build s v.2 sc /\ I o sc).
  assert (HPo : forall pMP obs o sc o1 sc1,
             pMP ∈ lLocalMapPoints w -> obs ∈ MapPoint.GetObservations (mappoints s pMP) ->
             P o sc ->
             add_observation (maxKFId v.1) (id pMP) pMP o obs sc = Ok o1 sc1 ->
             P o1 sc1).
  { intros pMP obs o sc o1 sc1 HpMP Hobs [Hd HIo1] Hstep. split.
    - destruct (add_observation_scene _ _ _ _ _ _ _ _ Hstep) as (_ & ? & ?).
      by eapply during_build_step.
    - by eapply (HIo pMP obs o sc). }
  assert (HPm : forall pMP o sc o1 sc1,
             pMP ∈ lLocalMapPoints w -> P o sc ->
             add_mappoint (maxKFId v.1) (maxLandmarkId v.1) o pMP sc = Ok o1 sc1 ->
             foldM (add_observation (maxKFId v.1) (id pMP) pMP)
               (MapPoint.GetObservations (mappoints s pMP))
               (addVertex (id pMP) (point_vertex (mappoints s pMP)) o) sc = Ok o1 sc1
             /\ P (addVertex (id pMP) (point_vertex (mappoints s pMP)) o) sc).
  { intros pMP o sc o1 sc1 HpMP [[Hs Hg] HI1] Hstep.
    unfold add_mappoint in Hstep. cbv zeta in Hstep.
    rewrite (same_persistent_point_vertex_id _ _ _ _ pMP Hs),
      (same_persistent_point_vertex _ _ pMP Hs),
      (same_persistent_GetObservations _ _ pMP Hs) in Hstep.
    split; [exact Hstep|]. split; [by split|]. apply HIv; [done|by split|done]. }
  refine (foldM_establish P (fun o _ => Q o) _ _ _ _ p0 _ _ Hp0 _ Hfold _ _ _).
  - by split; [split|].
  - intros o pMP sc o1 sc1 HpMP HP Hstep.
    destruct (HPm _ _ _ _ _ HpMP HP Hstep) as [Hinner HP'].
    refine (foldM_invariant P _ _ _ _ _ _ _ _ Hinner); [|exact HP'].
    intros ?????. by apply HPo.
  - intros o sc o1 sc1 HP Hstep.
    destruct (HPm _ _ _ _ _ Hp0 HP Hstep) as [Hinner HP'].
    refine (foldM_establish P (fun o _ => Q o) _ _ _ _ obs0 _ _ Hobs0 HP' Hinner _ _ _).
    + intros ?????. by apply HPo.
    + intros o2 sc2 o3 sc3 [Hd2 HI2]. by apply Hest.
    + intros o2 obs sc2 o3 sc3 _ _. apply HQo.
  - intros o pMP sc o1 sc1 HpMP HP HQ Hstep.
    destruct (HPm _ _ _ _ _ HpMP HP Hstep) as [Hinner HP'].
    refine (foldM_invariant (fun o _ => Q o) _ _ _ _ _ _ _ _ Hinner); [|by apply HQv].
    intros o2 obs sc2 o3 sc3 _. apply HQo.
Qed.

(** *** The vertices after the loop over the MapPoints *)

Lemma BuildGraph_vertices_grow w s l s' :
  BuildGraph w s = Ok l s' ->
  vertices (optimizer (BuildVertices w s).1) ⊆ vertices (optimizer l).
Proof.
  intros Hbuild.
  pose (K := fun (o : SparseOptimizer) (_ : SceneGraph) =>
               vertices (optimizer (BuildVertices w s).1) ⊆ vertices o).
  refine (proj1 (BuildGraph_invariant K w s l s' Hbuild _ _ _)).
  - unfold K. reflexivity.
  - intros pMP o sc _ _ HK. unfold K.
    etransitivity; [exact HK|apply addVertex_subseteq].
  - intros pMP obs o sc o1 sc1 _ _ _ HK Hstep. unfold K.
    by destruct (add_observation_scene _ _ _ _ _ _ _ _ Hstep) as (-> & _).
Qed.

Lemma BuildGraph_origin w s l s' id x :
  BuildGraph w s = Ok l s' ->
  vertices (optimizer l) !! id = Some x ->
  from_local_keyframe w s id x \/ from_fixed_camera w s id x
  \/ from_landmark (lLocalLandmarks l) (maxKFId l) s id x
  \/ from_mappoint w (maxKFId l) (maxLandmarkId l) s id x.
Proof.
  intros Hbuild.
  destruct (BuildGraph_Ok_inv _ _ _ _ Hbuild) as (_ & -> & -> & ->).
  set (v := BuildVertices w s).
  pose (K := fun (o : SparseOptimizer) (_ : SceneGraph) =>
               forall id x, vertices o !! id = Some x ->
                 from_local_keyframe w s id x \/ from_fixed_camera w s id x
                 \/ from_landmark (lLocalLandmarks v.1) (maxKFId v.1) s id x
                 \/ from_mappoint w (maxKFId v.1) (maxLandmarkId v.1) s id x).
  revert id x.
  refine (proj1 (BuildGraph_invariant K w s l s' Hbuild _ _ _)).
  - destruct (BuildVertices_spec w s) as (_ & Horigin & _).
    intros id x Hid. destruct (Horigin id x Hid) as [?|[?|?]]; auto.
  - intros pMP o sc HpMP _ HK id x Hid.
    apply addVertex_lookup in Hid as [Hid|(-> & -> & _)]; [by apply HK|].
    right; right; right. by exists pMP.
  - intros pMP obs o sc o1 sc1 _ _ _ HK Hstep id x.
    destruct (add_observation_scene _ _ _ _ _ _ _ _ Hstep) as (-> & _). apply HK.
Qed.

Lemma add_mappoint_vertices maxKFId maxLandmarkId o pMP sc o1 sc1 :
  add_mappoint maxKFId maxLandmarkId o pMP sc = Ok o1 sc1 ->
  vertices o1
  = vertices (addVertex (point_vertex_id maxKFId maxLandmarkId (mappoints sc pMP))
                (point_vertex (mappoints sc pMP)) o)
  /\ same_persistent_state sc sc1.
Proof.
  unfold add_mappoint. cbv zeta.
  set (o0 := addVertex _ _ o). intros Hfold.
  refine (foldM_invariant
            (fun o' sc' => vertices o' = vertices o0 /\ same_persistent_state sc sc')
            _ _ _ _ _ _ _ _ Hfold); [|by split].
  intros o2 obs sc2 o3 sc3 _ [Hv Hs] Hstep.
  destruct (add_observation_scene _ _ _ _ _ _ _ _ Hstep) as (-> & Hs' & _).
  split; [exact Hv|by etransitivity].
Qed.

Lemma BuildGraph_point_vertex_present w s l s' p :
  BuildGraph w s = Ok l s' ->
  p ∈ lLocalMapPoints w ->
  is_Some (vertices (optimizer l)
             !! point_vertex_id (maxKFId l) (maxLandmarkId l) (mappoints s p)).
Proof.
  intros Hbuild Hp.
  destruct (BuildGraph_Ok_inv _ _ _ _ Hbuild) as (Hfold & _ & -> & ->).
  set (v := BuildVertices w s) in *.
  assert (Hsv : same_persistent_state s v.2) by apply BuildVertices_scratch.
  refine (foldM_establish (fun _ sc => same_persistent_state s sc)
            (fun o _ => is_Some (vertices o
               !! point_vertex_id (maxKFId v.1) (maxLandmarkId v.1) (mappoints s p)))
            _ _ _ _ p _ _ Hp Hsv Hfold _ _ _).
  - intros o pMP sc o1 sc1 _ Hs Hstep.
    apply add_mappoint_vertices in Hstep as (_ & Hs'). by etransitivity.
  - intros o sc o1 sc1 Hs Hstep.
    apply add_mappoint_vertices in Hstep as (-> & _).
    rewrite (same_persistent_point_vertex_id _ _ _ _ p Hs). apply addVertex_is_Some.
  - intros o pMP sc o1 sc1 _ _ [x Hx] Hstep.
    apply add_mappoint_vertices in Hstep as (-> & _).
    exists x. eapply lookup_weaken; [exact Hx|apply addVertex_subseteq].
Qed.

Lemma free_pose_vertices_are_local w s l s' id v :
  BuildGraph w s = Ok l s' ->
  vertices (optimizer l) !! id = Some v ->
  is_pose_vertex v = true -> fixed v = false ->
  exists k, k ∈ lLocalKeyFrames w
    /\ id = to_int (KeyFrame.mnId (keyframes s k))
    /\ KeyFrame.mnId (keyframes s k) <> 0.
Proof.
  intros Hbuild.
  pose (K := fun (o : SparseOptimizer) (_ : SceneGraph) =>
               forall id v, vertices o !! id = Some v ->
                 is_pose_vertex v = true -> fixed v = false ->
                 exists k, k ∈ lLocalKeyFrames w
                   /\ id = to_int (KeyFrame.mnId (keyframes s k))
                   /\ KeyFrame.mnId (keyframes s k) <> 0).
  revert id v.
  refine (proj1 (BuildGraph_invariant K w s l s' Hbuild _ _ _)).
  - destruct (BuildVertices_spec w s) as (_ & Horigin & _).
    intros id v Hid Hpose Hfree.
    destruct (Horigin id v Hid) as [(k & Hk & -> & ->)|[(k & Hk & -> & ->)|(lm & _ & _ & ->)]];
      [|done..].
    exists k. split; [done|]. split; [done|].
    cbn in Hfree. by apply Z.eqb_neq.
  - intros pMP o sc _ _ HK id v Hid.
    apply addVertex_lookup in Hid as [Hid|(_ & -> & _)]; [by apply HK|done].
  - intros pMP obs o sc o1 sc1 _ _ _ HK Hstep id v.
    destruct (add_observation_scene _ _ _ _ _ _ _ _ Hstep) as (-> & _). apply HK.
Qed.

Lemma pose_vertices_present w s l s' k :
  BuildGraph w s = Ok l s' ->
  k ∈ lLocalKeyFrames w ++ lFixedCameras w ->
  exists v, vertices (optimizer l) !! to_int (KeyFrame.mnId (keyframes s k)) = Some v
            /\ is_pose_vertex v = true.
Proof.
  intros Hbuild Hk.
  destruct (BuildVertices_spec w s) as (_ & _ & (Hcov & _) & _).
  destruct (Hcov k Hk) as ((v & Hv & Hpose) & _).
  exists v. split; [|exact Hpose].
  pose (K := fun (o : SparseOptimizer) (_ : SceneGraph) =>
               vertices (optimizer (BuildVertices w s).1) ⊆ vertices o).
  eapply lookup_weaken; [exact Hv|].
  refine (proj1 (BuildGraph_invariant K w s l s' Hbuild _ _ _)).
  - unfold K. reflexivity.
  - intros pMP o sc _ _ HK. unfold K.
    etransitivity; [exact HK|apply addVertex_subseteq].
  - intros pMP obs o sc o1 sc1 _ _ _ HK Hstep. unfold K.
    by destruct (add_observation_scene _ _ _ _ _ _ _ _ Hstep) as (-> & _).
Qed.

(** *** Camera-object factors come in blocks, one per monocular factor *)

Lemma addVertex_edges id v o :
  edgesCuboid (addVertex id v o) = edgesCuboid o
  /\ reprojection_vectors (addVertex id v o) = reprojection_vectors o.
Proof. unfold addVertex. by destruct (vertices o !! id). Qed.

Lemma same_persistent_mvuRight s s' p :
  same_persistent_state s s' ->
  KeyFrame.mvuRight (keyframes s' p) = KeyFrame.mvuRight (keyframes s p).
Proof.
  intros Hs. by destruct (persistent_keyframe_fields _ _
                            (same_persistent_keyframe _ _ p Hs))
    as (_&_&_&_&_&_&_&_&?&_).
Qed.

Lemma same_persistent_isBad s s' p :
  same_persistent_state s s' ->
  KeyFrame.isBad (keyframes s' p) = KeyFrame.isBad (keyframes s p).
Proof.
  intros Hs. by destruct (persistent_keyframe_fields _ _
                            (same_persistent_keyframe _ _ p Hs)) as (_&?&_).
Qed.

Lemma blocks_invariant_addVertex w s o blocks id v :
  blocks_invariant w s o blocks -> blocks_invariant w s (addVertex id v o) blocks.
Proof. unfold addVertex. by destruct (vertices o !! id). Qed.

Lemma camera_object_block s sc o maxKFId k lms ms :
  same_persistent_state s sc ->
  lms = KeyFrame.GetLandmarks (keyframes sc k) ->
  length ms = length lms ->
  block_of s k (zip_with (camera_object_factor o maxKFId sc k) lms ms).
Proof.
  intros Hs -> Hlen. split.
  - rewrite length_zip_with, Hlen, (same_persistent_GetLandmarks _ _ k Hs). lia.
  - apply Forall_forall. intros e He.
    apply elem_of_lookup_zip_with in He as (i & lm & m & -> & _ & _).
    unfold camera_object_factor; cbn. unfold pose_vertex_id.
    rewrite (same_persistent_mnId _ _ k Hs). unfold vertex.
    destruct (vertices o !! _); auto.
Qed.

Lemma BuildGraph_blocks w s l s' :
  BuildGraph w s = Ok l s' ->
  exists blocks, blocks_invariant w s (optimizer l) blocks.
Proof.
  intros Hbuild.
  pose (K := fun (o : SparseOptimizer) (_ : SceneGraph) =>
               exists blocks, blocks_invariant w s o blocks).
  refine (proj1 (BuildGraph_invariant K w s l s' Hbuild _ _ _)).
  - destruct (BuildVertices_spec w s) as (_ & _ & _ & _ & Hne).
    destruct Hne as (H1 & H2 & H3 & H4 & H5 & H6 & H7).
    exists []. split; [by rewrite H7|]. rewrite H1, H2.
    split; [constructor|]. split; [done|]. by intros k ?%elem_of_nil.
  - intros pMP o sc _ _ (blocks & Hinv).
    exists blocks. by apply blocks_invariant_addVertex.
  - intros pMP obs o sc o1 sc1 HpMP Hobs [Hs Hg] (blocks & Hc & Hb & Hlen & Hmono) Hstep.
    apply add_observation_step in Hstep as (Hstep & _).
    destruct Hstep as [_ ->|kpUn ur invSigma2 ms _ _ Hur Hlt _ Hr Hms He _|kpUn ur inv _ _ _ _ ->].
    + by exists blocks.
    + injection Hr as Hr1 Hr2 _ _ _ _. cbn in Hr1, Hr2.
      exists (blocks ++ [zip_with (camera_object_factor o (maxKFId (BuildVertices w s).1)
                                    sc obs.1)
                           (KeyFrame.GetLandmarks (keyframes sc obs.1)) ms]).
      split; [|split; [|split]].
      * rewrite He, Hc, concat_app. cbn. by rewrite app_nil_r.
      * rewrite Hr2. apply Forall2_app; [exact Hb|].
        constructor; [|constructor]. by apply (camera_object_block s sc).
      * rewrite Hr1, Hr2, !length_app, Hlen. reflexivity.
      * intros k Hk. rewrite Hr2 in Hk. apply elem_of_app in Hk as [Hk|Hk]; [by apply Hmono|].
        apply list_elem_of_singleton in Hk as ->.
        exists pMP, obs. split; [done|]. split; [done|]. split; [done|].
        exists ur. by rewrite <- (same_persistent_mvuRight _ _ obs.1 Hs).
    + exists blocks. exact (conj Hc (conj Hb (conj Hlen Hmono))).
Qed.

Lemma factors_of_blocks (L : KeyFramePtr -> nat) k kfs
    (blocks : list (list EdgeSE3Cuboid.t)) :
  Forall2 (fun k' b => length b = L k') kfs blocks ->
  factors_of k kfs blocks = (length (filter (fun k' => k' = k) kfs) * L k)%nat.
Proof.
  unfold factors_of. induction 1 as [|k' b kfs blocks Hb _ IH]; [reflexivity|].
  cbn [zip zip_with]. rewrite !filter_cons. cbn [fst].
  destruct (decide (k' = k)) as [->|Hne]; cbn [map sum_list length]; [|exact IH].
  rewrite IH. cbn [snd]. unfold id. lia.
Qed.

(** The bookkeeping vectors run in step with the factors, so the passes
    that index them by the position of a factor read every entry. *)
Lemma BuildGraph_vectors_aligned w s l s' :
  BuildGraph w s = Ok l s' ->
  aligned (optimizer l).
Proof.
  intros Hbuild.
  refine (proj1 (BuildGraph_invariant (fun o _ => aligned o) w s l s' Hbuild _ _ _)).
  - destruct (BuildVertices_spec w s) as (_ & _ & _ & _ & Hne).
    destruct Hne as (H1 & H2 & H3 & H4 & H5 & H6 & _).
    unfold aligned. by rewrite H1, H2, H3, H4, H5, H6.
  - intros pMP o sc _ _ Ha. unfold addVertex. by destruct (vertices o !! _).
  - intros pMP obs o sc o1 sc1 _ _ _ (Ha1 & Ha2 & Ha3 & Ha4) Hstep.
    apply add_observation_step in Hstep as (Hstep & _).
    destruct Hstep as [_ ->|kpUn ur invSigma2 ms _ _ _ _ _ Hr _ _ _|kpUn ur inv _ _ _ _ ->].
    + done.
    + unfold aligned. injection Hr as H1 H2 H3 H4 H5 H6.
      rewrite H1, H2, H3, H4, H5, H6. cbn.
      rewrite !length_app, Ha1, Ha2. by repeat split.
    + unfold aligned. cbn. rewrite !length_app, Ha3, Ha4. by repeat split.
Qed.
End EdgeFacts.

(** ** Machine integers *)

Lemma to_int_small z : - 2 ^ 31 <= z <= INT_MAX -> to_int z = z.
Proof.
  unfold to_int, INT_MAX. intros Hz.
  rewrite Z.mod_small by lia. lia.
Qed.

Lemma ulong_small z : 0 <= z < 2 ^ 64 -> ulong z = z.
Proof. unfold ulong. intros Hz. apply Z.mod_small. lia. Qed.

Lemma to_int_ulong_small z : 0 <= z <= INT_MAX -> to_int (ulong z) = z.
Proof.
  unfold INT_MAX. intros Hz.
  rewrite ulong_small by lia. apply to_int_small. unfold INT_MAX. lia.
Qed.

(** ** Variable ids *)

Section VariableIds.
Context `{Geometry}.

Lemma ids_fit_ranges w s :
  let l := (BuildVertices w s).1 in
  ids_fit_int w s l ->
  (forall k, k ∈ window_keyframes w ->
      pose_vertex_id (keyframes s k) = KeyFrame.mnId (keyframes s k)
      /\ 0 <= KeyFrame.mnId (keyframes s k) <= maxKFId l)
  /\ (forall lm, lm ∈ lLocalLandmarks l ->
      landmark_vertex_id (maxKFId l) (landmarks s lm)
      = maxKFId l + 1 + Landmark.mnLandmarkId (landmarks s lm)
      /\ 0 <= Landmark.mnLandmarkId (landmarks s lm) <= maxLandmarkId l)
  /\ (forall p, p ∈ lLocalMapPoints w ->
      point_vertex_id (maxKFId l) (maxLandmarkId l) (mappoints s p)
      = MapPoint.mnId (mappoints s p) + maxKFId l + maxLandmarkId l + 2
      /\ 0 <= MapPoint.mnId (mappoints s p))
  /\ 0 <= maxKFId l /\ 0 <= maxLandmarkId l.
Proof.
  cbv zeta. intros (Hk & Hlm & Hp & Hmax).
  destruct (BuildVertices_spec w s) as (_ & _ & (Hck & Hclm & HmaxK & HmaxL) & _).
  unfold INT_MAX in *.
  split; [|split; [|split; [|by split]]].
  - intros k Hin. destruct (Hck k Hin) as (_ & Hle). specialize (Hk k Hin).
    split; [|lia]. unfold pose_vertex_id. apply to_int_small. unfold INT_MAX. lia.
  - intros lm Hin. destruct (Hclm lm Hin) as (_ & Hle). specialize (Hlm lm Hin).
    split; [|lia]. unfold landmark_vertex_id. apply to_int_ulong_small.
    unfold INT_MAX. lia.
  - intros p Hin. destruct (Hp p Hin) as (Hp0 & Hle).
    split; [|lia]. unfold point_vertex_id. apply to_int_ulong_small.
    unfold INT_MAX. lia.
Qed.

(** The id looked up at line 368 is the id given at line 167 less
    [maxLandmarkId + 1]: the two never agree while they fit in an [int]. *)
Lemma point_recovery_id_behind maxKFId maxLandmarkId p :
  0 <= MapPoint.mnId p -> 0 <= maxKFId -> 0 <= maxLandmarkId ->
  MapPoint.mnId p + maxKFId + maxLandmarkId + 2 <= INT_MAX ->
  point_recovery_id maxKFId p
  = point_vertex_id maxKFId maxLandmarkId p - (maxLandmarkId + 1).
Proof.
  intros Hp Hk Hl Hfit. unfold point_recovery_id, point_vertex_id.
  rewrite !to_int_ulong_small by (unfold INT_MAX in *; lia). lia.
Qed.

Lemma ids_fit_apart w s :
  ids_fit_int w s (BuildVertices w s).1 ->
  id_ranges_apart w s (BuildVertices w s).1.
Proof.
  intros Hfit.
  destruct (ids_fit_ranges w s Hfit) as (Hk & Hlm & Hp & HmaxK & HmaxL).
  set (l := (BuildVertices w s).1) in *.
  split; [intros k Hin; by apply Hk|].
  split; [intros lm Hin; by apply Hlm|].
  split; [intros p Hin; by apply Hp|].
  split.
  - intros k lm Hik Hil.
    destruct (Hk k Hik) as (-> & ?), (Hlm lm Hil) as (-> & ?). lia.
  - intros p Hip. destruct (Hp p Hip) as (-> & ?). split.
    + intros k Hik. destruct (Hk k Hik) as (-> & ?). lia.
    + intros lm Hil. destruct (Hlm lm Hil) as (-> & ?). lia.
Qed.

(** When the ids fit, the graph holds one vertex of the right kind per
    KeyFrame, Landmark and MapPoint of the window, and every vertex has
    the kind of the id range it lies in. *)
Lemma graph_vertices_by_kind w s l' s' :
  let l := (BuildVertices w s).1 in
  ids_fit_int w s l ->
  BuildGraph w s = Ok l' s' ->
  kinds_by_range l'
  /\ (forall k, k ∈ window_keyframes w ->
        exists v, vertices (optimizer l') !! pose_vertex_id (keyframes s k) = Some v
                  /\ is_pose_vertex v = true)
  /\ (forall lm, lm ∈ lLocalLandmarks l ->
        exists v, vertices (optimizer l')
                    !! landmark_vertex_id (maxKFId l) (landmarks s lm) = Some v
                  /\ is_cuboid_vertex v = true)
  /\ (forall p, p ∈ lLocalMapPoints w ->
        exists v, vertices (optimizer l')
                    !! point_vertex_id (maxKFId l) (maxLandmarkId l) (mappoints s p)
                  = Some v
                  /\ is_point_vertex v = true).
Proof.
  cbv zeta. intros Hfit Hbuild.
  destruct (ids_fit_ranges w s Hfit) as (Hk & Hlm & Hp & HmaxK & HmaxL).
  set (l := (BuildVertices w s).1) in *.
  destruct (BuildGraph_Ok_inv _ _ _ _ Hbuild) as (_ & HLL & HmK & HmL).
  fold l in HLL, HmK, HmL.
  assert (Hkinds : kinds_by_range l').
  { intros id v Hid. rewrite HmK, HmL.
    destruct (BuildGraph_origin _ _ _ _ _ _ Hbuild Hid)
      as [(k & Hin & -> & ->)|[(k & Hin & -> & ->)|[(lm & Hin & -> & ->)|(p & Hin & -> & ->)]]].
    - left. split; [done|].
      destruct (Hk k) as (Heq & ?); [apply elem_of_app; by left|].
      unfold pose_vertex_id in Heq. rewrite Heq. lia.
    - left. split; [done|].
      destruct (Hk k) as (Heq & ?); [apply elem_of_app; by right|].
      unfold pose_vertex_id in Heq. rewrite Heq. lia.
    - right; left. split; [done|]. rewrite HLL, HmK in *.
      destruct (Hlm lm Hin) as (-> & ?). lia.
    - right; right. split; [done|]. rewrite HmK, HmL.
      destruct (Hp p Hin) as (-> & ?). lia. }
  split; [exact Hkinds|]. split; [|split].
  - intros k Hin. by apply (pose_vertices_present w s l' s' k Hbuild).
  - intros lm Hin. destruct (Hlm lm Hin) as (Heq & Hrange).
    destruct (BuildVertices_spec w s) as (_ & _ & (_ & Hclm & _) & _).
    destruct (Hclm lm Hin) as ([v Hv] & _). fold l in Hv.
    exists v.
    assert (Hv' : vertices (optimizer l') !! landmark_vertex_id (maxKFId l)
                    (landmarks s lm) = Some v).
    { eapply lookup_weaken; [exact Hv|by apply (BuildGraph_vertices_grow w s l' s')]. }
    split; [exact Hv'|]. rewrite Heq in Hv'.
    destruct (Hkinds _ _ Hv') as [(_ & ?)|[(? & _)|(_ & ?)]]; [|done|];
      rewrite HmK, ?HmL in *; lia.
  - intros p Hin. destruct (Hp p Hin) as (Heq & Hrange).
    destruct (BuildGraph_point_vertex_present _ _ _ _ p Hbuild Hin) as [v Hv].
    rewrite HmK, HmL in Hv. exists v. split; [exact Hv|]. rewrite Heq in Hv.
    destruct (Hkinds _ _ Hv) as [(_ & ?)|[(_ & ?)|(? & _)]]; [| |done];
      rewrite HmK, ?HmL in *; lia.
Qed.

(** C2 as amended: for every window whose ids are non-negative and whose
    largest vertex id fits in an [int], the pose-variable id is the
    KeyFrame id, the landmark-variable id is max pose id + 1 + landmark id,
    the point-variable id is point id + max pose id + max landmark id + 2,
    pose ids lie below landmark ids and both below point ids; in the graph
    that is built every vertex has the kind of its id range, and every
    KeyFrame, Landmark and MapPoint of the window has its vertex. *)
Theorem C2_id_ranges_apart (w : Window) (s : SceneGraph) :
  let l := (BuildVertices w s).1 in
  ids_fit_int w s l ->
  id_ranges_apart w s l
  /\ (forall l' s', BuildGraph w s = Ok l' s' ->
        kinds_by_range l'
        /\ (forall k, k ∈ window_keyframes w ->
              exists v, vertices (optimizer l') !! KeyFrame.mnId (keyframes s k) = Some v
                        /\ is_pose_vertex v = true)
        /\ (forall lm, lm ∈ lLocalLandmarks l ->
              exists v, vertices (optimizer l')
                          !! (maxKFId l + 1 + Landmark.mnLandmarkId (landmarks s lm))
                        = Some v
                        /\ is_cuboid_vertex v = true)
        /\ (forall p, p ∈ lLocalMapPoints w ->
              exists v, vertices (optimizer l')
                          !! (MapPoint.mnId (mappoints s p) + maxKFId l
                              + maxLandmarkId l + 2) = Some v
                        /\ is_point_vertex v = true)).
Proof.
  cbv zeta. intros Hfit.
  pose proof (ids_fit_apart w s Hfit) as (Hk & Hlm & Hp & _).
  split; [by apply ids_fit_apart|].
  intros l' s' Hbuild.
  destruct (graph_vertices_by_kind w s l' s' Hfit Hbuild) as (Hkinds & Hvk & Hvl & Hvp).
  split; [exact Hkinds|]. split; [|split].
  - intros k Hin. rewrite <- (Hk k Hin). by apply Hvk.
  - intros lm Hin. rewrite <- (Hlm lm Hin). by apply Hvl.
  - intros p Hin. rewrite <- (Hp p Hin). by apply Hvp.
Qed.
End VariableIds.

(** ** Camera-object factors *)

Section CameraObjectFactors.
Context `{Geometry}.

Lemma filter_none (k : KeyFramePtr) (kfs : list KeyFramePtr) :
  k ∉ kfs -> filter (fun k' => k' = k) kfs = [].
Proof.
  induction kfs as [|k' kfs IH]; [done|]. intros Hk.
  rewrite filter_cons, decide_False.
  - apply IH. intros Hin. apply Hk. by right.
  - intros ->. apply Hk. by left.
Qed.

Lemma stereo_only_no_mono_factor w s k :
  stereo_only w s k -> ~ mono_observer w s k.
Proof.
  intros Hstereo (p & obs & Hp & Hobs & Hk & ur & Hur & Hlt).
  rewrite Hk in Hur. by rewrite (Hstereo p obs ur Hp Hobs Hk Hur) in Hlt.
Qed.

Lemma concat_length_blocks s kfs (blocks : list (list EdgeSE3Cuboid.t)) :
  Forall2 (block_of s) kfs blocks ->
  length (concat blocks)
  = sum_list (map (fun k => length (KeyFrame.GetLandmarks (keyframes s k))) kfs).
Proof.
  induction 1 as [|k b kfs blocks [Hb _] _ IH]; [reflexivity|].
  cbn. by rewrite length_app, IH, Hb.
Qed.

(** C10: the camera-object factors of the graph are made in blocks, one
    block per monocular reprojection factor and in the same order; the
    block of a factor of KeyFrame k holds one camera-object factor per
    Landmark of k, each on k's pose vertex. So a KeyFrame with m
    monocular factors and L Landmarks gets m * L camera-object factors,
    and a KeyFrame whose observations of Local MapPoints are all stereo
    has no monocular factor and gets none. *)
Theorem C10_camera_object_factors_per_mono_factor (w : Window) (s s' : SceneGraph)
    (l : Locals) :
  BuildGraph w s = Ok l s' ->
  exists blocks,
    edgesCuboid (optimizer l) = concat blocks
    /\ Forall2 (block_of s) (vpEdgeKFMono (optimizer l)) blocks
    /\ length blocks = length (vpEdgesMono (optimizer l))
    /\ length (edgesCuboid (optimizer l))
       = sum_list (map (fun k => length (KeyFrame.GetLandmarks (keyframes s k)))
                     (vpEdgeKFMono (optimizer l)))
    /\ (forall k,
          factors_of k (vpEdgeKFMono (optimizer l)) blocks
          = (mono_factors_of k (optimizer l)
             * length (KeyFrame.GetLandmarks (keyframes s k)))%nat)
    /\ (forall k, stereo_only w s k ->
          mono_factors_of k (optimizer l) = 0%nat
          /\ factors_of k (vpEdgeKFMono (optimizer l)) blocks = 0%nat).
Proof.
  intros Hbuild.
  destruct (BuildGraph_blocks w s l s' Hbuild) as (blocks & Hc & Hb & Hlen & Hmono).
  assert (Hfac : forall k,
             factors_of k (vpEdgeKFMono (optimizer l)) blocks
             = (mono_factors_of k (optimizer l)
                * length (KeyFrame.GetLandmarks (keyframes s k)))%nat).
  { intros k.
    apply (factors_of_blocks
             (fun k' => length (KeyFrame.GetLandmarks (keyframes s k')))).
    eapply Forall2_impl; [exact Hb|]. by intros k' b [Hlb _]. }
  exists blocks. split; [exact Hc|]. split; [exact Hb|].
  split; [by rewrite <- (Forall2_length _ _ _ Hb)|].
  split; [rewrite Hc; by apply concat_length_blocks|].
  split; [exact Hfac|].
  intros k Hstereo.
  assert (Hnone : mono_factors_of k (optimizer l) = 0%nat).
  { unfold mono_factors_of. rewrite filter_none; [reflexivity|].
    intros Hin. by apply (stereo_only_no_mono_factor w s k Hstereo), Hmono. }
  split; [exact Hnone|]. by rewrite Hfac, Hnone.
Qed.

Lemma cuboid_information_diagonal q :
  cuboid_information q = asDiagonal (replicate 9 (squared_double_quality q)).
Proof. reflexivity. Qed.

Lemma factor_added_grows s maxKFId k lm o o' extra :
  edgesCuboid o' = edgesCuboid o ++ extra ->
  factor_added s maxKFId k lm o -> factor_added s maxKFId k lm o'.
Proof.
  intros He (e & Hin & Hrest). exists e. split; [|exact Hrest].
  rewrite He. apply elem_of_app. by left.
Qed.

Lemma add_observation_keeps_factor s maxKFId' maxKFId id pMP o obs sc o1 sc1 k lm :
  add_observation maxKFId' id pMP o obs sc = Ok o1 sc1 ->
  factor_added s maxKFId k lm o -> factor_added s maxKFId k lm o1.
Proof.
  intros Hstep. apply add_observation_step in Hstep as (Hstep & _).
  destruct Hstep as [_ ->|kpUn ur invSigma2 ms _ _ _ _ _ _ _ He _|kpUn ur inv _ _ _ _ ->].
  - done.
  - exact (factor_added_grows s maxKFId k lm o o1 _ He).
  - apply (factor_added_grows s maxKFId k lm o _ []). by rewrite app_nil_r.
Qed.

Lemma local_factor_added w s l s' p obs lm :
  BuildGraph w s = Ok l s' ->
  p ∈ lLocalMapPoints w ->
  obs ∈ MapPoint.GetObservations (mappoints s p) ->
  obs.1 ∈ lLocalKeyFrames w ->
  KeyFrame.isBad (keyframes s obs.1) = false ->
  monocular s obs ->
  lm ∈ KeyFrame.GetLandmarks (keyframes s obs.1) ->
  landmark_ids_distinct s obs.1 ->
  factor_added s (maxKFId l) obs.1 lm (optimizer l).
Proof.
  intros Hbuild Hp Hobs Hlocal Hlive (ur & Hur & Hlt) Hlm Hdistinct.
  destruct (BuildGraph_Ok_inv _ _ _ _ Hbuild) as (_ & _ & -> & _).
  set (v := BuildVertices w s).
  destruct (BuildVertices_spec w s) as (Hsv & _ & (Hck & Hclm & _) & (HLL & _) & _).
  fold v in Hsv, Hck, Hclm, HLL.
  pose proof (BuildVertices_cached w s obs.1 lm Hlocal Hlm Hdistinct) as Hcache.
  fold v in Hcache.
  refine (BuildGraph_establish
            (fun o _ => vertices (optimizer v.1) ⊆ vertices o)
            (factor_added s (maxKFId v.1) obs.1 lm)
            w s l s' p obs Hbuild Hp Hobs _ _ _ _ _ _).
  - reflexivity.
  - intros pMP o sc _ _ HI. etransitivity; [exact HI|apply addVertex_subseteq].
  - intros pMP obs' o sc o1 sc1 _ _ _ HI Hstep.
    by destruct (add_observation_scene _ _ _ _ _ _ _ _ Hstep) as (-> & _).
  - intros o sc o1 sc1 [Hs Hg] HI Hstep.
    apply add_observation_step in Hstep as (Hstep & _).
    destruct Hstep as [Hbad _|kpUn ur' invSigma2 ms _ _ Hur' Hlt' _ _ Hlen He Hms
                      |kpUn ur' inv _ _ Hur' Hlt' _].
    + by rewrite (same_persistent_isBad _ _ obs.1 Hs), Hlive in Hbad.
    + rewrite (same_persistent_GetLandmarks _ _ obs.1 Hs) in Hlen, He, Hms.
      apply list_elem_of_lookup in Hlm as [i Hi].
      destruct (lookup_lt_is_Some_2 ms i) as [m Hm].
      { rewrite Hlen. by eapply lookup_lt_Some. }
      exists (camera_object_factor o (maxKFId v.1) sc obs.1 lm m).
      split; [|split; [|split; [|split]]].
      * rewrite He. apply elem_of_app. right.
        apply elem_of_lookup_zip_with. by exists i, lm, m.
      * cbn. rewrite (same_persistent_mnId _ _ obs.1 Hs). apply vertex_Some.
        destruct (Hck obs.1) as ((x & Hx & _) & _); [apply elem_of_app; by left|].
        exists x. by eapply lookup_weaken.
      * cbn. rewrite (same_persistent_landmark _ _ lm Hs). apply vertex_Some.
        destruct (Hclm lm) as ([x Hx] & _).
        { apply (HLL obs.1 lm Hlocal). by eapply list_elem_of_lookup_2. }
        exists x. by eapply lookup_weaken.
      * cbn. apply (Hms i lm m _ Hi Hm).
        rewrite (same_persistent_landmark _ _ lm Hs).
        eapply lookup_weaken; [exact Hcache|apply Hg].
      * cbn. by rewrite (same_persistent_landmark _ _ lm Hs).
    + rewrite (same_persistent_mvuRight _ _ obs.1 Hs), Hur in Hur'.
      injection Hur' as <-. by rewrite Hlt in Hlt'.
  - intros o i x (e & Hin & Hrest). exists e. split; [|exact Hrest].
    by rewrite (proj1 (addVertex_edges i x o)).
  - intros pMP obs' o sc o1 sc1 HQ Hstep.
    by eapply add_observation_keeps_factor.
Qed.
End CameraObjectFactors.

(** ** Outlier thresholds and robust kernels *)

Section OutlierPassFacts.
Context `{Solver}.





Lemma MarkOutliers_mono s o :
  vpEdgesMono (MarkOutliers s o)
  = zip_with (mark_mono s (vertices o)) (vpEdgesMono o) (vpMapPointEdgeMono o).
Proof. reflexivity. Qed.

Lemma MarkOutliers_stereo s o :
  vpEdgesStereo (MarkOutliers s o)
  = zip_with (mark_stereo s (vertices o)) (vpEdgesStereo o) (vpMapPointEdgeStereo o).
Proof. reflexivity. Qed.

Lemma MarkOutliers_vertices s o : vertices (MarkOutliers s o) = vertices o.
Proof. reflexivity. Qed.

(** C9: after the marking pass the i-th monocular (stereo) factor has no
    robust kernel when its MapPoint is not bad, whether or not it failed
    the check, and is the very factor it was (kernel and level included)
    when its MapPoint is bad. *)
Theorem C9_kernel_removed_unless_bad (s : SceneGraph) (o : SparseOptimizer) (i : nat)
    (pMP : MapPointPtr) :
  (forall e, vpEdgesMono o !! i = Some e -> vpMapPointEdgeMono o !! i = Some pMP ->
     exists e', vpEdgesMono (MarkOutliers s o) !! i = Some e'
       /\ (MapPoint.isBad (mappoints s pMP) = false ->
           EdgeSE3ProjectXYZ.robustKernel e' = None)
       /\ (MapPoint.isBad (mappoints s pMP) = true -> e' = e))
  /\ (forall e, vpEdgesStereo o !! i = Some e -> vpMapPointEdgeStereo o !! i = Some pMP ->
     exists e', vpEdgesStereo (MarkOutliers s o) !! i = Some e'
       /\ (MapPoint.isBad (mappoints s pMP) = false ->
           EdgeStereoSE3ProjectXYZ.robustKernel e' = None)
       /\ (MapPoint.isBad (mappoints s pMP) = true -> e' = e)).
Proof.
  split; intros e He Hp.
  - exists (mark_mono s (vertices o) e pMP). split; [|split].
    + rewrite MarkOutliers_mono, lookup_zip_with, He, Hp. reflexivity.
    + intros Hb. unfold mark_mono. rewrite Hb. reflexivity.
    + intros Hb. unfold mark_mono. rewrite Hb. reflexivity.
  - exists (mark_stereo s (vertices o) e pMP). split; [|split].
    + rewrite MarkOutliers_stereo, lookup_zip_with, He, Hp. reflexivity.
    + intros Hb. unfold mark_stereo. rewrite Hb. reflexivity.
    + intros Hb. unfold mark_stereo. rewrite Hb. reflexivity.
Qed.
End OutlierPassFacts.

(** ** The solver schedule *)

Section Schedule.
Context `{Solver}.

Lemma RunSolver_stopped pbStopFlag s o :
  stop_requested pbStopFlag after_first_optimize = true ->
  RunSolver pbStopFlag s o
  = (set_vertices (optimize pbStopFlag 0 5 o) o,
     [Call_initializeOptimization 0; Call_optimize 5]).
Proof. unfold RunSolver. intros ->. reflexivity. Qed.

Lemma RunSolver_not_stopped pbStopFlag s o :
  stop_requested pbStopFlag after_first_optimize = false ->
  RunSolver pbStopFlag s o
  = (let o2 := MarkOutliers s (set_vertices (optimize pbStopFlag 0 5 o) o) in
     set_vertices (optimize pbStopFlag 0 10 o2) o2,
     [Call_initializeOptimization 0; Call_optimize 5;
      Call_initializeOptimization 0; Call_optimize 10]).
Proof. unfold RunSolver. intros ->. reflexivity. Qed.

Lemma solver_calls_finish {A} calls (r : Outcome A) :
  solver_calls (finish calls r) = calls.
Proof. by destruct r. Qed.

Lemma scene_after_finish {A} calls (r : Outcome A) :
  scene_after (finish calls r) = scene_of r.
Proof. by destruct r. Qed.

Lemma LocalBundleAdjustment_stopped pKF flag s :
  before_first_optimize flag = true ->
  LocalBundleAdjustment pKF (Some flag) s
  = finish [] (BuildGraph (SelectWindow pKF s).1 (SelectWindow pKF s).2).
Proof.
  intros Hstop. unfold LocalBundleAdjustment.
  destruct (BuildGraph _ _); [|reflexivity].
  cbn [stop_requested]. by rewrite Hstop.
Qed.

Lemma build_scratch pKF s :
  same_persistent_state s
    (scene_of (BuildGraph (SelectWindow pKF s).1 (SelectWindow pKF s).2)).
Proof.
  etransitivity; [apply SelectWindow_scratch|apply BuildGraph_scratch].
Qed.

(** C3 as amended: when the stop flag reads true before the first
    optimize, no solver call is made and nothing is committed: every
    KeyFrame, MapPoint and Landmark is as before, save for the stamps
    (mnBALocalForKF, mnBAFixedForKF) and the landmark-measurement caches
    that window selection and graph construction have written by then;
    the run returns as soon as the graph has been built. *)
Theorem C3_stop_before_first_optimize (pKF : KeyFramePtr) (flag : StopFlag)
    (s : SceneGraph) :
  before_first_optimize flag = true ->
  let r := LocalBundleAdjustment pKF (Some flag) s in
  solver_calls r = []
  /\ same_persistent_state s (scene_after r)
  /\ (forall l s',
        BuildGraph (SelectWindow pKF s).1 (SelectWindow pKF s).2 = Ok l s' ->
        termination r = Returned /\ scene_after r = s').
Proof.
  intros Hstop. cbv zeta. rewrite (LocalBundleAdjustment_stopped _ _ _ Hstop).
  split; [apply solver_calls_finish|]. split.
  - rewrite scene_after_finish. apply build_scratch.
  - intros l s' ->. by split.
Qed.

(** *** A trigger KeyFrame on its own *)

Lemma visit_match_none id ms acc :
  Forall (fun m => m = None) ms -> fold_left (visit_match id) ms acc = acc.
Proof.
  intros Hms. revert acc.
  induction Hms as [|m ms -> _ IH]; intros acc; cbn [fold_left]; [done|apply IH].
Qed.

Lemma degenerate_window pKF s :
  degenerate pKF s ->
  (SelectWindow pKF s).1
  = {| lLocalKeyFrames := [pKF]; lLocalMapPoints := []; lFixedCameras := [] |}.
Proof.
  intros [Hneigh Hmatches].
  unfold SelectWindow. cbv zeta. cbn [fst].
  assert (Hkfs : SelectLocalKeyFrames pKF s
                 = ([pKF], update_keyframe pKF
                             (KeyFrame.set_mnBALocalForKF
                                (KeyFrame.mnId (keyframes s pKF))) s)).
  { unfold SelectLocalKeyFrames. cbv zeta.
    rewrite keyframes_update_keyframe, decide_True by done. cbn.
    by rewrite Hneigh. }
  rewrite Hkfs. cbn [fst snd].
  assert (Hmps : forall s1,
             KeyFrame.GetMapPointMatches (keyframes s1 pKF)
             = KeyFrame.GetMapPointMatches (keyframes s pKF) ->
             SelectLocalMapPoints (KeyFrame.mnId (keyframes s pKF)) [pKF] s1 = ([], s1)).
  { intros s1 Hs1. unfold SelectLocalMapPoints. cbn [fold_left snd].
    apply visit_match_none. by rewrite Hs1. }
  rewrite Hmps; [reflexivity|].
  rewrite keyframes_update_keyframe, decide_True by done. reflexivity.
Qed.

Lemma BuildGraph_no_points w s :
  lLocalMapPoints w = [] ->
  exists l, BuildGraph w s = Ok l (BuildVertices w s).2
            /\ optimizer l = optimizer (BuildVertices w s).1
            /\ lLocalLandmarks l = lLocalLandmarks (BuildVertices w s).1
            /\ maxKFId l = maxKFId (BuildVertices w s).1.
Proof.
  intros Hnone. unfold BuildGraph. cbv zeta. rewrite Hnone. cbn [foldM].
  eexists. split; [reflexivity|]. by repeat split.
Qed.

Lemma RunSolver_calls pbStopFlag s o :
  (RunSolver pbStopFlag s o).2
  = [Call_initializeOptimization 0; Call_optimize 5]
    ++ (if stop_requested pbStopFlag after_first_optimize then []
        else [Call_initializeOptimization 0; Call_optimize 10]).
Proof. unfold RunSolver. by destruct (stop_requested _ _). Qed.

Lemma RunSolver_no_edges pbStopFlag s o :
  no_edges o -> no_edges (RunSolver pbStopFlag s o).1.
Proof.
  intros (H1 & H2 & H3 & H4 & H5 & H6 & H7). unfold RunSolver. cbv zeta.
  destruct (negb _); cbn [fst]; unfold no_edges; cbn;
    rewrite ?H1, ?H2, ?H3, ?H4, ?H5, ?H6, ?H7; by repeat split.
Qed.

Lemma RunSolver_kinds pbStopFlag s o id :
  solver_keeps_kinds ->
  kind_of <$> (vertices (RunSolver pbStopFlag s o).1 !! id)
  = kind_of <$> (vertices o !! id).
Proof.
  intros Hkinds. unfold RunSolver. cbv zeta.
  destruct (negb _); cbn [fst vertices set_vertices].
  - rewrite Hkinds. rewrite MarkOutliers_vertices. cbn [vertices set_vertices].
    apply Hkinds.
  - apply Hkinds.
Qed.

Lemma ClassifyOutliers_no_edges s o : no_edges o -> ClassifyOutliers s o = [].
Proof.
  intros (H1 & H2 & H3 & H4 & H5 & H6 & H7). unfold ClassifyOutliers.
  by rewrite H1, H4.
Qed.

Lemma kind_of_pose v : is_pose_vertex v = true <-> kind_of v = PoseKind.
Proof. unfold is_pose_vertex, kind_of. by destruct (estimate v). Qed.

Lemma kind_of_cuboid v : is_cuboid_vertex v = true <-> kind_of v = CuboidKind.
Proof. unfold is_cuboid_vertex, kind_of. by destruct (estimate v). Qed.

Lemma kind_kept (vs vs' : gmap Z Vertex) id v k :
  kind_of <$> (vs' !! id) = kind_of <$> (vs !! id) ->
  vs !! id = Some v -> kind_of v = k ->
  exists v', vs' !! id = Some v' /\ kind_of v' = k.
Proof.
  intros Heq Hv Hk. rewrite Hv in Heq. cbn in Heq.
  destruct (vs' !! id) as [v'|]; [|done]. injection Heq as Heq.
  exists v'. split; [done|congruence].
Qed.

(** The commit of a window without MapPoints and without outliers goes
    well when the pose and cuboid vertices are where they belong. *)
Lemma Commit_no_points w l s :
  lLocalMapPoints w = [] ->
  (forall k, k ∈ lLocalKeyFrames w ->
      exists v, vertices (optimizer l) !! to_int (KeyFrame.mnId (keyframes s k)) = Some v
                /\ kind_of v = PoseKind) ->
  (forall lm, lm ∈ lLocalLandmarks l ->
      exists v, vertices (optimizer l)
                  !! landmark_vertex_id (maxKFId l) (landmarks s lm) = Some v
                /\ kind_of v = CuboidKind) ->
  exists s', Commit w l [] s = Ok tt s'.
Proof.
  intros Hnone Hkf Hlm. unfold Commit. cbv zeta. cbn [fold_left]. rewrite Hnone.
  pose (I := fun sc : SceneGraph =>
               (forall p, KeyFrame.mnId (keyframes sc p) = KeyFrame.mnId (keyframes s p))
               /\ (forall p, Landmark.mnLandmarkId (landmarks sc p)
                             = Landmark.mnLandmarkId (landmarks s p))).
  destruct (foldM_succeeds I (recover_keyframe (optimizer l)) (lLocalKeyFrames w) tt s)
    as ([] & s2 & -> & HI2); [by split| |].
  { intros [] k sc Hk [Hik Hil]. unfold recover_keyframe. rewrite Hik.
    destruct (Hkf k Hk) as (v & -> & Hkind).
    destruct v as [[q|c|pt] ? ?]; [|done..].
    eexists tt, _. split; [reflexivity|]. split; [|exact Hil].
    intros p. rewrite keyframes_update_keyframe.
    case_decide as Hp; [subst p; cbn; apply Hik|apply Hik]. }
  cbn [bind].
  destruct (foldM_succeeds I (recover_landmark (optimizer l) (maxKFId l))
              (lLocalLandmarks l) tt s2) as ([] & s3 & -> & HI3); [exact HI2| |].
  { intros [] lm sc Hin [Hik Hil]. unfold recover_landmark, landmark_vertex_id.
    rewrite Hil. destruct (Hlm lm Hin) as (v & Hv & Hkind).
    unfold landmark_vertex_id in Hv. rewrite Hv.
    destruct v as [[q|c|pt] ? ?]; [done| |done].
    eexists tt, _. split; [reflexivity|]. split; [exact Hik|].
    intros p. rewrite landmarks_update_landmark.
    case_decide as Hp; [subst p; cbn; apply Hil|apply Hil]. }
  cbn [bind foldM]. by exists s3.
Qed.

(** C4 as amended: when the trigger KeyFrame has no covisible neighbour
    and observes no point, and the stop flag is not raised, the window is
    the trigger KeyFrame alone and the graph has its pose vertex and no
    factor, but the solver is not skipped: it is called for 5 iterations
    and, unless the stop flag is raised meanwhile, for 10 more. No error
    is surfaced: the run returns, provided the solver leaves the kind of
    every vertex alone and the ids fit in an [int]. *)
Theorem C4_degenerate_window_is_optimized (pKF : KeyFramePtr)
    (pbStopFlag : option StopFlag) (s : SceneGraph) :
  degenerate pKF s ->
  stop_requested pbStopFlag before_first_optimize = false ->
  let sel := SelectWindow pKF s in
  let r := LocalBundleAdjustment pKF pbStopFlag s in
  sel.1 = {| lLocalKeyFrames := [pKF]; lLocalMapPoints := []; lFixedCameras := [] |}
  /\ (exists l s', BuildGraph sel.1 sel.2 = Ok l s'
        /\ no_edges (optimizer l)
        /\ vertices (optimizer l) !! pose_vertex_id (keyframes s pKF)
           = Some (local_keyframe_vertex (keyframes s pKF)))
  /\ solver_calls r
     = [Call_initializeOptimization 0; Call_optimize 5]
       ++ (if stop_requested pbStopFlag after_first_optimize then []
           else [Call_initializeOptimization 0; Call_optimize 10])
  /\ (solver_keeps_kinds ->
      ids_fit_int sel.1 sel.2 (BuildVertices sel.1 sel.2).1 ->
      termination r = Returned).
Proof.
  intros Hdeg Hgo. cbv zeta.
  pose proof (degenerate_window pKF s Hdeg) as Hw.
  set (sel := SelectWindow pKF s) in *.
  assert (Hnone : lLocalMapPoints sel.1 = []) by by rewrite Hw.
  assert (HpKF : pKF ∈ lLocalKeyFrames sel.1 ++ lFixedCameras sel.1).
  { rewrite Hw. cbn. by left. }
  destruct (BuildGraph_no_points sel.1 sel.2 Hnone) as (l & Hbuild & Ho & HLL & HmK).
  pose proof (SelectWindow_scratch pKF s) as Hsel. fold sel in Hsel.
  destruct (BuildVertices_spec sel.1 sel.2) as (Hsv & _ & _ & _ & Hne).
  split; [exact Hw|]. split; [|split].
  - exists l, (BuildVertices sel.1 sel.2).2. split; [exact Hbuild|].
    split; [by rewrite Ho|].
    unfold pose_vertex_id. rewrite <- (same_persistent_mnId _ _ pKF Hsel).
    destruct (pose_vertices_present sel.1 sel.2 l _ pKF Hbuild HpKF)
      as (v & Hv & Hpose).
    rewrite Hv. f_equal.
    rewrite Ho in Hv.
    destruct (BuildVertices_spec sel.1 sel.2) as (_ & Horigin & _).
    destruct (Horigin _ _ Hv) as [(k & Hk & _ & ->)|[(k & Hk & _)|(lm & _ & _ & ->)]].
    + rewrite Hw in Hk. apply list_elem_of_singleton in Hk as ->.
      apply local_keyframe_vertex_persistent, same_persistent_keyframe, Hsel.
    + rewrite Hw in Hk. destruct (proj1 (elem_of_nil _) Hk).
    + discriminate.
  - unfold LocalBundleAdjustment. fold sel. rewrite Hbuild, Hgo.
    rewrite solver_calls_finish. apply RunSolver_calls.
  - intros Hkinds Hfit.
    unfold LocalBundleAdjustment. fold sel. rewrite Hbuild, Hgo.
    set (s' := (BuildVertices sel.1 sel.2).2) in *.
    set (run := RunSolver pbStopFlag s' (optimizer l)).
    assert (Hne' : no_edges (optimizer l)) by by rewrite Ho.
    rewrite (ClassifyOutliers_no_edges s' run.1 (RunSolver_no_edges _ _ _ Hne')).
    destruct (graph_vertices_by_kind sel.1 sel.2 l s' Hfit Hbuild)
      as (_ & Hvk & Hvl & _).
    destruct (Commit_no_points sel.1 (with_optimizer run.1 l) s' Hnone) as [s'' Hc].
    + intros k Hk. cbn [with_optimizer optimizer].
      destruct (Hvk k) as (v & Hv & Hpose); [apply elem_of_app; by left|].
      unfold pose_vertex_id in Hv.
      rewrite (same_persistent_mnId _ _ k Hsv).
      apply (kind_kept (vertices (optimizer l)) _ _ v); [|done|by apply kind_of_pose].
      by apply RunSolver_kinds.
    + intros lm Hlm. cbn [with_optimizer optimizer lLocalLandmarks maxKFId] in *.
      rewrite HLL in Hlm. destruct (Hvl lm Hlm) as (v & Hv & Hcub).
      rewrite (same_persistent_landmark _ _ lm Hsv), HmK.
      apply (kind_kept (vertices (optimizer l)) _ _ v); [|done|by apply kind_of_cuboid].
      by apply RunSolver_kinds.
    + by rewrite Hc.
Qed.

(** *** Pose vertices and pose write-back *)

Lemma LocalBundleAdjustment_poses pKF pbStopFlag s :
  poses_kept_outside (lLocalKeyFrames (SelectWindow pKF s).1) s
    (scene_after (LocalBundleAdjustment pKF pbStopFlag s)).
Proof.
  pose proof (build_scratch pKF s) as Hbuild.
  unfold LocalBundleAdjustment.
  destruct (BuildGraph _ _) as [l s'|s'] eqn:Hb; cbn [scene_of] in Hbuild.
  - destruct (stop_requested _ _).
    + cbn. by apply same_persistent_poses.
    + rewrite scene_after_finish.
      etransitivity; [by apply same_persistent_poses|apply Commit_poses].
  - cbn. by apply same_persistent_poses.
Qed.

(** C8: the stored pose of every Fixed Camera is the same after the
    procedure as before, however the run ends. No Fixed Camera is a Local
    KeyFrame, the only KeyFrames whose pose the commit writes. In the
    graph every Fixed Camera has a pose vertex under its id, and a pose
    vertex that is not marked fixed carries the id of a Local KeyFrame
    whose own id is not 0. *)
Theorem C8_fixed_cameras_keep_their_pose (pKF : KeyFramePtr)
    (pbStopFlag : option StopFlag) (s : SceneGraph) :
  let w := (SelectWindow pKF s).1 in
  let r := LocalBundleAdjustment pKF pbStopFlag s in
  (forall f, f ∈ lFixedCameras w ->
      KeyFrame.GetPose (keyframes (scene_after r) f) = KeyFrame.GetPose (keyframes s f)
      /\ f ∉ lLocalKeyFrames w)
  /\ (forall l s', BuildGraph w (SelectWindow pKF s).2 = Ok l s' ->
        (forall f, f ∈ lFixedCameras w ->
            exists v, vertices (optimizer l)
                        !! to_int (KeyFrame.mnId (keyframes s f)) = Some v
                      /\ is_pose_vertex v = true)
        /\ (forall id v, vertices (optimizer l) !! id = Some v ->
              is_pose_vertex v = true -> fixed v = false ->
              exists k, k ∈ lLocalKeyFrames w
                /\ id = to_int (KeyFrame.mnId (keyframes s k))
                /\ KeyFrame.mnId (keyframes s k) <> 0)).
Proof.
  cbv zeta. split.
  - intros f Hf. pose proof (window_roles_apart pKF s f Hf) as Hapart.
    split; [|exact Hapart]. by apply LocalBundleAdjustment_poses.
  - intros l s' Hbuild.
    pose proof (SelectWindow_scratch pKF s) as Hsel.
    split.
    + intros f Hf.
      rewrite <- (same_persistent_mnId _ _ f Hsel).
      eapply pose_vertices_present; [exact Hbuild|].
      apply elem_of_app. by right.
    + intros id v Hid Hpose Hfree.
      destruct (free_pose_vertices_are_local _ _ _ _ _ _ Hbuild Hid Hpose Hfree)
        as (k & Hk & -> & Hne).
      exists k. by rewrite <- (same_persistent_mnId _ _ k Hsel).
Qed.
End Schedule.

#[local] Set Warnings "-clear-no-such-hyp".

(** ** Lists *)

Lemma elem_of_list_map {A B} (f : A -> B) (l : list A) (y : B) :
  y ∈ map f l <-> exists x, y = f x /\ x ∈ l.
Proof. exact (list_elem_of_fmap f l y). Qed.

Lemma elem_of_list_concat {A} (x : A) (ls : list (list A)) :
  x ∈ concat ls <-> exists l, x ∈ l /\ l ∈ ls.
Proof.
  induction ls as [|l0 ls IH]; cbn [concat].
  - split; [by intros ?%elem_of_nil|by intros (? & _ & ?%elem_of_nil)].
  - rewrite elem_of_app, IH. split.
    + intros [?|(l & ? & ?)]; [exists l0|exists l]; split; try done;
        [by constructor|by constructor].
    + intros (l & Hx & [->|?]%elem_of_cons); [by left|right; by exists l].
Qed.

(** ** The selected window (lines 44-83) *)

Section SelectionFacts.
Context `{Geometry}.

Lemma stamp_neighbours_spec id l a :
  let r := fold_left (stamp_neighbour id) l a in
  r.1 = a.1 ++ filter (fun k => KeyFrame.isBad (keyframes a.2 k) = false) l
  /\ (forall k, keyframes r.2 k
                = if decide (k ∈ l)
                  then KeyFrame.set_mnBALocalForKF id (keyframes a.2 k)
                  else keyframes a.2 k)
  /\ mappoints r.2 = mappoints a.2
  /\ landmarks r.2 = landmarks a.2.
Proof.
  revert a. induction l as [|b l IH]; intros a; cbn [fold_left].
  - cbn. rewrite app_nil_r. split; [done|]. split; [|done].
    intros k. rewrite decide_False; [done|apply not_elem_of_nil].
  - specialize (IH (stamp_neighbour id a b)). cbv zeta in IH |- *.
    destruct IH as (IH1 & IH2 & IH3 & IH4).
    assert (Hs : forall k, keyframes (stamp_neighbour id a b).2 k
              = if decide (k = b)
                then KeyFrame.set_mnBALocalForKF id (keyframes a.2 b)
                else keyframes a.2 k).
    { intros k. apply keyframes_update_keyframe. }
    assert (Hbad : forall k, KeyFrame.isBad (keyframes (stamp_neighbour id a b).2 k)
              = KeyFrame.isBad (keyframes a.2 k)).
    { intros k. rewrite Hs. case_decide; [by subst|done]. }
    split; [|split; [|split]].
    + rewrite IH1, filter_cons.
      rewrite (list_filter_iff _
                 (fun k => KeyFrame.isBad (keyframes a.2 k) = false) l)
        by (intros k; by rewrite Hbad).
      unfold stamp_neighbour at 1. cbn [fst].
      change (keyframes (update_keyframe b (KeyFrame.set_mnBALocalForKF id) a.2) b)
        with (keyframes (stamp_neighbour id a b).2 b).
      rewrite Hbad. destruct (KeyFrame.isBad (keyframes a.2 b)).
      * by rewrite decide_False by done.
      * rewrite decide_True by done. by rewrite <- app_assoc.
    + intros k. rewrite IH2, !Hs.
      destruct (decide (k = b)) as [->|Hne].
      * rewrite (decide_True (P := b ∈ b :: l)) by constructor.
        by case_decide.
      * destruct (decide (k ∈ l)) as [Hin|Hnin].
        -- rewrite decide_True; [done|by constructor].
        -- rewrite decide_False; [done|].
           intros [?|?]%elem_of_cons; done.
    + by rewrite IH3.
    + by rewrite IH4.
Qed.

(** The scene after the Local KeyFrames are chosen: the covisibility
    group carries the local stamp, nothing else has changed. *)
Lemma SelectLocalKeyFrames_spec pKF s :
  let id := KeyFrame.mnId (keyframes s pKF) in
  let r := SelectLocalKeyFrames pKF s in
  r.1 = pKF :: filter (fun k => KeyFrame.isBad (keyframes s k) = false)
                 (KeyFrame.GetVectorCovisibleKeyFrames (keyframes s pKF))
  /\ (forall k, keyframes r.2 k
                = if decide (k ∈ covisibility_group pKF s)
                  then KeyFrame.set_mnBALocalForKF id (keyframes s k)
                  else keyframes s k)
  /\ mappoints r.2 = mappoints s
  /\ landmarks r.2 = landmarks s.
Proof.
  cbv zeta. unfold SelectLocalKeyFrames.
  set (id := KeyFrame.mnId (keyframes s pKF)).
  set (s0 := update_keyframe pKF (KeyFrame.set_mnBALocalForKF id) s).
  assert (Hs0 : forall k, keyframes s0 k
             = if decide (k = pKF)
               then KeyFrame.set_mnBALocalForKF id (keyframes s pKF)
               else keyframes s k).
  { intros k. apply keyframes_update_keyframe. }
  assert (Hn : KeyFrame.GetVectorCovisibleKeyFrames (keyframes s0 pKF)
               = KeyFrame.GetVectorCovisibleKeyFrames (keyframes s pKF)).
  { rewrite Hs0. by rewrite decide_True. }
  rewrite Hn.
  destruct (stamp_neighbours_spec id
              (KeyFrame.GetVectorCovisibleKeyFrames (keyframes s pKF)) ([pKF], s0))
    as (H1 & H2 & H3 & H4).
  cbn [fst snd] in H1, H2, H3, H4.
  split; [|split; [|split]].
  - rewrite H1. cbn [app]. f_equal. apply list_filter_iff.
    intros k. rewrite Hs0. case_decide; [by subst|done].
  - intros k. rewrite H2, !Hs0. unfold covisibility_group.
    destruct (decide (k = pKF)) as [->|Hne].
    + rewrite (decide_True (P := pKF ∈ pKF :: _)) by constructor.
      by case_decide.
    + destruct (decide (k ∈ KeyFrame.GetVectorCovisibleKeyFrames (keyframes s pKF)))
        as [Hin|Hnin].
      * rewrite decide_True; [done|by constructor].
      * rewrite decide_False; [done|].
        intros [?|?]%elem_of_cons; done.
  - by rewrite H3.
  - by rewrite H4.
Qed.

Lemma visit_match_invariant id s0 V a m :
  matches_invariant id s0 V a ->
  matches_invariant id s0 (V ++ [m]) (visit_match id a m).
Proof.
  intros (Hnd & Hmem & Hst & Hk & Hl).
  assert (Hgrow : forall p, Some p ∈ V ++ [m] <-> Some p ∈ V \/ m = Some p).
  { intros p. rewrite elem_of_app, list_elem_of_singleton. naive_solver. }
  destruct m as [pMP|]; cbn [visit_match].
  - assert (Hbad : MapPoint.isBad (mappoints a.2 pMP)
                   = MapPoint.isBad (mappoints s0 pMP)).
    { rewrite Hst. by case_decide. }
    assert (Hstamp : MapPoint.mnBALocalForKF (mappoints a.2 pMP)
                     = if decide (pMP ∈ a.1) then id
                       else MapPoint.mnBALocalForKF (mappoints s0 pMP)).
    { rewrite Hst. by case_decide. }
    rewrite Hbad.
    destruct (MapPoint.isBad (mappoints s0 pMP)) eqn:Hb.
    { split; [done|]. split; [|done].
      intros p. rewrite Hmem, Hgrow. unfold selectable.
      split; [naive_solver|].
      intros ([?|[= ->]] & Hlive & ?); [done|]. congruence. }
    destruct (MapPoint.mnBALocalForKF (mappoints a.2 pMP) =? id) eqn:Heq.
    { apply Z.eqb_eq in Heq. split; [done|]. split; [|done].
      intros p. rewrite Hmem, Hgrow. unfold selectable.
      split; [naive_solver|].
      intros ([?|[= ->]] & Hlive & Hne); [done|].
      rewrite Hstamp in Heq. case_decide as Hin; [|done].
      by apply Hmem in Hin. }
    apply Z.eqb_neq in Heq.
    assert (Hnin : pMP ∉ a.1).
    { intros Hin. rewrite Hstamp, decide_True in Heq by done. done. }
    rewrite Hstamp, decide_False in Heq by done.
    unfold matches_invariant. cbn [fst snd]. split; [|split; [|split; [|split]]].
    + apply NoDup_app. split; [done|]. split; [|apply NoDup_singleton].
      intros x Hx ->%list_elem_of_singleton. done.
    + intros p. rewrite elem_of_app, list_elem_of_singleton, Hmem, Hgrow.
      unfold selectable. split.
      * intros [(? & ?)| ->]; [naive_solver|]. split; [by right|done].
      * intros ([?|[= ->]] & ?); [by left|by right].
    + intros p. rewrite mappoints_update_mappoint, !Hst.
      destruct (decide (p = pMP)) as [->|Hne].
      * rewrite (decide_False (P := pMP ∈ a.1)) by done.
        rewrite decide_True; [done|].
        apply elem_of_app. right. by apply list_elem_of_singleton.
      * destruct (decide (p ∈ a.1)) as [Hin|Hn].
        -- rewrite decide_True; [done|]. apply elem_of_app. by left.
        -- rewrite decide_False; [done|].
           intros [?|?%list_elem_of_singleton]%elem_of_app; done.
    + done.
    + done.
  - split; [done|]. split; [|done].
    intros p. rewrite Hmem, Hgrow. naive_solver.
Qed.

Lemma visit_matches_invariant id s0 ms V a :
  matches_invariant id s0 V a ->
  matches_invariant id s0 (V ++ ms) (fold_left (visit_match id) ms a).
Proof.
  revert V a. induction ms as [|m ms IH]; intros V a Ha; cbn [fold_left].
  - by rewrite app_nil_r.
  - replace (V ++ m :: ms) with ((V ++ [m]) ++ ms) by by rewrite <- app_assoc.
    apply IH. by apply visit_match_invariant.
Qed.

Lemma SelectLocalMapPoints_invariant id s0 L V a :
  matches_invariant id s0 V a ->
  matches_invariant id s0 (V ++ point_matches s0 L)
    (fold_left
       (fun acc pKFi =>
          fold_left (visit_match id)
            (KeyFrame.GetMapPointMatches (keyframes acc.2 pKFi)) acc)
       L a).
Proof.
  revert V a. induction L as [|k L IH]; intros V a Ha; cbn [fold_left].
  - unfold point_matches. cbn. by rewrite app_nil_r.
  - unfold point_matches. cbn [map concat]. rewrite app_assoc.
    apply IH.
    assert (Hk : keyframes a.2 = keyframes s0) by apply Ha.
    rewrite Hk. by apply visit_matches_invariant.
Qed.

(** The Local MapPoints and the scene once they are chosen. *)
Lemma SelectLocalMapPoints_spec id L s :
  matches_invariant id s (point_matches s L) (SelectLocalMapPoints id L s).
Proof.
  apply (SelectLocalMapPoints_invariant id s L [] ([], s)).
  split; [constructor|]. split; [|split; [|done]].
  - intros p. split; [by intros ?%elem_of_nil|by intros [?%elem_of_nil _]].
  - intros p. cbn. by rewrite decide_False by apply not_elem_of_nil.
Qed.

Lemma elem_of_point_matches s L p :
  Some p ∈ point_matches s L <-> matched_by s L p.
Proof.
  unfold point_matches, matched_by. rewrite elem_of_list_concat. split.
  - intros (ms & Hp & (k & -> & Hk)%elem_of_list_map). by exists k.
  - intros (k & Hk & Hp). eexists. split; [exact Hp|].
    apply elem_of_list_map. by exists k.
Qed.

Lemma visit_observer_step id s0 V a o :
  observers_invariant id s0 V a ->
  observers_invariant id s0 (V ++ [o.1]) (visit_observer id a o).
Proof.
  intros (Hnd & Hmem & Hst & Hm & Hl).
  destruct o as [k i]. cbn [fst]. unfold visit_observer. cbn [fst].
  assert (Hgrow : forall q, q ∈ V ++ [k] <-> q ∈ V \/ q = k).
  { intros q. by rewrite elem_of_app, list_elem_of_singleton. }
  destruct (decide (k ∈ V /\ unstamped id s0 k)) as [Hseen|Hnew].
  - (* [k] has been stamped on an earlier visit *)
    rewrite Hst, decide_True by done. cbn.
    rewrite Z.eqb_refl, andb_false_r.
    split; [done|]. split; [|split; [|done]].
    + intros q. rewrite Hmem, Hgrow. split; [naive_solver|].
      intros ([?| ->] & ?); [done|]. by destruct Hseen.
    + intros q. rewrite Hst.
      destruct (decide (q ∈ V /\ unstamped id s0 q)) as [Hq|Hq].
      * rewrite decide_True; [done|]. rewrite Hgrow. naive_solver.
      * rewrite decide_False; [done|]. rewrite Hgrow.
        intros ([?| ->] & ?); naive_solver.
  - rewrite Hst, decide_False by done.
    destruct (negb (KeyFrame.mnBALocalForKF (keyframes s0 k) =? id)
              && negb (KeyFrame.mnBAFixedForKF (keyframes s0 k) =? id)) eqn:Hc.
    + apply andb_true_iff in Hc as [Hc1 Hc2].
      apply negb_true_iff, Z.eqb_neq in Hc1, Hc2.
      assert (Hun : unstamped id s0 k) by done.
      assert (HkV : k ∉ V) by naive_solver.
      assert (Hka : k ∉ a.1) by (rewrite Hmem; naive_solver).
      cbn zeta. rewrite keyframes_update_keyframe, decide_True by done.
      rewrite Hst, decide_False by done.
      change (KeyFrame.isBad (KeyFrame.set_mnBAFixedForKF id (keyframes s0 k)))
        with (KeyFrame.isBad (keyframes s0 k)).
      assert (Hscene : forall q,
                 keyframes (update_keyframe k (KeyFrame.set_mnBAFixedForKF id) a.2) q
                 = if decide (q ∈ V ++ [k] /\ unstamped id s0 q)
                   then KeyFrame.set_mnBAFixedForKF id (keyframes s0 q)
                   else keyframes s0 q).
      { intros q. rewrite keyframes_update_keyframe, !Hst.
        rewrite (decide_False (P := k ∈ V /\ _)) by done.
        destruct (decide (q = k)) as [->|Hne].
        - rewrite decide_True; [done|]. rewrite Hgrow. naive_solver.
        - destruct (decide (q ∈ V /\ unstamped id s0 q)) as [Hq|Hq].
          + rewrite decide_True; [done|]. rewrite Hgrow. naive_solver.
          + rewrite decide_False; [done|]. rewrite Hgrow. naive_solver. }
      destruct (KeyFrame.isBad (keyframes s0 k)) eqn:Hb;
        unfold observers_invariant; cbn [fst snd].
      * split; [done|]. split; [|split; [exact Hscene|done]].
        intros q. rewrite Hmem, Hgrow. split; [naive_solver|].
        intros ([?| ->] & ? & ?); [done|congruence].
      * split; [|split; [|split; [exact Hscene|done]]].
        -- apply NoDup_app. split; [done|]. split; [|apply NoDup_singleton].
           intros x Hx ->%list_elem_of_singleton. done.
        -- intros q. rewrite elem_of_app, list_elem_of_singleton, Hmem, Hgrow.
           split.
           ++ intros [(? & ?)| ->]; [naive_solver|]. split; [by right|done].
           ++ intros ([?| ->] & ?); [by left|by right].
    + assert (Hun : ~ unstamped id s0 k).
      { intros [H1 H2]. apply Z.eqb_neq in H1, H2. by rewrite H1, H2 in Hc. }
      split; [done|]. split; [|split; [|done]].
      * intros q. rewrite Hmem, Hgrow. split; [naive_solver|].
        intros ([?| ->] & ? & ?); done.
      * intros q. rewrite Hst.
        destruct (decide (q ∈ V /\ unstamped id s0 q)) as [Hq|Hq].
        -- rewrite decide_True; [done|]. rewrite Hgrow. naive_solver.
        -- rewrite decide_False; [done|]. rewrite Hgrow.
           intros ([?| ->] & ?); [naive_solver|done].
Qed.

Lemma visit_observers_invariant id s0 obs V a :
  observers_invariant id s0 V a ->
  observers_invariant id s0 (V ++ map fst obs) (fold_left (visit_observer id) obs a).
Proof.
  revert V a. induction obs as [|o obs IH]; intros V a Ha; cbn [fold_left map].
  - by rewrite app_nil_r.
  - replace (V ++ o.1 :: map fst obs) with ((V ++ [o.1]) ++ map fst obs)
      by by rewrite <- app_assoc.
    apply IH. by apply visit_observer_step.
Qed.

Lemma SelectFixedCameras_loop id s0 L V a :
  observers_invariant id s0 V a ->
  observers_invariant id s0 (V ++ observers s0 L)
    (fold_left
       (fun acc pMP =>
          fold_left (visit_observer id)
            (MapPoint.GetObservations (mappoints acc.2 pMP)) acc)
       L a).
Proof.
  revert V a. induction L as [|p L IH]; intros V a Ha; cbn [fold_left].
  - unfold observers. cbn. by rewrite app_nil_r.
  - unfold observers. cbn [map concat]. rewrite app_assoc.
    apply IH.
    assert (Hm : mappoints a.2 = mappoints s0) by apply Ha.
    rewrite Hm. by apply visit_observers_invariant.
Qed.

(** The Fixed Cameras and the scene once they are chosen. *)
Lemma SelectFixedCameras_spec id L s :
  observers_invariant id s (observers s L) (SelectFixedCameras id L s).
Proof.
  apply (SelectFixedCameras_loop id s L [] ([], s)).
  split; [constructor|]. split; [|split; [|done]].
  - intros p. split; [by intros ?%elem_of_nil|by intros [?%elem_of_nil _]].
  - intros p. cbn. rewrite decide_False; [done|].
    by intros [?%elem_of_nil _].
Qed.

Lemma elem_of_observers s L k :
  k ∈ observers s L <-> observer_of s L k.
Proof.
  unfold observers, observer_of. rewrite elem_of_list_concat. split.
  - intros (ks & Hk & (p & -> & Hp)%elem_of_list_map).
    apply elem_of_list_map in Hk as ([k' i] & -> & Hin). by exists p, i.
  - intros (p & i & Hp & Hin).
    exists (map fst (MapPoint.GetObservations (mappoints s p))). split.
    + apply elem_of_list_map. by exists (k, i).
    + apply elem_of_list_map. by exists p.
Qed.

Lemma observers_ext s s' L :
  (forall p, MapPoint.GetObservations (mappoints s' p)
             = MapPoint.GetObservations (mappoints s p)) ->
  observers s' L = observers s L.
Proof.
  intros Hobs. unfold observers. f_equal. apply map_ext. intros p.
  by rewrite Hobs.
Qed.

Lemma point_matches_ext s s' L :
  (forall k, KeyFrame.GetMapPointMatches (keyframes s' k)
             = KeyFrame.GetMapPointMatches (keyframes s k)) ->
  point_matches s' L = point_matches s L.
Proof.
  intros Hm. unfold point_matches. f_equal. apply map_ext. intros k.
  by rewrite Hm.
Qed.

(** The window and the scene it leaves behind, read off the scene the
    procedure starts from. *)
Lemma SelectWindow_spec pKF s :
  let id := KeyFrame.mnId (keyframes s pKF) in
  let sel := SelectWindow pKF s in
  let w := sel.1 in
  lLocalKeyFrames w
  = pKF :: filter (fun k => KeyFrame.isBad (keyframes s k) = false)
             (KeyFrame.GetVectorCovisibleKeyFrames (keyframes s pKF))
  /\ NoDup (lLocalMapPoints w)
  /\ (forall p, p ∈ lLocalMapPoints w <->
        matched_by s (lLocalKeyFrames w) p /\ selectable id s p)
  /\ (forall p, mappoints sel.2 p
                = if decide (p ∈ lLocalMapPoints w)
                  then MapPoint.set_mnBALocalForKF id (mappoints s p)
                  else mappoints s p)
  /\ NoDup (lFixedCameras w)
  /\ (forall k, k ∈ lFixedCameras w <->
        observer_of s (lLocalMapPoints w) k
        /\ (k ∉ covisibility_group pKF s)
        /\ unstamped id s k
        /\ KeyFrame.isBad (keyframes s k) = false)
  /\ (forall k, keyframes sel.2 k
                = if decide (k ∈ covisibility_group pKF s)
                  then KeyFrame.set_mnBALocalForKF id (keyframes s k)
                  else if decide (k ∈ observers s (lLocalMapPoints w)
                                  /\ unstamped id s k)
                       then KeyFrame.set_mnBAFixedForKF id (keyframes s k)
                       else keyframes s k)
  /\ landmarks sel.2 = landmarks s.
Proof.
  cbv zeta. unfold SelectWindow. cbn [fst snd lLocalKeyFrames lLocalMapPoints
                                       lFixedCameras].
  set (id := KeyFrame.mnId (keyframes s pKF)).
  destruct (SelectLocalKeyFrames_spec pKF s) as (K1 & K2 & K3 & K4).
  fold id in K2.
  set (kfs := SelectLocalKeyFrames pKF s) in *.
  destruct (SelectLocalMapPoints_spec id kfs.1 kfs.2) as (M1 & M2 & M3 & M4 & M5).
  set (mps := SelectLocalMapPoints id kfs.1 kfs.2) in *.
  destruct (SelectFixedCameras_spec id mps.1 mps.2) as (F1 & F2 & F3 & F4 & F5).
  set (fixed := SelectFixedCameras id mps.1 mps.2) in *.
  assert (Hobs : observers mps.2 mps.1 = observers s mps.1).
  { apply observers_ext. intros p. rewrite M3, K3. by case_decide. }
  assert (Hun : forall k, unstamped id mps.2 k
                          <-> (k ∉ covisibility_group pKF s) /\ unstamped id s k).
  { intros k. unfold unstamped. rewrite M4, K2. case_decide as Hc; cbn.
    - split; [by intros [? _]|by intros [? _]].
    - split; [by intros ?|by intros [_ ?]]. }
  assert (Hbad : forall k, KeyFrame.isBad (keyframes mps.2 k)
                           = KeyFrame.isBad (keyframes s k)).
  { intros k. rewrite M4, K2. by case_decide. }
  split; [exact K1|]. split; [exact M1|]. split; [|split; [|split; [exact F1|]]].
  - intros p. rewrite M2.
    rewrite (point_matches_ext s kfs.2) by (intros k; rewrite K2; by case_decide).
    rewrite elem_of_point_matches. unfold selectable. by rewrite K3.
  - intros p. by rewrite F4, M3, K3.
  - split; [|split].
    + intros k. rewrite F2, Hobs, elem_of_observers, Hun, Hbad. naive_solver.
    + intros k. rewrite F3, Hobs, M4, K2.
      destruct (decide (k ∈ covisibility_group pKF s)) as [Hc|Hc].
      * rewrite decide_False; [done|]. rewrite Hun. naive_solver.
      * destruct (decide (k ∈ observers s mps.1 /\ unstamped id s k)) as [Hq|Hq].
        -- rewrite decide_True; [done|]. rewrite Hun. naive_solver.
        -- rewrite decide_False; [done|]. rewrite Hun. naive_solver.
    + by rewrite F5, M5, K4.
Qed.

(** X1 (lines 44-54). The Local KeyFrames are the trigger KeyFrame,
    listed first whether it is bad or not, followed by those of its
    covisible neighbours that are not bad, in covisibility order. The
    trigger and every neighbour, bad ones included, carry the local stamp
    afterwards; no other KeyFrame's local stamp is written. *)
Theorem X1_local_keyframes (pKF : KeyFramePtr) (s : SceneGraph) :
  let sel := SelectWindow pKF s in
  lLocalKeyFrames sel.1
  = pKF :: filter (fun k => KeyFrame.isBad (keyframes s k) = false)
             (KeyFrame.GetVectorCovisibleKeyFrames (keyframes s pKF))
  /\ (forall k, k ∈ covisibility_group pKF s ->
        KeyFrame.mnBALocalForKF (keyframes sel.2 k) = KeyFrame.mnId (keyframes s pKF))
  /\ (forall k, k ∉ covisibility_group pKF s ->
        KeyFrame.mnBALocalForKF (keyframes sel.2 k)
        = KeyFrame.mnBALocalForKF (keyframes s k)).
Proof.
  destruct (SelectWindow_spec pKF s) as (A1 & _ & _ & _ & _ & _ & A7 & _).
  cbv zeta in *. split; [exact A1|]. split.
  - intros k Hk. rewrite A7. by rewrite decide_True.
  - intros k Hk. rewrite A7. rewrite decide_False by done. by case_decide.
Qed.

(** X2 (lines 56-68). The Local MapPoints are exactly the live MapPoints
    in the point-match table of some Local KeyFrame whose stamp was not
    the trigger's id when the procedure started; none is listed twice;
    they are the MapPoints whose stamp is written, and nothing else of a
    MapPoint changes during the selection. *)
Theorem X2_local_mappoints (pKF : KeyFramePtr) (s : SceneGraph) :
  let id := KeyFrame.mnId (keyframes s pKF) in
  let sel := SelectWindow pKF s in
  NoDup (lLocalMapPoints sel.1)
  /\ (forall p, p ∈ lLocalMapPoints sel.1 <->
        matched_by s (lLocalKeyFrames sel.1) p /\ selectable id s p)
  /\ (forall p, mappoints sel.2 p
                = if decide (p ∈ lLocalMapPoints sel.1)
                  then MapPoint.set_mnBALocalForKF id (mappoints s p)
                  else mappoints s p).
Proof.
  destruct (SelectWindow_spec pKF s) as (_ & A2 & A3 & A4 & _).
  cbv zeta in *. by split; [|split].
Qed.

(** X3 (lines 70-83). The Fixed Cameras are exactly the KeyFrames that
    observe a Local MapPoint, are not bad, are neither the trigger nor one
    of its neighbours, and carried neither stamp equal to the trigger's id
    when the procedure started; none is listed twice. A bad observer that
    meets the other conditions gets the fixed stamp all the same. *)
Theorem X3_fixed_cameras (pKF : KeyFramePtr) (s : SceneGraph) :
  let id := KeyFrame.mnId (keyframes s pKF) in
  let sel := SelectWindow pKF s in
  NoDup (lFixedCameras sel.1)
  /\ (forall k, k ∈ lFixedCameras sel.1 <->
        observer_of s (lLocalMapPoints sel.1) k
        /\ (k ∉ covisibility_group pKF s)
        /\ unstamped id s k
        /\ KeyFrame.isBad (keyframes s k) = false)
  /\ (forall k, observer_of s (lLocalMapPoints sel.1) k ->
        k ∉ covisibility_group pKF s -> unstamped id s k ->
        KeyFrame.mnBAFixedForKF (keyframes sel.2 k) = id).
Proof.
  destruct (SelectWindow_spec pKF s) as (_ & _ & _ & _ & A5 & A6 & A7 & _).
  cbv zeta in *. split; [exact A5|]. split; [exact A6|].
  intros k Hobs Hc Hun. rewrite A7, decide_False by done.
  rewrite decide_True; [done|]. split; [|done]. by apply elem_of_observers.
Qed.

Lemma SelectWindow_keyframe_kept pKF s k :
  let k' := keyframes (SelectWindow pKF s).2 k in
  KeyFrame.mnId k' = KeyFrame.mnId (keyframes s k)
  /\ KeyFrame.isBad k' = KeyFrame.isBad (keyframes s k)
  /\ KeyFrame.GetVectorCovisibleKeyFrames k'
     = KeyFrame.GetVectorCovisibleKeyFrames (keyframes s k)
  /\ KeyFrame.GetMapPointMatches k' = KeyFrame.GetMapPointMatches (keyframes s k).
Proof.
  destruct (SelectWindow_spec pKF s) as (_ & _ & _ & _ & _ & _ & A7 & _).
  cbv zeta in *. rewrite A7. by repeat case_decide.
Qed.

(** X4 (lines 44-83). Selecting again for the same trigger, on the scene
    the first selection left, yields the same Local KeyFrames but no Local
    MapPoint and no Fixed Camera, and writes nothing new: the stamps of
    the first selection mask every candidate. *)
Theorem X4_second_selection_is_empty (pKF : KeyFramePtr) (s : SceneGraph) :
  let sel := SelectWindow pKF s in
  let again := SelectWindow pKF sel.2 in
  lLocalKeyFrames again.1 = lLocalKeyFrames sel.1
  /\ lLocalMapPoints again.1 = []
  /\ lFixedCameras again.1 = []
  /\ same_scene sel.2 again.2.
Proof.
  cbv zeta.
  destruct (SelectWindow_spec pKF s) as (A1 & A2 & A3 & A4 & A5 & A6 & A7 & A8).
  destruct (SelectWindow_spec pKF (SelectWindow pKF s).2)
    as (B1 & B2 & B3 & B4 & B5 & B6 & B7 & B8).
  cbv zeta in *.
  set (sel := SelectWindow pKF s) in *.
  set (again := SelectWindow pKF sel.2) in *.
  set (id := KeyFrame.mnId (keyframes s pKF)) in *.
  assert (Hkept := SelectWindow_keyframe_kept pKF s). cbv zeta in Hkept.
  fold sel in Hkept.
  assert (Hid : KeyFrame.mnId (keyframes sel.2 pKF) = id) by apply Hkept.
  rewrite Hid in *.
  assert (Hgroup : covisibility_group pKF sel.2 = covisibility_group pKF s).
  { unfold covisibility_group. f_equal. apply Hkept. }
  rewrite Hgroup in *.
  assert (Hlocal : lLocalKeyFrames again.1 = lLocalKeyFrames sel.1).
  { rewrite B1, A1. f_equal.
    replace (KeyFrame.GetVectorCovisibleKeyFrames (keyframes sel.2 pKF))
      with (KeyFrame.GetVectorCovisibleKeyFrames (keyframes s pKF))
      by (symmetry; apply Hkept).
    apply list_filter_iff. intros k.
    by replace (KeyFrame.isBad (keyframes sel.2 k))
      with (KeyFrame.isBad (keyframes s k)) by (symmetry; apply Hkept). }
  assert (Hpoints : lLocalMapPoints again.1 = []).
  { destruct (lLocalMapPoints again.1) as [|p l] eqn:Hl; [done|].
    exfalso.
    destruct (proj1 (B3 p)) as ((k & Hk & Hm) & Hlive & Hstamp);
      [constructor|].
    rewrite Hlocal in Hk.
    replace (KeyFrame.GetMapPointMatches (keyframes sel.2 k))
      with (KeyFrame.GetMapPointMatches (keyframes s k)) in Hm
      by (symmetry; apply Hkept).
    rewrite A4 in Hlive, Hstamp.
    destruct (decide (p ∈ lLocalMapPoints sel.1)) as [Hin|Hnin];
      [done|].
    apply Hnin, A3. split; [by exists k|done]. }
  assert (Hobs : observers sel.2 (lLocalMapPoints again.1) = []).
  { by rewrite Hpoints. }
  split; [exact Hlocal|]. split; [exact Hpoints|]. split.
  - destruct (lFixedCameras again.1) as [|k l] eqn:Hl; [done|].
    exfalso.
    destruct (proj1 (B6 k)) as ((p & i & Hp & _) & _); [constructor|].
    rewrite Hpoints in Hp. by apply elem_of_nil in Hp.
  - split; [|split].
    + intros k. rewrite B7, Hobs.
      rewrite (decide_False (P := k ∈ [] /\ _)) by (by intros [?%elem_of_nil _]).
      case_decide as Hc; [|done].
      rewrite A7, decide_True by done. reflexivity.
    + intros p. rewrite B4, Hpoints.
      by rewrite decide_False by apply not_elem_of_nil.
    + intros p. by rewrite B8.
Qed.
End SelectionFacts.
(** ** The pose and cuboid vertices (lines 98-138) *)

Section VertexFacts.
Context `{Geometry}.

Lemma insert_landmark_NoDup p ls : NoDup ls -> NoDup (insert_landmark p ls).
Proof.
  intros Hnd. unfold insert_landmark. case_decide as Hin; [done|].
  apply NoDup_app. split; [done|]. split; [|apply NoDup_singleton].
  intros x Hx ->%list_elem_of_singleton. done.
Qed.

Lemma cache_landmarks_NoDup pKFi lms acc :
  NoDup acc.1 -> NoDup (fold_left (cache_landmark pKFi) lms acc).1.
Proof.
  intros Hnd.
  apply (fold_left_invariant (fun a : list LandmarkPtr * SceneGraph => NoDup a.1));
    [|exact Hnd].
  intros a lm _ Ha. unfold cache_landmark. cbn [fst]. by apply insert_landmark_NoDup.
Qed.

Lemma reached_step {A} (f : A -> Z) (L : list A) (m : Z) (x : A) :
  x ∈ L -> reached f L m -> reached f L (if f x >? m then f x else m).
Proof.
  intros Hx Hm. destruct (f x >? m); [|exact Hm]. right. by exists x.
Qed.

Lemma reached_weaken {A} (f : A -> Z) (L L' : list A) (m : Z) :
  (forall x, x ∈ L -> x ∈ L') -> reached f L m -> reached f L' m.
Proof.
  intros HL [->|(x & Hx & ->)]; [by left|]. right. exists x. split; [by apply HL|done].
Qed.

(** Both maxima are reached, and no Local Landmark is listed twice. *)
Lemma BuildVertices_reached w s :
  let l := (BuildVertices w s).1 in
  reached (fun k => KeyFrame.mnId (keyframes s k)) (window_keyframes w) (maxKFId l)
  /\ reached (fun lm => Landmark.mnLandmarkId (landmarks s lm)) (lLocalLandmarks l)
       (maxLandmarkId l)
  /\ NoDup (lLocalLandmarks l).
Proof.
  cbv zeta. unfold BuildVertices. cbv zeta. cbn [fst snd].
  set (a := fold_left add_local_keyframe (lLocalKeyFrames w) (locals0, s)).
  set (b := fold_left (add_fixed_keyframe a.2) (lFixedCameras w) a.1).
  set (c := fold_left (add_landmark a.2) (lLocalLandmarks b) b).
  set (fk := fun k => KeyFrame.mnId (keyframes s k)).
  set (fl := fun lm => Landmark.mnLandmarkId (landmarks s lm)).
  assert (Ha : same_persistent_state s a.2
               /\ reached fk (lLocalKeyFrames w) (maxKFId a.1)
               /\ NoDup (lLocalLandmarks a.1)).
  { apply (fold_left_invariant
             (fun st : Locals * SceneGraph =>
                same_persistent_state s st.2
                /\ reached fk (lLocalKeyFrames w) (maxKFId st.1)
                /\ NoDup (lLocalLandmarks st.1))).
    - intros st k Hk (Hs & Hr & Hnd).
      assert (Hs' : same_persistent_state s (add_local_keyframe st k).2).
      { etransitivity; [exact Hs|apply add_local_keyframe_scratch]. }
      split; [exact Hs'|].
      unfold add_local_keyframe in *. cbv zeta in *. cbn [fst snd] in *.
      cbn [maxKFId lLocalLandmarks]. split.
      + rewrite (same_persistent_mnId _ _ k Hs'). by apply (reached_step fk).
      + by apply cache_landmarks_NoDup.
    - split; [reflexivity|]. split; [by left|constructor]. }
  destruct Ha as (Hsa & Hra & Hnda).
  assert (Hb : reached fk (window_keyframes w) (maxKFId b)
               /\ lLocalLandmarks b = lLocalLandmarks a.1).
  { apply (fold_left_invariant
             (fun l : Locals =>
                reached fk (window_keyframes w) (maxKFId l)
                /\ lLocalLandmarks l = lLocalLandmarks a.1)).
    - intros l k Hk (Hr & Hll). unfold add_fixed_keyframe. cbv zeta.
      cbn [maxKFId lLocalLandmarks]. split; [|exact Hll].
      rewrite (same_persistent_mnId _ _ k Hsa). apply (reached_step fk); [|done].
      apply elem_of_app. by right.
    - split; [|done]. apply (reached_weaken fk (lLocalKeyFrames w)); [|done].
      intros x Hx. apply elem_of_app. by left. }
  destruct Hb as (Hrb & Hllb).
  assert (Hc : maxKFId c = maxKFId b
               /\ reached fl (lLocalLandmarks b) (maxLandmarkId c)
               /\ lLocalLandmarks c = lLocalLandmarks b).
  { apply (fold_left_invariant
             (fun l : Locals =>
                maxKFId l = maxKFId b
                /\ reached fl (lLocalLandmarks b) (maxLandmarkId l)
                /\ lLocalLandmarks l = lLocalLandmarks b)).
    - intros l lm Hlm (Hm & Hr & Hll). unfold add_landmark. cbv zeta.
      cbn [maxKFId maxLandmarkId lLocalLandmarks].
      split; [exact Hm|]. split; [|exact Hll].
      rewrite (same_persistent_landmark _ _ lm Hsa). by apply (reached_step fl).
    - split; [done|]. split; [|done].
      destruct (local_loop_invariant_holds w s (lLocalKeyFrames w) ltac:(done))
        as (_ & _ & _ & Hlma & _).
      fold a in Hlma.
      assert (Hlmb : maxLandmarkId b = 0).
      { apply (fold_left_invariant (fun l : Locals => maxLandmarkId l = 0));
          [|exact Hlma].
        intros l k _ Hl. unfold add_fixed_keyframe. cbv zeta. exact Hl. }
      left. exact Hlmb. }
  destruct Hc as (Hmc & Hrc & Hllc).
  split; [by rewrite Hmc|]. split; [by rewrite Hllc|].
  by rewrite Hllc, Hllb.
Qed.

(** X5 (lines 98, 114-115, 125-126, 136-137). After the three vertex
    loops [maxKFId] is the largest id among the Local KeyFrames and the
    Fixed Cameras and [maxLandmarkId] the largest id among the Local
    Landmarks, each 0 when there is none or when all ids are 0 or
    less. *)
Theorem X5_maxima (w : Window) (s : SceneGraph) :
  let l := (BuildVertices w s).1 in
  largest_of (fun k => KeyFrame.mnId (keyframes s k)) (window_keyframes w) (maxKFId l)
  /\ largest_of (fun lm => Landmark.mnLandmarkId (landmarks s lm)) (lLocalLandmarks l)
       (maxLandmarkId l).
Proof.
  cbv zeta.
  destruct (BuildVertices_spec w s) as (_ & _ & (Hk & Hlm & H0k & H0l) & _).
  destruct (BuildVertices_reached w s) as (Hrk & Hrl & _).
  cbv zeta in *. split.
  - split; [|split; [exact H0k|exact Hrk]].
    intros k Hin. by apply Hk.
  - split; [|split; [exact H0l|exact Hrl]].
    intros lm Hin. by apply Hlm.
Qed.

(** X6 (lines 101-108, 129). The Local Landmarks are exactly the
    Landmarks associated with some Local KeyFrame, and each is listed
    once however many Local KeyFrames it is associated with; Landmarks of
    Fixed Cameras are not among them unless a Local KeyFrame has them
    too. *)
Theorem X6_local_landmarks (w : Window) (s : SceneGraph) :
  let l := (BuildVertices w s).1 in
  NoDup (lLocalLandmarks l)
  /\ (forall lm, lm ∈ lLocalLandmarks l <->
        exists k, k ∈ lLocalKeyFrames w
                  /\ lm ∈ KeyFrame.GetLandmarks (keyframes s k)).
Proof.
  cbv zeta.
  destruct (BuildVertices_spec w s) as (_ & _ & _ & (Hin & Hout) & _).
  destruct (BuildVertices_reached w s) as (_ & _ & Hnd).
  cbv zeta in *. split; [exact Hnd|].
  intros lm. split; [apply Hout|]. intros (k & Hk & Hlm). by apply (Hin k).
Qed.

Lemma BuildGraph_vertex_flags w s s' l id v :
  BuildGraph w s = Ok l s' ->
  vertices (optimizer l) !! id = Some v ->
  marginalized v = is_point_vertex v
  /\ (fixed v = true -> is_pose_vertex v = true)
  /\ (is_pose_vertex v = true \/ is_cuboid_vertex v = true \/ is_point_vertex v = true).
Proof.
  intros Hbuild Hv.
  destruct (BuildGraph_origin w s l s' id v Hbuild Hv)
    as [(k & _ & _ & ->)|[(k & _ & _ & ->)|[(lm & _ & _ & ->)|(p & _ & _ & ->)]]];
    cbn; auto.
Qed.

(** X7 (lines 109-113, 120-124, 131-135, 165-170). In the graph that is
    built, the marginalized vertices are exactly the point vertices, and
    a vertex that is held fixed is a pose vertex: cuboid and point
    vertices are always free. *)
Theorem X7_vertex_flags (w : Window) (s s' : SceneGraph) (l : Locals)
    (id : Z) (v : Vertex) :
  BuildGraph w s = Ok l s' ->
  vertices (optimizer l) !! id = Some v ->
  marginalized v = is_point_vertex v
  /\ (fixed v = true -> is_pose_vertex v = true)
  /\ (is_pose_vertex v = true \/ is_cuboid_vertex v = true \/ is_point_vertex v = true).
Proof. apply BuildGraph_vertex_flags. Qed.

(** X16 (lines 109-113, 120-124, 130-135, 165-170). Every vertex of the
    graph that is built is the vertex made for a Local KeyFrame, a Fixed
    Camera, a Local Landmark or a Local MapPoint, registered under that
    object's vertex id and starting from the object's pose, cuboid or
    position as the scene has it; and every such object finds a vertex
    under its vertex id (its own, or the one registered first under the
    same id). *)
Theorem X16_vertices_come_from_window (w : Window) (s s' : SceneGraph) (l : Locals) :
  BuildGraph w s = Ok l s' ->
  (forall id v, vertices (optimizer l) !! id = Some v ->
      from_local_keyframe w s id v \/ from_fixed_camera w s id v
      \/ from_landmark (lLocalLandmarks l) (maxKFId l) s id v
      \/ from_mappoint w (maxKFId l) (maxLandmarkId l) s id v)
  /\ (forall k, k ∈ window_keyframes w ->
        is_Some (vertices (optimizer l) !! pose_vertex_id (keyframes s k)))
  /\ (forall lm, lm ∈ lLocalLandmarks l ->
        is_Some (vertices (optimizer l)
                   !! landmark_vertex_id (maxKFId l) (landmarks s lm)))
  /\ (forall p, p ∈ lLocalMapPoints w ->
        is_Some (vertices (optimizer l)
                   !! point_vertex_id (maxKFId l) (maxLandmarkId l) (mappoints s p))).
Proof.
  intros Hbuild. split; [|split; [|split]].
  - intros id v. by apply (BuildGraph_origin w s l s').
  - intros k Hk.
    destruct (pose_vertices_present w s l s' k Hbuild Hk) as (v & Hv & _).
    by exists v.
  - intros lm Hlm.
    destruct (BuildGraph_Ok_inv _ _ _ _ Hbuild) as (_ & HLL & HmK & _).
    destruct (BuildVertices_spec w s) as (_ & _ & (_ & Hcov & _) & _).
    rewrite HLL in Hlm. rewrite HmK.
    destruct (Hcov lm Hlm) as ([v Hv] & _). exists v.
    eapply lookup_weaken; [exact Hv|by eapply BuildGraph_vertices_grow].
  - intros p Hp. by eapply BuildGraph_point_vertex_present.
Qed.
End VertexFacts.
(** ** The reprojection factors (lines 164-255) *)

Section FactorFacts.
Context `{Geometry}.

Lemma same_persistent_vectors s s' k :
  same_persistent_state s s' ->
  KeyFrame.mvKeysUn (keyframes s' k) = KeyFrame.mvKeysUn (keyframes s k)
  /\ KeyFrame.mvuRight (keyframes s' k) = KeyFrame.mvuRight (keyframes s k)
  /\ KeyFrame.mvInvLevelSigma2 (keyframes s' k)
     = KeyFrame.mvInvLevelSigma2 (keyframes s k).
Proof.
  intros Hs.
  by destruct (persistent_keyframe_fields _ _ (same_persistent_keyframe _ _ k Hs))
    as (_ & _ & _ & _ & _ & _ & _ & ? & ? & ?).
Qed.

Lemma readable_persistent s s' obs :
  same_persistent_state s s' -> readable s' obs <-> readable s obs.
Proof.
  intros Hs. unfold readable.
  destruct (same_persistent_vectors s s' obs.1 Hs) as (-> & -> & ->). done.
Qed.

Lemma is_monocular_persistent s s' obs :
  same_persistent_state s s' -> is_monocular s' obs = is_monocular s obs.
Proof.
  intros Hs. unfold is_monocular.
  by destruct (same_persistent_vectors s s' obs.1 Hs) as (_ & -> & _).
Qed.

Lemma is_live_persistent s s' obs :
  same_persistent_state s s' -> is_live s' obs = is_live s obs.
Proof. intros Hs. unfold is_live. by rewrite (same_persistent_isBad _ _ _ Hs). Qed.

Lemma mono_edge_persistent o id k k' kpUn invSigma2 :
  persistent_keyframe k' = persistent_keyframe k ->
  mono_edge o id k' kpUn invSigma2 = mono_edge o id k kpUn invSigma2.
Proof.
  intros Hk. unfold mono_edge.
  pose proof (f_equal KeyFrame.mnId Hk) as H1.
  pose proof (f_equal KeyFrame.fx Hk) as H2.
  pose proof (f_equal KeyFrame.fy Hk) as H3.
  pose proof (f_equal KeyFrame.cx Hk) as H4.
  pose proof (f_equal KeyFrame.cy Hk) as H5.
  cbn in H1, H2, H3, H4, H5. by rewrite H1, H2, H3, H4, H5.
Qed.

Lemma stereo_edge_persistent o id k k' kpUn ur invSigma2 :
  persistent_keyframe k' = persistent_keyframe k ->
  stereo_edge o id k' kpUn ur invSigma2 = stereo_edge o id k kpUn ur invSigma2.
Proof.
  intros Hk. unfold stereo_edge.
  pose proof (f_equal KeyFrame.mnId Hk) as H1.
  pose proof (f_equal KeyFrame.fx Hk) as H2.
  pose proof (f_equal KeyFrame.fy Hk) as H3.
  pose proof (f_equal KeyFrame.cx Hk) as H4.
  pose proof (f_equal KeyFrame.cy Hk) as H5.
  pose proof (f_equal KeyFrame.mbf Hk) as H6.
  cbn in H1, H2, H3, H4, H5, H6. by rewrite H1, H2, H3, H4, H5, H6.
Qed.

Lemma add_observation_edge_step maxKFId id pMP o obs s o' s' :
  add_observation maxKFId id pMP o obs s = Ok o' s' ->
  edge_step id pMP o obs s o'.
Proof.
  unfold add_observation. cbv zeta.
  destruct (KeyFrame.isBad _) eqn:Hbad.
  { intros [= <- <-]. by apply edge_step_bad. }
  destruct (_ !! _) as [kpUn|] eqn:Hkp; [|done].
  destruct (KeyFrame.mvuRight _ !! _) as [ur|] eqn:Hur; [|done].
  destruct (vector_at _ _) as [invSigma2|] eqn:Hsig; [|done].
  destruct (PrimFloat.ltb ur 0%float) eqn:Hmono.
  - set (k := keyframes s obs.1).
    set (o1 := addEdgeMono (mono_edge o id k kpUn invSigma2) obs.1 pMP o).
    intros [= <- <-].
    destruct (add_cuboid_edges_spec maxKFId obs.1 (KeyFrame.GetLandmarks k)
                o s o1 s eq_refl ltac:(reflexivity) ltac:(reflexivity))
      as (Hv & Hr & _).
    by eapply edge_step_mono.
  - intros [= <- <-]. by eapply edge_step_stereo.
Qed.

Lemma add_observation_succeeds maxKFId id pMP o obs s :
  (KeyFrame.isBad (keyframes s obs.1) = false -> readable s obs) ->
  exists o' s', add_observation maxKFId id pMP o obs s = Ok o' s'.
Proof.
  intros Hread. unfold add_observation. cbv zeta.
  destruct (KeyFrame.isBad _) eqn:Hbad; [by eauto|].
  destruct (Hread eq_refl) as (kpUn & ur & invSigma2 & -> & -> & ->).
  destruct (PrimFloat.ltb ur 0%float); eauto.
Qed.

(** X8 (lines 175-191, 226-234). When every observation of a Local
    MapPoint by a KeyFrame that is not bad indexes an existing keypoint
    of that KeyFrame (in [mvKeysUn] and in [mvuRight]) whose octave is a
    level of [mvInvLevelSigma2], the graph construction reads no vector
    out of range and runs to its end. The observations by bad KeyFrames
    are not looked at, whatever they index. *)
Theorem X8_readable_graph_is_built (w : Window) (s : SceneGraph) :
  observations_readable w s -> exists l s', BuildGraph w s = Ok l s'.
Proof.
  intros Hread. unfold BuildGraph. cbv zeta.
  set (v := BuildVertices w s).
  assert (Hv : same_persistent_state s v.2) by apply BuildVertices_scratch.
  destruct (foldM_succeeds (fun sc => same_persistent_state s sc)
              (add_mappoint (maxKFId v.1) (maxLandmarkId v.1))
              (lLocalMapPoints w) (optimizer v.1) v.2 Hv)
    as (o & s' & -> & _); [|by eauto].
  intros o p sc Hp Hsc. unfold add_mappoint. cbv zeta.
  rewrite (same_persistent_GetObservations _ _ p Hsc).
  apply (foldM_succeeds (fun sc => same_persistent_state s sc)); [exact Hsc|].
  intros o1 obs sc1 Hobs Hsc1.
  destruct (add_observation_succeeds (maxKFId v.1)
              (point_vertex_id (maxKFId v.1) (maxLandmarkId v.1) (mappoints sc p))
              p o1 obs sc1) as (o2 & sc2 & Hstep).
  - rewrite (same_persistent_isBad _ _ _ Hsc1),
      (readable_persistent _ _ _ Hsc1).
    by apply (Hread p).
  - exists o2, sc2. split; [exact Hstep|].
    etransitivity; [exact Hsc1|].
    pose proof (add_observation_scratch (maxKFId v.1)
                  (point_vertex_id (maxKFId v.1) (maxLandmarkId v.1) (mappoints sc p))
                  p o1 obs sc1) as Hscr.
    by rewrite Hstep in Hscr.
Qed.

(** *** The bookkeeping vectors *)

Lemma reprojection_vectors_inv o o' :
  reprojection_vectors o' = reprojection_vectors o ->
  vpEdgesMono o' = vpEdgesMono o /\ vpEdgeKFMono o' = vpEdgeKFMono o
  /\ vpMapPointEdgeMono o' = vpMapPointEdgeMono o
  /\ vpEdgesStereo o' = vpEdgesStereo o /\ vpEdgeKFStereo o' = vpEdgeKFStereo o
  /\ vpMapPointEdgeStereo o' = vpMapPointEdgeStereo o.
Proof. unfold reprojection_vectors. intros [= -> -> -> -> -> ->]. done. Qed.

Lemma rows_extend_same o o' :
  reprojection_vectors o' = reprojection_vectors o -> rows_extend o o' [] [].
Proof.
  intros (H1 & H2 & H3 & H4 & H5 & H6)%reprojection_vectors_inv.
  unfold rows_extend. cbn [map length]. rewrite !app_nil_r, !Nat.add_0_r.
  by rewrite H1, H2, H3, H4, H5, H6.
Qed.

Lemma rows_extend_trans o o1 o2 m st m' st' :
  rows_extend o o1 m st -> rows_extend o1 o2 m' st' ->
  rows_extend o o2 (m ++ m') (st ++ st').
Proof.
  intros (A1 & A2 & A3 & A4 & A5 & A6) (B1 & B2 & B3 & B4 & B5 & B6).
  unfold rows_extend. rewrite !map_app, !length_app, !app_assoc.
  rewrite B1, B2, B3, B4, B5, B6, A1, A2, A3, A4, A5, A6.
  repeat split; try done; lia.
Qed.

Lemma edge_step_rows id pMP o obs sc o' :
  edge_step id pMP o obs sc o' ->
  rows_extend o o' (mono_pair sc pMP obs) (stereo_pair sc pMP obs).
Proof.
  unfold mono_pair, stereo_pair, is_live, is_monocular.
  intros [Hbad _ Hr|kpUn ur invSigma2 Hlive _ Hur _ Hmono _ Hr
          |kpUn ur invSigma2 Hlive _ Hur _ Hmono _ Hr].
  - rewrite Hbad. cbn. by apply rows_extend_same.
  - rewrite Hlive, Hur, Hmono. cbn.
    apply reprojection_vectors_inv in Hr as (H1 & H2 & H3 & H4 & H5 & H6).
    unfold rows_extend. cbn [map length fst snd]. rewrite !app_nil_r, !Nat.add_0_r.
    rewrite H1, H2, H3, H4, H5, H6. cbn. rewrite length_app. cbn. done.
  - rewrite Hlive, Hur, Hmono. cbn.
    apply reprojection_vectors_inv in Hr as (H1 & H2 & H3 & H4 & H5 & H6).
    unfold rows_extend. cbn [map length fst snd]. rewrite !app_nil_r, !Nat.add_0_r.
    rewrite H1, H2, H3, H4, H5, H6. cbn. rewrite length_app. cbn. done.
Qed.

Lemma foldM_rows {B} (I : SceneGraph -> Prop)
    (f : SparseOptimizer -> B -> SceneGraph -> Outcome SparseOptimizer)
    (gm gs : B -> list (KeyFramePtr * MapPointPtr)) (l : list B) :
  (forall o b sc o1 sc1, b ∈ l -> I sc -> f o b sc = Ok o1 sc1 ->
      I sc1 /\ rows_extend o o1 (gm b) (gs b)) ->
  forall o sc o1 sc1, I sc -> foldM f l o sc = Ok o1 sc1 ->
    I sc1 /\ rows_extend o o1 (concat (map gm l)) (concat (map gs l)).
Proof.
  induction l as [|b l IH]; intros Hstep o sc o1 sc1 Hsc; cbn [foldM map concat].
  - intros [= <- <-]. split; [done|]. by apply rows_extend_same.
  - destruct (f o b sc) as [o2 sc2|] eqn:Hf; [|done]. intros Hfold.
    destruct (Hstep o b sc o2 sc2 ltac:(constructor) Hsc Hf) as (Hsc2 & Hrows).
    destruct (IH (fun o b' sc o1 sc1 Hb => Hstep o b' sc o1 sc1
                    ltac:(by constructor)) o2 sc2 o1 sc1 Hsc2 Hfold)
      as (Hsc1 & Hrows').
    split; [done|]. by eapply rows_extend_trans.
Qed.

Lemma mono_pair_persistent s s' p obs :
  same_persistent_state s s' -> mono_pair s' p obs = mono_pair s p obs.
Proof.
  intros Hs. unfold mono_pair.
  by rewrite (is_live_persistent _ _ _ Hs), (is_monocular_persistent _ _ _ Hs).
Qed.

Lemma stereo_pair_persistent s s' p obs :
  same_persistent_state s s' -> stereo_pair s' p obs = stereo_pair s p obs.
Proof.
  intros Hs. unfold stereo_pair.
  by rewrite (is_live_persistent _ _ _ Hs), (is_monocular_persistent _ _ _ Hs).
Qed.

Lemma add_mappoint_rows s maxKFId maxLandmarkId o p sc o1 sc1 :
  same_persistent_state s sc ->
  add_mappoint maxKFId maxLandmarkId o p sc = Ok o1 sc1 ->
  same_persistent_state s sc1
  /\ rows_extend o o1
       (concat (map (mono_pair s p) (MapPoint.GetObservations (mappoints s p))))
       (concat (map (stereo_pair s p) (MapPoint.GetObservations (mappoints s p)))).
Proof.
  intros Hsc. unfold add_mappoint. cbv zeta.
  rewrite (same_persistent_GetObservations _ _ p Hsc). intros Hfold.
  set (id := point_vertex_id maxKFId maxLandmarkId (mappoints sc p)) in *.
  assert (Hstep : forall o2 obs sc2 o3 sc3,
             obs ∈ MapPoint.GetObservations (mappoints s p) ->
             same_persistent_state s sc2 ->
             add_observation maxKFId id p o2 obs sc2 = Ok o3 sc3 ->
             same_persistent_state s sc3
             /\ rows_extend o2 o3 (mono_pair s p obs) (stereo_pair s p obs)).
  { intros o2 obs sc2 o3 sc3 _ Hsc2 Hstep. split.
    - etransitivity; [exact Hsc2|].
      by destruct (add_observation_scene _ _ _ _ _ _ _ _ Hstep) as (_ & ? & _).
    - rewrite <- (mono_pair_persistent s sc2), <- (stereo_pair_persistent s sc2)
        by done.
      by eapply edge_step_rows, add_observation_edge_step. }
  destruct (foldM_rows (fun sc => same_persistent_state s sc) _
              (mono_pair s p) (stereo_pair s p) _ Hstep _ _ _ _ Hsc Hfold)
    as (Hsc1 & Hrows).
  split; [done|].
  exact (rows_extend_trans o _ o1 [] [] _ _
           (rows_extend_same _ _ (proj2 (addVertex_edges _ _ _))) Hrows).
Qed.

Lemma BuildGraph_rows w s l s' :
  BuildGraph w s = Ok l s' ->
  rows_extend empty_optimizer (optimizer l) (mono_pairs w s) (stereo_pairs w s).
Proof.
  intros Hbuild.
  destruct (BuildGraph_Ok_inv _ _ _ _ Hbuild) as (Hfold & _).
  cbv zeta in Hfold.
  destruct (BuildVertices_spec w s) as (Hv & _ & _ & _ & Hne).
  cbv zeta in Hv, Hne.
  set (v := BuildVertices w s) in *.
  assert (Hstep : forall o p sc o1 sc1,
             p ∈ lLocalMapPoints w ->
             same_persistent_state s sc ->
             add_mappoint (maxKFId v.1) (maxLandmarkId v.1) o p sc = Ok o1 sc1 ->
             same_persistent_state s sc1
             /\ rows_extend o o1
                  (concat (map (mono_pair s p)
                             (MapPoint.GetObservations (mappoints s p))))
                  (concat (map (stereo_pair s p)
                             (MapPoint.GetObservations (mappoints s p))))).
  { intros o p sc o1 sc1 _ Hsc Hstep. by eapply add_mappoint_rows. }
  destruct (foldM_rows (fun sc => same_persistent_state s sc) _ _ _ _
              Hstep _ _ _ _ Hv Hfold) as (_ & Hrows).
  destruct Hne as (E1 & E2 & E3 & E4 & E5 & E6 & _).
  destruct Hrows as (R1 & R2 & R3 & R4 & R5 & R6).
  rewrite E1, E2, E3, E4, E5, E6 in *.
  by repeat split.
Qed.

(** X9 (lines 143-159, 204-206, 249-251). When the graph is built, the
    vectors [vpEdgeKFMono] and [vpMapPointEdgeMono] list, in the order of
    the two nested loops, the observer and the MapPoint of every
    observation of a Local MapPoint by a KeyFrame that is not bad and
    whose right coordinate is negative; [vpEdgeKFStereo] and
    [vpMapPointEdgeStereo] do so for the other observations by KeyFrames
    that are not bad; [vpEdgesMono] and [vpEdgesStereo] have one factor
    per entry. Every such observation thus gets exactly one reprojection
    factor, and an observation by a bad KeyFrame gets none. *)
Theorem X9_bookkeeping_vectors (w : Window) (s s' : SceneGraph) (l : Locals) :
  BuildGraph w s = Ok l s' ->
  let o := optimizer l in
  vpEdgeKFMono o = map fst (mono_pairs w s)
  /\ vpMapPointEdgeMono o = map snd (mono_pairs w s)
  /\ length (vpEdgesMono o) = length (mono_pairs w s)
  /\ vpEdgeKFStereo o = map fst (stereo_pairs w s)
  /\ vpMapPointEdgeStereo o = map snd (stereo_pairs w s)
  /\ length (vpEdgesStereo o) = length (stereo_pairs w s).
Proof. intros Hbuild. exact (BuildGraph_rows w s l s' Hbuild). Qed.

(** *** The factors, position by position *)

(** An invariant of the optimizer along the loops over the MapPoints and
    their observations that may refer, in the inner loop, to the MapPoint
    at hand. *)
Lemma BuildGraph_invariant_at (K : SparseOptimizer -> SceneGraph -> Prop)
    (J : MapPointPtr -> SparseOptimizer -> SceneGraph -> Prop) w s l s' :
  let v := BuildVertices w s in
  let id p := point_vertex_id (maxKFId v.1) (maxLandmarkId v.1) (mappoints s p) in
  BuildGraph w s = Ok l s' ->
  K (optimizer v.1) v.2 ->
  (forall pMP o sc, pMP ∈ lLocalMapPoints w -> during_build s v.2 sc -> K o sc ->
      J pMP (addVertex (id pMP) (point_vertex (mappoints s pMP)) o) sc) ->
  (forall pMP obs o sc o1 sc1,
      pMP ∈ lLocalMapPoints w -> obs ∈ MapPoint.GetObservations (mappoints s pMP) ->
      during_build s v.2 sc -> J pMP o sc ->
      add_observation (maxKFId v.1) (id pMP) pMP o obs sc = Ok o1 sc1 ->
      J pMP o1 sc1) ->
  (forall pMP o sc, pMP ∈ lLocalMapPoints w -> J pMP o sc -> K o sc) ->
  K (optimizer l) s'.
Proof.
  intros v id Hbuild HK0 HKv HJo HJK.
  apply BuildGraph_Ok_inv in Hbuild as (Hfold & _). fold v in Hfold.
  assert (Hsv : same_persistent_state s v.2) by apply BuildVertices_scratch.
  pose (P := fun o sc => during_build s v.2 sc /\ K o sc).
  cut (P (optimizer l) s'); [by intros [? ?]|].
  refine (foldM_invariant P _ _ _ _ _ _ _ _ Hfold); [|by split; [split|]].
  intros o pMP sc o1 sc1 HpMP [Hd HKo1] Hstep.
  unfold add_mappoint in Hstep. cbv zeta in Hstep.
  destruct Hd as [Hs Hg].
  rewrite (same_persistent_point_vertex_id _ _ _ _ pMP Hs),
    (same_persistent_point_vertex _ _ pMP Hs),
    (same_persistent_GetObservations _ _ pMP Hs) in Hstep.
  pose (P' := fun o sc => during_build s v.2 sc /\ J pMP o sc).
  cut (P' o1 sc1); [intros [? ?]; split; [done|by apply (HJK pMP)]|].
  refine (foldM_invariant P' _ _ _ _ _ _ _ _ Hstep).
  - intros o2 obs sc2 o3 sc3 Hobs [Hd2 HK2] Hobs_step. split.
    + destruct (add_observation_scene _ _ _ _ _ _ _ _ Hobs_step) as (_ & ? & ?).
      by eapply during_build_step.
    + by eapply (HJo pMP obs o2 sc2).
  - split; [by split|]. apply HKv; [done|by split|done].
Qed.

Lemma mono_factor_of_weaken s base vs vs' pid e k p :
  vs ⊆ vs' -> mono_factor_of s base vs pid e k p ->
  mono_factor_of s base vs' pid e k p.
Proof.
  intros Hvs (i & kpUn & invSigma2 & o' & ? & ? & ? & ? & ? & ? & ? & ? & ?).
  exists i, kpUn, invSigma2, o'. repeat split; try done. by etransitivity.
Qed.

Lemma stereo_factor_of_weaken s base vs vs' pid e k p :
  vs ⊆ vs' -> stereo_factor_of s base vs pid e k p ->
  stereo_factor_of s base vs' pid e k p.
Proof.
  intros Hvs (i & kpUn & ur & invSigma2 & o' & ? & ? & ? & ? & ? & ? & ? & ? & ? & ?).
  exists i, kpUn, ur, invSigma2, o'. repeat split; try done. by etransitivity.
Qed.

Lemma factors_described_grow w s base pid o o' :
  vertices o ⊆ vertices o' ->
  reprojection_vectors o' = reprojection_vectors o ->
  factors_described w s base pid o -> factors_described w s base pid o'.
Proof.
  intros Hv (H1 & H2 & H3 & H4 & H5 & H6)%reprojection_vectors_inv
    (Hbase & Hal & Hm & Hst).
  split; [by etransitivity|]. split; [|split].
  - unfold aligned in *. by rewrite H1, H2, H3, H4, H5, H6.
  - intros i e k p. rewrite H1, H2, H3. intros He Hk Hp.
    destruct (Hm i e k p He Hk Hp) as [? ?]. split; [done|].
    by eapply mono_factor_of_weaken.
  - intros i e k p. rewrite H4, H5, H6. intros He Hk Hp.
    destruct (Hst i e k p He Hk Hp) as [? ?]. split; [done|].
    by eapply stereo_factor_of_weaken.
Qed.

Lemma lookup_snoc3 {A B C} (es : list A) (ks : list B) (ps : list C) e k p i e' k' p' :
  length ks = length es -> length ps = length es ->
  (es ++ [e]) !! i = Some e' -> (ks ++ [k]) !! i = Some k' ->
  (ps ++ [p]) !! i = Some p' ->
  (es !! i = Some e' /\ ks !! i = Some k' /\ ps !! i = Some p')
  \/ (e' = e /\ k' = k /\ p' = p).
Proof.
  intros Hk Hp He' Hk' Hp'.
  destruct (decide (i < length es)%nat) as [Hlt|Hge].
  - left. rewrite lookup_app_l in He' by lia. rewrite lookup_app_l in Hk' by lia.
    rewrite lookup_app_l in Hp' by lia. done.
  - right. rewrite lookup_app_r in He' by lia. rewrite lookup_app_r in Hk' by lia.
    rewrite lookup_app_r in Hp' by lia.
    rewrite Hk in Hk'. rewrite Hp in Hp'.
    destruct (i - length es)%nat; cbn in *; [|done].
    by injection He' as <-; injection Hk' as <-; injection Hp' as <-.
Qed.

Lemma factors_described_mono w s base pid o e k p :
  factors_described w s base pid o ->
  p ∈ lLocalMapPoints w -> mono_factor_of s base (vertices o) pid e k p ->
  factors_described w s base pid (addEdgeMono e k p o).
Proof.
  intros (Hbase & (A1 & A2 & A3 & A4) & Hm & Hst) Hp He.
  split; [done|]. split; [|split].
  - unfold aligned. cbn. rewrite !length_app. cbn. by rewrite A1, A2, A3, A4.
  - intros i e' k' p' He' Hk' Hp'. cbn in He', Hk', Hp'.
    destruct (lookup_snoc3 _ _ _ _ _ _ _ _ _ _ A1 A2 He' Hk' Hp')
      as [(? & ? & ?)|(-> & -> & ->)]; [by apply (Hm i)|done].
  - exact Hst.
Qed.

Lemma factors_described_stereo w s base pid o e k p :
  factors_described w s base pid o ->
  p ∈ lLocalMapPoints w -> stereo_factor_of s base (vertices o) pid e k p ->
  factors_described w s base pid (addEdgeStereo e k p o).
Proof.
  intros (Hbase & (A1 & A2 & A3 & A4) & Hm & Hst) Hp He.
  split; [done|]. split; [|split].
  - unfold aligned. cbn. rewrite !length_app. cbn. by rewrite A1, A2, A3, A4.
  - exact Hm.
  - intros i e' k' p' He' Hk' Hp'. cbn in He', Hk', Hp'.
    destruct (lookup_snoc3 _ _ _ _ _ _ _ _ _ _ A3 A4 He' Hk' Hp')
      as [(? & ? & ?)|(-> & -> & ->)]; [by apply (Hst i)|done].
Qed.

Lemma BuildGraph_factors_described w s l s' :
  BuildGraph w s = Ok l s' ->
  factors_described w s (vertices (optimizer (BuildVertices w s).1))
    (fun p => point_vertex_id (maxKFId l) (maxLandmarkId l) (mappoints s p))
    (optimizer l).
Proof.
  intros Hbuild.
  destruct (BuildGraph_Ok_inv _ _ _ _ Hbuild) as (_ & _ & -> & ->).
  set (v := BuildVertices w s).
  set (base := vertices (optimizer v.1)).
  set (pid := fun p => point_vertex_id (maxKFId v.1) (maxLandmarkId v.1) (mappoints s p)).
  pose (K := fun (o : SparseOptimizer) (_ : SceneGraph) =>
               factors_described w s base pid o).
  pose (J := fun (pMP : MapPointPtr) (o : SparseOptimizer) (_ : SceneGraph) =>
               factors_described w s base pid o /\ is_Some (vertices o !! pid pMP)).
  refine (BuildGraph_invariant_at K J w s l s' Hbuild _ _ _ _).
  - destruct (BuildVertices_spec w s) as (_ & _ & _ & _ & Hne).
    destruct Hne as (E1 & E2 & E3 & E4 & E5 & E6 & _).
    split; [done|]. split; [|split].
    + unfold aligned. by rewrite E1, E2, E3, E4, E5, E6.
    + intros i e k p. rewrite E1. by intros [=].
    + intros i e k p. rewrite E4. by intros [=].
  - intros pMP o sc HpMP _ HK. split; [|apply addVertex_is_Some].
    eapply factors_described_grow; [apply addVertex_subseteq| |exact HK].
    apply addVertex_edges.
  - intros pMP obs o sc o1 sc1 HpMP Hobs (Hsc & _) (HJ & Hpid) Hstep.
    destruct (add_observation_edge_step _ _ _ _ _ _ _ _ Hstep)
      as [_ Hv Hr|kpUn ur invSigma2 Hlive Hkp Hur Hsig Hmono Hv Hr
          |kpUn ur invSigma2 Hlive Hkp Hur Hsig Hmono Hv Hr];
      (split; [|by rewrite Hv]).
    + refine (factors_described_grow w s base pid _ o1 _ Hr HJ). by rewrite Hv.
    + refine (factors_described_grow w s base pid _ o1 _ Hr _); [by rewrite Hv|].
      apply factors_described_mono; [exact HJ|exact HpMP|].
      destruct (same_persistent_vectors s sc obs.1 Hsc) as (Ek & Eu & Es).
      rewrite Ek in Hkp. rewrite Eu in Hur. rewrite Es in Hsig.
      rewrite (same_persistent_isBad _ _ _ Hsc) in Hlive.
      rewrite (mono_edge_persistent _ _ (keyframes s obs.1))
        by apply same_persistent_keyframe, Hsc.
      exists obs.2, kpUn, invSigma2, o.
      split; [by rewrite <- surjective_pairing|].
      split; [done|]. split; [done|].
      split; [unfold is_monocular; cbn [fst snd]; by rewrite Hur|].
      split; [done|]. split; [apply HJ|]. by split; [|split].
    + refine (factors_described_grow w s base pid _ o1 _ Hr _); [by rewrite Hv|].
      apply factors_described_stereo; [exact HJ|exact HpMP|].
      destruct (same_persistent_vectors s sc obs.1 Hsc) as (Ek & Eu & Es).
      rewrite Ek in Hkp. rewrite Eu in Hur. rewrite Es in Hsig.
      rewrite (same_persistent_isBad _ _ _ Hsc) in Hlive.
      rewrite (stereo_edge_persistent _ _ (keyframes s obs.1))
        by apply same_persistent_keyframe, Hsc.
      exists obs.2, kpUn, ur, invSigma2, o.
      split; [by rewrite <- surjective_pairing|].
      split; [done|]. split; [done|]. split; [done|]. split; [done|].
      split; [done|]. split; [apply HJ|]. by split; [|split].
  - by intros pMP o sc _ [? _].
Qed.

Lemma vertex_cases o id : vertex o id = Some id \/ vertex o id = None.
Proof. unfold vertex. destruct (vertices o !! id); auto. Qed.

(** X10 (lines 175-254). When the graph is built, the three monocular
    vectors have the same length, as have the three stereo vectors, and
    at every position the factor is the one of an observation of the
    MapPoint at that position by the KeyFrame at that position: the
    MapPoint is a Local MapPoint, the KeyFrame is not bad, the factor's
    first vertex is the MapPoint's vertex and its second the KeyFrame's
    pose vertex or null, its measurement is the observation's keypoint
    (with the right coordinate for a stereo factor), its information the
    identity scaled by the inverse variance of the keypoint's octave, its
    kernel a Huber kernel with the monocular or the stereo delta, its
    level 0 and its intrinsics the KeyFrame's. *)
Theorem X10_factor_per_position (w : Window) (s s' : SceneGraph) (l : Locals) :
  BuildGraph w s = Ok l s' ->
  let o := optimizer l in
  let pid p := point_vertex_id (maxKFId l) (maxLandmarkId l) (mappoints s p) in
  aligned o
  /\ (forall i e k p,
        vpEdgesMono o !! i = Some e -> vpEdgeKFMono o !! i = Some k ->
        vpMapPointEdgeMono o !! i = Some p ->
        p ∈ lLocalMapPoints w
        /\ KeyFrame.isBad (keyframes s k) = false
        /\ exists j kpUn invSigma2,
             (k, j) ∈ MapPoint.GetObservations (mappoints s p)
             /\ KeyFrame.mvKeysUn (keyframes s k) !! j = Some kpUn
             /\ is_monocular s (k, j) = true
             /\ vector_at (KeyFrame.mvInvLevelSigma2 (keyframes s k))
                  (KeyPoint.octave kpUn) = Some invSigma2
             /\ EdgeSE3ProjectXYZ.vertex0 e = Some (pid p)
             /\ (EdgeSE3ProjectXYZ.vertex1 e = Some (pose_vertex_id (keyframes s k))
                 \/ EdgeSE3ProjectXYZ.vertex1 e = None)
             /\ EdgeSE3ProjectXYZ.measurement e
                = (KeyPoint.pt_x kpUn, KeyPoint.pt_y kpUn)
             /\ EdgeSE3ProjectXYZ.information e = scale (Identity 2) invSigma2
             /\ EdgeSE3ProjectXYZ.robustKernel e = Some {| delta := thHuberMono |}
             /\ EdgeSE3ProjectXYZ.level e = 0
             /\ (EdgeSE3ProjectXYZ.fx e, EdgeSE3ProjectXYZ.fy e,
                 EdgeSE3ProjectXYZ.cx e, EdgeSE3ProjectXYZ.cy e)
                = (KeyFrame.fx (keyframes s k), KeyFrame.fy (keyframes s k),
                   KeyFrame.cx (keyframes s k), KeyFrame.cy (keyframes s k)))
  /\ (forall i e k p,
        vpEdgesStereo o !! i = Some e -> vpEdgeKFStereo o !! i = Some k ->
        vpMapPointEdgeStereo o !! i = Some p ->
        p ∈ lLocalMapPoints w
        /\ KeyFrame.isBad (keyframes s k) = false
        /\ exists j kpUn ur invSigma2,
             (k, j) ∈ MapPoint.GetObservations (mappoints s p)
             /\ KeyFrame.mvKeysUn (keyframes s k) !! j = Some kpUn
             /\ KeyFrame.mvuRight (keyframes s k) !! j = Some ur
             /\ PrimFloat.ltb ur 0%float = false
             /\ vector_at (KeyFrame.mvInvLevelSigma2 (keyframes s k))
                  (KeyPoint.octave kpUn) = Some invSigma2
             /\ EdgeStereoSE3ProjectXYZ.vertex0 e = Some (pid p)
             /\ (EdgeStereoSE3ProjectXYZ.vertex1 e
                 = Some (pose_vertex_id (keyframes s k))
                 \/ EdgeStereoSE3ProjectXYZ.vertex1 e = None)
             /\ EdgeStereoSE3ProjectXYZ.measurement e
                = (KeyPoint.pt_x kpUn, KeyPoint.pt_y kpUn, ur)
             /\ EdgeStereoSE3ProjectXYZ.information e = scale (Identity 3) invSigma2
             /\ EdgeStereoSE3ProjectXYZ.robustKernel e
                = Some {| delta := thHuberStereo |}
             /\ EdgeStereoSE3ProjectXYZ.level e = 0
             /\ (EdgeStereoSE3ProjectXYZ.fx e, EdgeStereoSE3ProjectXYZ.fy e,
                 EdgeStereoSE3ProjectXYZ.cx e, EdgeStereoSE3ProjectXYZ.cy e,
                 EdgeStereoSE3ProjectXYZ.bf e)
                = (KeyFrame.fx (keyframes s k), KeyFrame.fy (keyframes s k),
                   KeyFrame.cx (keyframes s k), KeyFrame.cy (keyframes s k),
                   KeyFrame.mbf (keyframes s k))).
Proof.
  intros Hbuild o pid.
  destruct (BuildGraph_factors_described w s l s' Hbuild) as (_ & Hal & Hm & Hst).
  split; [exact Hal|]. split.
  - intros i e k p He Hk Hp.
    destruct (Hm i e k p He Hk Hp)
      as (Hin & j & kpUn & invSigma2 & o' & Hobs & Hlive & Hkp & Hmono & Hsig
          & _ & _ & Hpid & ->).
    split; [done|]. split; [done|].
    exists j, kpUn, invSigma2. repeat (split; [done|]).
    cbn. split; [by apply vertex_Some|]. split; [apply vertex_cases|done].
  - intros i e k p He Hk Hp.
    destruct (Hst i e k p He Hk Hp)
      as (Hin & j & kpUn & ur & invSigma2 & o' & Hobs & Hlive & Hkp & Hur & Hmono
          & Hsig & _ & _ & Hpid & ->).
    split; [done|]. split; [done|].
    exists j, kpUn, ur, invSigma2. repeat (split; [done|]).
    cbn. split; [by apply vertex_Some|]. split; [apply vertex_cases|done].
Qed.

(** With fresh stamps the window is closed: a KeyFrame that is not bad
    and observes a Local MapPoint is a Local KeyFrame or a Fixed
    Camera. *)
Lemma window_closed pKF s p k j :
  stamps_fresh pKF s ->
  p ∈ lLocalMapPoints (SelectWindow pKF s).1 ->
  (k, j) ∈ MapPoint.GetObservations (mappoints s p) ->
  KeyFrame.isBad (keyframes s k) = false ->
  k ∈ window_keyframes (SelectWindow pKF s).1.
Proof.
  intros Hfresh Hp Hobs Hlive.
  destruct (SelectWindow_spec pKF s) as (A1 & _ & _ & _ & _ & A6 & _).
  cbv zeta in *. unfold window_keyframes. apply elem_of_app.
  destruct (decide (k ∈ covisibility_group pKF s)) as [Hc|Hc].
  - left. rewrite A1. apply elem_of_cons in Hc as [->|Hc]; [by constructor|].
    apply elem_of_cons. right. by apply list_elem_of_filter.
  - right. apply A6. split; [by exists p, j|]. split; [done|]. split; [|done].
    apply Hfresh. intros ->. apply Hc. constructor.
Qed.

(** With fresh stamps every reprojection factor has the vertex of its
    MapPoint and the pose vertex of its KeyFrame as its two vertices. *)
Lemma reprojection_endpoints pKF s s' l :
  stamps_fresh pKF s ->
  let sel := SelectWindow pKF s in
  let pid p := point_vertex_id (maxKFId l) (maxLandmarkId l) (mappoints sel.2 p) in
  BuildGraph sel.1 sel.2 = Ok l s' ->
  (forall i e k,
      vpEdgesMono (optimizer l) !! i = Some e ->
      vpEdgeKFMono (optimizer l) !! i = Some k ->
      exists p, p ∈ lLocalMapPoints sel.1
        /\ k ∈ window_keyframes sel.1
        /\ EdgeSE3ProjectXYZ.vertex0 e = Some (pid p)
        /\ EdgeSE3ProjectXYZ.vertex1 e = Some (pose_vertex_id (keyframes s k))
        /\ is_Some (vertices (optimizer l) !! pose_vertex_id (keyframes s k)))
  /\ (forall i e k,
        vpEdgesStereo (optimizer l) !! i = Some e ->
        vpEdgeKFStereo (optimizer l) !! i = Some k ->
        exists p, p ∈ lLocalMapPoints sel.1
          /\ k ∈ window_keyframes sel.1
          /\ EdgeStereoSE3ProjectXYZ.vertex0 e = Some (pid p)
          /\ EdgeStereoSE3ProjectXYZ.vertex1 e = Some (pose_vertex_id (keyframes s k))
          /\ is_Some (vertices (optimizer l) !! pose_vertex_id (keyframes s k))).
Proof.
  intros Hfresh sel pid Hbuild.
  assert (Hsel : same_persistent_state s sel.2) by apply SelectWindow_scratch.
  destruct (BuildGraph_factors_described sel.1 sel.2 l s' Hbuild)
    as (_ & (A1 & A2 & A3 & A4) & Hm & Hst).
  destruct (BuildVertices_spec sel.1 sel.2) as (_ & _ & (Hcov & _) & _).
  cbv zeta in Hcov.
  assert (Hpose : forall k o', k ∈ window_keyframes sel.1 ->
             vertices (optimizer (BuildVertices sel.1 sel.2).1) ⊆ vertices o' ->
             vertices o' ⊆ vertices (optimizer l) ->
             vertex o' (to_int (KeyFrame.mnId (keyframes sel.2 k)))
             = Some (pose_vertex_id (keyframes s k))
             /\ is_Some (vertices (optimizer l) !! pose_vertex_id (keyframes s k))).
  { intros k o' Hk Hbase Hfin.
    destruct (Hcov k Hk) as ((x & Hx & _) & _).
    unfold pose_vertex_id. rewrite <- (same_persistent_mnId _ _ k Hsel).
    split.
    - apply vertex_Some. exists x. by eapply lookup_weaken.
    - exists x. eapply lookup_weaken; [|exact Hfin]. by eapply lookup_weaken. }
  split.
  - intros i e k He Hk.
    destruct (lookup_lt_is_Some_2 (vpMapPointEdgeMono (optimizer l)) i) as [p Hp].
    { rewrite A2. by eapply lookup_lt_Some. }
    destruct (Hm i e k p He Hk Hp)
      as (Hin & j & kpUn & invSigma2 & o' & Hobs & Hlive & _ & _ & _
          & Hbase & Hfin & Hpid & ->).
    rewrite (same_persistent_GetObservations _ _ _ Hsel) in Hobs.
    rewrite (same_persistent_isBad _ _ _ Hsel) in Hlive.
    assert (Hw := window_closed pKF s p k j Hfresh Hin Hobs Hlive).
    exists p. split; [exact Hin|]. split; [exact Hw|]. cbn.
    split; [by apply vertex_Some|]. by apply Hpose.
  - intros i e k He Hk.
    destruct (lookup_lt_is_Some_2 (vpMapPointEdgeStereo (optimizer l)) i) as [p Hp].
    { rewrite A4. by eapply lookup_lt_Some. }
    destruct (Hst i e k p He Hk Hp)
      as (Hin & j & kpUn & ur & invSigma2 & o' & Hobs & Hlive & _ & _ & _ & _
          & Hbase & Hfin & Hpid & ->).
    rewrite (same_persistent_GetObservations _ _ _ Hsel) in Hobs.
    rewrite (same_persistent_isBad _ _ _ Hsel) in Hlive.
    assert (Hw := window_closed pKF s p k j Hfresh Hin Hobs Hlive).
    exists p. split; [exact Hin|]. split; [exact Hw|]. cbn.
    split; [by apply vertex_Some|]. by apply Hpose.
Qed.

(** X11 (lines 70-83, 119-127, 188-189, 231-232). If no KeyFrame other
    than the trigger carries a stamp equal to the trigger's id when the
    procedure starts, every KeyFrame that is not bad and observes a Local
    MapPoint is a Local KeyFrame or a Fixed Camera, and when the graph is
    built every reprojection factor joins two vertices of the graph: its
    second vertex is the pose vertex of its KeyFrame, never null. *)
Theorem X11_observers_have_vertices (pKF : KeyFramePtr) (s s' : SceneGraph)
    (l : Locals) :
  stamps_fresh pKF s ->
  let sel := SelectWindow pKF s in
  BuildGraph sel.1 sel.2 = Ok l s' ->
  (forall p k j, p ∈ lLocalMapPoints sel.1 ->
      (k, j) ∈ MapPoint.GetObservations (mappoints s p) ->
      KeyFrame.isBad (keyframes s k) = false ->
      k ∈ window_keyframes sel.1)
  /\ (forall i e k,
        vpEdgesMono (optimizer l) !! i = Some e ->
        vpEdgeKFMono (optimizer l) !! i = Some k ->
        k ∈ window_keyframes sel.1
        /\ EdgeSE3ProjectXYZ.vertex1 e = Some (pose_vertex_id (keyframes s k))
        /\ is_Some (vertices (optimizer l) !! pose_vertex_id (keyframes s k)))
  /\ (forall i e k,
        vpEdgesStereo (optimizer l) !! i = Some e ->
        vpEdgeKFStereo (optimizer l) !! i = Some k ->
        k ∈ window_keyframes sel.1
        /\ EdgeStereoSE3ProjectXYZ.vertex1 e = Some (pose_vertex_id (keyframes s k))
        /\ is_Some (vertices (optimizer l) !! pose_vertex_id (keyframes s k))).
Proof.
  intros Hfresh sel Hbuild.
  destruct (reprojection_endpoints pKF s s' l Hfresh Hbuild) as (Hm & Hst).
  split; [|split].
  - intros p k j. by apply window_closed.
  - intros i e k He Hk. by destruct (Hm i e k He Hk) as (p & _ & ? & _ & ? & ?).
  - intros i e k He Hk. by destruct (Hst i e k He Hk) as (p & _ & ? & _ & ? & ?).
Qed.

(** X17 (lines 109-124, 165-170, 186-189, 229-232). If moreover no two
    objects of the window share a vertex id, every reprojection factor
    joins a point vertex, which is marginalized, and a pose vertex, which
    is not: the factors form the two-sided graph the block solver
    eliminates the points from. *)
Theorem X17_factors_join_point_and_pose (pKF : KeyFramePtr) (s s' : SceneGraph)
    (l : Locals) :
  stamps_fresh pKF s ->
  let sel := SelectWindow pKF s in
  ids_fit_int sel.1 sel.2 (BuildVertices sel.1 sel.2).1 ->
  BuildGraph sel.1 sel.2 = Ok l s' ->
  (forall i e, vpEdgesMono (optimizer l) !! i = Some e ->
      exists a b va vb,
        EdgeSE3ProjectXYZ.vertex0 e = Some a /\ EdgeSE3ProjectXYZ.vertex1 e = Some b
        /\ vertices (optimizer l) !! a = Some va
        /\ is_point_vertex va = true /\ marginalized va = true
        /\ vertices (optimizer l) !! b = Some vb
        /\ is_pose_vertex vb = true /\ marginalized vb = false)
  /\ (forall i e, vpEdgesStereo (optimizer l) !! i = Some e ->
      exists a b va vb,
        EdgeStereoSE3ProjectXYZ.vertex0 e = Some a
        /\ EdgeStereoSE3ProjectXYZ.vertex1 e = Some b
        /\ vertices (optimizer l) !! a = Some va
        /\ is_point_vertex va = true /\ marginalized va = true
        /\ vertices (optimizer l) !! b = Some vb
        /\ is_pose_vertex vb = true /\ marginalized vb = false).
Proof.
  intros Hfresh sel Hfit Hbuild.
  assert (Hsel : same_persistent_state s sel.2) by apply SelectWindow_scratch.
  destruct (reprojection_endpoints pKF s s' l Hfresh Hbuild) as (Hm & Hst).
  destruct (BuildGraph_factors_described sel.1 sel.2 l s' Hbuild)
    as (_ & (A1 & _ & A3 & _) & _).
  destruct (graph_vertices_by_kind sel.1 sel.2 l s' Hfit Hbuild)
    as (_ & Hposes & _ & Hpoints).
  destruct (BuildGraph_Ok_inv _ _ _ _ Hbuild) as (_ & _ & HmK & HmL).
  assert (Hends : forall p k, p ∈ lLocalMapPoints sel.1 -> k ∈ window_keyframes sel.1 ->
            exists va vb,
              vertices (optimizer l)
                !! point_vertex_id (maxKFId l) (maxLandmarkId l) (mappoints sel.2 p)
              = Some va
              /\ is_point_vertex va = true /\ marginalized va = true
              /\ vertices (optimizer l) !! pose_vertex_id (keyframes s k) = Some vb
              /\ is_pose_vertex vb = true /\ marginalized vb = false).
  { intros p k Hp Hk.
    destruct (Hpoints p Hp) as (va & Hva & Hka).
    destruct (Hposes k Hk) as (vb & Hvb & Hkb).
    rewrite <- HmK, <- HmL in Hva.
    unfold pose_vertex_id in Hvb.
    rewrite (same_persistent_mnId _ _ k Hsel) in Hvb.
    exists va, vb.
    destruct (BuildGraph_vertex_flags _ _ _ _ _ _ Hbuild Hva) as (Ma & _).
    destruct (BuildGraph_vertex_flags _ _ _ _ _ _ Hbuild Hvb) as (Mb & _).
    rewrite Ma, Mb, Hka.
    repeat split; try done.
    by destruct vb as [[] ? ?]. }
  split.
  - intros i e He.
    destruct (lookup_lt_is_Some_2 (vpEdgeKFMono (optimizer l)) i) as [k Hk].
    { rewrite A1. by eapply lookup_lt_Some. }
    destruct (Hm i e k He Hk) as (p & Hp & Hw & H0 & H1 & _).
    destruct (Hends p k Hp Hw) as (va & vb & ?).
    eexists _, _, va, vb. by rewrite H0, H1.
  - intros i e He.
    destruct (lookup_lt_is_Some_2 (vpEdgeKFStereo (optimizer l)) i) as [k Hk].
    { rewrite A3. by eapply lookup_lt_Some. }
    destruct (Hst i e k He Hk) as (p & Hp & Hw & H0 & H1 & _).
    destruct (Hends p k Hp Hw) as (va & vb & ?).
    eexists _, _, va, vb. by rewrite H0, H1.
Qed.

(** *** The measurement caches of the observers *)

Lemma read_landmarkMeasurement_cache k lid s q cid c :
  KeyFrame.landmarkMeasurements (keyframes (read_landmarkMeasurement k lid s).2 q) !! cid
  = Some c ->
  KeyFrame.landmarkMeasurements (keyframes s q) !! cid = Some c
  \/ (c = Cuboid_default /\ q = k /\ cid = lid
      /\ KeyFrame.landmarkMeasurements (keyframes s k) !! lid = None).
Proof.
  unfold read_landmarkMeasurement.
  destruct (KeyFrame.landmarkMeasurements (keyframes s k) !! lid) eqn:Hc; cbn [snd];
    [by left|].
  rewrite keyframes_update_keyframe. case_decide as Hq; [subst q|by left].
  cbn. destruct (decide (cid = lid)) as [->|Hne].
  - rewrite lookup_insert_eq. intros [= <-]. by right.
  - rewrite lookup_insert_ne by done. by left.
Qed.

Lemma read_landmarkMeasurement_present k lid s :
  is_Some (KeyFrame.landmarkMeasurements
             (keyframes (read_landmarkMeasurement k lid s).2 k) !! lid).
Proof.
  unfold read_landmarkMeasurement.
  destruct (KeyFrame.landmarkMeasurements (keyframes s k) !! lid) eqn:Hc; cbn [snd];
    [by rewrite Hc|].
  rewrite keyframes_update_keyframe, decide_True by done. cbn.
  by rewrite lookup_insert_eq.
Qed.

Lemma addVertex_vpEdgeKFMono id v o :
  vpEdgeKFMono (addVertex id v o) = vpEdgeKFMono o.
Proof. unfold addVertex. by destruct (_ !! _). Qed.

Lemma add_cuboid_edges_cache maxKFId k lms acc :
  let r := fold_left (add_cuboid_edge maxKFId k) lms acc in
  (forall q cid c,
      KeyFrame.landmarkMeasurements (keyframes r.2 q) !! cid = Some c ->
      KeyFrame.landmarkMeasurements (keyframes acc.2 q) !! cid = Some c
      \/ (c = Cuboid_default /\ q = k
          /\ KeyFrame.landmarkMeasurements (keyframes acc.2 k) !! cid = None
          /\ exists lm, lm ∈ lms /\ cid = Landmark.mnLandmarkId (landmarks acc.2 lm)))
  /\ (forall lm, lm ∈ lms ->
        is_Some (KeyFrame.landmarkMeasurements (keyframes r.2 k)
                   !! Landmark.mnLandmarkId (landmarks acc.2 lm))).
Proof.
  revert acc. induction lms as [|lm lms IH]; intros acc; cbv zeta; cbn [fold_left].
  - split; [by left|]. by intros lm ?%elem_of_nil.
  - set (a := add_cuboid_edge maxKFId k acc lm).
    destruct (IH a) as [IH1 IH2]. cbv zeta in IH1, IH2.
    assert (Hl : landmarks a.2 = landmarks acc.2).
    { unfold a, add_cuboid_edge, read_landmarkMeasurement. cbv zeta. cbn [snd].
      by destruct (_ !! _). }
    assert (Hg : caches_grow a.2 (fold_left (add_cuboid_edge maxKFId k) lms a).2).
    { apply (fold_left_scene_rel caches_grow _ _ a).
      intros acc' lm' _. apply read_landmarkMeasurement_grows. }
    rewrite Hl in IH1, IH2. split.
    + intros q cid c Hc.
      destruct (IH1 q cid c Hc) as [Ha|(-> & -> & Hnone & lm' & Hlm' & ->)].
      * apply read_landmarkMeasurement_cache in Ha
          as [Ha|(-> & -> & -> & Hnone)]; [by left|].
        right. repeat split; try done. exists lm. split; [constructor|done].
      * destruct (KeyFrame.landmarkMeasurements (keyframes acc.2 k)
                    !! Landmark.mnLandmarkId (landmarks acc.2 lm')) as [c'|] eqn:Hc'.
        -- exfalso.
           assert (Hsub : caches_grow acc.2 a.2)
             by apply read_landmarkMeasurement_grows.
           pose proof (lookup_weaken _ _ _ _ Hc' (Hsub k)) as Hc''.
           congruence.
        -- right. repeat split; try done. exists lm'. split; [by constructor|done].
    + intros lm' [->|Hin]%elem_of_cons.
      * destruct (read_landmarkMeasurement_present k
                    (Landmark.mnLandmarkId (landmarks acc.2 lm)) acc.2) as [c Hc].
        exists c. eapply lookup_weaken; [exact Hc|apply Hg].
      * by apply IH2.
Qed.

Lemma add_observation_caches maxKFId id pMP o obs sc o1 sc1 :
  add_observation maxKFId id pMP o obs sc = Ok o1 sc1 ->
  (sc1 = sc /\ vpEdgeKFMono o1 = vpEdgeKFMono o)
  \/ (vpEdgeKFMono o1 = vpEdgeKFMono o ++ [obs.1]
      /\ (forall q cid c,
            KeyFrame.landmarkMeasurements (keyframes sc1 q) !! cid = Some c ->
            KeyFrame.landmarkMeasurements (keyframes sc q) !! cid = Some c
            \/ (c = Cuboid_default /\ q = obs.1
                /\ KeyFrame.landmarkMeasurements (keyframes sc q) !! cid = None
                /\ exists lm, lm ∈ KeyFrame.GetLandmarks (keyframes sc obs.1)
                              /\ cid = Landmark.mnLandmarkId (landmarks sc lm)))
      /\ (forall lm, lm ∈ KeyFrame.GetLandmarks (keyframes sc obs.1) ->
            is_Some (KeyFrame.landmarkMeasurements (keyframes sc1 obs.1)
                       !! Landmark.mnLandmarkId (landmarks sc lm)))).
Proof.
  unfold add_observation. cbv zeta.
  destruct (KeyFrame.isBad _) eqn:Hbad.
  { intros [= <- <-]. by left. }
  destruct (_ !! _) as [kpUn|] eqn:Hkp; [|done].
  destruct (KeyFrame.mvuRight _ !! _) as [ur|] eqn:Hur; [|done].
  destruct (vector_at _ _) as [invSigma2|] eqn:Hsig; [|done].
  destruct (PrimFloat.ltb ur 0%float) eqn:Hmono.
  - set (k := keyframes sc obs.1).
    set (o0 := addEdgeMono (mono_edge o id k kpUn invSigma2) obs.1 pMP o).
    intros [= <- <-]. right.
    destruct (add_cuboid_edges_spec maxKFId obs.1 (KeyFrame.GetLandmarks k)
                o sc o0 sc eq_refl ltac:(reflexivity) ltac:(reflexivity))
      as (_ & Hr & _).
    apply reprojection_vectors_inv in Hr as (_ & Hr & _).
    destruct (add_cuboid_edges_cache maxKFId obs.1 (KeyFrame.GetLandmarks k) (o0, sc))
      as [H1 H2].
    cbv zeta in H1, H2. cbn [snd] in H1, H2.
    split; [exact Hr|]. split; [|exact H2].
    intros q cid c Hc. destruct (H1 q cid c Hc) as [?|(-> & -> & ? & ?)]; [by left|].
    by right.
  - intros [= <- <-]. by left.
Qed.

(** X15 (line 214). Reading [landmarkMeasurements] with [operator[]]
    writes to the scene: while the factors are built no cache entry is
    removed or changed, every KeyFrame with a monocular factor ends up
    with an entry for each of its Landmarks, and an entry that was not
    there after the vertex loops holds a default cuboid and belongs to a
    KeyFrame with a monocular factor and to one of its Landmarks. *)
Theorem X15_cache_entries_created (w : Window) (s s' : SceneGraph) (l : Locals) :
  BuildGraph w s = Ok l s' ->
  let sv := (BuildVertices w s).2 in
  caches_grow sv s'
  /\ (forall k lm, k ∈ vpEdgeKFMono (optimizer l) ->
        lm ∈ KeyFrame.GetLandmarks (keyframes s k) ->
        is_Some (KeyFrame.landmarkMeasurements (keyframes s' k)
                   !! Landmark.mnLandmarkId (landmarks s lm)))
  /\ (forall k cid c,
        KeyFrame.landmarkMeasurements (keyframes s' k) !! cid = Some c ->
        KeyFrame.landmarkMeasurements (keyframes sv k) !! cid = None ->
        c = Cuboid_default
        /\ k ∈ vpEdgeKFMono (optimizer l)
        /\ exists lm, lm ∈ KeyFrame.GetLandmarks (keyframes s k)
                      /\ cid = Landmark.mnLandmarkId (landmarks s lm)).
Proof.
  intros Hbuild sv.
  pose (K := fun (o : SparseOptimizer) (sc : SceneGraph) =>
    (forall k lm, k ∈ vpEdgeKFMono o ->
        lm ∈ KeyFrame.GetLandmarks (keyframes s k) ->
        is_Some (KeyFrame.landmarkMeasurements (keyframes sc k)
                   !! Landmark.mnLandmarkId (landmarks s lm)))
    /\ (forall k cid c,
          KeyFrame.landmarkMeasurements (keyframes sc k) !! cid = Some c ->
          KeyFrame.landmarkMeasurements (keyframes sv k) !! cid = None ->
          c = Cuboid_default
          /\ k ∈ vpEdgeKFMono o
          /\ exists lm, lm ∈ KeyFrame.GetLandmarks (keyframes s k)
                        /\ cid = Landmark.mnLandmarkId (landmarks s lm))).
  destruct (BuildGraph_invariant K w s l s' Hbuild) as ((HK1 & HK2) & _ & Hg).
  - destruct (BuildVertices_spec w s) as (_ & _ & _ & _ & Hne).
    destruct Hne as (_ & E2 & _). split.
    + intros k lm Hk. rewrite E2 in Hk. by apply elem_of_nil in Hk.
    + intros k cid c Hc Hn. fold sv in Hc. congruence.
  - intros pMP o sc _ _ [H1 H2].
    split; intros *; rewrite addVertex_vpEdgeKFMono; [apply H1|apply H2].
  - intros pMP obs o sc o1 sc1 _ _ (Hsc & _) [H1 H2] Hstep.
    destruct (add_observation_scene _ _ _ _ _ _ _ _ Hstep) as (_ & _ & Hg1).
    destruct (add_observation_caches _ _ _ _ _ _ _ _ Hstep)
      as [(-> & Hr)|(Hr & Hnew & Hall)].
    { split; intros *; rewrite Hr; [apply H1|apply H2]. }
    rewrite (same_persistent_GetLandmarks _ _ _ Hsc) in Hnew, Hall.
    split.
    + intros k lm Hk Hlm. rewrite Hr in Hk.
      apply elem_of_app in Hk as [Hk| ->%list_elem_of_singleton].
      * destruct (H1 k lm Hk Hlm) as [c Hc]. exists c.
        eapply lookup_weaken; [exact Hc|apply Hg1].
      * rewrite <- (same_persistent_landmark _ _ lm Hsc). by apply Hall.
    + intros k cid c Hc Hn. rewrite Hr.
      destruct (Hnew k cid c Hc) as [Hold|(-> & -> & _ & lm & Hlm & ->)].
      * destruct (H2 k cid c Hold Hn) as (? & ? & ?). split; [done|].
        split; [|done]. apply elem_of_app. by left.
      * split; [done|]. split; [apply elem_of_app; right; constructor|].
        exists lm. split; [done|]. by rewrite (same_persistent_landmark _ _ lm Hsc).
  - split; [exact Hg|]. by split.
Qed.
(** *** The camera-object factors, one by one *)

Lemma read_landmarkMeasurement_value k lid s :
  KeyFrame.landmarkMeasurements (keyframes (read_landmarkMeasurement k lid s).2 k) !! lid
  = Some (read_landmarkMeasurement k lid s).1.
Proof.
  unfold read_landmarkMeasurement.
  destruct (KeyFrame.landmarkMeasurements (keyframes s k) !! lid) eqn:Hc; cbn [fst snd];
    [exact Hc|].
  rewrite keyframes_update_keyframe, decide_True by done. cbn.
  by rewrite lookup_insert_eq.
Qed.

(** The factors the loop of lines 210-221 appends for the KeyFrame [k]:
    each one holds what the cache of [k] holds for its Landmark when the
    loop is over. *)
Lemma add_cuboid_edges_described maxKFId k lms acc :
  let r := fold_left (add_cuboid_edge maxKFId k) lms acc in
  forall e, e ∈ edgesCuboid r.1 ->
    e ∈ edgesCuboid acc.1
    \/ exists lm, lm ∈ lms
         /\ EdgeSE3Cuboid.vertex0 e
            = vertex acc.1 (to_int (KeyFrame.mnId (keyframes acc.2 k)))
         /\ EdgeSE3Cuboid.vertex1 e
            = vertex acc.1 (landmark_vertex_id maxKFId (landmarks acc.2 lm))
         /\ EdgeSE3Cuboid.information e
            = cuboid_information (Landmark.mQuality (landmarks acc.2 lm))
         /\ KeyFrame.landmarkMeasurements (keyframes r.2 k)
              !! Landmark.mnLandmarkId (landmarks acc.2 lm)
            = Some (EdgeSE3Cuboid.measurement e).
Proof.
  revert acc. induction lms as [|lm lms IH]; intros acc; cbv zeta; cbn [fold_left].
  - intros e He. by left.
  - set (a := add_cuboid_edge maxKFId k acc lm).
    assert (Hs : same_persistent_state acc.2 a.2) by apply add_cuboid_edge_scratch.
    assert (Hv : vertices a.1 = vertices acc.1) by reflexivity.
    assert (Hg : caches_grow a.2 (fold_left (add_cuboid_edge maxKFId k) lms a).2).
    { apply (fold_left_scene_rel caches_grow _ _ a).
      intros acc' lm' _. apply read_landmarkMeasurement_grows. }
    intros e He. destruct (IH a e He) as [Hold|(lm' & Hlm' & H0 & H1 & Hi & Hc)].
    + assert (Hedges : edgesCuboid a.1
                       = edgesCuboid acc.1
                         ++ [camera_object_factor acc.1 maxKFId acc.2 k lm
                               (read_landmarkMeasurement k
                                  (Landmark.mnLandmarkId (landmarks acc.2 lm)) acc.2).1])
        by reflexivity.
      rewrite Hedges in Hold.
      apply elem_of_app in Hold as [Hold| ->%list_elem_of_singleton]; [by left|].
      right. exists lm. split; [constructor|]. cbn. repeat split.
      eapply lookup_weaken; [|apply Hg].
      apply read_landmarkMeasurement_value.
    + right. exists lm'. split; [by constructor|].
      rewrite (vertex_ext _ _ _ Hv), (same_persistent_mnId _ _ k Hs) in H0.
      rewrite (vertex_ext _ _ _ Hv), (same_persistent_landmark _ _ lm' Hs) in H1.
      rewrite (same_persistent_landmark _ _ lm' Hs) in Hi, Hc.
      by repeat split.
Qed.

Lemma add_observation_cuboid_edges maxKFId id pMP o obs sc o1 sc1 :
  add_observation maxKFId id pMP o obs sc = Ok o1 sc1 ->
  forall e, e ∈ edgesCuboid o1 ->
    e ∈ edgesCuboid o
    \/ (obs.1 ∈ vpEdgeKFMono o1
        /\ exists lm, lm ∈ KeyFrame.GetLandmarks (keyframes sc obs.1)
             /\ EdgeSE3Cuboid.vertex0 e
                = vertex o (to_int (KeyFrame.mnId (keyframes sc obs.1)))
             /\ EdgeSE3Cuboid.vertex1 e
                = vertex o (landmark_vertex_id maxKFId (landmarks sc lm))
             /\ EdgeSE3Cuboid.information e
                = cuboid_information (Landmark.mQuality (landmarks sc lm))
             /\ KeyFrame.landmarkMeasurements (keyframes sc1 obs.1)
                  !! Landmark.mnLandmarkId (landmarks sc lm)
                = Some (EdgeSE3Cuboid.measurement e)).
Proof.
  unfold add_observation. cbv zeta.
  destruct (KeyFrame.isBad _) eqn:Hbad.
  { intros [= <- <-] e He. by left. }
  destruct (_ !! _) as [kpUn|] eqn:Hkp; [|done].
  destruct (KeyFrame.mvuRight _ !! _) as [ur|] eqn:Hur; [|done].
  destruct (vector_at _ _) as [invSigma2|] eqn:Hsig; [|done].
  destruct (PrimFloat.ltb ur 0%float) eqn:Hmono.
  - set (o0 := addEdgeMono (mono_edge o id (keyframes sc obs.1) kpUn invSigma2)
                 obs.1 pMP o).
    intros [= <- <-] e He.
    destruct (add_cuboid_edges_described maxKFId obs.1
                (KeyFrame.GetLandmarks (keyframes sc obs.1)) (o0, sc) e He)
      as [Hold|Hnew]; [by left|].
    right. split; [|exact Hnew].
    destruct (add_cuboid_edges_spec maxKFId obs.1
                (KeyFrame.GetLandmarks (keyframes sc obs.1))
                o sc o0 sc eq_refl ltac:(reflexivity) ltac:(reflexivity))
      as (_ & Hr & _).
    apply reprojection_vectors_inv in Hr as (_ & -> & _).
    cbn. apply elem_of_app. right. constructor.
  - intros [= <- <-] e He. by left.
Qed.

(** X19 (lines 208-221). Every camera-object factor of the graph that is
    built belongs to a KeyFrame with a monocular factor and to one of
    its Landmarks. Its first vertex is the KeyFrame's pose vertex or
    null, and not null when the KeyFrame is of the window; its second
    vertex is the vertex registered under the Landmark's id or null, and
    not null for a Local Landmark; its information is the diagonal made
    from the Landmark's quality, and its measurement is what the
    KeyFrame's cache holds for the Landmark when the graph is built. *)
Theorem X19_camera_object_factor_described (w : Window) (s s' : SceneGraph)
    (l : Locals) :
  BuildGraph w s = Ok l s' ->
  forall e, e ∈ edgesCuboid (optimizer l) ->
    exists k lm,
      k ∈ vpEdgeKFMono (optimizer l)
      /\ lm ∈ KeyFrame.GetLandmarks (keyframes s k)
      /\ (EdgeSE3Cuboid.vertex0 e = Some (pose_vertex_id (keyframes s k))
          \/ EdgeSE3Cuboid.vertex0 e = None)
      /\ (k ∈ window_keyframes w ->
          EdgeSE3Cuboid.vertex0 e = Some (pose_vertex_id (keyframes s k)))
      /\ (EdgeSE3Cuboid.vertex1 e
          = Some (landmark_vertex_id (maxKFId l) (landmarks s lm))
          \/ EdgeSE3Cuboid.vertex1 e = None)
      /\ (lm ∈ lLocalLandmarks l ->
          EdgeSE3Cuboid.vertex1 e
          = Some (landmark_vertex_id (maxKFId l) (landmarks s lm)))
      /\ EdgeSE3Cuboid.information e
         = cuboid_information (Landmark.mQuality (landmarks s lm))
      /\ KeyFrame.landmarkMeasurements (keyframes s' k)
           !! Landmark.mnLandmarkId (landmarks s lm)
         = Some (EdgeSE3Cuboid.measurement e).
Proof.
  intros Hbuild.
  destruct (BuildGraph_Ok_inv _ _ _ _ Hbuild) as (_ & HLL & HmK & _).
  rewrite HLL, HmK.
  set (v := BuildVertices w s).
  destruct (BuildVertices_spec w s) as (_ & _ & (Hck & Hclm & _) & _ & Hne).
  fold v in Hck, Hclm.
  pose (D := fun (e : EdgeSE3Cuboid.t) (k : KeyFramePtr) (lm : LandmarkPtr) =>
    lm ∈ KeyFrame.GetLandmarks (keyframes s k)
    /\ (EdgeSE3Cuboid.vertex0 e = Some (pose_vertex_id (keyframes s k))
        \/ EdgeSE3Cuboid.vertex0 e = None)
    /\ (k ∈ window_keyframes w ->
        EdgeSE3Cuboid.vertex0 e = Some (pose_vertex_id (keyframes s k)))
    /\ (EdgeSE3Cuboid.vertex1 e
        = Some (landmark_vertex_id (maxKFId v.1) (landmarks s lm))
        \/ EdgeSE3Cuboid.vertex1 e = None)
    /\ (lm ∈ lLocalLandmarks v.1 ->
        EdgeSE3Cuboid.vertex1 e
        = Some (landmark_vertex_id (maxKFId v.1) (landmarks s lm)))
    /\ EdgeSE3Cuboid.information e
       = cuboid_information (Landmark.mQuality (landmarks s lm))).
  pose (K := fun (o : SparseOptimizer) (sc : SceneGraph) =>
    vertices (optimizer v.1) ⊆ vertices o
    /\ forall e, e ∈ edgesCuboid o ->
         exists k lm, k ∈ vpEdgeKFMono o /\ D e k lm
           /\ KeyFrame.landmarkMeasurements (keyframes sc k)
                !! Landmark.mnLandmarkId (landmarks s lm)
              = Some (EdgeSE3Cuboid.measurement e)).
  destruct (BuildGraph_invariant K w s l s' Hbuild) as ((_ & HK) & _).
  - split; [reflexivity|]. destruct Hne as (_ & _ & _ & _ & _ & _ & E7).
    intros e He. rewrite E7 in He. by apply elem_of_nil in He.
  - intros pMP o sc _ _ [Hsub HK]. split.
    + etransitivity; [exact Hsub|apply addVertex_subseteq].
    + intros e. rewrite (proj1 (addVertex_edges _ _ _)). intros He.
      destruct (HK e He) as (k & lm & ? & ? & ?). exists k, lm.
      by rewrite addVertex_vpEdgeKFMono.
  - intros pMP obs o sc o1 sc1 _ _ (Hsc & _) [Hsub HK] Hstep.
    destruct (add_observation_scene _ _ _ _ _ _ _ _ Hstep) as (Hv1 & _ & Hg1).
    split; [by rewrite Hv1|].
    intros e He.
    destruct (add_observation_cuboid_edges _ _ _ _ _ _ _ _ Hstep e He)
      as [Hold|(Hk & lm & Hlm & H0 & H1 & Hi & Hc)].
    + destruct (HK e Hold) as (k & lm & Hk & HD & Hc). exists k, lm.
      split; [|split; [exact HD|]].
      * destruct (add_observation_caches _ _ _ _ _ _ _ _ Hstep)
          as [(_ & ->)|(-> & _)]; [done|]. apply elem_of_app. by left.
      * eapply lookup_weaken; [exact Hc|apply Hg1].
    + rewrite (same_persistent_GetLandmarks _ _ _ Hsc) in Hlm.
      rewrite (same_persistent_mnId _ _ _ Hsc) in H0.
      rewrite (same_persistent_landmark _ _ lm Hsc) in H1, Hi, Hc.
      exists obs.1, lm. split; [exact Hk|]. split; [|exact Hc].
      unfold D. split; [exact Hlm|]. rewrite H0, H1, Hi. unfold vertex, pose_vertex_id.
      split; [destruct (vertices o !! _); auto|].
      split.
      { intros Hw. destruct (Hck obs.1 Hw) as ((x & Hx & _) & _).
        by rewrite (lookup_weaken _ _ _ _ Hx Hsub). }
      split; [destruct (vertices o !! landmark_vertex_id _ _); auto|].
      split; [|done].
      intros Hloc. destruct (Hclm lm Hloc) as ([x Hx] & _).
      pose proof (lookup_weaken _ _ _ _ Hx Hsub) as Hy.
      unfold v in *. by rewrite Hy.
  - intros e He. destruct (HK e He) as (k & lm & Hk & HD & Hc).
    exists k, lm. split; [exact Hk|]. unfold D in HD.
    destruct HD as (? & ? & ? & ? & ? & ?). by repeat split.
Qed.
End FactorFacts.
(** ** Outlier classification and commit (lines 308-371) *)

Section ClassificationFacts.
Context `{Solver}.

Lemma zip_map_fst_snd {A B} (l : list (A * B)) : zip (map fst l) (map snd l) = l.
Proof. induction l as [|[a b] l IH]; cbn; [done|]. by f_equal. Qed.

Lemma elem_of_pairs_of pair w s x :
  x ∈ pairs_of pair w s ->
  exists q obs, q ∈ lLocalMapPoints w
                /\ obs ∈ MapPoint.GetObservations (mappoints s q)
                /\ x ∈ pair s q obs.
Proof.
  unfold pairs_of.
  intros (xs & Hx & (q & -> & Hq)%elem_of_list_map)%elem_of_list_concat.
  apply elem_of_list_concat in Hx as (ys & Hx & (obs & -> & Hobs)%elem_of_list_map).
  by exists q, obs.
Qed.

Lemma elem_of_mono_pair s q obs k p :
  (k, p) ∈ mono_pair s q obs ->
  p = q /\ k = obs.1 /\ KeyFrame.isBad (keyframes s obs.1) = false.
Proof.
  unfold mono_pair, is_live. destruct (KeyFrame.isBad _); cbn;
    [by intros ?%elem_of_nil|].
  destruct (is_monocular s obs); [|by intros ?%elem_of_nil].
  by intros [= -> ->]%list_elem_of_singleton.
Qed.

Lemma elem_of_stereo_pair s q obs k p :
  (k, p) ∈ stereo_pair s q obs ->
  p = q /\ k = obs.1 /\ KeyFrame.isBad (keyframes s obs.1) = false.
Proof.
  unfold stereo_pair, is_live. destruct (KeyFrame.isBad _); cbn;
    [by intros ?%elem_of_nil|].
  destruct (is_monocular s obs); cbn; [by intros ?%elem_of_nil|].
  by intros [= -> ->]%list_elem_of_singleton.
Qed.

(** A pair of the bookkeeping vectors is a live observation of a Local
    MapPoint. *)
Lemma BuildGraph_pairs w s l s' k p :
  BuildGraph w s = Ok l s' ->
  (k, p) ∈ zip (vpEdgeKFMono (optimizer l)) (vpMapPointEdgeMono (optimizer l))
  \/ (k, p) ∈ zip (vpEdgeKFStereo (optimizer l)) (vpMapPointEdgeStereo (optimizer l)) ->
  p ∈ lLocalMapPoints w
  /\ KeyFrame.isBad (keyframes s k) = false
  /\ exists j, (k, j) ∈ MapPoint.GetObservations (mappoints s p).
Proof.
  intros Hbuild Hin.
  destruct (BuildGraph_rows w s l s' Hbuild) as (R1 & R2 & _ & R4 & R5 & _).
  cbn [empty_optimizer vpEdgeKFMono vpMapPointEdgeMono vpEdgeKFStereo
         vpMapPointEdgeStereo app] in R1, R2, R4, R5.
  rewrite R1, R2, R4, R5, !zip_map_fst_snd in Hin.
  destruct Hin as [Hin|Hin];
    apply elem_of_pairs_of in Hin as (q & [k' j] & Hq & Hobs & Hin).
  - apply elem_of_mono_pair in Hin as (-> & -> & Hlive).
    split; [done|]. split; [done|]. by exists j.
  - apply elem_of_stereo_pair in Hin as (-> & -> & Hlive).
    split; [done|]. split; [done|]. by exists j.
Qed.

Lemma ClassifyOutliers_inv s o k p :
  (k, p) ∈ ClassifyOutliers s o ->
  MapPoint.isBad (mappoints s p) = false
  /\ ((k, p) ∈ zip (vpEdgeKFMono o) (vpMapPointEdgeMono o)
      \/ (k, p) ∈ zip (vpEdgeKFStereo o) (vpMapPointEdgeStereo o)).
Proof.
  unfold ClassifyOutliers.
  intros [Hin|Hin]%elem_of_app;
    apply elem_of_list_concat in Hin as (xs & Hx & Hxs);
    apply elem_of_zip_with in Hxs as (e & r & -> & _ & Hr).
  - unfold classify_mono in Hx.
    destruct (MapPoint.isBad (mappoints s r.2)) eqn:Hbad;
      [by apply elem_of_nil in Hx|].
    destruct (mono_fails _ _); [|by apply elem_of_nil in Hx].
    apply list_elem_of_singleton in Hx as <-. split; [done|by left].
  - unfold classify_stereo in Hx.
    destruct (MapPoint.isBad (mappoints s r.2)) eqn:Hbad;
      [by apply elem_of_nil in Hx|].
    destruct (stereo_fails _ _); [|by apply elem_of_nil in Hx].
    apply list_elem_of_singleton in Hx as <-. split; [done|by right].
Qed.

Lemma RunSolver_rows pbStopFlag s o :
  let o' := (RunSolver pbStopFlag s o).1 in
  vpEdgeKFMono o' = vpEdgeKFMono o
  /\ vpMapPointEdgeMono o' = vpMapPointEdgeMono o
  /\ vpEdgeKFStereo o' = vpEdgeKFStereo o
  /\ vpMapPointEdgeStereo o' = vpMapPointEdgeStereo o
  /\ (length (vpEdgesMono o') <= length (vpEdgesMono o))%nat
  /\ (length (vpEdgesStereo o') <= length (vpEdgesStereo o))%nat.
Proof.
  cbv zeta. unfold RunSolver. cbv zeta.
  destruct (negb _); cbn; [|by repeat split].
  rewrite !length_zip_with. repeat split; lia.
Qed.

Lemma concat_zip_with_length {A B C} (f : A -> B -> list C) (l : list A) (k : list B) :
  (forall a b, length (f a b) <= 1)%nat ->
  (length (concat (zip_with f l k)) <= length l)%nat.
Proof.
  intros Hf. revert k. induction l as [|a l IH]; intros [|b k]; cbn; try lia.
  rewrite length_app. specialize (IH k). specialize (Hf a b). lia.
Qed.

Lemma ClassifyOutliers_length s o :
  (length (ClassifyOutliers s o)
   <= length (vpEdgesMono o) + length (vpEdgesStereo o))%nat.
Proof.
  unfold ClassifyOutliers. rewrite length_app.
  pose proof (concat_zip_with_length (classify_mono s (vertices o)) (vpEdgesMono o)
                (zip (vpEdgeKFMono o) (vpMapPointEdgeMono o))) as H1.
  pose proof (concat_zip_with_length (classify_stereo s (vertices o)) (vpEdgesStereo o)
                (zip (vpEdgeKFStereo o) (vpMapPointEdgeStereo o))) as H2.
  assert (length (concat (zip_with (classify_mono s (vertices o)) (vpEdgesMono o)
                    (zip (vpEdgeKFMono o) (vpMapPointEdgeMono o))))
          <= length (vpEdgesMono o))%nat.
  { apply H1. intros e r. unfold classify_mono.
    destruct (MapPoint.isBad _); [cbn; lia|]. destruct (mono_fails _ _); cbn; lia. }
  assert (length (concat (zip_with (classify_stereo s (vertices o)) (vpEdgesStereo o)
                    (zip (vpEdgeKFStereo o) (vpMapPointEdgeStereo o))))
          <= length (vpEdgesStereo o))%nat.
  { apply H2. intros e r. unfold classify_stereo.
    destruct (MapPoint.isBad _); [cbn; lia|]. destruct (stereo_fails _ _); cbn; lia. }
  lia.
Qed.

(** The observation links the final classification queues. *)
Lemma vToErase_links w s l s' pbStopFlag k p :
  BuildGraph w s = Ok l s' ->
  (k, p) ∈ ClassifyOutliers s' (RunSolver pbStopFlag s' (optimizer l)).1 ->
  p ∈ lLocalMapPoints w
  /\ MapPoint.isBad (mappoints s p) = false
  /\ KeyFrame.isBad (keyframes s k) = false
  /\ exists j, (k, j) ∈ MapPoint.GetObservations (mappoints s p).
Proof.
  intros Hbuild Hin.
  apply ClassifyOutliers_inv in Hin as (Hlive & Hin).
  destruct (RunSolver_rows pbStopFlag s' (optimizer l)) as (-> & -> & -> & -> & _)
    in Hin.
  destruct (BuildGraph_pairs w s l s' k p Hbuild Hin) as (Hp & Hk & Hobs).
  split; [done|]. split; [|by split].
  pose proof (BuildGraph_scratch w s) as Hs. rewrite Hbuild in Hs. cbn in Hs.
  destruct (persistent_mappoint_fields _ _ (same_persistent_mappoint _ _ p Hs))
    as (_ & <- & _).
  done.
Qed.

(** X12 (lines 308-336). Every pair queued in [vToErase] is an
    observation link of the scene: a Local MapPoint that is not bad
    together with a KeyFrame that is not bad and observes it. The queue is
    never longer than the capacity reserved for it, the number of
    reprojection factors. *)
Theorem X12_erased_links_are_observations (w : Window) (s s' : SceneGraph)
    (l : Locals) (pbStopFlag : option StopFlag) :
  BuildGraph w s = Ok l s' ->
  let vToErase := ClassifyOutliers s' (RunSolver pbStopFlag s' (optimizer l)).1 in
  (forall k p, (k, p) ∈ vToErase ->
      p ∈ lLocalMapPoints w
      /\ MapPoint.isBad (mappoints s p) = false
      /\ KeyFrame.isBad (keyframes s k) = false
      /\ exists j, (k, j) ∈ MapPoint.GetObservations (mappoints s p))
  /\ (length vToErase
      <= length (vpEdgesMono (optimizer l)) + length (vpEdgesStereo (optimizer l)))%nat.
Proof.
  intros Hbuild vToErase. split.
  - intros k p Hin. by apply (vToErase_links w s l s' pbStopFlag).
  - unfold vToErase.
    pose proof (ClassifyOutliers_length s' (RunSolver pbStopFlag s' (optimizer l)).1).
    destruct (RunSolver_rows pbStopFlag s' (optimizer l)) as (_ & _ & _ & _ & ? & ?).
    lia.
Qed.
End ClassificationFacts.

Section TerminationFacts.
Context `{Solver}.

Lemma list_min_exists {A} (f : A -> Z) (l : list A) :
  l <> [] -> exists x, x ∈ l /\ forall y, y ∈ l -> f x <= f y.
Proof.
  induction l as [|a l IH]; [done|]. intros _.
  destruct l as [|b l].
  - exists a. split; [constructor|]. by intros y ->%list_elem_of_singleton.
  - destruct (IH ltac:(done)) as (x & Hx & Hmin).
    destruct (decide (f a <= f x)) as [Hle|Hgt].
    + exists a. split; [constructor|].
      intros y [->|Hy]%elem_of_cons; [done|]. specialize (Hmin y Hy). lia.
    + exists x. split; [by constructor|].
      intros y [->|Hy]%elem_of_cons; [lia|by apply Hmin].
Qed.

Lemma foldM_faults {A B} (I : SceneGraph -> Prop)
    (f : A -> B -> SceneGraph -> Outcome A) (l : list B) (b : B) :
  b ∈ l ->
  (forall a b' sc, b' ∈ l -> I sc -> I (scene_of (f a b' sc))) ->
  (forall a sc, I sc -> exists s', f a b sc = Fault s') ->
  forall a sc, I sc -> exists s', foldM f l a sc = Fault s'.
Proof.
  induction l as [|b' l IH]; intros Hb Hstep Hfault a sc Hsc;
    [by apply elem_of_nil in Hb|].
  cbn [foldM]. destruct (f a b' sc) as [a' sc'|sc'] eqn:Hf; [|by eauto].
  apply elem_of_cons in Hb as [->|Hb].
  { destruct (Hfault a sc Hsc) as [s' Hs']. congruence. }
  apply IH; [done| |done|].
  - intros a0 b0 sc0 Hb0. apply Hstep. by constructor.
  - pose proof (Hstep a b' sc ltac:(constructor) Hsc) as Hi. by rewrite Hf in Hi.
Qed.

#[global] Instance mappoint_ids_kept_preorder : PreOrder mappoint_ids_kept.
Proof.
  split.
  - by intros s p.
  - intros s1 s2 s3 H12 H23 p. by rewrite H23, H12.
Qed.

Lemma erase_link_ids s i : mappoint_ids_kept s (erase_link s i).
Proof.
  intros p. unfold erase_link. rewrite mappoints_update_mappoint.
  case_decide as Hp; [by subst|done].
Qed.

Lemma recover_keyframe_ids o u k s :
  mappoint_ids_kept s (scene_of (recover_keyframe o u k s)).
Proof.
  unfold recover_keyframe.
  destruct (vertices o !! _) as [[[q|c|pt] ? ?]|]; cbn [scene_of]; done.
Qed.

Lemma recover_landmark_ids o maxKFId u lm s :
  mappoint_ids_kept s (scene_of (recover_landmark o maxKFId u lm s)).
Proof.
  unfold recover_landmark.
  destruct (vertices o !! _) as [[[q|c|pt] ? ?]|]; cbn [scene_of]; done.
Qed.

Lemma recover_mappoint_ids o maxKFId u p s :
  mappoint_ids_kept s (scene_of (recover_mappoint o maxKFId u p s)).
Proof.
  unfold recover_mappoint.
  destruct (vertices o !! _) as [[[q|c|pt] ? ?]|]; cbn [scene_of]; try done.
  intros p'. unfold UpdateNormalAndDepth.
  rewrite !mappoints_update_mappoint.
  repeat (case_decide; subst; cbn); done.
Qed.

(** The commit ends on a null dereference when the vertex looked up for
    some Local MapPoint is missing or is not a point vertex. *)
Lemma Commit_faults w l vToErase s p :
  p ∈ lLocalMapPoints w ->
  (forall v, vertices (optimizer l) !! point_recovery_id (maxKFId l) (mappoints s p)
             = Some v -> kind_of v <> PointKind) ->
  exists s', Commit w l vToErase s = Fault s'.
Proof.
  intros Hp Hmiss. unfold Commit. cbv zeta.
  set (s1 := fold_left erase_link vToErase s).
  assert (H1 : mappoint_ids_kept s s1).
  { unfold s1. clear. revert s. induction vToErase as [|i v IH]; intros s; cbn;
      [reflexivity|].
    etransitivity; [apply erase_link_ids|apply IH]. }
  destruct (foldM (recover_keyframe (optimizer l)) (lLocalKeyFrames w) tt s1)
    as [u2 s2|s2] eqn:E2; cbn [bind]; [|by eauto].
  assert (H2 : mappoint_ids_kept s s2).
  { etransitivity; [exact H1|].
    pose proof (foldM_scene_rel mappoint_ids_kept (recover_keyframe (optimizer l))
                  (lLocalKeyFrames w) tt s1
                  (fun a b sc _ => recover_keyframe_ids _ a b sc)) as Hr.
    by rewrite E2 in Hr. }
  destruct (foldM (recover_landmark (optimizer l) (maxKFId l)) (lLocalLandmarks l) tt s2)
    as [u3 s3|s3] eqn:E3; cbn [bind]; [|by eauto].
  assert (H3 : mappoint_ids_kept s s3).
  { etransitivity; [exact H2|].
    pose proof (foldM_scene_rel mappoint_ids_kept
                  (recover_landmark (optimizer l) (maxKFId l))
                  (lLocalLandmarks l) tt s2
                  (fun a b sc _ => recover_landmark_ids _ _ a b sc)) as Hr.
    by rewrite E3 in Hr. }
  apply (foldM_faults (fun sc => mappoint_ids_kept s sc) _ _ p Hp); [| |exact H3].
  - intros a b' sc _ Hsc. etransitivity; [exact Hsc|apply recover_mappoint_ids].
  - intros a sc Hsc. unfold recover_mappoint, point_recovery_id.
    rewrite (Hsc p).
    destruct (vertices (optimizer l) !! _) as [[[q|c|pt] ? ?]|] eqn:Hv; eauto.
    exfalso. exact (Hmiss _ eq_refl eq_refl).
Qed.

Lemma point_vertex_kind p : kind_of (point_vertex p) = PointKind.
Proof. reflexivity. Qed.

(** With ids that fit, the vertex looked up at line 368 for a Local
    MapPoint of least id is no point vertex. *)
Lemma least_point_is_not_recovered w s l s' p v :
  ids_fit_int w s (BuildVertices w s).1 ->
  BuildGraph w s = Ok l s' ->
  p ∈ lLocalMapPoints w ->
  (forall q, q ∈ lLocalMapPoints w ->
      MapPoint.mnId (mappoints s p) <= MapPoint.mnId (mappoints s q)) ->
  vertices (optimizer l) !! point_recovery_id (maxKFId l) (mappoints s p) = Some v ->
  kind_of v <> PointKind.
Proof.
  intros Hfit Hbuild Hp Hmin Hv.
  destruct (BuildGraph_Ok_inv _ _ _ _ Hbuild) as (_ & _ & HmK & HmL).
  destruct (ids_fit_ranges w s Hfit) as (_ & _ & Hpid & HK0 & HL0).
  cbv zeta in Hpid, HK0, HL0.
  rewrite <- HmK, <- HmL in Hpid. rewrite <- HmK in HK0. rewrite <- HmL in HL0.
  destruct Hfit as (_ & _ & Hfp & _). rewrite <- HmK, <- HmL in Hfp.
  destruct (Hfp p Hp) as (Hp0 & Hpmax).
  rewrite (point_recovery_id_behind (maxKFId l) (maxLandmarkId l) (mappoints s p)
             Hp0 HK0 HL0 Hpmax) in Hv.
  destruct (Hpid p Hp) as (Hidp & _). rewrite Hidp in Hv.
  destruct (BuildGraph_origin w s l s' _ v Hbuild Hv)
    as [(k & _ & _ & ->)|[(k & _ & _ & ->)|[(lm & _ & _ & ->)|(q & Hq & Hid & ->)]]];
    try done.
  exfalso. destruct (Hpid q Hq) as (Hidq & _). rewrite Hidq in Hid.
  specialize (Hmin q Hq). lia.
Qed.

Lemma no_points_returns pKF pbStopFlag s :
  let sel := SelectWindow pKF s in
  lLocalMapPoints sel.1 = [] ->
  stop_requested pbStopFlag before_first_optimize = false ->
  solver_keeps_kinds ->
  ids_fit_int sel.1 sel.2 (BuildVertices sel.1 sel.2).1 ->
  termination (LocalBundleAdjustment pKF pbStopFlag s) = Returned.
Proof.
  intros sel Hnone Hgo Hkinds Hfit.
  destruct (BuildGraph_no_points sel.1 sel.2 Hnone) as (l & Hbuild & Ho & HLL & HmK).
  destruct (BuildVertices_spec sel.1 sel.2) as (Hsv & _ & _ & _ & Hne).
  unfold LocalBundleAdjustment. fold sel. rewrite Hbuild, Hgo.
  set (s' := (BuildVertices sel.1 sel.2).2) in *.
  set (run := RunSolver pbStopFlag s' (optimizer l)).
  assert (Hne' : no_edges (optimizer l)) by by rewrite Ho.
  rewrite (ClassifyOutliers_no_edges s' run.1 (RunSolver_no_edges _ _ _ Hne')).
  destruct (graph_vertices_by_kind sel.1 sel.2 l s' Hfit Hbuild)
    as (_ & Hvk & Hvl & _).
  destruct (Commit_no_points sel.1 (with_optimizer run.1 l) s' Hnone) as [s'' Hc].
  - intros k Hk. cbn [with_optimizer optimizer].
    destruct (Hvk k) as (v & Hv & Hpose); [apply elem_of_app; by left|].
    unfold pose_vertex_id in Hv.
    rewrite (same_persistent_mnId _ _ k Hsv).
    apply (kind_kept (vertices (optimizer l)) _ _ v); [|done|by apply kind_of_pose].
    by apply RunSolver_kinds.
  - intros lm Hlm. cbn [with_optimizer optimizer lLocalLandmarks maxKFId] in *.
    rewrite HLL in Hlm. destruct (Hvl lm Hlm) as (v & Hv & Hcub).
    rewrite (same_persistent_landmark _ _ lm Hsv), HmK.
    apply (kind_kept (vertices (optimizer l)) _ _ v); [|done|by apply kind_of_cuboid].
    by apply RunSolver_kinds.
  - by rewrite Hc.
Qed.

(** X13 (lines 164-170, 257-262, 366-371). When the ids of the window
    fit in an [int], the solver engine keeps the kind of every vertex and
    the stop flag is not raised before the first optimize, the procedure
    returns exactly when the window has no Local MapPoint; with one Local
    MapPoint or more it ends on a null dereference: either a vector is
    read out of bounds while the graph is built, or the vertex looked up
    at line 368 for a Local MapPoint of least id is missing or is no
    point vertex. *)
Theorem X13_returns_iff_no_local_mappoint (pKF : KeyFramePtr)
    (pbStopFlag : option StopFlag) (s : SceneGraph) :
  let sel := SelectWindow pKF s in
  stop_requested pbStopFlag before_first_optimize = false ->
  solver_keeps_kinds ->
  ids_fit_int sel.1 sel.2 (BuildVertices sel.1 sel.2).1 ->
  termination (LocalBundleAdjustment pKF pbStopFlag s) = Returned
  <-> lLocalMapPoints sel.1 = [].
Proof.
  intros sel Hgo Hkinds Hfit. split; [|intros Hnone; by apply no_points_returns].
  intros Hret.
  destruct (decide (lLocalMapPoints sel.1 = [])) as [Hnone|Hsome]; [done|].
  exfalso. revert Hret. unfold LocalBundleAdjustment. fold sel.
  destruct (BuildGraph sel.1 sel.2) as [l s'|s'] eqn:Hbuild; [|done].
  rewrite Hgo.
  destruct (list_min_exists (fun p => MapPoint.mnId (mappoints sel.2 p))
              (lLocalMapPoints sel.1) Hsome) as (p & Hp & Hmin).
  set (run := RunSolver pbStopFlag s' (optimizer l)).
  destruct (Commit_faults sel.1 (with_optimizer run.1 l) (ClassifyOutliers s' run.1)
              s' p Hp) as [s'' Hc]; [|by rewrite Hc].
  intros v Hv Hkind. cbn [with_optimizer optimizer maxKFId] in Hv.
  pose proof (BuildGraph_scratch sel.1 sel.2) as Hs. rewrite Hbuild in Hs.
  cbn [scene_of] in Hs.
  assert (Hid : point_recovery_id (maxKFId l) (mappoints s' p)
                = point_recovery_id (maxKFId l) (mappoints sel.2 p)).
  { unfold point_recovery_id.
    by destruct (persistent_mappoint_fields _ _ (same_persistent_mappoint _ _ p Hs))
      as (-> & _). }
  rewrite Hid in Hv.
  pose proof (RunSolver_kinds pbStopFlag s' (optimizer l)
                (point_recovery_id (maxKFId l) (mappoints sel.2 p)) Hkinds) as Hk.
  fold run in Hk. rewrite Hv in Hk. cbn in Hk.
  destruct (vertices (optimizer l) !! _) as [v0|] eqn:Hv0; [|done].
  cbn in Hk. injection Hk as Hk.
  apply (least_point_is_not_recovered sel.1 sel.2 l s' p v0 Hfit Hbuild Hp Hmin Hv0).
  congruence.
Qed.
End TerminationFacts.

(** ** What the procedure leaves alone *)

Section LocalityFacts.
Context `{Solver}.

Lemma foldM_scene_invariant {A B} (I : SceneGraph -> Prop)
    (f : A -> B -> SceneGraph -> Outcome A) (l : list B) (a : A) (s : SceneGraph) :
  (forall a b sc, b ∈ l -> I sc -> I (scene_of (f a b sc))) ->
  I s -> I (scene_of (foldM f l a s)).
Proof.
  revert a s. induction l as [|b l IH]; intros a s Hstep Hs; cbn [foldM]; [done|].
  pose proof (Hstep a b s ltac:(constructor) Hs) as Hb.
  destruct (f a b s) as [a' s'|s']; cbn [scene_of] in *; [|done].
  apply IH; [|done]. intros a0 b0 sc Hb0. apply Hstep. by constructor.
Qed.

Section Outside.
Variables (K : KeyFramePtr -> Prop) (P : MapPointPtr -> Prop)
  (L : LandmarkPtr -> Prop).

#[global] Instance kept_outside_preorder : PreOrder (kept_outside K P L).
Proof.
  split.
  - by intros s.
  - intros s1 s2 s3 (A1 & A2 & A3) (B1 & B2 & B3). split; [|split].
    + intros k Hk. by rewrite B1, A1.
    + intros p Hp. by rewrite B2, A2.
    + intros lm Hlm. by rewrite B3, A3.
Qed.

Lemma update_keyframe_kept k f s :
  K k -> kept_outside K P L s (update_keyframe k f s).
Proof.
  intros Hk. split; [|done]. intros q Hq. rewrite keyframes_update_keyframe.
  case_decide; [by subst|done].
Qed.

Lemma update_mappoint_kept p f s :
  P p -> kept_outside K P L s (update_mappoint p f s).
Proof.
  intros Hp. split; [done|]. split; [|done].
  intros q Hq. rewrite mappoints_update_mappoint.
  case_decide; [by subst|done].
Qed.

Lemma update_landmark_kept lm f s :
  L lm -> kept_outside K P L s (update_landmark lm f s).
Proof.
  intros Hlm. split; [done|]. split; [done|].
  intros q Hq. rewrite landmarks_update_landmark.
  case_decide; [by subst|done].
Qed.

Lemma add_local_keyframe_kept st k :
  K k -> kept_outside K P L st.2 (add_local_keyframe st k).2.
Proof.
  intros Hk. unfold add_local_keyframe. cbv zeta. cbn [snd].
  apply (fold_left_scene_rel (kept_outside K P L) _ _ (lLocalLandmarks st.1, st.2)).
  intros acc lm _. unfold cache_landmark. cbn [snd].
  by apply update_keyframe_kept.
Qed.

Lemma read_landmarkMeasurement_kept k lid s :
  K k -> kept_outside K P L s (read_landmarkMeasurement k lid s).2.
Proof.
  intros Hk. unfold read_landmarkMeasurement.
  destruct (_ !! _); cbn [snd]; [reflexivity|]. by apply update_keyframe_kept.
Qed.

Lemma add_observation_kept maxKFId id pMP o obs s :
  K obs.1 ->
  kept_outside K P L s (scene_of (add_observation maxKFId id pMP o obs s)).
Proof.
  intros Hk. unfold add_observation. cbv zeta.
  destruct (KeyFrame.isBad _); [reflexivity|].
  destruct (_ !! _) as [kpUn|]; [|reflexivity].
  destruct (_ !! _) as [ur|]; [|reflexivity].
  destruct (vector_at _ _) as [invSigma2|]; [|reflexivity].
  destruct (PrimFloat.ltb _ _); [|reflexivity]. cbn [scene_of].
  apply (fold_left_scene_rel (kept_outside K P L) _ _ (_, s)).
  intros acc lm _. unfold add_cuboid_edge. cbv zeta. cbn [snd].
  by apply read_landmarkMeasurement_kept.
Qed.

(** The graph construction writes only to the Local KeyFrames and to
    the observers of the Local MapPoints. *)
Lemma BuildGraph_kept w s :
  (forall k, k ∈ lLocalKeyFrames w -> K k) ->
  (forall p obs, p ∈ lLocalMapPoints w ->
      obs ∈ MapPoint.GetObservations (mappoints s p) -> K obs.1) ->
  kept_outside K P L s (scene_of (BuildGraph w s)).
Proof.
  intros Hlocal Hobs.
  pose (I := fun sc => same_persistent_state s sc /\ kept_outside K P L s sc).
  cut (I (scene_of (BuildGraph w s))); [by intros [_ ?]|].
  assert (Hv : I (BuildVertices w s).2).
  { unfold BuildVertices. cbv zeta. cbn [snd].
    apply (fold_left_invariant (fun st : Locals * SceneGraph => I st.2)).
    - intros st k Hk [Hs Hkept]. split.
      + etransitivity; [exact Hs|apply add_local_keyframe_scratch].
      + etransitivity; [exact Hkept|]. by apply add_local_keyframe_kept, Hlocal.
    - split; reflexivity. }
  unfold BuildGraph. cbv zeta.
  set (v := BuildVertices w s) in *.
  assert (Hfold : I (scene_of (foldM (add_mappoint (maxKFId v.1) (maxLandmarkId v.1))
                                 (lLocalMapPoints w) (optimizer v.1) v.2))).
  { apply foldM_scene_invariant; [|exact Hv].
    intros o p sc Hp [Hs Hkept]. unfold add_mappoint. cbv zeta.
    rewrite (same_persistent_GetObservations _ _ p Hs).
    apply foldM_scene_invariant; [|by split].
    intros o1 obs sc1 Hin [Hs1 Hkept1]. split.
    - etransitivity; [exact Hs1|apply add_observation_scratch].
    - etransitivity; [exact Hkept1|]. apply add_observation_kept.
      by apply (Hobs p). }
  by destruct (foldM _ _ _ _).
Qed.

Lemma erase_link_kept s i :
  K i.1 -> P i.2 -> kept_outside K P L s (erase_link s i).
Proof.
  intros Hk Hp. unfold erase_link.
  etransitivity; [by apply update_keyframe_kept|by apply update_mappoint_kept].
Qed.

Lemma recover_keyframe_kept o u k s :
  K k -> kept_outside K P L s (scene_of (recover_keyframe o u k s)).
Proof.
  intros Hk. unfold recover_keyframe.
  destruct (vertices o !! _) as [[[q|c|pt] ? ?]|]; cbn [scene_of];
    try reflexivity.
  by apply update_keyframe_kept.
Qed.

Lemma recover_landmark_kept o maxKFId u lm s :
  L lm -> kept_outside K P L s (scene_of (recover_landmark o maxKFId u lm s)).
Proof.
  intros Hlm. unfold recover_landmark.
  destruct (vertices o !! _) as [[[q|c|pt] ? ?]|]; cbn [scene_of];
    try reflexivity.
  by apply update_landmark_kept.
Qed.

Lemma recover_mappoint_kept o maxKFId u p s :
  P p -> kept_outside K P L s (scene_of (recover_mappoint o maxKFId u p s)).
Proof.
  intros Hp. unfold recover_mappoint.
  destruct (vertices o !! _) as [[[q|c|pt] ? ?]|]; cbn [scene_of];
    try reflexivity.
  unfold UpdateNormalAndDepth.
  etransitivity; [by apply update_mappoint_kept|by apply update_mappoint_kept].
Qed.

(** The commit writes only to the KeyFrames and MapPoints of the
    queued links, to the Local KeyFrames, the Local Landmarks and the
    Local MapPoints. *)
Lemma Commit_kept w l vToErase s :
  (forall i, i ∈ vToErase -> K i.1 /\ P i.2) ->
  (forall k, k ∈ lLocalKeyFrames w -> K k) ->
  (forall lm, lm ∈ lLocalLandmarks l -> L lm) ->
  (forall p, p ∈ lLocalMapPoints w -> P p) ->
  kept_outside K P L s (scene_of (Commit w l vToErase s)).
Proof.
  intros Herase Hk Hlm Hp. unfold Commit. cbv zeta.
  etransitivity.
  { apply (fold_left_invariant (fun sc => kept_outside K P L s sc) erase_link
             vToErase s); [|reflexivity].
    intros sc i Hi Hsc. etransitivity; [exact Hsc|].
    destruct (Herase i Hi). by apply erase_link_kept. }
  apply (scene_of_bind (kept_outside K P L)).
  { apply (foldM_scene_rel (kept_outside K P L)).
    intros a b sc Hb. by apply recover_keyframe_kept, Hk. }
  intros _ s2.
  apply (scene_of_bind (kept_outside K P L)).
  { apply (foldM_scene_rel (kept_outside K P L)).
    intros a b sc Hb. by apply recover_landmark_kept, Hlm. }
  intros _ s3.
  apply (foldM_scene_rel (kept_outside K P L)).
  intros a b sc Hb. by apply recover_mappoint_kept, Hp.
Qed.
End Outside.

Lemma LocalBundleAdjustment_kept pKF pbStopFlag s :
  let sel := SelectWindow pKF s in
  kept_outside (reached_keyframe pKF s (lLocalMapPoints sel.1))
    (fun p => p ∈ lLocalMapPoints sel.1)
    (landmark_of s (lLocalKeyFrames sel.1))
    s (scene_after (LocalBundleAdjustment pKF pbStopFlag s)).
Proof.
  intros sel.
  set (K := reached_keyframe pKF s (lLocalMapPoints sel.1)).
  set (P := fun p => p ∈ lLocalMapPoints sel.1).
  set (L := landmark_of s (lLocalKeyFrames sel.1)).
  destruct (SelectWindow_spec pKF s) as (A1 & _ & _ & A4 & _ & _ & A7 & A8).
  cbv zeta in A1, A4, A7, A8. fold sel in A1, A4, A7, A8.
  assert (Hsel : same_persistent_state s sel.2) by apply SelectWindow_scratch.
  assert (Hselect : kept_outside K P L s sel.2).
  { split; [|split].
    - intros k Hk. rewrite A7.
      rewrite decide_False by (intros ?; apply Hk; by left).
      rewrite decide_False; [done|].
      intros [Hobs _]. apply Hk. right. by apply elem_of_observers.
    - intros p Hp. rewrite A4. by rewrite decide_False.
    - intros lm _. by rewrite A8. }
  assert (Hlocal : forall k, k ∈ lLocalKeyFrames sel.1 -> K k).
  { intros k Hk. left. rewrite A1 in Hk. unfold covisibility_group.
    apply elem_of_cons in Hk as [->|Hk]; [constructor|].
    apply elem_of_cons. right. by apply list_elem_of_filter in Hk as [_ ?]. }
  assert (Hobs : forall p obs, p ∈ lLocalMapPoints sel.1 ->
             obs ∈ MapPoint.GetObservations (mappoints sel.2 p) -> K obs.1).
  { intros p [k j] Hp Hin. right. exists p, j. split; [done|].
    by rewrite <- (same_persistent_GetObservations _ _ p Hsel). }
  pose proof (BuildGraph_kept K P L sel.1 sel.2 Hlocal Hobs) as Hbuild.
  unfold LocalBundleAdjustment. fold sel.
  destruct (BuildGraph sel.1 sel.2) as [l s'|s'] eqn:Hb; cbn [scene_of] in Hbuild.
  - destruct (stop_requested _ _).
    + cbn. by etransitivity.
    + rewrite scene_after_finish.
      etransitivity; [exact Hselect|]. etransitivity; [exact Hbuild|].
      apply Commit_kept.
      * intros [k p] Hin. cbn [fst snd].
        destruct (vToErase_links sel.1 sel.2 l s' pbStopFlag k p Hb Hin)
          as (Hp & _ & _ & j & Hj).
        split; [|done]. apply (Hobs p (k, j) Hp Hj).
      * exact Hlocal.
      * intros lm Hlm. cbn [with_optimizer lLocalLandmarks] in Hlm.
        destruct (BuildGraph_Ok_inv _ _ _ _ Hb) as (_ & HLL & _).
        rewrite HLL in Hlm.
        destruct (BuildVertices_spec sel.1 sel.2) as (_ & _ & _ & (_ & Hout) & _).
        destruct (Hout lm Hlm) as (k & Hk & Hin).
        exists k. split; [done|].
        by rewrite <- (same_persistent_GetLandmarks _ _ k Hsel).
      * by intros p Hp.
  - cbn. by etransitivity.
Qed.

(** X14 (whole procedure). However the run ends, it leaves every object
    outside the window as it was, stamps and caches included: a MapPoint
    that is not a Local MapPoint, a Landmark that is associated with no
    Local KeyFrame, and a KeyFrame that is neither the trigger nor one of
    its covisible neighbours nor an observer of a Local MapPoint are the
    same afterwards as before. *)
Theorem X14_objects_outside_window_untouched (pKF : KeyFramePtr)
    (pbStopFlag : option StopFlag) (s : SceneGraph) :
  let sel := SelectWindow pKF s in
  let r := LocalBundleAdjustment pKF pbStopFlag s in
  (forall p, p ∉ lLocalMapPoints sel.1 -> mappoints (scene_after r) p = mappoints s p)
  /\ (forall lm, ~ landmark_of s (lLocalKeyFrames sel.1) lm ->
        landmarks (scene_after r) lm = landmarks s lm)
  /\ (forall k, k ∉ covisibility_group pKF s ->
        ~ observer_of s (lLocalMapPoints sel.1) k ->
        keyframes (scene_after r) k = keyframes s k).
Proof.
  intros sel r.
  destruct (LocalBundleAdjustment_kept pKF pbStopFlag s) as (Hk & Hp & Hl).
  split; [exact Hp|]. split; [exact Hl|].
  intros k Hc Ho. apply Hk. by intros [?|?].
Qed.
End LocalityFacts.

(** ** What the commit writes before it reaches the MapPoints *)

Section CommitResults.
Context `{Solver}.

Lemma erase_links_keep vToErase s :
  (forall k, KeyFrame.mnId (keyframes (fold_left erase_link vToErase s) k)
             = KeyFrame.mnId (keyframes s k))
  /\ (forall lm, landmarks (fold_left erase_link vToErase s) lm = landmarks s lm).
Proof.
  apply (fold_left_invariant
           (fun sc => (forall k, KeyFrame.mnId (keyframes sc k)
                                 = KeyFrame.mnId (keyframes s k))
                      /\ (forall lm, landmarks sc lm = landmarks s lm))
           erase_link vToErase s); [|done].
  intros sc i _ [Hk Hl]. split; [|exact Hl].
  intros k. unfold erase_link. cbn [keyframes update_mappoint].
  rewrite keyframes_update_keyframe. case_decide; [subst k; cbn|]; apply Hk.
Qed.

(** The loop of lines 352-357 goes well when every Local KeyFrame finds a
    pose vertex, and leaves in each of them the pose of that vertex. *)
Lemma keyframes_recovered o L : forall s,
  (forall k, k ∈ L ->
      exists v, vertices o !! to_int (KeyFrame.mnId (keyframes s k)) = Some v
                /\ kind_of v = PoseKind) ->
  exists s2, foldM (recover_keyframe o) L tt s = Ok tt s2
    /\ (forall k, k ∉ L -> keyframes s2 k = keyframes s k)
    /\ (forall k, KeyFrame.mnId (keyframes s2 k) = KeyFrame.mnId (keyframes s k))
    /\ (forall lm, landmarks s2 lm = landmarks s lm)
    /\ (forall k, k ∈ L ->
          exists q f m,
            vertices o !! to_int (KeyFrame.mnId (keyframes s k))
            = Some {| estimate := VertexSE3Expmap q; fixed := f; marginalized := m |}
            /\ KeyFrame.GetPose (keyframes s2 k) = toCvMat_SE3Quat q).
Proof.
  induction L as [|k0 L IH]; intros s Hpre.
  - exists s. repeat split; try done. intros k Hk. by apply elem_of_nil in Hk.
  - destruct (Hpre k0 ltac:(by left)) as (v & Hv & Hkind).
    destruct v as [[q|c|pt] f m]; try done.
    set (s1 := update_keyframe k0 (KeyFrame.SetPose (toCvMat_SE3Quat q)) s).
    assert (Hid1 : forall k, KeyFrame.mnId (keyframes s1 k)
                             = KeyFrame.mnId (keyframes s k)).
    { intros k. unfold s1. rewrite keyframes_update_keyframe.
      case_decide; by subst. }
    destruct (IH s1) as (s2 & Hfold & Hout & Hid & Hlm & Hposes).
    { intros k Hk. rewrite Hid1. apply Hpre. by right. }
    exists s2. cbn [foldM]. unfold recover_keyframe at 1. rewrite Hv.
    fold s1. split; [exact Hfold|]. split; [|split; [|split]].
    + intros k Hk. apply not_elem_of_cons in Hk as [Hne Hk].
      rewrite (Hout k Hk). unfold s1. rewrite keyframes_update_keyframe.
      by rewrite decide_False.
    + intros k. by rewrite Hid, Hid1.
    + intros lm. by rewrite Hlm.
    + intros k Hk. destruct (decide (k ∈ L)) as [Hin|Hnin].
      * destruct (Hposes k Hin) as (q' & f' & m' & Hv' & Hp').
        rewrite Hid1 in Hv'. by exists q', f', m'.
      * apply elem_of_cons in Hk as [->|Hk]; [|done].
        exists q, f, m. split; [exact Hv|].
        rewrite (Hout k0 Hnin). unfold s1. rewrite keyframes_update_keyframe.
        by rewrite decide_True.
Qed.

(** The loop of lines 359-364 likewise, for the Local Landmarks. *)
Lemma landmarks_recovered o maxKFId L : forall s,
  (forall lm, lm ∈ L ->
      exists v, vertices o !! landmark_vertex_id maxKFId (landmarks s lm) = Some v
                /\ kind_of v = CuboidKind) ->
  exists s3, foldM (recover_landmark o maxKFId) L tt s = Ok tt s3
    /\ (forall lm, lm ∉ L -> landmarks s3 lm = landmarks s lm)
    /\ (forall lm, Landmark.mnLandmarkId (landmarks s3 lm)
                   = Landmark.mnLandmarkId (landmarks s lm))
    /\ (forall k, keyframes s3 k = keyframes s k)
    /\ (forall lm, lm ∈ L ->
          exists c f m,
            vertices o !! landmark_vertex_id maxKFId (landmarks s lm)
            = Some {| estimate := VertexCuboid c; fixed := f; marginalized := m |}
            /\ Landmark.GetCuboid (landmarks s3 lm) = c).
Proof.
  induction L as [|l0 L IH]; intros s Hpre.
  - exists s. repeat split; try done. intros k Hk. by apply elem_of_nil in Hk.
  - destruct (Hpre l0 ltac:(by left)) as (v & Hv & Hkind).
    destruct v as [[q|c|pt] f m]; try done.
    set (s1 := update_landmark l0 (Landmark.SetPoseAndDimension c) s).
    assert (Hid1 : forall lm, Landmark.mnLandmarkId (landmarks s1 lm)
                              = Landmark.mnLandmarkId (landmarks s lm)).
    { intros lm. unfold s1. rewrite landmarks_update_landmark.
      case_decide; by subst. }
    destruct (IH s1) as (s3 & Hfold & Hout & Hid & Hkf & Hcub).
    { intros lm Hlm. unfold landmark_vertex_id. rewrite Hid1. apply Hpre. by right. }
    exists s3. cbn [foldM]. unfold recover_landmark at 1. rewrite Hv.
    fold s1. split; [exact Hfold|]. split; [|split; [|split]].
    + intros lm Hlm. apply not_elem_of_cons in Hlm as [Hne Hlm].
      rewrite (Hout lm Hlm). unfold s1. rewrite landmarks_update_landmark.
      by rewrite decide_False.
    + intros lm. by rewrite Hid, Hid1.
    + intros k. by rewrite Hkf.
    + intros lm Hlm. destruct (decide (lm ∈ L)) as [Hin|Hnin].
      * destruct (Hcub lm Hin) as (c' & f' & m' & Hv' & Hc').
        unfold landmark_vertex_id in Hv'. rewrite Hid1 in Hv'.
        by exists c', f', m'.
      * apply elem_of_cons in Hlm as [->|Hlm]; [|done].
        exists c, f, m. split; [exact Hv|].
        rewrite (Hout l0 Hnin). unfold s1. rewrite landmarks_update_landmark.
        by rewrite decide_True.
Qed.

(** The loop over the Local MapPoints writes to MapPoints only, however
    it ends. *)
Lemma mappoints_recovered_frame o maxKFId L s :
  let s4 := scene_of (foldM (recover_mappoint o maxKFId) L tt s) in
  (forall k, keyframes s4 k = keyframes s k)
  /\ (forall lm, landmarks s4 lm = landmarks s lm).
Proof.
  cbv zeta.
  destruct (foldM_scene_rel (kept_outside (fun _ => False) (fun _ => True)
                               (fun _ => False))
              (recover_mappoint o maxKFId) L tt s) as (Hk & _ & Hl).
  { intros a b sc _. by apply recover_mappoint_kept. }
  split; [intros k; apply Hk|intros lm; apply Hl]; tauto.
Qed.

Lemma Commit_recovers_keyframes w l vToErase s :
  (forall k, k ∈ lLocalKeyFrames w ->
      exists v, vertices (optimizer l) !! to_int (KeyFrame.mnId (keyframes s k)) = Some v
                /\ kind_of v = PoseKind) ->
  let sc := scene_of (Commit w l vToErase s) in
  (forall k, k ∈ lLocalKeyFrames w ->
      exists q f m,
        vertices (optimizer l) !! to_int (KeyFrame.mnId (keyframes s k))
        = Some {| estimate := VertexSE3Expmap q; fixed := f; marginalized := m |}
        /\ KeyFrame.GetPose (keyframes sc k) = toCvMat_SE3Quat q)
  /\ ((forall lm, lm ∈ lLocalLandmarks l ->
        exists v, vertices (optimizer l)
                    !! landmark_vertex_id (maxKFId l) (landmarks s lm) = Some v
                  /\ kind_of v = CuboidKind) ->
      forall lm, lm ∈ lLocalLandmarks l ->
        exists c f m,
          vertices (optimizer l) !! landmark_vertex_id (maxKFId l) (landmarks s lm)
          = Some {| estimate := VertexCuboid c; fixed := f; marginalized := m |}
          /\ Landmark.GetCuboid (landmarks sc lm) = c).
Proof.
  intros Hkf. cbv zeta. unfold Commit. cbv zeta.
  destruct (erase_links_keep vToErase s) as (Hid1 & Hlm1).
  set (s1 := fold_left erase_link vToErase s) in *.
  destruct (keyframes_recovered (optimizer l) (lLocalKeyFrames w) s1)
    as (s2 & -> & _ & Hid2 & Hlm2 & Hposes).
  { intros k Hk. rewrite Hid1. by apply Hkf. }
  cbn [bind].
  assert (Hkeep : forall s3 r, (forall k, keyframes s3 k = keyframes s2 k) ->
            (forall k, keyframes (scene_of r) k = keyframes s3 k) ->
            forall k, k ∈ lLocalKeyFrames w ->
              exists q f m,
                vertices (optimizer l) !! to_int (KeyFrame.mnId (keyframes s k))
                = Some {| estimate := VertexSE3Expmap q; fixed := f;
                          marginalized := m |}
                /\ KeyFrame.GetPose (keyframes (@scene_of _ unit r) k)
                   = toCvMat_SE3Quat q).
  { intros s3 r H3 Hr k Hk. destruct (Hposes k Hk) as (q & f & m & Hv & Hp).
    exists q, f, m. rewrite <- Hid1. split; [exact Hv|]. by rewrite Hr, H3. }
  split.
  - destruct (foldM (recover_landmark _ _) _ tt s2) as [u3 s3|s3] eqn:E3;
      cbn [bind].
    + apply (Hkeep s3).
      * pose proof (foldM_scene_rel (kept_outside (fun _ => False) (fun _ => False)
                                       (fun _ => True))
                      (recover_landmark (optimizer l) (maxKFId l))
                      (lLocalLandmarks l) tt s2) as Hr.
        rewrite E3 in Hr. destruct Hr as (Hk3 & _).
        { intros a b sc _. by apply recover_landmark_kept. }
        intros k. apply Hk3. tauto.
      * apply mappoints_recovered_frame.
    + apply (Hkeep s3); [|done].
      pose proof (foldM_scene_rel (kept_outside (fun _ => False) (fun _ => False)
                                     (fun _ => True))
                    (recover_landmark (optimizer l) (maxKFId l))
                    (lLocalLandmarks l) tt s2) as Hr.
      rewrite E3 in Hr. destruct Hr as (Hk3 & _).
      { intros a b sc _. by apply recover_landmark_kept. }
      intros k. apply Hk3. tauto.
  - intros Hlm.
    destruct (landmarks_recovered (optimizer l) (maxKFId l) (lLocalLandmarks l) s2)
      as (s3 & -> & _ & _ & _ & Hcub).
    { intros lm Hin. rewrite Hlm2, Hlm1. by apply Hlm. }
    cbn [bind]. intros lm Hin.
    destruct (Hcub lm Hin) as (c & f & m & Hv & Hc).
    exists c, f, m. rewrite <- Hlm1, <- Hlm2. split; [exact Hv|].
    by rewrite (proj2 (mappoints_recovered_frame _ _ _ s3) lm).
Qed.

(** X18 (lines 352-364). When the graph is built, the stop flag is not
    raised before the first optimize and the solver engine keeps the kind
    of every vertex, the run leaves in every Local KeyFrame the pose of
    its vertex as the solver left it, whether it then returns or ends on
    a null dereference at a MapPoint; when moreover the ids of the window
    fit in an [int], it leaves in every Local Landmark the cuboid of its
    vertex. [KeyFrame::SetPose] and [Landmark::SetPoseAndDimension] are
    taken to store their argument. *)
Theorem X18_poses_and_cuboids_are_committed (pKF : KeyFramePtr)
    (pbStopFlag : option StopFlag) (s s' : SceneGraph) (l : Locals) :
  let sel := SelectWindow pKF s in
  BuildGraph sel.1 sel.2 = Ok l s' ->
  stop_requested pbStopFlag before_first_optimize = false ->
  solver_keeps_kinds ->
  let r := LocalBundleAdjustment pKF pbStopFlag s in
  let vs := vertices (RunSolver pbStopFlag s' (optimizer l)).1 in
  (forall k, k ∈ lLocalKeyFrames sel.1 ->
      exists q f m,
        vs !! pose_vertex_id (keyframes s k)
        = Some {| estimate := VertexSE3Expmap q; fixed := f; marginalized := m |}
        /\ KeyFrame.GetPose (keyframes (scene_after r) k) = toCvMat_SE3Quat q)
  /\ (ids_fit_int sel.1 sel.2 (BuildVertices sel.1 sel.2).1 ->
      forall lm, lm ∈ lLocalLandmarks l ->
        exists c f m,
          vs !! landmark_vertex_id (maxKFId l) (landmarks s lm)
          = Some {| estimate := VertexCuboid c; fixed := f; marginalized := m |}
          /\ Landmark.GetCuboid (landmarks (scene_after r) lm) = c).
Proof.
  intros sel Hbuild Hgo Hkinds. cbv zeta.
  assert (Hsel : same_persistent_state s sel.2) by apply SelectWindow_scratch.
  pose proof (BuildGraph_scratch sel.1 sel.2) as Hs. rewrite Hbuild in Hs.
  cbn [scene_of] in Hs.
  assert (Hss' : same_persistent_state s s') by (by etransitivity).
  unfold LocalBundleAdjustment. fold sel. rewrite Hbuild, Hgo.
  set (run := RunSolver pbStopFlag s' (optimizer l)).
  rewrite scene_after_finish.
  destruct (Commit_recovers_keyframes sel.1 (with_optimizer run.1 l)
              (ClassifyOutliers s' run.1) s') as (Hposes & Hcub).
  { intros k Hk. cbn [with_optimizer optimizer].
    destruct (pose_vertices_present sel.1 sel.2 l s' k Hbuild) as (v & Hv & Hpose);
      [apply elem_of_app; by left|].
    rewrite (same_persistent_mnId _ _ k Hs).
    apply (kind_kept (vertices (optimizer l)) _ _ v); [|done|by apply kind_of_pose].
    by apply RunSolver_kinds. }
  cbn [with_optimizer optimizer lLocalLandmarks maxKFId] in Hposes, Hcub.
  split.
  - intros k Hk. unfold pose_vertex_id.
    rewrite <- (same_persistent_mnId _ _ k Hss'). by apply Hposes.
  - intros Hfit lm Hlm.
    rewrite <- (same_persistent_landmark _ _ lm Hss').
    apply Hcub; [|done].
    intros lm' Hlm'.
    destruct (graph_vertices_by_kind sel.1 sel.2 l s' Hfit Hbuild)
      as (_ & _ & Hvl & _).
    destruct (BuildGraph_Ok_inv _ _ _ _ Hbuild) as (_ & HLL & HmK & _).
    rewrite HLL in Hlm'. destruct (Hvl lm' Hlm') as (v & Hv & Hc).
    rewrite (same_persistent_landmark _ _ lm' Hs), HmK.
    apply (kind_kept (vertices (optimizer l)) _ _ v); [|done|by apply kind_of_cuboid].
    by apply RunSolver_kinds.
Qed.
End CommitResults.

(** ** The links the commit severs *)

Section SeveranceFacts.
Context `{Solver}.

#[global] Instance links_only_shrink_preorder : PreOrder links_only_shrink.
Proof.
  split.
  - by intros s.
  - intros s1 s2 s3 (A1 & A2) (B1 & B2). split.
    + intros k p Hin. by apply A1, B1.
    + intros p x Hin. by apply A2, B2.
Qed.

Lemma severed_kept s s' k p :
  links_only_shrink s s' -> severed s k p -> severed s' k p.
Proof.
  intros (H1 & H2) (Hm & Ho). split.
  - intros Hin. by apply Hm, H1.
  - intros j Hin. by apply (Ho j), H2.
Qed.

Lemma erase_link_shrinks s i : links_only_shrink s (erase_link s i).
Proof.
  unfold erase_link. split.
  - intros k p. cbn [keyframes update_mappoint].
    rewrite keyframes_update_keyframe. case_decide as Hk; [subst k|done].
    cbn [KeyFrame.GetMapPointMatches KeyFrame.EraseMapPointMatch].
    intros (m & Hm & Hin)%elem_of_list_map.
    case_decide; [done|]. by subst m.
  - intros p x. rewrite mappoints_update_mappoint.
    case_decide as Hp; [subst p|done].
    cbn [MapPoint.GetObservations MapPoint.EraseObservation update_keyframe mappoints].
    by intros [_ ?]%list_elem_of_filter.
Qed.

Lemma erase_link_severs s k p : severed (erase_link s (k, p)) k p.
Proof.
  unfold erase_link. cbn [fst snd]. split.
  - cbn [keyframes update_mappoint].
    rewrite keyframes_update_keyframe, decide_True by done.
    cbn [KeyFrame.GetMapPointMatches KeyFrame.EraseMapPointMatch].
    intros (m & Hm & Hin)%elem_of_list_map.
    case_decide; [done|]. by subst m.
  - intros j. rewrite mappoints_update_mappoint, decide_True by done.
    cbn [MapPoint.GetObservations MapPoint.EraseObservation].
    intros [Hne _]%list_elem_of_filter. by apply Hne.
Qed.

Lemma recover_keyframe_shrinks o u k s :
  links_only_shrink s (scene_of (recover_keyframe o u k s)).
Proof.
  unfold recover_keyframe.
  destruct (vertices o !! _) as [[[q|c|pt] ? ?]|]; cbn [scene_of]; try reflexivity.
  split; [|done]. intros k' p. rewrite keyframes_update_keyframe.
  case_decide; by subst.
Qed.

Lemma recover_landmark_shrinks o maxKFId u lm s :
  links_only_shrink s (scene_of (recover_landmark o maxKFId u lm s)).
Proof.
  unfold recover_landmark.
  destruct (vertices o !! _) as [[[q|c|pt] ? ?]|]; cbn [scene_of]; try reflexivity.
  by split.
Qed.

Lemma recover_mappoint_shrinks o maxKFId u p s :
  links_only_shrink s (scene_of (recover_mappoint o maxKFId u p s)).
Proof.
  unfold recover_mappoint.
  destruct (vertices o !! _) as [[[q|c|pt] ? ?]|]; cbn [scene_of]; try reflexivity.
  split; [done|]. intros p' x. unfold UpdateNormalAndDepth.
  rewrite !mappoints_update_mappoint.
  repeat (case_decide; subst; cbn); done.
Qed.

(** A link of the queue is gone from both ends when the commit is over,
    however it ends. *)
Lemma Commit_severs w l vToErase s k p :
  (k, p) ∈ vToErase -> severed (scene_of (Commit w l vToErase s)) k p.
Proof.
  intros Hin. unfold Commit. cbv zeta.
  set (s1 := fold_left erase_link vToErase s).
  assert (H1 : severed s1 k p).
  { apply (fold_left_establish (fun _ => True) (fun sc => severed sc k p)
             erase_link vToErase s (k, p) Hin I); [done| |].
    - intros sc _. apply erase_link_severs.
    - intros sc i _ _ Hs. eapply severed_kept; [apply erase_link_shrinks|exact Hs]. }
  eapply severed_kept; [|exact H1].
  apply (scene_of_bind links_only_shrink).
  { apply (foldM_scene_rel links_only_shrink).
    intros a b sc _. apply recover_keyframe_shrinks. }
  intros _ s2.
  apply (scene_of_bind links_only_shrink).
  { apply (foldM_scene_rel links_only_shrink).
    intros a b sc _. apply recover_landmark_shrinks. }
  intros _ s3.
  apply (foldM_scene_rel links_only_shrink).
  intros a b sc _. apply recover_mappoint_shrinks.
Qed.

(** X20 (lines 264-268, 308-348). When the graph is built and the stop flag is
    not raised before the first optimize, every link the final
    classification queues is severed at both ends when the run is over,
    whether it returns or ends on a null dereference later in the
    commit: the MapPoint is in no slot of the KeyFrame's point-match
    table and the KeyFrame is no observer of the MapPoint. With the stop
    flag raised after the first optimize the queue is that of the
    estimates of the first optimize. [KeyFrame::EraseMapPointMatch] and
    [MapPoint::EraseObservation] are taken to remove the link from their
    own side. *)
Theorem X20_queued_links_are_severed (pKF : KeyFramePtr)
    (pbStopFlag : option StopFlag) (s s' : SceneGraph) (l : Locals) :
  let sel := SelectWindow pKF s in
  BuildGraph sel.1 sel.2 = Ok l s' ->
  stop_requested pbStopFlag before_first_optimize = false ->
  let r := LocalBundleAdjustment pKF pbStopFlag s in
  let o1 := set_vertices (optimize pbStopFlag 0 5 (optimizer l)) (optimizer l) in
  (forall k p, (k, p) ∈ ClassifyOutliers s' (RunSolver pbStopFlag s' (optimizer l)).1 ->
      severed (scene_after r) k p)
  /\ (stop_requested pbStopFlag after_first_optimize = true ->
      solver_calls r = [Call_initializeOptimization 0; Call_optimize 5]
      /\ forall k p, (k, p) ∈ ClassifyOutliers s' o1 -> severed (scene_after r) k p).
Proof.
  intros sel Hbuild Hgo. cbv zeta.
  assert (Hall : forall k p,
             (k, p) ∈ ClassifyOutliers s' (RunSolver pbStopFlag s' (optimizer l)).1 ->
             severed (scene_after (LocalBundleAdjustment pKF pbStopFlag s)) k p).
  { intros k p Hin. unfold LocalBundleAdjustment. fold sel. rewrite Hbuild, Hgo.
    rewrite scene_after_finish. by apply Commit_severs. }
  split; [exact Hall|].
  intros Hstop. split.
  - unfold LocalBundleAdjustment. fold sel. rewrite Hbuild, Hgo.
    rewrite solver_calls_finish. by rewrite RunSolver_stopped.
  - intros k p Hin. apply Hall. by rewrite RunSolver_stopped.
Qed.
End SeveranceFacts.

(** ** The outlier thresholds, pass by pass *)

Section ThresholdFacts.
Context `{Solver}.





End ThresholdFacts.

(** ** Camera-object factors of Local KeyFrames and of Fixed Cameras *)

Section ObserverFactors.
Context `{Geometry}.

Lemma read_landmarkMeasurement_fst k lid s :
  (read_landmarkMeasurement k lid s).1
  = default Cuboid_default (KeyFrame.landmarkMeasurements (keyframes s k) !! lid).
Proof. unfold read_landmarkMeasurement. by destruct (_ !! _). Qed.

(** Reading an entry leaves what every later read yields as it was. *)
Lemma read_landmarkMeasurement_default k lid s cid :
  default Cuboid_default
    (KeyFrame.landmarkMeasurements (keyframes (read_landmarkMeasurement k lid s).2 k)
       !! cid)
  = default Cuboid_default (KeyFrame.landmarkMeasurements (keyframes s k) !! cid).
Proof.
  unfold read_landmarkMeasurement.
  destruct (KeyFrame.landmarkMeasurements (keyframes s k) !! lid) eqn:Hc; cbn [snd];
    [done|].
  rewrite keyframes_update_keyframe, decide_True by done. cbn.
  destruct (decide (cid = lid)) as [->|Hne].
  - by rewrite lookup_insert_eq, Hc.
  - by rewrite lookup_insert_ne.
Qed.

(** The factors the loop of lines 210-221 appends, in order, each with
    the measurement the cache yields for its Landmark. *)
Lemma add_cuboid_edges_measurements maxKFId k lms o s o1 s1 :
  vertices o1 = vertices o -> same_persistent_state s s1 ->
  (forall cid,
      default Cuboid_default (KeyFrame.landmarkMeasurements (keyframes s1 k) !! cid)
      = default Cuboid_default (KeyFrame.landmarkMeasurements (keyframes s k) !! cid)) ->
  let r := fold_left (add_cuboid_edge maxKFId k) lms (o1, s1) in
  exists ms, length ms = length lms
    /\ edgesCuboid r.1
       = edgesCuboid o1 ++ zip_with (camera_object_factor o maxKFId s k) lms ms
    /\ (forall i lm m, lms !! i = Some lm -> ms !! i = Some m ->
          m = cached_or_default s k lm).
Proof.
  revert o1 s1. induction lms as [|lm lms IH]; intros o1 s1 Hv Hs Hc; cbv zeta.
  - cbn [fold_left fst]. exists []. split; [done|].
    split; [by rewrite app_nil_r|]. by intros [|?] ?? [=].
  - cbn [fold_left].
    set (acc := add_cuboid_edge maxKFId k (o1, s1) lm).
    assert (Hv' : vertices acc.1 = vertices o) by exact Hv.
    assert (Hs' : same_persistent_state s acc.2).
    { etransitivity; [exact Hs|apply (add_cuboid_edge_scratch maxKFId k (o1, s1) lm)]. }
    assert (Hc' : forall cid,
               default Cuboid_default
                 (KeyFrame.landmarkMeasurements (keyframes acc.2 k) !! cid)
               = default Cuboid_default
                   (KeyFrame.landmarkMeasurements (keyframes s k) !! cid)).
    { intros cid. rewrite <- Hc. apply read_landmarkMeasurement_default. }
    destruct (IH acc.1 acc.2 Hv' Hs' Hc') as (ms & Hlen & Hedges & Hms).
    rewrite <- surjective_pairing in Hedges.
    set (m := (read_landmarkMeasurement k
                 (Landmark.mnLandmarkId (landmarks s1 lm)) s1).1).
    exists (m :: ms). split; [cbn; by rewrite Hlen|]. split.
    + rewrite Hedges. cbn [zip_with]. unfold acc at 1, add_cuboid_edge.
      cbv zeta. cbn [fst snd addEdgeCuboid edgesCuboid]. rewrite <- app_assoc.
      cbn [app]. do 2 f_equal.
      exact (camera_object_factor_ext o o1 maxKFId s s1 k lm m Hv Hs).
    + intros [|i] lm' m'; cbn.
      * intros [= <-] [= <-]. unfold m, cached_or_default.
        rewrite read_landmarkMeasurement_fst, Hc.
        by rewrite (same_persistent_landmark _ _ lm Hs).
      * apply Hms.
Qed.

(** A monocular observation by a KeyFrame that is not bad leaves, for
    each Landmark of that KeyFrame, a factor with the measurement the
    cache yields. *)
Lemma add_observation_mono_factor maxKFId id pMP o obs sc o1 sc1 lm :
  add_observation maxKFId id pMP o obs sc = Ok o1 sc1 ->
  KeyFrame.isBad (keyframes sc obs.1) = false ->
  monocular sc obs ->
  lm ∈ KeyFrame.GetLandmarks (keyframes sc obs.1) ->
  exists e, e ∈ edgesCuboid o1
    /\ e = camera_object_factor o maxKFId sc obs.1 lm (cached_or_default sc obs.1 lm).
Proof.
  intros Hstep Hlive (ur & Hur & Hlt) Hlm. revert Hstep.
  unfold add_observation. cbv zeta. rewrite Hlive.
  destruct (KeyFrame.mvKeysUn _ !! _) as [kpUn|] eqn:Hkp; [|done].
  destruct (KeyFrame.mvuRight _ !! _) as [ur'|] eqn:Hur'; [|done].
  injection Hur as ->.
  destruct (vector_at _ _) as [invSigma2|] eqn:Hsig; [|done].
  rewrite Hlt.
  set (o0 := addEdgeMono (mono_edge o id (keyframes sc obs.1) kpUn invSigma2)
               obs.1 pMP o).
  intros [= <- <-].
  destruct (add_cuboid_edges_measurements maxKFId obs.1
              (KeyFrame.GetLandmarks (keyframes sc obs.1)) o sc o0 sc
              eq_refl ltac:(reflexivity) ltac:(done))
    as (ms & Hlen & Hedges & Hms).
  apply list_elem_of_lookup in Hlm as [i Hi].
  destruct (lookup_lt_is_Some_2 ms i) as [m Hm].
  { rewrite Hlen. by eapply lookup_lt_Some. }
  exists (camera_object_factor o maxKFId sc obs.1 lm m). split.
  - rewrite Hedges. apply elem_of_app. right.
    apply elem_of_lookup_zip_with. by exists i, lm, m.
  - by rewrite (Hms i lm m Hi Hm).
Qed.

Lemma add_observation_edges_kept maxKFId id pMP o obs sc o1 sc1 e :
  add_observation maxKFId id pMP o obs sc = Ok o1 sc1 ->
  e ∈ edgesCuboid o -> e ∈ edgesCuboid o1.
Proof.
  intros Hstep. apply add_observation_step in Hstep as (Hstep & _).
  destruct Hstep as [_ ->|kpUn ur invSigma2 ms _ _ _ _ _ _ _ He _|kpUn ur inv _ _ _ _ ->].
  - done.
  - rewrite He. intros Hin. apply elem_of_app. by left.
  - done.
Qed.

(** The first loop leaves the KeyFrames that are not Local KeyFrames as
    they were, caches included. *)
Lemma BuildVertices_outside w s k :
  k ∉ lLocalKeyFrames w -> keyframes (BuildVertices w s).2 k = keyframes s k.
Proof.
  intros Hk. unfold BuildVertices. cbv zeta. cbn [snd].
  destruct (fold_left_scene_rel
              (kept_outside (fun q => q ∈ lLocalKeyFrames w) (fun _ => False)
                 (fun _ => False))
              add_local_keyframe (lLocalKeyFrames w) (locals0, s)) as (Hkf & _).
  { intros acc b Hb. by apply add_local_keyframe_kept. }
  by apply Hkf.
Qed.

(** While the factors are built, the cache of a KeyFrame yields for a
    Landmark what it yielded after the vertex loops. *)
Lemma add_observation_default maxKFId id pMP o obs sc o1 sc1 q cid :
  add_observation maxKFId id pMP o obs sc = Ok o1 sc1 ->
  default Cuboid_default (KeyFrame.landmarkMeasurements (keyframes sc1 q) !! cid)
  = default Cuboid_default (KeyFrame.landmarkMeasurements (keyframes sc q) !! cid).
Proof.
  intros Hstep.
  destruct (add_observation_scene _ _ _ _ _ _ _ _ Hstep) as (_ & _ & Hg).
  destruct (add_observation_caches _ _ _ _ _ _ _ _ Hstep) as [(-> & _)|(_ & Hnew & _)];
    [done|].
  destruct (KeyFrame.landmarkMeasurements (keyframes sc q) !! cid) as [c|] eqn:Hc.
  - by rewrite (lookup_weaken _ _ _ _ Hc (Hg q)).
  - destruct (KeyFrame.landmarkMeasurements (keyframes sc1 q) !! cid) as [c|] eqn:Hc1;
      [|done].
    destruct (Hnew q cid c Hc1) as [Hold|(-> & _)]; [congruence|done].
Qed.

Lemma observer_factor_added w s l s' p obs lm :
  BuildGraph w s = Ok l s' ->
  p ∈ lLocalMapPoints w ->
  obs ∈ MapPoint.GetObservations (mappoints s p) ->
  obs.1 ∈ window_keyframes w ->
  KeyFrame.isBad (keyframes s obs.1) = false ->
  monocular s obs ->
  lm ∈ lLocalLandmarks l ->
  lm ∈ KeyFrame.GetLandmarks (keyframes s obs.1) ->
  exists e, e ∈ edgesCuboid (optimizer l)
    /\ EdgeSE3Cuboid.vertex0 e = Some (pose_vertex_id (keyframes s obs.1))
    /\ EdgeSE3Cuboid.vertex1 e = Some (landmark_vertex_id (maxKFId l) (landmarks s lm))
    /\ EdgeSE3Cuboid.measurement e = cached_or_default (BuildVertices w s).2 obs.1 lm
    /\ EdgeSE3Cuboid.information e
       = cuboid_information (Landmark.mQuality (landmarks s lm)).
Proof.
  intros Hbuild Hp Hobs Hwin Hlive (ur & Hur & Hlt) HlmL Hlm.
  destruct (BuildGraph_Ok_inv _ _ _ _ Hbuild) as (_ & HLL & -> & _).
  rewrite HLL in HlmL.
  set (v := BuildVertices w s).
  destruct (BuildVertices_spec w s) as (Hsv & _ & (Hck & Hclm & _) & _).
  fold v in Hsv, Hck, Hclm.
  pose (P := fun e : EdgeSE3Cuboid.t =>
    EdgeSE3Cuboid.vertex0 e = Some (pose_vertex_id (keyframes s obs.1))
    /\ EdgeSE3Cuboid.vertex1 e = Some (landmark_vertex_id (maxKFId v.1) (landmarks s lm))
    /\ EdgeSE3Cuboid.measurement e = cached_or_default v.2 obs.1 lm
    /\ EdgeSE3Cuboid.information e
       = cuboid_information (Landmark.mQuality (landmarks s lm))).
  change (exists e, e ∈ edgesCuboid (optimizer l) /\ P e).
  refine (BuildGraph_establish
            (fun o sc => vertices (optimizer v.1) ⊆ vertices o
               /\ forall q cid,
                    default Cuboid_default
                      (KeyFrame.landmarkMeasurements (keyframes sc q) !! cid)
                    = default Cuboid_default
                        (KeyFrame.landmarkMeasurements (keyframes v.2 q) !! cid))
            (fun o => exists e, e ∈ edgesCuboid o /\ P e)
            w s l s' p obs Hbuild Hp Hobs _ _ _ _ _ _).
  - by split.
  - intros pMP o sc _ _ [HI Hc]. split; [|exact Hc].
    etransitivity; [exact HI|apply addVertex_subseteq].
  - intros pMP obs' o sc o1 sc1 _ _ _ [HI Hc] Hstep. split.
    + by destruct (add_observation_scene _ _ _ _ _ _ _ _ Hstep) as (-> & _).
    + intros q cid. rewrite <- Hc. by eapply add_observation_default.
  - intros o sc o1 sc1 [Hs Hg] [HI Hc] Hstep.
    destruct (add_observation_mono_factor _ _ _ _ _ _ _ _ lm Hstep)
      as (e & Hin & ->).
    + by rewrite (same_persistent_isBad _ _ obs.1 Hs).
    + exists ur. by rewrite (same_persistent_mvuRight _ _ obs.1 Hs).
    + by rewrite (same_persistent_GetLandmarks _ _ obs.1 Hs).
    + exists (camera_object_factor o (maxKFId v.1) sc obs.1 lm
                (cached_or_default sc obs.1 lm)).
      split; [exact Hin|]. unfold P, camera_object_factor.
      cbn [EdgeSE3Cuboid.vertex0 EdgeSE3Cuboid.vertex1 EdgeSE3Cuboid.measurement
             EdgeSE3Cuboid.information].
      split; [|split; [|split]].
      * rewrite (same_persistent_mnId _ _ obs.1 Hs). apply vertex_Some.
        destruct (Hck obs.1 Hwin) as ((x & Hx & _) & _).
        exists x. by eapply lookup_weaken.
      * rewrite (same_persistent_landmark _ _ lm Hs). apply vertex_Some.
        destruct (Hclm lm HlmL) as ([x Hx] & _).
        exists x. by eapply lookup_weaken.
      * unfold cached_or_default.
        rewrite (same_persistent_landmark _ _ lm Hs), Hc.
        by rewrite (same_persistent_landmark _ _ lm Hsv).
      * by rewrite (same_persistent_landmark _ _ lm Hs).
  - intros o i x (e & Hin & HP). exists e. split; [|exact HP].
    by rewrite (proj1 (addVertex_edges i x o)).
  - intros pMP obs' o sc o1 sc1 (e & Hin & HP) Hstep.
    exists e. split; [|exact HP]. by eapply add_observation_edges_kept.
Qed.

(** C6 as amended: for every monocular observation of a Local MapPoint
    from a non-bad Local KeyFrame and for every Landmark associated with
    that KeyFrame, the graph holds a camera-object factor between the
    KeyFrame's pose vertex and the Landmark's cuboid vertex whose
    measurement is the relative cuboid pose cached for the pair at lines
    106-107 and whose information is the 9x9 diagonal of (2 quality)^2,
    provided the vertex ids fit in an [int] and the Landmarks of the
    KeyFrame have ids of their own. For an observing KeyFrame that is a
    Fixed Camera and a Local Landmark associated with it the factor is
    there too, between the same kinds of vertices and with the same
    information, but its measurement is what the cache of that KeyFrame
    held for the Landmark on entry, or a default cuboid when it held
    nothing. *)
Theorem C6_camera_object_factors_by_role (w : Window) (s s' : SceneGraph)
    (l : Locals) :
  BuildGraph w s = Ok l s' ->
  ids_fit_int w s (BuildVertices w s).1 ->
  (forall k, k ∈ lLocalKeyFrames w -> landmark_ids_distinct s k) ->
  camera_object_factors_for (fun k => k ∈ lLocalKeyFrames w) w s l
  /\ fixed_camera_factors w s l.
Proof.
  intros Hbuild Hfit Hdistinct.
  destruct (graph_vertices_by_kind w s l s' Hfit Hbuild) as (_ & Hvk & Hvl & _).
  destruct (BuildGraph_Ok_inv _ _ _ _ Hbuild) as (_ & HLL & HmK & _).
  split.
  - intros p obs lm Hp Hobs Hlocal Hlive Hmono HlmL Hlm.
    destruct (local_factor_added w s l s' p obs lm Hbuild Hp Hobs Hlocal Hlive Hmono
                Hlm (Hdistinct _ Hlocal)) as (e & Hin & Hv0 & Hv1 & Hmeas & Hinfo).
    exists e. split; [exact Hin|]. split; [exact Hv0|]. split.
    { apply Hvk. apply elem_of_app. by left. }
    split; [exact Hv1|]. split.
    { rewrite HmK. apply Hvl. by rewrite <- HLL. }
    split; [exact Hmeas|]. by rewrite Hinfo, cuboid_information_diagonal.
  - intros p obs lm Hp Hobs Hfixed Hnotlocal Hlive Hmono HlmL Hlm.
    assert (Hwin : obs.1 ∈ window_keyframes w) by (apply elem_of_app; by right).
    destruct (observer_factor_added w s l s' p obs lm Hbuild Hp Hobs Hwin Hlive Hmono
                HlmL Hlm) as (e & Hin & Hv0 & Hv1 & Hmeas & Hinfo).
    exists e. split; [exact Hin|]. split; [exact Hv0|]. split; [by apply Hvk|].
    split; [exact Hv1|]. split.
    { rewrite HmK. apply Hvl. by rewrite <- HLL. }
    split; [|by rewrite Hinfo, cuboid_information_diagonal].
    rewrite Hmeas. unfold cached_or_default.
    rewrite (BuildVertices_outside w s obs.1 Hnotlocal).
    destruct (BuildVertices_spec w s) as (Hsv & _).
    by rewrite (same_persistent_landmark _ _ lm Hsv).
Qed.
End ObserverFactors.
Import Fixture.

(** The ids of the window of KeyFrame 5 with the Fixed Camera 2 fit. *)
Lemma scene_fixed_observer_fits :
  let sel := SelectWindow 1%nat scene_fixed_observer in
  ids_fit_int sel.1 sel.2 (BuildVertices sel.1 sel.2).1.
Proof.
  cbv zeta. set (sel := SelectWindow 1%nat scene_fixed_observer).
  assert (Hk : window_keyframes sel.1 = [1%nat; 2%nat]) by reflexivity.
  assert (Hl : lLocalLandmarks (BuildVertices sel.1 sel.2).1 = [1%nat]) by reflexivity.
  assert (Hp : lLocalMapPoints sel.1 = [1%nat]) by reflexivity.
  unfold ids_fit_int. rewrite Hk, Hl, Hp.
  split; [|split; [|split]].
  - intros k Hin.
    repeat (apply elem_of_cons in Hin as [->|Hin]; [by vm_compute|]).
    destruct (proj1 (elem_of_nil _) Hin).
  - intros k Hin.
    repeat (apply elem_of_cons in Hin as [->|Hin]; [by vm_compute|]).
    destruct (proj1 (elem_of_nil _) Hin).
  - intros k Hin.
    repeat (apply elem_of_cons in Hin as [->|Hin]; [split; by vm_compute|]).
    destruct (proj1 (elem_of_nil _) Hin).
  - by vm_compute.
Qed.



(** A monocular inlier of a live MapPoint loses its kernel; a stereo
    outlier of a bad MapPoint is left as it is. *)
Lemma C9_kernel_removed_unless_bad_witness :
  (exists e', vpEdgesMono (MarkOutliers scene_bad_point
                 (optimizer_with_factors 1%float 1%nat 2%nat)) !! 0%nat = Some e'
     /\ EdgeSE3ProjectXYZ.robustKernel e' = None)
  /\ (exists e', vpEdgesStereo (MarkOutliers scene_bad_point
                 (optimizer_with_factors 9%float 1%nat 2%nat)) !! 0%nat = Some e'
     /\ e' = stereo_factor 9%float).
Proof.
  split.
  - destruct (proj1 (C9_kernel_removed_unless_bad scene_bad_point
        (optimizer_with_factors 1%float 1%nat 2%nat) 0%nat 1%nat)
        (mono_factor 1%float) eq_refl eq_refl) as (e' & He' & Hlive & _).
    exists e'. split; [exact He' | exact (Hlive eq_refl)].
  - destruct (proj2 (C9_kernel_removed_unless_bad scene_bad_point
        (optimizer_with_factors 9%float 1%nat 2%nat) 0%nat 2%nat)
        (stereo_factor 9%float) eq_refl eq_refl) as (e' & He' & _ & Hbad).
    exists e'. split; [exact He' | exact (Hbad eq_refl)].
Defined.

(** C1: on the scene where KeyFrame 5 observes MapPoints 1 and 0 and no
    Landmark, the vertices of the two points are created under ids 8 and 7
    but looked up under ids 7 and 6 at commit: MapPoint 1 receives the
    optimized estimate of MapPoint 0's vertex (60 + 5 + 10) instead of its
    own (40 + 5 + 10), and the lookup for MapPoint 0 finds no vertex, so the
    run ends on a null dereference. *)
Theorem C1_point_recovery_uses_other_id :
  let r := LocalBundleAdjustment 1%nat None scene_two_points in
  point_vertex_id 5 0 (mappoints scene_two_points 1%nat) = 8
  /\ point_recovery_id 5 (mappoints scene_two_points 1%nat) = 7
  /\ point_vertex_id 5 0 (mappoints scene_two_points 2%nat) = 7
  /\ point_recovery_id 5 (mappoints scene_two_points 2%nat) = 6
  /\ MapPoint.GetWorldPos (mappoints (scene_after r) 1%nat) = 75
  /\ MapPoint.GetWorldPos (mappoints (scene_after r) 2%nat) = 60
  /\ termination r = Crashed.
Proof. vm_compute. repeat split. Qed.

(** C7: with the stop flag raised during the first optimize on the scene
    where KeyFrame 5 observes MapPoints 1 and 0, the solver is called for
    the 5-iteration optimize only, the link to the outlier MapPoint 0
    (residual 9) is severed at both ends and KeyFrame 5 is written the
    post-step-1 pose 100 + 5; but the point write-back does not take
    place: the vertices of the two points are created under ids 8 and 7
    and looked up under ids 7 and 6, so MapPoint 1 is written the estimate
    of MapPoint 0's vertex (60 + 5) instead of its own (40 + 5), MapPoint
    0 is not written, and the run ends on a null dereference at line
    368. *)
Theorem C7_point_write_back_fails_after_stop :
  let r := LocalBundleAdjustment 1%nat (Some stop_after_first) scene_two_points in
  solver_calls r = [Call_initializeOptimization 0; Call_optimize 5]
  /\ KeyFrame.GetMapPointMatches (keyframes (scene_after r) 1%nat) = [Some 1%nat; None]
  /\ MapPoint.GetObservations (mappoints (scene_after r) 2%nat) = []
  /\ KeyFrame.GetPose (keyframes (scene_after r) 1%nat) = 105
  /\ point_vertex_id 5 0 (mappoints scene_two_points 1%nat) = 8
  /\ point_recovery_id 5 (mappoints scene_two_points 1%nat) = 7
  /\ MapPoint.GetWorldPos (mappoints (scene_after r) 1%nat) = 65
  /\ MapPoint.GetWorldPos (mappoints (scene_after r) 2%nat) = 60
  /\ termination r = Crashed.
Proof. vm_compute. repeat split. Qed.

(** The claim C3 as it was stated fails: the trigger KeyFrame's
    mnBALocalForKF stamp is written before the stop flag is looked at. *)
Lemma C3_stamps_written_before_stop :
  before_first_optimize stop_at_once = true
  /\ ~ same_scene scene_two_points
        (scene_after (LocalBundleAdjustment 1%nat (Some stop_at_once) scene_two_points)).
Proof.
  split; [reflexivity|]. intros (Hk & _).
  specialize (Hk 1%nat). apply (f_equal KeyFrame.mnBALocalForKF) in Hk.
  vm_compute in Hk. discriminate.
Qed.

(** The stopped run on KeyFrame 5 and its two MapPoints. *)
Lemma C3_stop_before_first_optimize_witness :
  let r := LocalBundleAdjustment 1%nat (Some stop_at_once) scene_two_points in
  solver_calls r = [] /\ same_persistent_state scene_two_points (scene_after r).
Proof.
  destruct (C3_stop_before_first_optimize 1%nat stop_at_once scene_two_points eq_refl)
    as (Hcalls & Hsame & _).
  by split.
Defined.

(** The claim C2 as it was stated fails on a window with KeyFrame 1 and
    MapPoint 2147483645: the point's vertex id is 2147483645 + 1 + 0 + 2
    converted to [int], that is -2147483648, below the pose id 1. *)
Lemma C2_point_id_wraps :
  let sel := SelectWindow 1%nat scene_large_id in
  point_vertex_id 1 0 (mappoints sel.2 1%nat) = -2147483648
  /\ ~ id_ranges_apart sel.1 sel.2 (BuildVertices sel.1 sel.2).1.
Proof.
  cbv zeta. split; [reflexivity|].
  intros (_ & _ & Hp & _).
  assert (Hin : 1%nat ∈ lLocalMapPoints (SelectWindow 1%nat scene_large_id).1)
    by (vm_compute; constructor).
  specialize (Hp 1%nat Hin). vm_compute in Hp. discriminate.
Qed.

(** The ids of the window of KeyFrames 5 and 6, Landmarks 0 and 1 and
    MapPoints 1, 2, 3 fit, and its ranges are apart. *)
Lemma C2_id_ranges_apart_witness :
  let sel := SelectWindow 1%nat scene_mixed in
  id_ranges_apart sel.1 sel.2 (BuildVertices sel.1 sel.2).1.
Proof.
  cbv zeta.
  refine (proj1 (C2_id_ranges_apart (SelectWindow 1%nat scene_mixed).1
                   (SelectWindow 1%nat scene_mixed).2 _)).
  set (sel := SelectWindow 1%nat scene_mixed).
  assert (Hk : window_keyframes sel.1 = [1%nat; 2%nat]) by reflexivity.
  assert (Hl : lLocalLandmarks (BuildVertices sel.1 sel.2).1 = [1%nat; 2%nat])
    by reflexivity.
  assert (Hp : lLocalMapPoints sel.1 = [1%nat; 2%nat; 3%nat]) by reflexivity.
  unfold ids_fit_int. rewrite Hk, Hl, Hp.
  split; [|split; [|split]].
  - intros k Hin. repeat (apply elem_of_cons in Hin as [->|Hin]; [by vm_compute|]).
    destruct (proj1 (elem_of_nil _) Hin).
  - intros k Hin. repeat (apply elem_of_cons in Hin as [->|Hin]; [by vm_compute|]).
    destruct (proj1 (elem_of_nil _) Hin).
  - intros k Hin.
    repeat (apply elem_of_cons in Hin as [->|Hin]; [split; by vm_compute|]).
    destruct (proj1 (elem_of_nil _) Hin).
  - by vm_compute.
Defined.

(** The claim C4 as it was stated fails: on the trigger KeyFrame 5 with no
    neighbour and no point the solver is called all the same. *)
Lemma C4_degenerate_window_reaches_solver :
  degenerate 1%nat scene_degenerate
  /\ solver_calls (LocalBundleAdjustment 1%nat None scene_degenerate) <> [].
Proof.
  split.
  - split; [reflexivity|]. repeat constructor.
  - by vm_compute.
Qed.

(** The synthetic solver changes estimates only. *)
Lemma solver_keeps_kinds_fixture : solver_keeps_kinds.
Proof.
  intros pbStopFlag level iterations o id. cbn. rewrite lookup_fmap.
  destruct (vertices o !! id) as [v|]; [|done]. cbn. f_equal.
  unfold move, kind_of. destruct (fixed v); [done|]. cbn. by destruct (estimate v).
Qed.

(** KeyFrame 5 on its own: four solver calls, and the run returns. *)
Lemma C4_degenerate_window_is_optimized_witness :
  let r := LocalBundleAdjustment 1%nat None scene_degenerate in
  solver_calls r
  = [Call_initializeOptimization 0; Call_optimize 5;
     Call_initializeOptimization 0; Call_optimize 10]
  /\ termination r = Returned.
Proof.
  assert (Hdeg : degenerate 1%nat scene_degenerate).
  { split; [reflexivity|]. repeat constructor. }
  destruct (C4_degenerate_window_is_optimized 1%nat None scene_degenerate Hdeg eq_refl)
    as (Hw & _ & Hcalls & Hret).
  split; [exact Hcalls|]. apply Hret; [exact solver_keeps_kinds_fixture|].
  set (sel := SelectWindow 1%nat scene_degenerate).
  assert (Hk : window_keyframes sel.1 = [1%nat]) by reflexivity.
  assert (Hl : lLocalLandmarks (BuildVertices sel.1 sel.2).1 = []) by reflexivity.
  assert (Hp : lLocalMapPoints sel.1 = []) by reflexivity.
  unfold ids_fit_int. rewrite Hk, Hl, Hp.
  split; [|split; [|split]].
  - intros k Hin. apply elem_of_cons in Hin as [->|Hin]; [by vm_compute|].
    destruct (proj1 (elem_of_nil _) Hin).
  - intros k Hin. destruct (proj1 (elem_of_nil _) Hin).
  - intros k Hin. destruct (proj1 (elem_of_nil _) Hin).
  - by vm_compute.
Defined.

(** KeyFrame 5 (two monocular factors, two Landmarks) gets four
    camera-object factors; KeyFrame 6 (stereo only, one Landmark) none. *)
Lemma C10_camera_object_factors_per_mono_factor_witness :
  let sel := SelectWindow 1%nat scene_mixed in
  match BuildGraph sel.1 sel.2 with
  | Ok l _ =>
      exists blocks,
        edgesCuboid (optimizer l) = concat blocks
        /\ length (edgesCuboid (optimizer l)) = 4%nat
        /\ factors_of 1%nat (vpEdgeKFMono (optimizer l)) blocks = 4%nat
        /\ factors_of 2%nat (vpEdgeKFMono (optimizer l)) blocks = 0%nat
  | Fault _ => False
  end.
Proof.
  cbv zeta. set (sel := SelectWindow 1%nat scene_mixed).
  destruct (BuildGraph sel.1 sel.2) as [l s'|s'] eqn:Hbuild;
    [|by vm_compute in Hbuild].
  destruct (C10_camera_object_factors_per_mono_factor sel.1 sel.2 s' l Hbuild)
    as (blocks & Hc & _ & _ & Htotal & Hfac & Hstereo).
  assert (Hl : Ok l s' = BuildGraph sel.1 sel.2) by done.
  vm_compute in Hl. injection Hl as Hl _.
  exists blocks. split; [exact Hc|]. split; [|split].
  - rewrite Htotal, Hl. reflexivity.
  - rewrite Hfac, Hl. reflexivity.
  - apply Hstereo. intros p obs ur Hp Hobs Hk Hur.
    assert (Hps : lLocalMapPoints sel.1 = [1%nat; 2%nat; 3%nat]) by reflexivity.
    rewrite Hps in Hp.
    repeat (apply elem_of_cons in Hp as [->|Hp]);
      [| | |destruct (proj1 (elem_of_nil _) Hp)].
    + change (obs ∈ [(1%nat, 0%nat)]) in Hobs.
      apply list_elem_of_singleton in Hobs as ->. discriminate.
    + change (obs ∈ [(1%nat, 1%nat)]) in Hobs.
      apply list_elem_of_singleton in Hobs as ->. discriminate.
    + change (obs ∈ [(1%nat, 2%nat); (2%nat, 0%nat)]) in Hobs.
      apply elem_of_cons in Hobs as [->|Hobs]; [discriminate|].
      apply list_elem_of_singleton in Hobs as ->.
      change (Some 3%float = Some ur) in Hur. by injection Hur as <-.
Defined.

(** The claim C6 as it was stated fails for an observer that is a Fixed
    Camera: KeyFrame 2 observes the Local MapPoint monocularly and is
    associated with the Local Landmark, but the only factor on its pose
    vertex carries the stale measurement 77 of its cache, not the relative
    pose 50 - 30 of the cuboid. *)
Lemma C6_fixed_camera_measurement_is_stale :
  let sel := SelectWindow 1%nat scene_fixed_observer in
  match BuildGraph sel.1 sel.2 with
  | Ok l _ => ~ camera_object_factors_for (fun _ => True) sel.1 sel.2 l
  | Fault _ => False
  end.
Proof.
  cbv zeta. set (sel := SelectWindow 1%nat scene_fixed_observer).
  destruct (BuildGraph sel.1 sel.2) as [l s'|s'] eqn:Hbuild;
    [|by vm_compute in Hbuild].
  assert (Hl : Ok l s' = BuildGraph sel.1 sel.2) by done.
  vm_compute in Hl. injection Hl as Hl _.
  intros Hclaim.
  destruct (Hclaim 1%nat (2%nat, 0%nat) 1%nat) as (e & Hin & Hv0 & _ & _ & _ & Hmeas & _).
  - vm_compute. constructor.
  - vm_compute. do 2 constructor.
  - exact I.
  - reflexivity.
  - exists (-1)%float. by split.
  - rewrite Hl. vm_compute. constructor.
  - vm_compute. constructor.
  - rewrite Hl in Hin. cbn [optimizer edgesCuboid] in Hin.
    apply elem_of_cons in Hin as [->|Hin].
    + vm_compute in Hv0. discriminate.
    + apply list_elem_of_singleton in Hin as ->. vm_compute in Hmeas. discriminate.
Qed.

(** The factor of the Local KeyFrame 5 and Landmark 0 is in the graph with
    the relative pose as its measurement, and so is the factor of the Fixed
    Camera 2 and Landmark 0, with the measurement 77 its cache held on
    entry. *)
Lemma C6_camera_object_factors_by_role_witness :
  let sel := SelectWindow 1%nat scene_fixed_observer in
  match BuildGraph sel.1 sel.2 with
  | Ok l _ =>
      camera_object_factor_present sel.2 l 1%nat 1%nat
      /\ fixed_camera_factor_present sel.2 l 2%nat 1%nat
      /\ cached_or_default sel.2 2%nat 1%nat = 77
  | Fault _ => False
  end.
Proof.
  cbv zeta. set (sel := SelectWindow 1%nat scene_fixed_observer).
  destruct (BuildGraph sel.1 sel.2) as [l s'|s'] eqn:Hbuild;
    [|by vm_compute in Hbuild].
  assert (Hl : Ok l s' = BuildGraph sel.1 sel.2) by done.
  vm_compute in Hl. injection Hl as Hl _.
  assert (Hp : lLocalMapPoints sel.1 = [1%nat]) by reflexivity.
  destruct (C6_camera_object_factors_by_role sel.1 sel.2 s' l Hbuild
              scene_fixed_observer_fits) as [Hlocal Hfixed].
  { intros k Hin. change (k ∈ [1%nat]) in Hin.
    apply list_elem_of_singleton in Hin as ->.
    intros lm lm' Hlm Hlm' _.
    change (lm ∈ [1%nat]) in Hlm. change (lm' ∈ [1%nat]) in Hlm'.
    apply list_elem_of_singleton in Hlm as ->.
    by apply list_elem_of_singleton in Hlm' as ->. }
  split; [|split; [|reflexivity]].
  - apply (Hlocal 1%nat (1%nat, 0%nat) 1%nat).
    + rewrite Hp. constructor.
    + vm_compute. constructor.
    + vm_compute. constructor.
    + reflexivity.
    + exists (-1)%float. by split.
    + rewrite Hl. vm_compute. constructor.
    + vm_compute. constructor.
  - apply (Hfixed 1%nat (2%nat, 0%nat) 1%nat).
    + rewrite Hp. constructor.
    + vm_compute. do 2 constructor.
    + vm_compute. constructor.
    + change (2%nat ∉ [1%nat]). by intros ?%list_elem_of_singleton.
    + reflexivity.
    + exists (-1)%float. by split.
    + rewrite Hl. vm_compute. constructor.
    + vm_compute. constructor.
Defined.

(** A Fixed Camera whose cache has no entry for the Landmark: [operator[]]
    inserts a default cuboid, which becomes the measurement. *)
Example fixed_camera_without_cache_entry :
  let sel := SelectWindow 1%nat scene_fixed_observer_no_cache in
  match BuildGraph sel.1 sel.2 with
  | Ok l s' =>
      map EdgeSE3Cuboid.measurement (edgesCuboid (optimizer l)) = [-50; 0]
      /\ KeyFrame.landmarkMeasurements (keyframes s' 2%nat) !! 0 = Some 0
  | Fault _ => False
  end.
Proof. vm_compute. by split. Qed.

(** The Fixed Camera 2 keeps its pose 30 while the Local KeyFrame 5 moves
    from 100 to 115. *)
Lemma C8_fixed_cameras_keep_their_pose_witness :
  let r := LocalBundleAdjustment 1%nat None scene_fixed_observer in
  lFixedCameras (SelectWindow 1%nat scene_fixed_observer).1 = [2%nat]
  /\ KeyFrame.GetPose (keyframes (scene_after r) 2%nat) = 30
  /\ KeyFrame.GetPose (keyframes (scene_after r) 1%nat) = 115.
Proof.
  cbv zeta. split; [reflexivity|]. split; [|reflexivity].
  destruct (C8_fixed_cameras_keep_their_pose 1%nat None scene_fixed_observer)
    as (Hpose & _).
  apply (Hpose 2%nat). change (2%nat ∈ [2%nat]). constructor.
Defined.
(** ** The further properties at work on the scenes *)

(** X7 on the window of KeyFrames 5 and 6: the vertex under id 10, that of
    MapPoint 1, is marginalized and free. *)
Lemma X7_vertex_flags_witness :
  let sel := SelectWindow 1%nat scene_mixed in
  match BuildGraph sel.1 sel.2 with
  | Ok l _ =>
      exists v, vertices (optimizer l) !! 10 = Some v
                /\ marginalized v = is_point_vertex v
                /\ is_point_vertex v = true
  | Fault _ => False
  end.
Proof.
  cbv zeta. set (sel := SelectWindow 1%nat scene_mixed).
  destruct (BuildGraph sel.1 sel.2) as [l s'|s'] eqn:Hbuild;
    [|by vm_compute in Hbuild].
  assert (Hl : Ok l s' = BuildGraph sel.1 sel.2) by done.
  vm_compute in Hl. injection Hl as Hl _.
  destruct (vertices (optimizer l) !! 10) as [v|] eqn:Hv;
    [|rewrite Hl in Hv; by vm_compute in Hv].
  exists v. split; [done|].
  destruct (X7_vertex_flags sel.1 sel.2 s' l 10 v Hbuild Hv) as (Hm & _ & _).
  split; [exact Hm|].
  rewrite Hl in Hv. vm_compute in Hv. by injection Hv as <-.
Defined.

(** X9 on the same window: KeyFrame 5 observes MapPoints 1 and 2
    monocularly, KeyFrames 5 and 6 observe MapPoint 3 in stereo. *)
Lemma X9_bookkeeping_vectors_witness :
  let sel := SelectWindow 1%nat scene_mixed in
  match BuildGraph sel.1 sel.2 with
  | Ok l _ =>
      vpEdgeKFMono (optimizer l) = [1%nat; 1%nat]
      /\ vpMapPointEdgeMono (optimizer l) = [1%nat; 2%nat]
      /\ length (vpEdgesMono (optimizer l)) = 2%nat
      /\ vpEdgeKFStereo (optimizer l) = [1%nat; 2%nat]
      /\ vpMapPointEdgeStereo (optimizer l) = [3%nat; 3%nat]
      /\ length (vpEdgesStereo (optimizer l)) = 2%nat
  | Fault _ => False
  end.
Proof.
  cbv zeta. set (sel := SelectWindow 1%nat scene_mixed).
  destruct (BuildGraph sel.1 sel.2) as [l s'|s'] eqn:Hbuild;
    [|by vm_compute in Hbuild].
  destruct (X9_bookkeeping_vectors sel.1 sel.2 s' l Hbuild)
    as (H1 & H2 & H3 & H4 & H5 & H6).
  rewrite H1, H2, H3, H4, H5, H6. vm_compute. by repeat split.
Defined.

(** X10 on the same window: the first monocular factor joins the vertex of
    MapPoint 1 (id 10) to the pose vertex of KeyFrame 5, at level 0 and
    with the monocular Huber kernel. *)
Lemma X10_factor_per_position_witness :
  let sel := SelectWindow 1%nat scene_mixed in
  match BuildGraph sel.1 sel.2 with
  | Ok l _ =>
      exists e, vpEdgesMono (optimizer l) !! 0%nat = Some e
                /\ EdgeSE3ProjectXYZ.vertex0 e = Some 10
                /\ EdgeSE3ProjectXYZ.robustKernel e = Some {| delta := thHuberMono |}
                /\ EdgeSE3ProjectXYZ.level e = 0
  | Fault _ => False
  end.
Proof.
  cbv zeta. set (sel := SelectWindow 1%nat scene_mixed).
  destruct (BuildGraph sel.1 sel.2) as [l s'|s'] eqn:Hbuild;
    [|by vm_compute in Hbuild].
  assert (Hl : Ok l s' = BuildGraph sel.1 sel.2) by done.
  vm_compute in Hl. injection Hl as Hl _.
  destruct (vpEdgesMono (optimizer l) !! 0%nat) as [e|] eqn:He;
    [|rewrite Hl in He; by vm_compute in He].
  assert (Hk : vpEdgeKFMono (optimizer l) !! 0%nat = Some 1%nat)
    by (rewrite Hl; reflexivity).
  assert (Hp : vpMapPointEdgeMono (optimizer l) !! 0%nat = Some 1%nat)
    by (rewrite Hl; reflexivity).
  destruct (X10_factor_per_position sel.1 sel.2 s' l Hbuild) as (_ & Hm & _).
  destruct (Hm 0%nat e 1%nat 1%nat He Hk Hp)
    as (_ & _ & j & kpUn & invSigma2 & _ & _ & _ & _ & Hv0 & _ & _ & _ & Hrk & Hlevel & _).
  exists e. split; [done|]. split; [|by split].
  rewrite Hv0, Hl. reflexivity.
Defined.

(** Every KeyFrame of the scenes carries the stamps 0. *)
Lemma scene_fixed_observer_fresh : stamps_fresh 1%nat scene_fixed_observer.
Proof.
  intros k _. unfold unstamped.
  change (KeyFrame.mnId (keyframes scene_fixed_observer 1%nat)) with 5.
  destruct k as [|[|[|k]]]; by cbn.
Qed.

(** X11 on the window of KeyFrame 5 with the Fixed Camera 2: the second
    monocular factor, that of KeyFrame 2, has the pose vertex 2 as its
    second vertex. *)
Lemma X11_observers_have_vertices_witness :
  let sel := SelectWindow 1%nat scene_fixed_observer in
  match BuildGraph sel.1 sel.2 with
  | Ok l _ =>
      window_keyframes sel.1 = [1%nat; 2%nat]
      /\ exists e, vpEdgesMono (optimizer l) !! 1%nat = Some e
                   /\ EdgeSE3ProjectXYZ.vertex1 e = Some 2
  | Fault _ => False
  end.
Proof.
  cbv zeta. set (sel := SelectWindow 1%nat scene_fixed_observer).
  destruct (BuildGraph sel.1 sel.2) as [l s'|s'] eqn:Hbuild;
    [|by vm_compute in Hbuild].
  assert (Hl : Ok l s' = BuildGraph sel.1 sel.2) by done.
  vm_compute in Hl. injection Hl as Hl _.
  split; [reflexivity|].
  destruct (vpEdgesMono (optimizer l) !! 1%nat) as [e|] eqn:He;
    [|rewrite Hl in He; by vm_compute in He].
  assert (Hk : vpEdgeKFMono (optimizer l) !! 1%nat = Some 2%nat)
    by (rewrite Hl; reflexivity).
  destruct (X11_observers_have_vertices 1%nat scene_fixed_observer s' l
              scene_fixed_observer_fresh Hbuild) as (_ & Hm & _).
  destruct (Hm 1%nat e 2%nat He Hk) as (_ & Hv1 & _).
  exists e. split; [done|]. rewrite Hv1. reflexivity.
Defined.

(** X12 on KeyFrame 5 and its two MapPoints: the link queued for erasure,
    that of the outlier MapPoint 0 (pointer 2), is an observation of a
    Local MapPoint. *)
Lemma X12_erased_links_are_observations_witness :
  let sel := SelectWindow 1%nat scene_two_points in
  match BuildGraph sel.1 sel.2 with
  | Ok l s' =>
      ClassifyOutliers s' (RunSolver None s' (optimizer l)).1 = [(1%nat, 2%nat)]
      /\ 2%nat ∈ lLocalMapPoints sel.1
      /\ exists j, (1%nat, j) ∈ MapPoint.GetObservations (mappoints sel.2 2%nat)
  | Fault _ => False
  end.
Proof.
  cbv zeta. set (sel := SelectWindow 1%nat scene_two_points).
  destruct (BuildGraph sel.1 sel.2) as [l s'|s'] eqn:Hbuild;
    [|by vm_compute in Hbuild].
  assert (Hl : Ok l s' = BuildGraph sel.1 sel.2) by done.
  vm_compute in Hl. injection Hl as Hl Hs'.
  assert (Hq : ClassifyOutliers s' (RunSolver None s' (optimizer l)).1
               = [(1%nat, 2%nat)]).
  { rewrite Hl, Hs'. by vm_compute. }
  split; [exact Hq|].
  destruct (X12_erased_links_are_observations sel.1 sel.2 s' l None Hbuild)
    as (Hlinks & _).
  destruct (Hlinks 1%nat 2%nat) as (Hp & _ & _ & Hobs).
  { rewrite Hq. constructor. }
  by split.
Defined.

(** The ids of the window of KeyFrame 5 and its two MapPoints fit. *)
Lemma scene_two_points_fits :
  let sel := SelectWindow 1%nat scene_two_points in
  ids_fit_int sel.1 sel.2 (BuildVertices sel.1 sel.2).1.
Proof.
  cbv zeta. set (sel := SelectWindow 1%nat scene_two_points).
  assert (Hk : window_keyframes sel.1 = [1%nat]) by reflexivity.
  assert (Hl : lLocalLandmarks (BuildVertices sel.1 sel.2).1 = []) by reflexivity.
  assert (Hp : lLocalMapPoints sel.1 = [1%nat; 2%nat]) by reflexivity.
  unfold ids_fit_int. rewrite Hk, Hl, Hp.
  split; [|split; [|split]].
  - intros k Hin. apply elem_of_cons in Hin as [->|Hin]; [by vm_compute|].
    destruct (proj1 (elem_of_nil _) Hin).
  - intros k Hin. destruct (proj1 (elem_of_nil _) Hin).
  - intros k Hin.
    repeat (apply elem_of_cons in Hin as [->|Hin]; [split; by vm_compute|]).
    destruct (proj1 (elem_of_nil _) Hin).
  - by vm_compute.
Qed.

(** X13 on KeyFrame 5 and its two MapPoints: the run does not return. *)
Lemma X13_returns_iff_no_local_mappoint_witness :
  termination (LocalBundleAdjustment 1%nat None scene_two_points) <> Returned.
Proof.
  intros Hret.
  apply (X13_returns_iff_no_local_mappoint 1%nat None scene_two_points eq_refl
           solver_keeps_kinds_fixture scene_two_points_fits) in Hret.
  discriminate Hret.
Defined.

(** X15 on the Fixed Camera 2 whose cache is empty: after the factors are
    built its cache holds a default cuboid for Landmark 0. *)
Lemma X15_cache_entries_created_witness :
  let sel := SelectWindow 1%nat scene_fixed_observer_no_cache in
  match BuildGraph sel.1 sel.2 with
  | Ok l s' =>
      exists c, KeyFrame.landmarkMeasurements (keyframes s' 2%nat) !! 0 = Some c
                /\ c = Cuboid_default
  | Fault _ => False
  end.
Proof.
  cbv zeta. set (sel := SelectWindow 1%nat scene_fixed_observer_no_cache).
  destruct (BuildGraph sel.1 sel.2) as [l s'|s'] eqn:Hbuild;
    [|by vm_compute in Hbuild].
  assert (Hl : Ok l s' = BuildGraph sel.1 sel.2) by done.
  vm_compute in Hl. injection Hl as Hl _.
  destruct (X15_cache_entries_created sel.1 sel.2 s' l Hbuild) as (_ & Hall & Hnew).
  destruct (Hall 2%nat 1%nat) as [c Hc].
  { rewrite Hl. vm_compute. do 2 constructor. }
  { vm_compute. constructor. }
  change (Landmark.mnLandmarkId (landmarks sel.2 1%nat)) with 0 in Hc.
  exists c. split; [exact Hc|].
  by destruct (Hnew 2%nat 0 c Hc eq_refl) as (-> & _).
Defined.

(** X16 on the window of KeyFrames 5 and 6: MapPoint 1 finds its vertex
    under id 10, and that vertex comes from an object of the window. *)
Lemma X16_vertices_come_from_window_witness :
  let sel := SelectWindow 1%nat scene_mixed in
  match BuildGraph sel.1 sel.2 with
  | Ok l _ =>
      exists v, vertices (optimizer l) !! 10 = Some v
        /\ (from_local_keyframe sel.1 sel.2 10 v \/ from_fixed_camera sel.1 sel.2 10 v
            \/ from_landmark (lLocalLandmarks l) (maxKFId l) sel.2 10 v
            \/ from_mappoint sel.1 (maxKFId l) (maxLandmarkId l) sel.2 10 v)
  | Fault _ => False
  end.
Proof.
  cbv zeta. set (sel := SelectWindow 1%nat scene_mixed).
  destruct (BuildGraph sel.1 sel.2) as [l s'|s'] eqn:Hbuild;
    [|by vm_compute in Hbuild].
  assert (Hl : Ok l s' = BuildGraph sel.1 sel.2) by done.
  vm_compute in Hl. injection Hl as Hl _.
  destruct (X16_vertices_come_from_window sel.1 sel.2 s' l Hbuild)
    as (Horigin & _ & _ & Hpoints).
  destruct (Hpoints 1%nat) as [v Hv]; [vm_compute; constructor|].
  assert (Hid : point_vertex_id (maxKFId l) (maxLandmarkId l) (mappoints sel.2 1%nat)
                = 10) by (rewrite Hl; reflexivity).
  rewrite Hid in Hv. exists v. split; [exact Hv|]. by apply Horigin.
Defined.

(** X17 on the window of KeyFrame 5 with the Fixed Camera 2: the factor of
    the Fixed Camera joins the
    marginalized vertex of MapPoint 7 (id 14) and the pose vertex 2. *)
Lemma X17_factors_join_point_and_pose_witness :
  let sel := SelectWindow 1%nat scene_fixed_observer in
  match BuildGraph sel.1 sel.2 with
  | Ok l _ =>
      exists e va vb,
        vpEdgesMono (optimizer l) !! 1%nat = Some e
        /\ EdgeSE3ProjectXYZ.vertex0 e = Some 14
        /\ EdgeSE3ProjectXYZ.vertex1 e = Some 2
        /\ vertices (optimizer l) !! 14 = Some va /\ marginalized va = true
        /\ vertices (optimizer l) !! 2 = Some vb /\ marginalized vb = false
  | Fault _ => False
  end.
Proof.
  cbv zeta. set (sel := SelectWindow 1%nat scene_fixed_observer).
  destruct (BuildGraph sel.1 sel.2) as [l s'|s'] eqn:Hbuild;
    [|by vm_compute in Hbuild].
  assert (Hl : Ok l s' = BuildGraph sel.1 sel.2) by done.
  vm_compute in Hl. injection Hl as Hl _.
  destruct (vpEdgesMono (optimizer l) !! 1%nat) as [e|] eqn:He;
    [|rewrite Hl in He; by vm_compute in He].
  destruct (X17_factors_join_point_and_pose 1%nat scene_fixed_observer s' l
              scene_fixed_observer_fresh scene_fixed_observer_fits Hbuild)
    as (Hm & _).
  destruct (Hm 1%nat e He) as (a & b & va & vb & H0 & H1 & Ha & _ & Hma & Hb & _ & Hmb).
  assert (Ha14 : a = 14).
  { rewrite Hl in He. vm_compute in He. injection He as <-.
    cbn in H0. by injection H0 as <-. }
  assert (Hb2 : b = 2).
  { rewrite Hl in He. vm_compute in He. injection He as <-.
    cbn in H1. by injection H1 as <-. }
  subst a b. by exists e, va, vb.
Defined.

(** X18 on that window: the run ends on the null dereference at MapPoint
    7, and KeyFrame 5 and Landmark 0 hold the estimates of their vertices,
    moved by 15 iterations from 100 and 50. *)
Lemma X18_poses_and_cuboids_are_committed_witness :
  let r := LocalBundleAdjustment 1%nat None scene_fixed_observer in
  termination r = Crashed
  /\ KeyFrame.GetPose (keyframes (scene_after r) 1%nat) = 115
  /\ Landmark.GetCuboid (landmarks (scene_after r) 1%nat) = 65.
Proof.
  cbv zeta. set (sel := SelectWindow 1%nat scene_fixed_observer).
  split; [by vm_compute|].
  destruct (BuildGraph sel.1 sel.2) as [l s'|s'] eqn:Hbuild;
    [|by vm_compute in Hbuild].
  assert (Hl : Ok l s' = BuildGraph sel.1 sel.2) by done.
  vm_compute in Hl. injection Hl as Hl Hs'.
  destruct (X18_poses_and_cuboids_are_committed 1%nat None scene_fixed_observer s' l
              Hbuild eq_refl solver_keeps_kinds_fixture) as (Hposes & Hcuboids).
  split.
  - destruct (Hposes 1%nat) as (q & f & m & Hv & ->); [vm_compute; constructor|].
    rewrite Hl, Hs' in Hv. vm_compute in Hv. by injection Hv as <- _ _.
  - destruct (Hcuboids scene_fixed_observer_fits 1%nat) as (c & f & m & Hv & ->).
    { rewrite Hl. vm_compute. constructor. }
    rewrite Hl, Hs' in Hv. vm_compute in Hv. by injection Hv as <- _ _.
Defined.

(** X19 on that window: the second camera-object factor, that of the
    Fixed Camera 2, carries the stale measurement 77 its cache holds. *)
Lemma X19_camera_object_factor_described_witness :
  let sel := SelectWindow 1%nat scene_fixed_observer in
  match BuildGraph sel.1 sel.2 with
  | Ok l s' =>
      exists e, edgesCuboid (optimizer l) !! 1%nat = Some e
        /\ EdgeSE3Cuboid.measurement e = 77
        /\ EdgeSE3Cuboid.vertex0 e = Some 2
        /\ exists k lm,
             k ∈ vpEdgeKFMono (optimizer l)
             /\ lm ∈ KeyFrame.GetLandmarks (keyframes sel.2 k)
             /\ KeyFrame.landmarkMeasurements (keyframes s' k)
                  !! Landmark.mnLandmarkId (landmarks sel.2 lm) = Some 77
  | Fault _ => False
  end.
Proof.
  cbv zeta. set (sel := SelectWindow 1%nat scene_fixed_observer).
  destruct (BuildGraph sel.1 sel.2) as [l s'|s'] eqn:Hbuild;
    [|by vm_compute in Hbuild].
  assert (Hl : Ok l s' = BuildGraph sel.1 sel.2) by done.
  vm_compute in Hl. injection Hl as Hl _.
  destruct (edgesCuboid (optimizer l) !! 1%nat) as [e|] eqn:He;
    [|rewrite Hl in He; by vm_compute in He].
  assert (He' : edgesCuboid (optimizer l) !! 1%nat = Some e) by exact He.
  rewrite Hl in He'. vm_compute in He'. injection He' as He'.
  assert (Hm : EdgeSE3Cuboid.measurement e = 77) by (by rewrite <- He').
  assert (H0 : EdgeSE3Cuboid.vertex0 e = Some 2) by (by rewrite <- He').
  exists e. split; [done|]. split; [exact Hm|]. split; [exact H0|].
  destruct (X19_camera_object_factor_described sel.1 sel.2 s' l Hbuild e)
    as (k & lm & Hk & Hlm & _ & _ & _ & _ & _ & Hc).
  { by eapply list_elem_of_lookup_2. }
  exists k, lm. rewrite Hm in Hc. by split.
Defined.

(** X8 on the window of KeyFrames 5 and 6: every observation indexes a
    keypoint of its KeyFrame, and the graph is built. *)
Lemma X8_readable_graph_is_built_witness :
  let sel := SelectWindow 1%nat scene_mixed in
  exists l s', BuildGraph sel.1 sel.2 = Ok l s'.
Proof.
  cbv zeta. apply X8_readable_graph_is_built.
  intros p obs Hp Hobs _.
  change (p ∈ [1%nat; 2%nat; 3%nat]) in Hp.
  repeat (apply elem_of_cons in Hp as [->|Hp]);
    [| | |by apply elem_of_nil in Hp].
  - change (obs ∈ [(1%nat, 0%nat)]) in Hobs.
    apply list_elem_of_singleton in Hobs as ->.
    eexists _, _, _. split; [reflexivity|]. split; reflexivity.
  - change (obs ∈ [(1%nat, 1%nat)]) in Hobs.
    apply list_elem_of_singleton in Hobs as ->.
    eexists _, _, _. split; [reflexivity|]. split; reflexivity.
  - change (obs ∈ [(1%nat, 2%nat); (2%nat, 0%nat)]) in Hobs.
    apply elem_of_cons in Hobs as [->|Hobs];
      [|apply list_elem_of_singleton in Hobs as ->];
      (eexists _, _, _; split; [reflexivity|]; split; reflexivity).
Defined.

(** X20 on KeyFrame 5 and its two MapPoints, the stop flag raised during
    the first optimize: the link to the outlier MapPoint 0 (pointer 2) is
    severed. *)
Lemma X20_queued_links_are_severed_witness :
  let r := LocalBundleAdjustment 1%nat (Some stop_after_first) scene_two_points in
  solver_calls r = [Call_initializeOptimization 0; Call_optimize 5]
  /\ severed (scene_after r) 1%nat 2%nat.
Proof.
  cbv zeta. set (sel := SelectWindow 1%nat scene_two_points).
  destruct (BuildGraph sel.1 sel.2) as [l s'|s'] eqn:Hbuild;
    [|by vm_compute in Hbuild].
  assert (Hl : Ok l s' = BuildGraph sel.1 sel.2) by done.
  vm_compute in Hl. injection Hl as Hl Hs'.
  destruct (X20_queued_links_are_severed 1%nat (Some stop_after_first)
              scene_two_points s' l Hbuild eq_refl) as (_ & Hstop).
  destruct (Hstop eq_refl) as (Hcalls & Hsev).
  split; [exact Hcalls|]. apply Hsev.
  assert (Hq : ClassifyOutliers s'
                 (set_vertices (optimize (Some stop_after_first) 0 5 (optimizer l))
                    (optimizer l)) = [(1%nat, 2%nat)]).
  { rewrite Hl, Hs'. by vm_compute. }
  rewrite Hq. constructor.
Defined.
